(* ===== verification/_CoqProject ===== *)
-Q . S2P
Prelude.v
Domain.v
Slices.v
OrderBook.v
BookSpec.v
Ledger.v
Snapshot.v
BookSim.v
Events.v
Matching.v
Validation.v
Orders.v
Transfer.v
Admin.v
LedgerSim.v
MatchSim.v
Invariant.v
Settlement.v
MatchStep.v
MatchLoop.v
MatchSpec.v
Limits.v
Crossing.v
Reports.v
Footprint.v
Dedup.v
Wal.v
Metrics.v
Engine.v
Columns.v
Database.v
Queries.v
Storage.v
SnapshotStore.v
Signals.v
Connections.v
Process.v
Messaging.v
Publisher.v
Projector.v
Frames.v
Recovery.v
TradeIds.v
Determinism.v
Replays.v
Consistency.v
SnapshotReplay.v
TradeRecovery.v
Cleanup.v
Windows.v
Consuming.v
Retention.v
Restarts.v
Requests.v
Accounts.v
Reporting.v
Feed.v
Mirror.v
Tracking.v
Writing.v
System.v
Acceptance.v
Numbering.v
Intake.v
ExactlyOnce.v
Example.v
EngineExample.v
ConsumerExample.v
RestartExample.v
SystemExample.v
IntakeExample.v
BookTheorems.v
TradingTheorems.v
EngineTheorems.v
ConsumerTheorems.v
RestartTheorems.v
SystemTheorems.v
IntakeTheorems.v
ProcessTheorems.v
StorageTheorems.v
