(* ===== verification/Prelude.v ===== *)
(** * Kronex engine: a verification library

    The Kronex engine is the matching engine of a stock exchange. It reads
    requests from a queue, logs each request in an input write-ahead log, changes
    an in-memory ledger, and writes the resulting events to an output write-ahead
    log. Two consumers follow the output log: one publishes its records to a
    message queue, the other applies their events to a database. After a crash the
    engine rebuilds the ledger from the logs. This library models the packages
    [internal/domain], [internal/ledger], [internal/core], [internal/wal],
    [internal/publisher], [internal/storage] with its queries, [internal/messaging],
    [internal/metrics], [internal/config] and [cmd/engine] as executable functions,
    with step relations where goroutines interleave, and proves what makes them
    correct.

    ** The parts and their files

    - [Prelude] (this file): outcomes of a Go computation (a value or a panic),
      [uint64] arithmetic with wrap-around ([⊕], [⊖], [⊗]), [math/bits], and lemmas
      on lists, sums and finite maps that the components share.
    - [Domain]: the records and enumerations of [internal/domain]. An enumeration
      keeps the byte values that name no constant in a last constructor.
    - [Slices]: [slices.BinarySearch], [Insert] and [Delete] on price slices.
    - [OrderBook] ([ledger/orderbook.go]): queues of list elements per price, the
      two sorted price slices and the index from order ids to elements. Elements
      live in a store, because the queues and the index share them. The relation
      [rep b la] says that book [b] represents the list [la] of orders in order of
      arrival; every operation is proved to be an operation on that list.
      [BookSpec] states this as a refinement over operation sequences.
    - [Ledger] ([ledger/account.go], [stock.go], [stockbalance.go], [ledger.go]): the
      stores, the state, and snapshots; [Snapshot] proves their round trip.
    - [Events]: patterns and payloads of output events ([core/engine.go]).
    - [Matching] ([core/order.go], [matchEvents]): reservation, the matching loop,
      settlement of each trade, placement or release of the remainder, refund,
      and the events, in the order of the source. [Core] holds the fields of
      [Engine] that requests use. The clock is an arbitrary sequence of instants.
    - [Validation], [Orders], [Transfer], [Admin]: the validators, edit, cancel and
      routing, transfers, account creation, listing and admin adjustments.
    - [Dedup] ([core/dedup.go]): the ring buffer of recent ids, as a sliding window;
      the id 0, which the code takes for an empty slot, is never forgotten.
    - [Wal] ([internal/wal/wal.go]): the wrapper over a third-party log. That log is
      the class [Twal], with its documented behaviour as the class [TwalLaws] and
      an implementation in memory as an instance of both.
    - [Engine] ([core/engine.go], [handle.go], [handle_admin.go]): the engine's state,
      the handlers and the output append. JSON is the class [Codec], with the law
      that what was written is read back.
    - [Recovery] ([core/engine.go]): start-up, replay, snapshots, cleanup, the loop.
      Answers of the database stores are arguments of the operations.
    - [Database] ([db/migrations/schema.sql], [storage/sqlc]): the tables as finite
      maps, the generated queries as functions that fail when a constraint of the
      schema is broken; [Columns] ([models.go]): the enumerations of the columns, with
      their [Scan] and [Value] methods; [Queries] ([db.go], [querier.go] and the texts
      of the queries): the database, transaction or prepared statement that a query
      goes to. [Storage] ([storage/event.go], [snapshot.go]): the methods of
      the stores and of a transaction. The server is the class [Server]: each call
      is executed and answered, not executed, or executed with its answer lost.
    - [Messaging] ([messaging/rabbitmq.go]): publishing in confirm mode. The client
      library is the class [Amqp], with its documented behaviour as [AmqpSpec].
    - [Metrics] ([internal/metrics]): the counters of the consumers and what a log
      window reports, and the loop that reports one at every tick ([reporter_run]).
    - [Publisher] ([publisher/event_publisher.go]) and [Projector]
      ([publisher/db_projector.go]): the two consumers, one drain at a time.
    - [Signals] ([publisher/handler.go]): the signals that wake them, with the
      goroutines interleaved step by step.
    - [Connections] ([internal/config], [Open] and [Close] of the connections): the
      settings, and what is open after each outcome.
    - [Process] ([cmd/engine/main.go], [Handler.Run], [Run] of engine and consumers):
      starting, and the goroutines with their cancellation and their waiting.
    - [Consuming] ([Deliveries] of [messaging/rabbitmq.go]): the goroutine that hands
      messages to the engine. The broker's queue is the class [AmqpConsumer], with
      its documented behaviour as [AmqpConsumerSpec].
    - [System] puts the engine, the consumers, the database and the broker together:
      [system_step] is a delivery, a snapshot tick, a restart, a crash between the
      logs, or something beside the engine's loop ([background]). [Intake] puts the
      queue of requests in front of it: [intake_step] adds the goroutine of
      [Deliveries], the loop of [Run] ([engine.go]) with its answers, and
      cancellation.

    ** What is proved

    - [Invariant], [Settlement], [MatchStep], [MatchLoop], [MatchSpec], [Limits],
      [Crossing], [Reports], [Requests], [Accounts] carry the proofs about the
      ledger. [ledger_inv] says that every balance is the available balance plus
      what the resting orders reserve, the same for the shares of every holding,
      and that the stores and books are well-formed. Matching is shown to be a
      run of the reference function [greedy] on the list of resting orders
      ([matched]). Theorems: [TradingTheorems] (conservation of cash and shares, price-time priority,
      limits, termination, completeness of the events, acceptance conditions,
      effect of each request) and [BookTheorems] (refinement of the book, snapshots).
    - [BookSim], [LedgerSim] and [MatchSim] define when two books, ledgers and
      results differ at most in creation times ([≡]) and show that every request
      respects it: a snapshot forgets creation times, so this is how a restored
      ledger is related to the one it replaces.
    - [TradeIds], [Determinism], [Replays], [Consistency], [TradeRecovery],
      [Cleanup] carry the proofs about the logs. [consistent e ps]
      says that the input log holds the payloads [ps], that their effects from the
      empty ledger give the ledger, and that the last output record belongs to the
      last payload; [lived e qs] that the engine came from a new installation by
      deliveries, restarts and crashes between the logs, without trimming. Theorems:
      [EngineTheorems] (restart, crash between the logs, exactly one output per
      input, redelivery, cleanup, consecutive indexes and trade ids, sliding
      windows).
    - [SnapshotReplay] replays over a restored ledger, and [Retention] defines
      [in_step e ps snaps]: the ledger is the effect of the logged payloads [ps],
      the snapshots stored or waiting were taken of the ledger at their index, and
      the logs still hold what a restart reads. [Restarts] shows this for start-ups;
      [life] is every sequence of deliveries, snapshot ticks, rounds of the saver,
      changes of other tables, restarts, and crashes between the logs. Theorems:
      [RestartTheorems] (a restored ledger behaves like the original, a restart over
      a snapshot succeeds whatever was trimmed, the whole life of an engine keeps it
      in step). They assume that a failed truncation leaves the log as it was
      ([stable]) and that ticks find a well-formed ledger.
    - [Footprint] and [Reporting] show that the events of every request report its
      whole effect on accounts, holdings and stocks ([reports]), and [Feed] that the
      output log therefore tells the story of the ledger ([trail], [fed]).
    - [Publisher], [Projector], [Mirror], [Tracking], [Acceptance] and
      [SnapshotStore] carry the proofs about the consumers. [pub_step], [proj_step]
      and [world_step] are step relations with drains, failures, restarts, new
      records, truncations and changes of the database by other parts; [ideal] is
      the database to which every record has been applied once; [mirrors] relates
      a ledger to the database. Theorems: [ConsumerTheorems] (publication in
      order, a drain publishes everything, every record is applied once, the
      database mirrors the ledger, the database accepts the engine's events, what
      a lost commit does, the snapshot store, wake-ups, measurements, and that
      every batch is reported in exactly one window). [StorageTheorems]: each query
      of a batch stays in its transaction; preparing and closing statements.
    - [Frames] (what each part leaves alone) and [Writing] (a request adds one record,
      and only a creation opens an account) carry the invariant [system_ok] of the whole system,
      [Numbering] the invariant [numbers_ok] (the trades written so far have the ids
      1, 2, 3 and so on, and a restart finds the counter again in the log or in the
      table of trades), and [Acceptance] the success of a drain of the projector when
      its rows are there ([rows_ready]). Theorems: [SystemTheorems] (every run of the
      system keeps its parts together; trades are numbered without gaps; both
      consumers catch up from every state it can reach).
    - [Windows] shows what the duplicate windows know, also across restarts, [Intake]
      where every message is ([intake_ok]), and [ExactlyOnce] that the messages are
      logged in their order of arrival ([exact]). Theorems: [IntakeTheorems] (no
      request is lost; a request has an effect at most once within the window; every
      request is processed exactly once). The last one assumes a broker that delivers
      in order, delivers again only what was outstanding and keeps to the prefetch
      count ([AmqpOrderedSpec]), and that requesters give every request of a kind its
      own id; the prefetch count of the connection (256) is below the window (8192),
      so whatever can come again is remembered.
    - The theorems about the whole system, and the one that the database mirrors the
      ledger, assume that no answer of the database is
      lost ([no_lost_answer]; [lost_commit_blocks_projector] shows why), that the
      rows of a new account or stock are in the database before its request comes
      ([announced]: another service inserts them and then sends the request), that
      log indexes stay below 2^64 ([room], [spacious]), and [stable] logs. A drain
      and a start-up are single steps there. A handler that fails or panics after
      the request was logged is a crash between the logs.
    - [Process] shows the order of the shutdown. Theorems: [ProcessTheorems] (nothing
      in use is closed, the shutdown ends, a consumer whose start fails is gone for
      good while the other one goes on, what a panic closes).
    - [Example], [EngineExample], [ConsumerExample], [RestartExample],
      [SystemExample] and [IntakeExample] are a small exchange, engine, two consumers,
      a restart, a system, and a broker's queue with the system behind it, on which
      the theorems with hypotheses are instantiated.

    ** Bounds

    Two kinds of loop need fuel. The bound of the matching loop of [matchEvents] is
    the size of the book's index plus one ([match_fuel]), because an iteration that
    continues either completes the taker or removes a maker from the index;
    [match_terminates] proves that the bound is never the reason to stop. The bound
    of the loop of a drain is the number of records after the cursor, because an
    iteration that continues advances it; [drains_end] proves the same. Replay
    and loading run over an interval of log indexes and are structural. Amounts
    are integers with explicit wrap-around; [bounded] states that the cash of all
    accounts together is below 2^64 and the shares of all holdings of a stock
    together below 2^63, which the exactness of sums needs.

    ** What is not modelled

    Generated protobuf code: its messages are records of [Ledger], and its encoding
    is done by a runtime library, the class [Proto] with a round-trip law. Rows of
    tables that the engine never reads or writes. The tickers that trigger drains
    and log windows (a drain and a window can happen at any moment). The limits of
    the connection pool, message texts of errors, log lines, and the passing of
    contexts into calls are left out. The directories of the logs are fixed in the
    code; a model has the two logs themselves. The snapshot saver runs in a
    goroutine; here each of its rounds is one step. A transaction of the database
    runs without another writer in between, as its isolation provides.

    ** What is left

    That the accounts and stocks of the pending events are in the database follows
    from the accounts and stocks of resting orders being in the ledger, which is not
    shown here: [rows_present] is a hypothesis of [system_projects_backlog], as the
    rows of orders are, which another service inserts. Drains interleaved batch by
    batch, and the progress of the intake (a message that waits is served). *)

From Stdlib Require Export Sorted.
From stdpp Require Export gmap strings list sorting.

#[export] Set Default Goal Selector "!".
Open Scope Z_scope.

(** ** Outcomes *)

(** A Go computation either returns or panics; an [error] that a function
    returns is an ordinary value of its result type. *)
Inductive panic :=
  | NilDereference
  | DivideByZero
  | IndexOutOfRange
  | WalAppendFailed.

Inductive outcome (A : Type) :=
  | Done (a : A)
  | Panicked (p : panic).
Arguments Done {A} a.
Arguments Panicked {A} p.

Definition obind {A B} (m : outcome A) (k : A -> outcome B) : outcome B :=
  match m with
  | Done a => k a
  | Panicked p => Panicked p
  end.

Declare Scope go_scope.
Delimit Scope go_scope with go.
Notation "x <~ m ; k" := (obind m (fun x => k))
  (at level 20, m at level 100, k at level 200, only parsing) : go_scope.
Notation "' p <~ m ; k" := (obind m (fun x => match x with p => k end))
  (at level 20, p pattern, m at level 100, k at level 200, only parsing) : go_scope.
Open Scope go_scope.

Lemma obind_Done {A B} (m : outcome A) (k : A -> outcome B) b :
  obind m k = Done b <-> exists a, m = Done a /\ k a = Done b.
Proof. split; [destruct m; [by eauto|done] | by intros (a & -> & ?)]. Qed.

#[export] Instance Done_inj {A} : Inj (=) (=) (@Done A).
Proof. by intros a b [= ?]. Qed.

(** Two computations that end the same way, with related results. *)
Inductive outcome_rel {A B} (R : A -> B -> Prop) : outcome A -> outcome B -> Prop :=
  | rel_Done a b : R a b -> outcome_rel R (Done a) (Done b)
  | rel_Panicked p : outcome_rel R (Panicked p) (Panicked p).

Lemma outcome_rel_bind {A B C D} (R : A -> B -> Prop) (S : C -> D -> Prop) m m' k k' :
  outcome_rel R m m' -> (forall a b, R a b -> outcome_rel S (k a) (k' b)) ->
  outcome_rel S (obind m k) (obind m' k').
Proof. intros [a b Hab|p] Hk; [by apply Hk|constructor]. Qed.

Lemma outcome_rel_Done {A B} (R : A -> B -> Prop) m m' a :
  outcome_rel R m m' -> m = Done a -> exists b, m' = Done b /\ R a b.
Proof. intros [a' b Hab|p]; [|done]. intros [= <-]. eauto. Qed.

(** ** Machine integers *)

(** [uint64] values are integers in [0, 2^64); arithmetic wraps around. *)
Definition two64 : Z := 18446744073709551616.

Definition u64 (z : Z) : Z := z mod two64.
Definition add64 (a b : Z) : Z := u64 (a + b).
Definition sub64 (a b : Z) : Z := u64 (a - b).
Definition mul64 (a b : Z) : Z := u64 (a * b).

Declare Scope u64_scope.
Delimit Scope u64_scope with u64.
Infix "⊕" := add64 (at level 50, left associativity) : u64_scope.
Infix "⊖" := sub64 (at level 50, left associativity) : u64_scope.
Infix "⊗" := mul64 (at level 40, left associativity) : u64_scope.
Open Scope u64_scope.

(** [bits.Mul64] and [bits.Add64] of [math/bits]: the high word (or carry)
    and the low word. *)
Definition Mul64 (x y : Z) : Z * Z := (x * y / two64, u64 (x * y)).
Definition Add64 (x y carry : Z) : Z * Z := (u64 (x + y + carry), (x + y + carry) / two64).

Definition is_u64 (z : Z) : Prop := 0 <= z < two64.
#[export] Instance is_u64_dec z : Decision (is_u64 z) := _.

Definition MaxInt64 : Z := 9223372036854775807.
(** Conversion of an integer to [int64] (two's complement). *)
Definition i64 (z : Z) : Z := (z + (MaxInt64 + 1)) mod two64 - (MaxInt64 + 1).
Definition i32 (z : Z) : Z := (z + 2 ^ 31) mod 2 ^ 32 - 2 ^ 31.

Definition MaxInt32 : Z := 2147483647.

Lemma i32_small z : - (MaxInt32 + 1) <= z <= MaxInt32 -> i32 z = z.
Proof. intros. unfold i32. rewrite Z.mod_small; [lia|]. unfold MaxInt32 in *. lia. Qed.

Lemma i64_small z : - (MaxInt64 + 1) <= z <= MaxInt64 -> i64 z = z.
Proof. intros. unfold i64. rewrite Z.mod_small; [lia|]. unfold MaxInt64, two64 in *. lia. Qed.

Lemma u64_small z : is_u64 z -> u64 z = z.
Proof. intros. by apply Z.mod_small. Qed.

Lemma u64_range z : is_u64 (u64 z).
Proof. by apply Z.mod_pos_bound. Qed.

Lemma add64_exact a b : 0 <= a + b < two64 -> a ⊕ b = a + b.
Proof. apply u64_small. Qed.

Lemma sub64_exact a b : 0 <= a - b < two64 -> a ⊖ b = a - b.
Proof. apply u64_small. Qed.

Lemma mul64_exact a b : 0 <= a * b < two64 -> a ⊗ b = a * b.
Proof. apply u64_small. Qed.

Lemma Mul64_no_overflow x y hi lo :
  is_u64 x -> is_u64 y -> Mul64 x y = (hi, lo) -> (hi = 0 <-> x * y < two64) /\ (hi = 0 -> lo = x * y).
Proof.
  unfold Mul64, is_u64. intros Hx Hy [= <- <-].
  assert (0 <= x * y) by nia.
  assert (Hd : x * y / two64 = 0 <-> x * y < two64).
  { rewrite Z.div_small_iff by done. unfold two64 in *. lia. }
  split; [done|]. intros ?%Hd. by apply u64_small.
Qed.

Lemma Add64_no_carry x y lo c :
  is_u64 x -> is_u64 y -> Add64 x y 0 = (lo, c) -> (c = 0 <-> x + y < two64) /\ (c = 0 -> lo = x + y).
Proof.
  unfold Add64, is_u64. rewrite Z.add_0_r. intros Hx Hy [= <- <-].
  assert (Hd : (x + y) / two64 = 0 <-> x + y < two64).
  { rewrite Z.div_small_iff by done. unfold two64 in *. lia. }
  split; [done|]. intros ?%Hd. apply u64_small. unfold is_u64. lia.
Qed.

(** [u64_simpl] removes wrap-around whose operands are known to fit. *)
Ltac u64_simpl :=
  repeat first
    [ rewrite add64_exact by (unfold is_u64 in *; nia)
    | rewrite sub64_exact by (unfold is_u64 in *; nia)
    | rewrite mul64_exact by (unfold is_u64 in *; nia) ].

(** ** Lists *)

Lemma NoDup_fmap_elem_inj {A B} (f : A -> B) (l : list A) x y :
  NoDup (f <$> l) -> x ∈ l -> y ∈ l -> f x = f y -> x = y.
Proof.
  intros Hnd [i Hi]%list_elem_of_lookup [j Hj]%list_elem_of_lookup Heq.
  assert (i = j) as ->; [|naive_solver].
  eapply (NoDup_lookup (f <$> l)); [done| |]; rewrite list_lookup_fmap;
    [by rewrite Hi|rewrite Hj; simpl; by rewrite Heq].
Qed.

Lemma filter_fmap_comm {A B} (f : A -> B) (P : B -> Prop) (Q : A -> Prop)
    `{!forall x, Decision (P x), !forall x, Decision (Q x)} (l : list A) :
  (forall x, x ∈ l -> P (f x) <-> Q x) -> filter P (f <$> l) = f <$> filter Q l.
Proof.
  induction l as [|x l IH]; intros Hpq; [done|]. csimpl.
  pose proof (Hpq x ltac:(left)). rewrite !filter_cons. csimpl.
  rewrite IH by set_solver. repeat case_decide; naive_solver.
Qed.

Lemma filter_comm {A} (P Q : A -> Prop)
    `{!forall x, Decision (P x), !forall x, Decision (Q x)} (l : list A) :
  filter P (filter Q l) = filter Q (filter P l).
Proof. rewrite !list_filter_filter. apply list_filter_iff. tauto. Qed.

Lemma filter_all {A} (P : A -> Prop) `{!forall x, Decision (P x)} (l : list A) :
  (forall x, x ∈ l -> P x) -> filter P l = l.
Proof.
  induction l as [|x l IH]; intros Hp; [done|].
  rewrite filter_cons_True by (apply Hp; left). f_equal. apply IH. set_solver.
Qed.

Lemma filter_none {A} (P : A -> Prop) `{!forall x, Decision (P x)} (l : list A) :
  (forall x, x ∈ l -> ~ P x) -> filter P l = [].
Proof.
  induction l as [|x l IH]; intros Hp; [done|].
  rewrite filter_cons_False by (apply Hp; left). apply IH. set_solver.
Qed.

Lemma Permutation_filter_split {A} (P : A -> Prop) `{!forall x, Decision (P x)} (l : list A) :
  l ≡ₚ filter P l ++ filter (fun x => ~ P x) l.
Proof.
  induction l as [|x l IH]; [done|]. rewrite !filter_cons.
  destruct (decide (P x)); [rewrite decide_False by tauto|rewrite decide_True by tauto]; simpl.
  - by f_equiv.
  - rewrite IH at 1. apply Permutation_middle.
Qed.

Lemma Forall_filter {A} (Q P : A -> Prop) `{!forall x, Decision (P x)} (l : list A) :
  Forall Q l -> Forall Q (filter P l).
Proof. rewrite !Forall_forall. intros Hq x [_ ?]%list_elem_of_filter. auto. Qed.

Lemma NoDup_fmap_filter {A B} (f : A -> B) (P : A -> Prop) `{!forall x, Decision (P x)} (l : list A) :
  NoDup (f <$> l) -> NoDup (f <$> filter P l).
Proof. intros. eapply sublist_NoDup; [done|]. apply fmap_sublist, sublist_filter. Qed.

Lemma Forall_sublist {A} (P : A -> Prop) (l l' : list A) : sublist l l' -> Forall P l' -> Forall P l.
Proof. induction 1; auto; inversion_clear 1; auto. Qed.

Lemma StronglySorted_sublist {A} (R : relation A) (l l' : list A) :
  sublist l l' -> StronglySorted R l' -> StronglySorted R l.
Proof.
  induction 1 as [|x l l' Hs IH|x l l' Hs IH]; [done|..]; inversion_clear 1; [|auto].
  constructor; [auto|by eapply Forall_sublist].
Qed.

Lemma elem_of_concat {A} (x : A) (ls : list (list A)) : x ∈ concat ls <-> exists l, x ∈ l /\ l ∈ ls.
Proof.
  induction ls as [|k ls IH]; simpl; [set_solver|]. rewrite elem_of_app, IH. set_solver.
Qed.

(** ** Sums over lists *)

Definition lsum {A} (f : A -> Z) (l : list A) : Z := foldr (fun x acc => f x + acc) 0 l.

Section lsum.
Context {A : Type}.
Implicit Types (f g : A -> Z) (l : list A).

Lemma lsum_cons f x l : lsum f (x :: l) = f x + lsum f l.
Proof. done. Qed.

Lemma lsum_app f l1 l2 : lsum f (l1 ++ l2) = lsum f l1 + lsum f l2.
Proof. induction l1; simpl; lia. Qed.

#[export] Instance lsum_perm f : Proper (Permutation ==> eq) (lsum f).
Proof. induction 1; simpl; lia. Qed.

Lemma lsum_nonneg f l : (forall x, x ∈ l -> 0 <= f x) -> 0 <= lsum f l.
Proof.
  induction l as [|x l IH]; intros H; simpl; [lia|].
  pose proof (H x ltac:(left)). assert (0 <= lsum f l) by (apply IH; set_solver). lia.
Qed.

Lemma lsum_elem_le f l x : (forall x, x ∈ l -> 0 <= f x) -> x ∈ l -> f x <= lsum f l.
Proof.
  intros H Hx. apply list_elem_of_split in Hx as (l1 & l2 & ->).
  rewrite lsum_app, lsum_cons.
  assert (0 <= lsum f l1) by (apply lsum_nonneg; set_solver).
  assert (0 <= lsum f l2) by (apply lsum_nonneg; set_solver). lia.
Qed.

Lemma lsum_ext f g l : (forall x, x ∈ l -> f x = g x) -> lsum f l = lsum g l.
Proof.
  induction l as [|x l IH]; intros H; simpl; [done|].
  rewrite (H x ltac:(left)), IH; set_solver.
Qed.

Lemma lsum_map {B} (h : B -> A) f (l : list B) : lsum f (h <$> l) = lsum (fun x => f (h x)) l.
Proof. induction l; csimpl; [done|]. lia. Qed.

Lemma lsum_zero f l : (forall x, x ∈ l -> f x = 0) -> lsum f l = 0.
Proof. induction l; intros H; simpl; [done|]. rewrite H, IHl; set_solver. Qed.
End lsum.

(** ** Sums over finite maps *)

Definition msum {K A} `{Countable K} (f : K -> A -> Z) (m : gmap K A) : Z :=
  map_fold (fun k v acc => f k v + acc) 0 m.

Section msum.
Context {K A : Type} `{Countable K}.
Implicit Types (f g : K -> A -> Z) (m : gmap K A).

Lemma msum_empty f : msum f ∅ = 0.
Proof. apply map_fold_empty. Qed.

Lemma msum_insert_None f m k v :
  m !! k = None -> msum f (<[k:=v]> m) = f k v + msum f m.
Proof.
  intros Hk. unfold msum. rewrite map_fold_insert_L; [done| |done]. intros; lia.
Qed.

Lemma msum_delete f m k v :
  m !! k = Some v -> msum f m = f k v + msum f (delete k m).
Proof.
  intros Hk. rewrite <- (insert_delete_id m k v Hk) at 1.
  apply msum_insert_None, lookup_delete_eq.
Qed.

Lemma msum_insert f m k v :
  msum f (<[k:=v]> m) = f k v + msum f m - from_option (f k) 0 (m !! k).
Proof.
  destruct (m !! k) as [w|] eqn:Hk; simpl.
  - rewrite (msum_delete f m k w Hk), <- insert_delete_eq.
    rewrite msum_insert_None by apply lookup_delete_eq. lia.
  - rewrite msum_insert_None by done. lia.
Qed.

Lemma msum_nonneg f m :
  (forall k v, m !! k = Some v -> 0 <= f k v) -> 0 <= msum f m.
Proof.
  induction m as [|k v m Hk IH] using map_ind; intros Hf.
  - rewrite msum_empty. lia.
  - rewrite msum_insert_None by done.
    pose proof (Hf k v ltac:(by simplify_map_eq)).
    assert (0 <= msum f m); [|lia]. apply IH. intros k' v' Hk'.
    apply Hf. rewrite lookup_insert_ne; [done|]. congruence.
Qed.

Lemma msum_lookup_le f m k v :
  (forall k v, m !! k = Some v -> 0 <= f k v) -> m !! k = Some v -> f k v <= msum f m.
Proof.
  intros Hf Hk. rewrite (msum_delete f m k v Hk).
  assert (0 <= msum f (delete k m)); [|lia].
  apply msum_nonneg. intros k' v' [_ ?]%lookup_delete_Some. eauto.
Qed.

Lemma msum_lookup2_le f m k1 v1 k2 v2 :
  (forall k v, m !! k = Some v -> 0 <= f k v) ->
  m !! k1 = Some v1 -> m !! k2 = Some v2 -> k1 <> k2 -> f k1 v1 + f k2 v2 <= msum f m.
Proof.
  intros Hf H1 H2 Hne. rewrite (msum_delete f m k1 v1 H1).
  assert (f k2 v2 <= msum f (delete k1 m)); [|lia].
  apply msum_lookup_le; [|by rewrite lookup_delete_ne].
  intros k' v' [_ ?]%lookup_delete_Some. eauto.
Qed.

Lemma msum_ext f g m :
  (forall k v, m !! k = Some v -> f k v = g k v) -> msum f m = msum g m.
Proof.
  induction m as [|k v m Hk IH] using map_ind; intros Hf.
  - by rewrite !msum_empty.
  - rewrite !msum_insert_None by done.
    rewrite (Hf k v) by (by simplify_map_eq). f_equal. apply IH.
    intros k' v' Hk'. apply Hf. rewrite lookup_insert_ne; [done|]. congruence.
Qed.
End msum.

(** ** Development-wide automation *)

Create HintDb kronex.
Create Rewrite HintDb kronex.
#[export] Hint Resolve u64_range : kronex.
#[export] Hint Rewrite @lsum_app @lsum_cons @lsum_map : kronex.

(** [inv_done H] splits a successful bind [obind m k = Done b]. *)
Ltac inv_done H :=
  let a := fresh "a" in let Ha := fresh "Ha" in
  apply obind_Done in H as (a & Ha & H).
