(* ===== verification/Domain.v ===== *)
(** * Domain types ([internal/domain])

    The records and enumerations of package [domain]. Integer fields are
    [Z]; the width of each field is the predicate [is_u64] of the prelude,
    stated where a theorem needs it. A Go enumeration is a [uint8]: its named
    constants are constructors, and every other byte value is kept in a
    last constructor, since a snapshot is decoded with a plain conversion. A
    [time.Time] is the number of nanoseconds since Go's zero time. *)

From S2P Require Import Prelude.

Definition Time := Z.
(** [Time.IsZero]. *)
Definition IsZero (t : Time) : bool := Z.eqb t 0.

(** ** Enumerations *)

Inductive OrderType :=
  | ORDER_LIMIT
  | ORDER_MARKET
  | ORDER_TYPE_OTHER (n : Z).

Inductive TradingType :=
  | TRADING_BUY
  | TRADING_SELL
  | TRADING_EDIT
  | TRADING_CANCEL
  | TRADING_OTHER (n : Z).

Inductive StockStatus :=
  | LISTED
  | SUSPENDED
  | DELISTED
  | PENDING
  | STATUS_OTHER (n : Z).

#[export] Instance OrderType_eq_dec : EqDecision OrderType.
Proof. solve_decision. Defined.
#[export] Instance TradingType_eq_dec : EqDecision TradingType.
Proof. solve_decision. Defined.
#[export] Instance StockStatus_eq_dec : EqDecision StockStatus.
Proof. solve_decision. Defined.

(** The byte behind an enumeration value, and the conversion
    [domain.OrderType(x)] of an unsigned integer, which keeps its low byte. *)
Definition OrderType_byte (t : OrderType) : Z :=
  match t with
  | ORDER_LIMIT => 0
  | ORDER_MARKET => 1
  | ORDER_TYPE_OTHER n => n
  end.

Definition OrderType_of (x : Z) : OrderType :=
  let n := x mod 256 in
  if Z.eqb n 0 then ORDER_LIMIT else if Z.eqb n 1 then ORDER_MARKET else ORDER_TYPE_OTHER n.

Definition TradingType_byte (t : TradingType) : Z :=
  match t with
  | TRADING_BUY => 0
  | TRADING_SELL => 1
  | TRADING_EDIT => 2
  | TRADING_CANCEL => 3
  | TRADING_OTHER n => n
  end.

Definition TradingType_of (x : Z) : TradingType :=
  let n := x mod 256 in
  if Z.eqb n 0 then TRADING_BUY
  else if Z.eqb n 1 then TRADING_SELL
  else if Z.eqb n 2 then TRADING_EDIT
  else if Z.eqb n 3 then TRADING_CANCEL
  else TRADING_OTHER n.

Definition StockStatus_byte (s : StockStatus) : Z :=
  match s with
  | LISTED => 0
  | SUSPENDED => 1
  | DELISTED => 2
  | PENDING => 3
  | STATUS_OTHER n => n
  end.

Definition StockStatus_of (x : Z) : StockStatus :=
  let n := x mod 256 in
  if Z.eqb n 0 then LISTED
  else if Z.eqb n 1 then SUSPENDED
  else if Z.eqb n 2 then DELISTED
  else if Z.eqb n 3 then PENDING
  else STATUS_OTHER n.

(** A value of the enumeration type: a named constant or a byte that names none. *)
Definition OrderType_wf (t : OrderType) : Prop :=
  match t with ORDER_TYPE_OTHER n => 1 < n < 256 | _ => True end.
Definition TradingType_wf (t : TradingType) : Prop :=
  match t with TRADING_OTHER n => 3 < n < 256 | _ => True end.
Definition StockStatus_wf (s : StockStatus) : Prop :=
  match s with STATUS_OTHER n => 3 < n < 256 | _ => True end.

(** ** Enumerations in JSON *)

(** [MarshalJSON] gives the string that is then quoted, or an error;
    [UnmarshalJSON] reads the unquoted string back. *)
Definition OrderType_MarshalJSON (t : OrderType) : option string :=
  match t with
  | ORDER_LIMIT => Some "LIMIT"
  | ORDER_MARKET => Some "MARKET"
  | ORDER_TYPE_OTHER _ => None
  end%string.

Definition OrderType_UnmarshalJSON (s : string) : option OrderType :=
  if String.eqb s "LIMIT" then Some ORDER_LIMIT
  else if String.eqb s "MARKET" then Some ORDER_MARKET
  else None.

Definition TradingType_MarshalJSON (t : TradingType) : option string :=
  match t with
  | TRADING_BUY => Some "BUY"
  | TRADING_SELL => Some "SELL"
  | TRADING_EDIT => Some "EDIT"
  | TRADING_CANCEL => Some "CANCEL"
  | TRADING_OTHER _ => None
  end%string.

Definition TradingType_UnmarshalJSON (s : string) : option TradingType :=
  if String.eqb s "BUY" then Some TRADING_BUY
  else if String.eqb s "SELL" then Some TRADING_SELL
  else if String.eqb s "EDIT" then Some TRADING_EDIT
  else if String.eqb s "CANCEL" then Some TRADING_CANCEL
  else None.

Definition StockStatus_String (s : StockStatus) : string :=
  match s with
  | SUSPENDED => "SUSPENDED"
  | DELISTED => "DELISTED"
  | PENDING => "PENDING"
  | _ => "LISTED"
  end%string.

Definition StockStatus_UnmarshalJSON (s : string) : option StockStatus :=
  if String.eqb s "LISTED" then Some LISTED
  else if String.eqb s "SUSPENDED" then Some SUSPENDED
  else if String.eqb s "DELISTED" then Some DELISTED
  else if String.eqb s "PENDING" then Some PENDING
  else None.

(** ** Records *)

Record Account := mkAccount {
  acc_Id : Z;
  acc_Balance : Z;
  acc_AvailableBalance : Z
}.

Record BalanceAdjust := mkBalanceAdjust {
  ba_Id : Z;
  ba_AccountId : Z;
  ba_Delta : Z
}.

Record StockBalance := mkStockBalance {
  sb_AccountId : Z;
  sb_StockId : Z;
  sb_Quantity : Z;
  sb_AvailableQuantity : Z;
  sb_Average : Z;
  sb_TotalBuyAmount : Z
}.

Record StockBalanceAdjust := mkStockBalanceAdjust {
  sba_Id : Z;
  sba_AccountId : Z;
  sba_StockId : Z;
  sba_Delta : Z;
  sba_Average : Z
}.

Record Stock := mkStock {
  st_Id : Z;
  st_Price : Z;
  st_Status : StockStatus
}.

Record Order := mkOrder {
  o_Id : Z;
  o_TargetId : Z;
  o_AccountId : Z;
  o_StockId : Z;
  o_Price : Z;
  o_Quantity : Z;
  o_FilledQuantity : Z;
  o_OrderType : OrderType;
  o_TradingType : TradingType;
  o_CreatedAt : Time
}.

Record Trade := mkTrade {
  tr_Id : Z;
  tr_StockId : Z;
  tr_Price : Z;
  tr_Quantity : Z;
  tr_MakerOrderId : Z;
  tr_TakerOrderId : Z;
  tr_TradingType : TradingType;
  tr_ExecutedAt : Time
}.

Record Transfer := mkTransfer {
  tf_Id : Z;
  tf_SenderAccountId : Z;
  tf_RecipientAccountId : Z;
  tf_Amount : Z
}.

Record TransferCompleted := mkTransferCompleted {
  tc_Id : Z;
  tc_SenderAccountId : Z;
  tc_RecipientAccountId : Z;
  tc_Amount : Z;
  tc_CompletedAt : Time
}.

Record TransferRejected := mkTransferRejected {
  trj_Id : Z;
  trj_SenderAccountId : Z;
  trj_RecipientAccountId : Z;
  trj_Amount : Z;
  trj_Reason : string;
  trj_CompletedAt : Time
}.

Record OrderEvent := mkOrderEvent {
  oe_Id : Z;
  oe_TargetId : Z;
  oe_AccountId : Z;
  oe_StockId : Z;
  oe_Price : Z;
  oe_TradingType : TradingType;
  oe_OrderType : OrderType;
  oe_Quantity : Z;
  oe_FilledQuantity : Z;
  oe_CreatedAt : option Time;
  oe_FullyFilledAt : option Time
}.

Record OrderRejected := mkOrderRejected {
  orj_OrderId : Z;
  orj_Reason : string
}.

Record AdminRequestCompleted := mkAdminRequestCompleted {
  arc_Id : Z;
  arc_CompletedAt : Time
}.

Record AdminRequestRejected := mkAdminRequestRejected {
  arr_Id : Z;
  arr_Reason : string;
  arr_CompletedAt : Time
}.

Record OrderBookLevel := mkOrderBookLevel {
  lv_Side : string;
  lv_Price : Z;
  lv_Quantity : Z
}.

Record OrderBookUpdated := mkOrderBookUpdated {
  obu_StockId : Z;
  obu_Levels : list OrderBookLevel
}.

#[export] Instance Account_eq_dec : EqDecision Account.
Proof. solve_decision. Defined.
#[export] Instance StockBalance_eq_dec : EqDecision StockBalance.
Proof. solve_decision. Defined.
#[export] Instance Stock_eq_dec : EqDecision Stock.
Proof. solve_decision. Defined.
#[export] Instance Order_eq_dec : EqDecision Order.
Proof. solve_decision. Defined.

(** Go's zero values, which [Get] returns with [ok = false]. *)
Definition zero_Account : Account := mkAccount 0 0 0.
Definition zero_Order : Order := mkOrder 0 0 0 0 0 0 0 ORDER_LIMIT TRADING_BUY 0.

(** ** Field updates (a Go assignment [x.F = v] on a local copy) *)

Definition set_Balance (b : Z) (a : Account) : Account :=
  mkAccount (acc_Id a) b (acc_AvailableBalance a).
Definition set_AvailableBalance (v : Z) (a : Account) : Account :=
  mkAccount (acc_Id a) (acc_Balance a) v.
Definition set_AvailableQuantity (v : Z) (h : StockBalance) : StockBalance :=
  mkStockBalance (sb_AccountId h) (sb_StockId h) (sb_Quantity h) v (sb_Average h) (sb_TotalBuyAmount h).
Definition set_FilledQuantity (v : Z) (o : Order) : Order :=
  mkOrder (o_Id o) (o_TargetId o) (o_AccountId o) (o_StockId o) (o_Price o) (o_Quantity o) v
    (o_OrderType o) (o_TradingType o) (o_CreatedAt o).
Definition set_Price (v : Z) (s : Stock) : Stock := mkStock (st_Id s) v (st_Status s).

(** ** Round trips *)

Lemma OrderType_of_byte t : OrderType_wf t -> OrderType_of (OrderType_byte t) = t.
Proof.
  destruct t as [| |n]; simpl; intros; [done..|]. unfold OrderType_of.
  rewrite Z.mod_small by lia. repeat case_match; try done; lia.
Qed.

Lemma TradingType_of_byte t : TradingType_wf t -> TradingType_of (TradingType_byte t) = t.
Proof.
  destruct t as [| | | |n]; simpl; intros; [done..|]. unfold TradingType_of.
  rewrite Z.mod_small by lia. repeat case_match; try done; lia.
Qed.

Lemma StockStatus_of_byte s : StockStatus_wf s -> StockStatus_of (StockStatus_byte s) = s.
Proof.
  destruct s as [| | | |n]; simpl; intros; [done..|]. unfold StockStatus_of.
  rewrite Z.mod_small by lia. repeat case_match; try done; lia.
Qed.

(** The remaining quantity of an order, as the code computes it. *)
Definition remaining (o : Order) : Z := o_Quantity o ⊖ o_FilledQuantity o.

(** Which of the two maps of a book an order or a query refers to: the code
    tests for [TRADING_SELL] and takes the buy side otherwise. *)
Definition is_sell (t : TradingType) : bool :=
  match t with TRADING_SELL => true | _ => false end.

(** *** A stock through JSON *)

(** The status of a stock is written as its name, and every byte that names no
    status is written as the name of [LISTED]. *)
Definition json_status (s : StockStatus) : StockStatus :=
  default s (StockStatus_UnmarshalJSON (StockStatus_String s)).
Definition json_stock (s : Stock) : Stock := mkStock (st_Id s) (st_Price s) (json_status (st_Status s)).
