(* ===== verification/Slices.v ===== *)
(** * Sorted slices ([slices.BinarySearch], [slices.Insert], [slices.Delete])

    The order book keeps its active prices in an ascending slice and finds
    positions by binary search. The search is modelled as the loop of Go's
    standard library and shown to return the lower bound of the target, from
    which insertion and deletion keep the slice strictly sorted. *)

From S2P Require Import Prelude.

(** One half-interval search in [xs[i:j]]: the loop of [slices.BinarySearch]. *)
Fixpoint bsearch_loop (fuel : nat) (xs : list Z) (target : Z) (i j : nat) : nat :=
  match fuel with
  | O => i
  | S fuel' =>
      if Nat.ltb i j then
        let h := Nat.div2 (i + j) in
        if Z.ltb (xs !!! h) target
        then bsearch_loop fuel' xs target (S h) j
        else bsearch_loop fuel' xs target i h
      else i
  end.

Definition BinarySearch (xs : list Z) (target : Z) : nat * bool :=
  let i := bsearch_loop (length xs) xs target 0 (length xs) in
  (i, match xs !! i with Some x => Z.eqb x target | None => false end).

Definition slice_Insert (xs : list Z) (i : nat) (v : Z) : list Z := take i xs ++ v :: drop i xs.
Definition slice_Delete (xs : list Z) (i j : nat) : list Z := take i xs ++ drop j xs.

#[global] Arguments BinarySearch : simpl never.

(** Strictly ascending slices. *)
Abbreviation ascending := (StronglySorted Z.lt).

Lemma ascending_lookup xs i j x y :
  ascending xs -> xs !! i = Some x -> xs !! j = Some y -> (i < j)%nat -> x < y.
Proof.
  intros Hs. revert i j. induction Hs as [|z xs Hs IH Hall]; intros i j Hi Hj Hij; [done|].
  destruct i as [|i], j as [|j]; simpl in *; simplify_eq; try lia.
  - rewrite Forall_forall in Hall. apply Hall. by eapply list_elem_of_lookup_2.
  - eapply IH; eauto. lia.
Qed.

(** The loop returns the lower bound: everything before it is smaller than
    the target, everything from it on is not. [fuel] bounds the interval. *)
Lemma bsearch_loop_lower_bound fuel xs t i j :
  ascending xs -> (i <= j <= length xs)%nat -> (j - i <= fuel)%nat ->
  (forall k x, xs !! k = Some x -> (k < i)%nat -> x < t) ->
  (forall k x, xs !! k = Some x -> (j <= k)%nat -> t <= x) ->
  let r := bsearch_loop fuel xs t i j in
  (forall k x, xs !! k = Some x -> (k < r)%nat -> x < t) /\
  (forall k x, xs !! k = Some x -> (r <= k)%nat -> t <= x).
Proof.
  intros Hs. revert i j. induction fuel as [|fuel IH]; intros i j Hij Hfuel Hlo Hhi; simpl.
  { assert (i = j) by lia. by subst. }
  destruct (Nat.ltb_spec i j) as [Hlt|Hge]; [|assert (i = j) by lia; by subst].
  pose proof (Nat.div2_odd (i + j)) as Hd.
  assert (Hh : (i <= Nat.div2 (i + j) < j)%nat)
    by (destruct (Nat.odd (i + j)); simpl in Hd; lia).
  destruct (lookup_lt_is_Some_2 xs (Nat.div2 (i + j))) as [m Hm]; [lia|].
  rewrite (list_lookup_total_correct _ _ _ Hm).
  destruct (Z.ltb_spec m t) as [Hmt|Hmt].
  - apply IH; [lia..| |done]. intros k x Hk Hlt'.
    destruct (decide (k = Nat.div2 (i + j))) as [->|]; [by simplify_eq|].
    trans m; [|done]. eapply ascending_lookup; eauto. lia.
  - apply IH; [lia..|done|]. intros k x Hk Hge.
    destruct (decide (k = Nat.div2 (i + j))) as [->|]; [by simplify_eq|].
    assert (m < x); [|lia]. eapply ascending_lookup; eauto. lia.
Qed.

Lemma BinarySearch_lower_bound xs t i found :
  ascending xs -> BinarySearch xs t = (i, found) ->
  Forall (fun x => x < t) (take i xs) /\ Forall (fun x => t <= x) (drop i xs) /\
  (found = true <-> xs !! i = Some t) /\ (found = true <-> t ∈ xs).
Proof.
  unfold BinarySearch. intros Hs [= <- <-].
  destruct (bsearch_loop_lower_bound (length xs) xs t 0 (length xs)) as [Hlo Hhi];
    [done|lia|lia|intros; lia| |].
  { intros k x ?%lookup_lt_Some ?; lia. }
  set (i := bsearch_loop _ _ _ _ _) in *.
  assert (Hfound : match xs !! i with Some x => x =? t | None => false end = true <-> xs !! i = Some t).
  { destruct (xs !! i) as [x|]; [|naive_solver]. rewrite Z.eqb_eq. naive_solver. }
  split_and!; [| |done|].
  - apply Forall_lookup. intros k x Hk. pose proof (lookup_lt_Some _ _ _ Hk) as Hl.
    rewrite length_take in Hl. rewrite lookup_take_lt in Hk by lia. eapply Hlo; eauto. lia.
  - apply Forall_lookup. intros k x Hk. rewrite lookup_drop in Hk. eapply Hhi; eauto. lia.
  - rewrite Hfound. split; [apply list_elem_of_lookup_2|].
    intros [k Hk]%list_elem_of_lookup_1. destruct (decide (k < i)%nat) as [Hki|Hki].
    { specialize (Hlo _ _ Hk Hki). lia. }
    destruct (decide (k = i)) as [->|]; [done|].
    destruct (lookup_lt_is_Some_2 xs i) as [y Hy].
    { apply lookup_lt_Some in Hk. lia. }
    pose proof (Hhi i y Hy ltac:(lia)). assert (y < t); [|lia].
    eapply (ascending_lookup xs i k); eauto. lia.
Qed.

Lemma ascending_app xs ys :
  ascending (xs ++ ys) <-> ascending xs /\ ascending ys /\ (forall x y, x ∈ xs -> y ∈ ys -> x < y).
Proof.
  induction xs as [|x xs IH]; simpl.
  { split; [|by intros (?&?&?)]. intros; split_and!; [constructor|done|set_solver]. }
  split.
  - inversion 1 as [|?? Hs Hall]; subst. apply IH in Hs as (?&?&?).
    apply Forall_app in Hall as [Hall1 Hall2]. rewrite Forall_forall in Hall2.
    split_and!; [by constructor|done|]. set_solver.
  - intros (Hs & ? & Hlt). inversion Hs; subst. constructor.
    + apply IH. split_and!; set_solver.
    + apply Forall_app; split; [done|]. apply Forall_forall. set_solver.
Qed.

Lemma slice_Insert_ascending xs t i :
  ascending xs -> t ∉ xs -> fst (BinarySearch xs t) = i ->
  ascending (slice_Insert xs i t) /\ forall x, x ∈ slice_Insert xs i t <-> x = t \/ x ∈ xs.
Proof.
  intros Hs Ht Hi. destruct (BinarySearch xs t) as [i' found] eqn:Hb. simpl in Hi; subst i'.
  pose proof (BinarySearch_lower_bound _ _ _ _ Hs Hb) as (Hlo & Hhi & _ & _).
  unfold slice_Insert.
  assert (Hmem : forall x, x ∈ xs <-> x ∈ take i xs \/ x ∈ drop i xs).
  { intros x. rewrite <- (take_drop i xs) at 1. apply elem_of_app. }
  split; [|set_solver].
  rewrite <- (take_drop i xs) in Hs. apply ascending_app in Hs as (H1 & H2 & H3).
  rewrite Forall_forall in Hlo, Hhi.
  assert (Hhi' : forall x, x ∈ drop i xs -> t < x).
  { intros x Hx. pose proof (Hhi x Hx). destruct (decide (x = t)) as [->|]; [|lia].
    exfalso. apply Ht, Hmem. auto. }
  apply ascending_app; split_and!; [done| |].
  - constructor; [done|]. apply Forall_forall. auto.
  - intros x y Hx [->|Hy]%elem_of_cons; auto.
Qed.

Lemma slice_Delete_ascending xs t i :
  ascending xs -> BinarySearch xs t = (i, true) ->
  ascending (slice_Delete xs i (S i)) /\
  forall x, x ∈ slice_Delete xs i (S i) <-> x ∈ xs /\ x <> t.
Proof.
  intros Hs Hb.
  pose proof (BinarySearch_lower_bound _ _ _ _ Hs Hb) as (_ & _ & Hf & _).
  assert (Hxi : xs !! i = Some t) by by apply Hf.
  unfold slice_Delete.
  pose proof (take_drop_middle xs i t Hxi) as Hsplit.
  rewrite <- Hsplit in Hs. apply ascending_app in Hs as (H1 & H2 & H3).
  inversion H2 as [|?? H4 H5]; subst. rewrite Forall_forall in H5.
  split.
  - apply ascending_app; split_and!; [done..|]. intros; apply H3; set_solver.
  - intros x. rewrite <- Hsplit at 3. rewrite !elem_of_app, elem_of_cons. split.
    + intros [Hx|Hx]; [pose proof (H3 x t Hx ltac:(left))|pose proof (H5 x Hx)];
        split; [set_solver|lia|set_solver|lia].
    + naive_solver.
Qed.
