(* ===== verification/OrderBook.v ===== *)
(** * The order book of one stock ([internal/ledger/orderbook.go])

    [OrderBook] keeps, per side, a map from price to a doubly linked list of
    orders, an ascending slice of active prices, and an index from order id to
    the list element. The element pointers are shared between the lists and
    the index, so the model has a store of elements: an element is a position
    in [elems], the lists and the index hold positions, and [Fill] mutates the
    store through the index. Go memory is garbage collected: an element is
    never freed, only unlinked.

    The representation relation [rep b la] says that [b] stores exactly the
    resting orders of [la], an abstract book: the resting orders in order of
    arrival, each with its element. Every operation is shown to act on [la] the
    way a price-time book should. *)

From S2P Require Import Prelude Domain Slices.

(** ** State *)

Abbreviation elem := nat.

Record orderRef := mkOrderRef {
  ref_tradingType : TradingType;
  ref_price : Z;
  ref_elem : elem
}.

Record OrderBook := mkOrderBook {
  buy : gmap Z (list elem);
  sell : gmap Z (list elem);
  buyPrices : list Z;
  sellPrices : list Z;
  index : gmap Z orderRef;
  elems : list Order
}.

Definition NewOrderBook : OrderBook := mkOrderBook ∅ ∅ [] [] ∅ [].

(** The [side]/[prices] selection that opens the methods of the book. *)
Definition queues (b : OrderBook) (s : bool) : gmap Z (list elem) := if s then sell b else buy b.
Definition prices (b : OrderBook) (s : bool) : list Z := if s then sellPrices b else buyPrices b.

Definition set_side (b : OrderBook) (s : bool) (q : gmap Z (list elem)) (p : list Z) : OrderBook :=
  if s
  then mkOrderBook (buy b) q (buyPrices b) p (index b) (elems b)
  else mkOrderBook q (sell b) p (sellPrices b) (index b) (elems b).
Definition set_index (b : OrderBook) (i : gmap Z orderRef) : OrderBook :=
  mkOrderBook (buy b) (sell b) (buyPrices b) (sellPrices b) i (elems b).
Definition set_elems (b : OrderBook) (h : list Order) : OrderBook :=
  mkOrderBook (buy b) (sell b) (buyPrices b) (sellPrices b) (index b) h.

(** [elem.Value] is the order an element holds; elements are never freed. *)
Definition Value (b : OrderBook) (a : elem) : Order := default zero_Order (elems b !! a).

(** ** Operations *)

Definition Add (b : OrderBook) (order : Order) : OrderBook :=
  let s := is_sell (o_TradingType order) in
  let '(queue, ps) :=
    match queues b s !! o_Price order with
    | Some queue => (queue, prices b s)
    | None =>
        let '(i, _) := BinarySearch (prices b s) (o_Price order) in
        ([], slice_Insert (prices b s) i (o_Price order))
    end in
  let elem := length (elems b) in
  let b := set_elems b (elems b ++ [order]) in
  let b := set_side b s (<[o_Price order := queue ++ [elem]]> (queues b s)) ps in
  set_index b (<[o_Id order := mkOrderRef (o_TradingType order) (o_Price order) elem]> (index b)).

(** [removeRef] unlinks the element, forgets the id, and drops the price level
    once it is empty. A missing queue is a nil [*list.List], whose [Len] panics. *)
Definition removeRef (b : OrderBook) (orderId : Z) (ref : orderRef) : outcome OrderBook :=
  let s := is_sell (ref_tradingType ref) in
  match queues b s !! ref_price ref with
  | None => Panicked NilDereference
  | Some queue =>
      let queue := filter (fun a => a <> ref_elem ref) queue in
      let b := set_index b (delete orderId (index b)) in
      if Nat.eqb (length queue) 0 then
        let qs := delete (ref_price ref) (queues b s) in
        let '(i, found) := BinarySearch (prices b s) (ref_price ref) in
        let ps := if found then slice_Delete (prices b s) i (S i) else prices b s in
        Done (set_side b s qs ps)
      else Done (set_side b s (<[ref_price ref := queue]> (queues b s)) (prices b s))
  end.

Definition Cancel (b : OrderBook) (orderId : Z) : outcome (OrderBook * bool) :=
  match index b !! orderId with
  | None => Done (b, false)
  | Some ref => b <~ removeRef b orderId ref; Done (b, true)
  end.

Definition BestAsk (b : OrderBook) : option Z :=
  match sellPrices b with
  | [] => None
  | p :: _ => Some p
  end.

Definition BestBid (b : OrderBook) : option Z :=
  match buyPrices b with
  | [] => None
  | _ => buyPrices b !! (length (buyPrices b) - 1)%nat
  end.

Definition Front (b : OrderBook) (side : TradingType) (price : Z) : option Order :=
  match queues b (is_sell side) !! price with
  | Some (a :: _) => Some (Value b a)
  | _ => None
  end.

Definition Get (b : OrderBook) (orderId : Z) : option Order :=
  match index b !! orderId with
  | None => None
  | Some ref => Some (Value b (ref_elem ref))
  end.

Definition levelQuantity (b : OrderBook) (queue : list elem) : Z :=
  foldl (fun sum a => sum ⊕ remaining (Value b a)) 0 queue.

Definition LevelQuantity (b : OrderBook) (side : TradingType) (price : Z) : Z :=
  match queues b (is_sell side) !! price with
  | None => 0
  | Some queue => levelQuantity b queue
  end.

Definition Fill (b : OrderBook) (orderId want : Z) : outcome (OrderBook * Z) :=
  match index b !! orderId with
  | None => Done (b, 0)
  | Some ref =>
      let order := Value b (ref_elem ref) in
      let filled := Z.min want (remaining order) in
      if Z.eqb filled 0 then Done (b, 0)
      else
        let order := set_FilledQuantity (o_FilledQuantity order ⊕ filled) order in
        let b := set_elems b (<[ref_elem ref := order]> (elems b)) in
        if Z.eqb (o_FilledQuantity order) (o_Quantity order)
        then b <~ removeRef b orderId ref; Done (b, filled)
        else Done (b, filled)
  end.

(** The orders of one side, by ascending price and then by queue position. A
    price without a queue is a nil list, whose [Front] panics. *)
Fixpoint side_orders (b : OrderBook) (s : bool) (ps : list Z) : outcome (list Order) :=
  match ps with
  | [] => Done []
  | p :: ps =>
      match queues b s !! p with
      | None => Panicked NilDereference
      | Some queue => rest <~ side_orders b s ps; Done ((Value b <$> queue) ++ rest)
      end
  end.

Definition orders (b : OrderBook) : outcome (list Order) :=
  buys <~ side_orders b false (buyPrices b);
  sells <~ side_orders b true (sellPrices b);
  Done (buys ++ sells).

(** ** Representation *)

(** An abstract book: the resting orders in order of arrival, each with the
    element that stores it. *)
Abbreviation entry := (elem * Order)%type.
Abbreviation abook := (list entry).

Definition at_level (s : bool) (p : Z) (x : entry) : Prop :=
  is_sell (o_TradingType (snd x)) = s /\ o_Price (snd x) = p.
#[export] Instance at_level_dec s p x : Decision (at_level s p x) := _.

(** The queue of one price level, in order of arrival. *)
Definition level (la : abook) (s : bool) (p : Z) : abook := filter (at_level s p) la.

Definition ids (la : abook) : list Z := (fun x => o_Id (snd x)) <$> la.

Definition nonempty {A} (l : list A) : option (list A) :=
  match l with [] => None | _ => Some l end.

Definition ref_of (a : elem) (o : Order) : orderRef := mkOrderRef (o_TradingType o) (o_Price o) a.

Record rep (b : OrderBook) (la : abook) : Prop := {
  rep_ids : NoDup (ids la);
  rep_addrs : NoDup la.*1;
  rep_elems a o : (a, o) ∈ la -> elems b !! a = Some o;
  rep_queue s p : queues b s !! p = nonempty (level la s p).*1;
  rep_sorted s : ascending (prices b s);
  rep_prices s p : p ∈ prices b s <-> level la s p <> [];
  rep_index i r : index b !! i = Some r <-> exists a o, (a, o) ∈ la /\ o_Id o = i /\ r = ref_of a o
}.

(** What the operations do to the abstract book. *)
Definition without (a : elem) (la : abook) : abook := filter (fun x => fst x <> a) la.

Definition fill_order (filled : Z) (o : Order) : Order :=
  set_FilledQuantity (o_FilledQuantity o ⊕ filled) o.

Definition fill_entry (a : elem) (filled : Z) (x : entry) : entry :=
  if decide (fst x = a) then (fst x, fill_order filled (snd x)) else x.

(** An order that can rest: it is partly or not at all filled, within its width. *)
Definition open_order (o : Order) : Prop :=
  0 <= o_FilledQuantity o < o_Quantity o /\ o_Quantity o < two64.
#[export] Instance open_order_dec o : Decision (open_order o) := _.

(** [Fill] on the abstract book: a completely filled order leaves it. *)
Definition fill_book (a : elem) (o : Order) (f : Z) (la : abook) : abook :=
  if decide (o_FilledQuantity o + f = o_Quantity o) then without a la else fill_entry a f <$> la.

Section book_lemmas.
Implicit Types (b : OrderBook) (la : abook) (o : Order).

Lemma queues_set_side b s s' q p :
  queues (set_side b s q p) s' = if decide (s = s') then q else queues b s'.
Proof. by destruct s, s'. Qed.

Lemma prices_set_side b s s' q p :
  prices (set_side b s q p) s' = if decide (s = s') then p else prices b s'.
Proof. by destruct s, s'. Qed.

Lemma index_set_side b s q p : index (set_side b s q p) = index b.
Proof. by destruct s. Qed.

Lemma elems_set_side b s q p : elems (set_side b s q p) = elems b.
Proof. by destruct s. Qed.

Lemma queues_set_index b i s : queues (set_index b i) s = queues b s.
Proof. by destruct s. Qed.
Lemma prices_set_index b i s : prices (set_index b i) s = prices b s.
Proof. by destruct s. Qed.
Lemma queues_set_elems b h s : queues (set_elems b h) s = queues b s.
Proof. by destruct s. Qed.
Lemma prices_set_elems b h s : prices (set_elems b h) s = prices b s.
Proof. by destruct s. Qed.

Lemma nonempty_Some {A} (l q : list A) : nonempty l = Some q <-> l = q /\ q <> [].
Proof. destruct l; naive_solver. Qed.

Lemma nonempty_None {A} (l : list A) : nonempty l = None <-> l = [].
Proof. destruct l; naive_solver. Qed.

Lemma elem_of_ids la i : i ∈ ids la <-> exists a o, (a, o) ∈ la /\ o_Id o = i.
Proof.
  unfold ids. rewrite list_elem_of_fmap. split.
  - intros ([a o] & -> & ?); eauto.
  - intros (a & o & ? & <-). by exists (a, o).
Qed.

Lemma elem_of_level la s p a o :
  (a, o) ∈ level la s p <-> (a, o) ∈ la /\ is_sell (o_TradingType o) = s /\ o_Price o = p.
Proof. unfold level. rewrite list_elem_of_filter. unfold at_level. simpl. tauto. Qed.

Lemma entry_inj_addr la a o1 o2 :
  NoDup la.*1 -> (a, o1) ∈ la -> (a, o2) ∈ la -> o1 = o2.
Proof. intros Hnd H1 H2. by pose proof (NoDup_fmap_elem_inj _ _ _ _ Hnd H1 H2 eq_refl) as [= ?]. Qed.

Lemma entry_inj_id la a1 a2 o1 o2 :
  NoDup (ids la) -> (a1, o1) ∈ la -> (a2, o2) ∈ la -> o_Id o1 = o_Id o2 -> a1 = a2 /\ o1 = o2.
Proof. intros Hnd H1 H2 Heq. by pose proof (NoDup_fmap_elem_inj _ _ _ _ Hnd H1 H2 Heq) as [= ? ?]. Qed.

Lemma rep_Value b la a o : rep b la -> (a, o) ∈ la -> Value b a = o.
Proof. intros Hr Hin. unfold Value. by rewrite (rep_elems _ _ Hr _ _ Hin). Qed.

Lemma rep_fresh b la o : rep b la -> length (elems b) ∉ la.*1.
Proof.
  intros Hr ([a o'] & Heq & Hin)%list_elem_of_fmap. simpl in Heq. subst.
  apply (rep_elems _ _ Hr), lookup_lt_Some in Hin. lia.
Qed.

(** Each id of the book is indexed, and only those. *)
Lemma rep_index_None b la i : rep b la -> index b !! i = None <-> i ∉ ids la.
Proof.
  intros Hr. rewrite elem_of_ids. split.
  - intros Hi (a & o & Hin & Hid). assert (index b !! i = Some (ref_of a o)); [|congruence].
    apply (rep_index _ _ Hr). eauto.
  - intros Hi. destruct (index b !! i) as [r|] eqn:Hr'; [|done].
    apply (rep_index _ _ Hr) in Hr' as (a & o & ? & ? & _). exfalso; eauto.
Qed.

Lemma rep_new : rep NewOrderBook [].
Proof.
  split.
  - constructor.
  - constructor.
  - set_solver.
  - by intros [] p.
  - intros []; constructor.
  - intros [] p; simpl; set_solver.
  - intros i r. simpl. rewrite lookup_empty. split; [done|]. set_solver.
Qed.

Lemma level_snoc la a o s p :
  level (la ++ [(a, o)]) s p =
  level la s p ++ if decide (s = is_sell (o_TradingType o) /\ p = o_Price o) then [(a, o)] else [].
Proof.
  unfold level. rewrite filter_app. f_equal. rewrite filter_cons, filter_nil.
  unfold at_level. simpl. repeat case_decide; naive_solver.
Qed.

(** The state [Add] builds: the order's level grows by the new element, and
    the price is active. *)
Lemma Add_shape b la o :
  rep b la ->
  let s := is_sell (o_TradingType o) in
  let p := o_Price o in
  let a := length (elems b) in
  exists ps,
    Add b o = set_index (set_side (set_elems b (elems b ++ [o])) s
      (<[p := (level la s p).*1 ++ [a]]> (queues b s)) ps) (<[o_Id o := ref_of a o]> (index b)) /\
    ascending ps /\ (forall x, x ∈ ps <-> x = p \/ x ∈ prices b s).
Proof.
  intros Hr s p a. unfold Add. fold s p.
  pose proof (rep_queue _ _ Hr s p) as Hq. pose proof (rep_prices _ _ Hr s p) as Hp.
  destruct (queues b s !! p) as [q|] eqn:Heq; cbv beta iota zeta.
  - symmetry in Hq. apply nonempty_Some in Hq as [<- Hne].
    exists (prices b s). rewrite queues_set_elems, index_set_side.
    split_and!; [done|apply (rep_sorted _ _ Hr)|].
    intros x. split; [auto|intros [->|]; [|done]]. apply Hp. by intros Hnil; rewrite Hnil in Hne.
  - symmetry in Hq. apply nonempty_None, fmap_nil_inv in Hq as Hnil.
    destruct (BinarySearch (prices b s) p) as [i fnd] eqn:Hbs.
    exists (slice_Insert (prices b s) i p).
    rewrite Hnil, queues_set_elems, index_set_side. split; [done|].
    apply slice_Insert_ascending; [apply (rep_sorted _ _ Hr)| |by rewrite Hbs].
    rewrite Hp. naive_solver.
Qed.

(** [Add] appends to the arrival order, when the id is not resting yet. *)
Lemma rep_Add b la o :
  rep b la -> o_Id o ∉ ids la -> rep (Add b o) (la ++ [(length (elems b), o)]).
Proof.
  intros Hr Hid. pose proof (rep_fresh _ _ o Hr) as Hfresh.
  destruct (Add_shape b la o Hr) as (ps & -> & Hps & Hmem).
  set (s := is_sell (o_TradingType o)) in *. set (p := o_Price o) in *.
  split.
  - unfold ids. rewrite fmap_app. apply NoDup_app. split_and!; [apply Hr| |apply NoDup_singleton].
    set_solver.
  - rewrite fmap_app. apply NoDup_app. split_and!; [apply Hr| |apply NoDup_singleton].
    set_solver.
  - intros a o' [Hin| [= -> ->]%list_elem_of_singleton]%elem_of_app; simpl; rewrite elems_set_side; simpl.
    + pose proof (rep_elems _ _ Hr _ _ Hin) as He. by apply lookup_app_l_Some.
    + by rewrite list_lookup_middle.
  - intros s' p'. rewrite queues_set_index, queues_set_side, queues_set_elems, level_snoc, fmap_app. fold s p.
    case_decide as Hs; subst.
    + rewrite lookup_insert. case_decide; subst.
      * rewrite decide_True by done. simpl. by destruct ((level la s p).*1).
      * rewrite decide_False by naive_solver. rewrite app_nil_r. apply (rep_queue _ _ Hr).
    + rewrite decide_False by naive_solver. rewrite app_nil_r. apply (rep_queue _ _ Hr).
  - intros s'. rewrite prices_set_index, prices_set_side, prices_set_elems.
    case_decide; [done|apply (rep_sorted _ _ Hr)].
  - intros s' p'. rewrite prices_set_index, prices_set_side, prices_set_elems, level_snoc. fold s p.
    case_decide; subst.
    + rewrite Hmem, (rep_prices _ _ Hr). case_decide; destruct (level la s p'); naive_solver.
    + rewrite decide_False by naive_solver. rewrite app_nil_r. apply (rep_prices _ _ Hr).
  - intros i r. simpl. rewrite lookup_insert.
    case_decide as Hi.
    + subst. split.
      * intros [= <-]. exists (length (elems b)), o. set_solver.
      * intros (a & o' & [Hin|[= -> ->]%list_elem_of_singleton]%elem_of_app & Hid' & ->); [|done].
        exfalso. apply Hid, elem_of_ids. eauto.
    + rewrite (rep_index _ _ Hr). split; [set_solver|].
      intros (a & o' & [Hin|[= -> ->]%list_elem_of_singleton]%elem_of_app & Hid' & ->); naive_solver.
Qed.

Lemma elem_of_without a la x : x ∈ without a la <-> x ∈ la /\ fst x <> a.
Proof. unfold without. rewrite list_elem_of_filter. tauto. Qed.

Lemma without_addrs a la : (without a la).*1 = filter (fun x => x <> a) la.*1.
Proof. symmetry. by apply filter_fmap_comm. Qed.

Lemma level_without a la s p : level (without a la) s p = without a (level la s p).
Proof. apply filter_comm. Qed.

Lemma level_without_ne a o la s p :
  NoDup la.*1 -> (a, o) ∈ la -> ~ (s = is_sell (o_TradingType o) /\ p = o_Price o) ->
  level (without a la) s p = level la s p.
Proof.
  intros Hnd Hin Hne. rewrite level_without. apply filter_all. intros [a' o'] Hin' Heq. simpl in Heq; subst a'.
  apply elem_of_level in Hin' as (Hin' & Hs & Hp). simpl in *.
  pose proof (entry_inj_addr _ _ _ _ Hnd Hin Hin') as <-. naive_solver.
Qed.

(** The state [removeRef] builds: the element leaves its level, and the
    price stays active exactly while the level is not empty. *)
Lemma removeRef_shape b la a o :
  rep b la -> (a, o) ∈ la ->
  let s := is_sell (o_TradingType o) in
  let p := o_Price o in
  exists qs ps,
    removeRef b (o_Id o) (ref_of a o) =
      Done (set_side (set_index b (delete (o_Id o) (index b))) s qs ps) /\
    qs !! p = nonempty (level (without a la) s p).*1 /\
    (forall p', p' <> p -> qs !! p' = queues b s !! p') /\
    ascending ps /\
    (forall x, x ∈ ps <-> x ∈ prices b s /\ (x = p -> level (without a la) s p <> [])).
Proof.
  intros Hr Hin s p. unfold removeRef, ref_of. cbn [ref_tradingType ref_price ref_elem]. fold s p.
  assert (Hq : queues b s !! p = Some (level la s p).*1).
  { rewrite (rep_queue _ _ Hr). apply nonempty_Some. split; [done|]. intros Hnil%fmap_nil_inv.
    assert (Hin' : (a, o) ∈ level la s p) by (by apply elem_of_level). rewrite Hnil in Hin'. set_solver. }
  rewrite Hq, queues_set_index, prices_set_index, <- without_addrs, <- level_without.
  pose proof (rep_sorted _ _ Hr s) as Hs.
  destruct (level (without a la) s p) as [|x l] eqn:Hl.
  - cbn [fmap list_fmap length Nat.eqb].
    assert (Hp : p ∈ prices b s).
    { apply (rep_prices _ _ Hr). intros Hnil. rewrite Hnil in Hq. 
      rewrite (rep_queue _ _ Hr), Hnil in Hq. done. }
    destruct (BinarySearch (prices b s) p) as [i fnd] eqn:Hbs.
    pose proof (BinarySearch_lower_bound _ _ _ _ Hs Hbs) as (_ & _ & _ & Hf).
    assert (fnd = true) as -> by tauto.
    destruct (slice_Delete_ascending _ _ _ Hs Hbs) as [Hasc Hmem].
    eexists _, _. split_and!; [done|by rewrite lookup_delete_eq| |done|].
    + intros p' ?. by rewrite lookup_delete_ne.
    + intros y. rewrite Hmem. naive_solver.
  - cbn [fmap list_fmap length Nat.eqb].
    eexists _, _. split_and!; [done|by rewrite lookup_insert_eq| |done|].
    + intros p' ?. by rewrite lookup_insert_ne.
    + naive_solver.
Qed.

(** [removeRef] takes the order out of the abstract book; it does not panic. *)
Lemma rep_removeRef b la a o :
  rep b la -> (a, o) ∈ la ->
  exists b', removeRef b (o_Id o) (ref_of a o) = Done b' /\ rep b' (without a la) /\ elems b' = elems b.
Proof.
  intros Hr Hin. destruct (removeRef_shape b la a o Hr Hin) as (qs & ps & -> & Hqp & Hqo & Hps & Hmem).
  set (s := is_sell (o_TradingType o)) in *. set (p := o_Price o) in *.
  eexists; split; [done|]. split; [|by rewrite elems_set_side].
  pose proof (rep_addrs _ _ Hr) as Hnd.
  split.
  - apply NoDup_fmap_filter, Hr.
  - apply NoDup_fmap_filter, Hr.
  - intros a' o' [Hin' _]%elem_of_without. rewrite elems_set_side. by apply (rep_elems _ _ Hr).
  - intros s' p'. rewrite queues_set_side, queues_set_index. case_decide; subst.
    + destruct (decide (p' = p)) as [->|]; [done|].
      rewrite Hqo, (level_without_ne a o) by naive_solver. apply (rep_queue _ _ Hr).
    + rewrite (level_without_ne a o) by naive_solver. apply (rep_queue _ _ Hr).
  - intros s'. rewrite prices_set_side, prices_set_index.
    case_decide; [done|apply (rep_sorted _ _ Hr)].
  - intros s' p'. rewrite prices_set_side, prices_set_index. case_decide; subst.
    + rewrite Hmem, (rep_prices _ _ Hr). destruct (decide (p' = p)) as [->|].
      * rewrite level_without. split; [naive_solver|]. intros Hne. split; [|done].
        intros Hnil. by rewrite Hnil in Hne.
      * rewrite (level_without_ne a o la s p') by naive_solver. naive_solver.
    + rewrite (level_without_ne a o) by naive_solver. apply (rep_prices _ _ Hr).
  - intros i r. rewrite index_set_side. simpl. rewrite lookup_delete_Some, (rep_index _ _ Hr). split.
    + intros (Hi & a' & o' & Hin' & Hid & ->). exists a', o'. split_and!; [|done..].
      apply elem_of_without. split; [done|]. simpl. intros ->.
      by pose proof (entry_inj_addr _ _ _ _ Hnd Hin Hin') as <-.
    + intros (a' & o' & [Hin' Ha]%elem_of_without & Hid & ->). split; [|eauto].
      intros Heq. rewrite <- Heq in Hid.
      by destruct (entry_inj_id _ _ _ _ _ (rep_ids _ _ Hr) Hin Hin') as [-> _].
Qed.

(** *** Fill *)

Lemma fill_entry_spec a f x :
  fst (fill_entry a f x) = fst x /\ o_Id (snd (fill_entry a f x)) = o_Id (snd x) /\
  o_TradingType (snd (fill_entry a f x)) = o_TradingType (snd x) /\
  o_Price (snd (fill_entry a f x)) = o_Price (snd x).
Proof. unfold fill_entry. by case_decide. Qed.

Lemma fill_entry_addrs a f la : (fill_entry a f <$> la).*1 = la.*1.
Proof. rewrite <- list_fmap_compose. apply list_fmap_ext. intros. apply fill_entry_spec. Qed.

Lemma fill_entry_ids a f la : ids (fill_entry a f <$> la) = ids la.
Proof. unfold ids. rewrite <- list_fmap_compose. apply list_fmap_ext. intros. apply fill_entry_spec. Qed.

Lemma level_fill_entry a f la s p :
  level (fill_entry a f <$> la) s p = fill_entry a f <$> level la s p.
Proof.
  apply filter_fmap_comm. intros x _. unfold at_level.
  by destruct (fill_entry_spec a f x) as (_ & _ & -> & ->).
Qed.

Lemma without_fill_entry a f la : without a (fill_entry a f <$> la) = without a la.
Proof.
  unfold without. rewrite (filter_fmap_comm _ _ (fun x => fst x <> a)).
  - rewrite <- (list_fmap_id (filter _ la)) at 2. apply list_fmap_ext.
    intros i x [Hx _]%list_elem_of_lookup_2%list_elem_of_filter.
    unfold fill_entry. by rewrite decide_False.
  - intros x _. by destruct (fill_entry_spec a f x) as (-> & _).
Qed.

Lemma elem_of_fill_entry a f la a' o' :
  (a', o') ∈ fill_entry a f <$> la <->
  exists o, (a', o) ∈ la /\ o' = if decide (a' = a) then fill_order f o else o.
Proof.
  rewrite list_elem_of_fmap. unfold fill_entry. split.
  - intros ([x o] & Heq & Hin). exists o. simpl in Heq. repeat case_decide; naive_solver.
  - intros (o & Hin & ->). exists (a', o). simpl. by case_decide.
Qed.

(** Mutating an order's filled quantity through its element. *)
Lemma rep_fill_entry b la a o f :
  rep b la -> (a, o) ∈ la ->
  rep (set_elems b (<[a := fill_order f o]> (elems b))) (fill_entry a f <$> la).
Proof.
  intros Hr Hin. split.
  - rewrite fill_entry_ids. apply Hr.
  - rewrite fill_entry_addrs. apply Hr.
  - intros a' o' (o1 & Hin' & ->)%elem_of_fill_entry. simpl.
    pose proof (rep_elems _ _ Hr _ _ Hin') as He. case_decide; subst.
    + rewrite list_lookup_insert_eq by eauto using lookup_lt_Some.
      by rewrite (entry_inj_addr _ _ _ _ (rep_addrs _ _ Hr) Hin Hin').
    + by rewrite list_lookup_insert_ne.
  - intros s p. rewrite queues_set_elems, level_fill_entry, fill_entry_addrs. apply Hr.
  - intros s. rewrite prices_set_elems. apply Hr.
  - intros s p. rewrite prices_set_elems, level_fill_entry, (rep_prices _ _ Hr).
    by destruct (level la s p).
  - intros i r. simpl. rewrite (rep_index _ _ Hr). split.
    + intros (a' & o' & Hin' & <- & ->). eexists a', _. split_and!.
      { apply elem_of_fill_entry; eauto. } all: by case_decide.
    + intros (a' & o' & (o1 & Hin' & ->)%elem_of_fill_entry & <- & ->).
      exists a', o1. split_and!; [done|..]; by case_decide.
Qed.

Lemma remaining_open o : open_order o -> remaining o = o_Quantity o - o_FilledQuantity o.
Proof. unfold open_order, remaining. intros. u64_simpl. done. Qed.

Lemma rep_Fill b la a o want :
  rep b la -> (a, o) ∈ la -> open_order o -> 0 < want ->
  let f := Z.min want (o_Quantity o - o_FilledQuantity o) in
  exists b', Fill b (o_Id o) want = Done (b', f) /\ rep b' (fill_book a o f la).
Proof.
  intros Hr Hin Ho Hw f. unfold Fill.
  assert (index b !! o_Id o = Some (ref_of a o)) as -> by (apply (rep_index _ _ Hr); eauto).
  cbn [ref_elem ref_of]. rewrite (rep_Value _ _ _ _ Hr Hin), remaining_open by done. fold f.
  assert (Hf : 0 < f) by (unfold open_order in Ho; lia).
  destruct (Z.eqb_spec f 0) as [|_]; [lia|].
  pose proof (rep_fill_entry _ _ _ _ f Hr Hin) as Hr'. unfold fill_order in Hr'.
  unfold fill_book. cbn [o_FilledQuantity o_Quantity set_FilledQuantity].
  unfold open_order in Ho. rewrite add64_exact in Hr' |- * by lia.
  destruct (Z.eqb_spec (o_FilledQuantity o + f) (o_Quantity o)) as [Heq|Hne].
  - rewrite decide_True by done.
    destruct (rep_removeRef _ _ a (fill_order f o) Hr') as (b' & Hrem & Hrep & _).
    { apply elem_of_fill_entry. exists o. by rewrite decide_True. }
    rewrite without_fill_entry in Hrep. exists b'. split; [|done].
    change (o_Id o) with (o_Id (fill_order f o)).
    change (ref_of a o) with (ref_of a (fill_order f o)). by rewrite Hrem.
  - rewrite decide_False by done. eauto.
Qed.

Lemma rep_Cancel b la a o :
  rep b la -> (a, o) ∈ la ->
  exists b', Cancel b (o_Id o) = Done (b', true) /\ rep b' (without a la).
Proof.
  intros Hr Hin. unfold Cancel.
  assert (index b !! o_Id o = Some (ref_of a o)) as -> by (apply (rep_index _ _ Hr); eauto).
  destruct (rep_removeRef _ _ _ _ Hr Hin) as (b' & -> & ? & _). by exists b'.
Qed.

(** *** Queries *)

Lemma rep_price_active b la s p :
  rep b la -> p ∈ prices b s <-> exists a o, (a, o) ∈ la /\ is_sell (o_TradingType o) = s /\ o_Price o = p.
Proof.
  intros Hr. rewrite (rep_prices _ _ Hr). split.
  - intros Hne. destruct (level la s p) as [|[a o] l] eqn:Hl; [done|].
    exists a, o. apply elem_of_level. rewrite Hl. left.
  - intros (a & o & Hin & Hs & Hp) Hnil.
    assert (Hin' : (a, o) ∈ level la s p) by (by apply elem_of_level). rewrite Hnil in Hin'. set_solver.
Qed.

Lemma rep_Front b la side p :
  rep b la -> Front b side p = snd <$> head (level la (is_sell side) p).
Proof.
  intros Hr. unfold Front. rewrite (rep_queue _ _ Hr).
  destruct (level la (is_sell side) p) as [|[a o] l] eqn:Hl; [done|]. simpl.
  rewrite (rep_Value b la a o Hr); [done|].
  assert (Hin : (a, o) ∈ level la (is_sell side) p) by (rewrite Hl; left).
  by apply elem_of_level in Hin as [? _].
Qed.

Lemma rep_Get b la i o : rep b la -> Get b i = Some o <-> exists a, (a, o) ∈ la /\ o_Id o = i.
Proof.
  intros Hr. unfold Get. destruct (index b !! i) as [r|] eqn:Hi.
  - apply (rep_index _ _ Hr) in Hi as (a & o' & Hin & Hid & ->). cbn [ref_elem ref_of].
    rewrite (rep_Value _ _ _ _ Hr Hin). split; [naive_solver|].
    intros (a' & Hin' & Hid'). f_equal.
    by destruct (entry_inj_id la a a' o' o (rep_ids _ _ Hr)) as [_ ->]; [done..|congruence|].
  - rewrite (rep_index_None _ _ _ Hr) in Hi. split; [done|].
    intros (a & Hin & Hid). exfalso. apply Hi, elem_of_ids. eauto.
Qed.

Lemma levelQuantity_sum b q :
  levelQuantity b q = u64 (lsum (fun a => remaining (Value b a)) q).
Proof.
  unfold levelQuantity. change 0 with (u64 0) at 1.
  replace (lsum _ q) with (0 + lsum (fun a => remaining (Value b a)) q) by lia.
  generalize 0. induction q as [|a q IH]; intros acc; simpl.
  { by rewrite Z.add_0_r. }
  rewrite Z.add_assoc, <- IH. f_equal. unfold add64, u64. by rewrite Zplus_mod_idemp_l.
Qed.

Lemma rep_LevelQuantity b la side p :
  rep b la -> LevelQuantity b side p = u64 (lsum (fun x => remaining (snd x)) (level la (is_sell side) p)).
Proof.
  intros Hr. unfold LevelQuantity. rewrite (rep_queue _ _ Hr).
  assert (Hsum : levelQuantity b (level la (is_sell side) p).*1 =
    u64 (lsum (fun x => remaining (snd x)) (level la (is_sell side) p))).
  { rewrite levelQuantity_sum, lsum_map. f_equal. apply lsum_ext. intros [a o] Hin. simpl.
    apply elem_of_level in Hin as [Hin _]. by rewrite (rep_Value _ _ _ _ Hr Hin). }
  by destruct (level la (is_sell side) p).
Qed.

(** *** Flattening *)

(** The orders of one side as [orders] lists them: by ascending price, then by arrival. *)
Definition flat_side b la (s : bool) : list Order :=
  concat ((fun p => (level la s p).*2) <$> prices b s).

Lemma rep_side_orders b la s ps :
  rep b la -> (forall p, p ∈ ps -> p ∈ prices b s) ->
  side_orders b s ps = Done (concat ((fun p => (level la s p).*2) <$> ps)).
Proof.
  intros Hr. induction ps as [|p ps IH]; intros Hps; [done|]. simpl.
  assert (Hne : level la s p <> []) by (apply (rep_prices _ _ Hr), Hps; left).
  rewrite (rep_queue _ _ Hr). rewrite IH by set_solver.
  assert (nonempty (level la s p).*1 = Some (level la s p).*1) as -> by (by destruct (level la s p)).
  simpl. do 2 f_equal. rewrite <- list_fmap_compose. apply list_fmap_ext.
  intros i [a o] Hi%list_elem_of_lookup_2. apply elem_of_level in Hi as [Hi _].
  by apply (rep_Value _ la).
Qed.

Lemma rep_orders b la : rep b la -> orders b = Done (flat_side b la false ++ flat_side b la true).
Proof.
  intros Hr. unfold orders. change (buyPrices b) with (prices b false).
  change (sellPrices b) with (prices b true). by rewrite !(rep_side_orders b la).
Qed.

Lemma ascending_NoDup xs : ascending xs -> NoDup xs.
Proof.
  induction 1 as [|x xs Hs IH Hall]; constructor; [|done].
  rewrite Forall_forall in Hall. intros Hx%Hall. lia.
Qed.

Lemma flat_side_perm b la s :
  rep b la -> flat_side b la s ≡ₚ (filter (fun x => is_sell (o_TradingType (snd x)) = s) la).*2.
Proof.
  intros Hr. unfold flat_side.
  pose proof (ascending_NoDup _ (rep_sorted _ _ Hr s)) as Hnd.
  assert (Hcov : forall x, x ∈ la -> is_sell (o_TradingType (snd x)) = s -> o_Price (snd x) ∈ prices b s).
  { intros [a o] ? ?. apply (rep_price_active _ _ _ _ Hr). eauto. }
  revert Hcov Hnd. clear Hr. generalize (prices b s) as ps. intros ps. revert la.
  induction ps as [|p ps IH]; intros la Hcov Hnd; simpl.
  { rewrite filter_none; [done|]. intros x Hx Hs. specialize (Hcov x Hx Hs). set_solver. }
  apply NoDup_cons in Hnd as [Hp Hnd].
  rewrite (Permutation_filter_split (fun x => o_Price (snd x) = p) la) at 2.
  rewrite filter_app, fmap_app. f_equiv.
  - unfold level. rewrite list_filter_filter. apply reflexive_eq. f_equal.
  - rewrite <- IH; [| |done].
    + apply reflexive_eq. f_equal. apply list_fmap_ext. intros i q Hq%list_elem_of_lookup_2. f_equal.
      unfold level. rewrite list_filter_filter. apply list_filter_iff.
      intros x. unfold at_level. split; [|tauto]. intros [? Hx]. split_and!; [done..|]. intros Hx'. congruence.
    + intros x [Hne Hx]%list_elem_of_filter Hs. specialize (Hcov x Hx Hs). set_solver.
Qed.

(** Flattening loses no order and invents none. *)
Lemma orders_perm b la os : rep b la -> orders b = Done os -> os ≡ₚ la.*2.
Proof.
  intros Hr. rewrite (rep_orders _ _ Hr). intros [= <-].
  rewrite !(flat_side_perm _ _ _ Hr), <- fmap_app.
  rewrite (Permutation_filter_split (fun x => is_sell (o_TradingType (snd x)) = false) la) at 3.
  apply fmap_Permutation. f_equiv. apply reflexive_eq, list_filter_iff.
  intros x. by destruct (is_sell (o_TradingType (snd x))).
Qed.
End book_lemmas.
