(* ===== verification/BookSpec.v ===== *)
(** * Price-time priority

    The reference order in which resting orders must be matched, defined on
    the abstract book: best price first, and within a price by arrival. The
    concrete queries [BestAsk], [BestBid] and [Front] are shown to find the
    head of that order, and the operations to act on it as expected. *)

From S2P Require Import Prelude Domain Slices OrderBook.

(** [better s p q]: on side [s] (true for sell orders) a resting order at price
    [p] is matched no later than one at [q]. *)
Definition better (s : bool) (p q : Z) : Prop := if s then p <= q else q <= p.
#[export] Instance better_dec s p q : Decision (better s p q).
Proof. destruct s; simpl; apply _. Defined.

Definition price_of (x : entry) : Z := o_Price (snd x).

(** Stable insertion: a new order goes behind every order that is at least as good. *)
Fixpoint insert_prio (s : bool) (x : entry) (l : abook) : abook :=
  match l with
  | [] => [x]
  | y :: l' => if decide (better s (price_of y) (price_of x)) then y :: insert_prio s x l' else x :: l
  end.

Definition on_side (s : bool) (la : abook) : abook :=
  filter (fun x => is_sell (o_TradingType (snd x)) = s) la.

(** The resting orders of one side in matching order. *)
Definition by_priority (s : bool) (la : abook) : abook :=
  foldl (fun acc x => insert_prio s x acc) [] (on_side s la).

(** The best price of one side. *)
Definition best (b : OrderBook) (s : bool) : option Z := if s then BestAsk b else BestBid b.

(** The side as the trading type the code passes to [Front]. *)
Definition side_type (s : bool) : TradingType := if s then TRADING_SELL else TRADING_BUY.

(** What makes a list the priority order of [la]: it is sorted by price, it
    holds only that side, and every level appears in arrival order. *)
Definition sorted_prio (s : bool) : abook -> Prop :=
  StronglySorted (fun x y => better s (price_of x) (price_of y)).

Record prioritised (s : bool) (la l : abook) : Prop := {
  prio_sorted : sorted_prio s l;
  prio_side x : x ∈ l -> is_sell (o_TradingType (snd x)) = s;
  prio_level p : filter (at_level s p) l = level la s p
}.

Section priority.
Implicit Types (la l : abook) (x y : entry).

Lemma better_refl s p : better s p p.
Proof. destruct s; simpl; lia. Qed.

Lemma better_trans s p q r : better s p q -> better s q r -> better s p r.
Proof. destruct s; simpl; lia. Qed.

Lemma better_total s p q : better s p q \/ better s q p.
Proof. destruct s; simpl; lia. Qed.

Lemma better_antisym s p q : better s p q -> better s q p -> p = q.
Proof. destruct s; simpl; lia. Qed.

Lemma insert_prio_perm s x l : insert_prio s x l ≡ₚ x :: l.
Proof.
  induction l as [|y l IH]; simpl; [done|]. case_decide; [|done].
  rewrite IH. apply Permutation_swap.
Qed.

Lemma insert_prio_sorted s x l : sorted_prio s l -> sorted_prio s (insert_prio s x l).
Proof.
  unfold sorted_prio. induction 1 as [|y l Hs IH Hall]; simpl.
  { repeat constructor. }
  case_decide as Hyx.
  - constructor; [done|]. rewrite insert_prio_perm. by constructor.
  - constructor; [by constructor|].
    assert (Hxy : better s (price_of x) (price_of y)) by (destruct (better_total s (price_of x) (price_of y)); naive_solver).
    constructor; [done|]. eapply Forall_impl; [done|]. intros z. by apply better_trans.
Qed.

Lemma insert_prio_level s x l p :
  sorted_prio s l ->
  filter (at_level s p) (insert_prio s x l) =
  filter (at_level s p) l ++ if decide (at_level s p x) then [x] else [].
Proof.
  unfold sorted_prio. induction 1 as [|y l Hs IH Hall]; simpl; [done|].
  destruct (decide (better s (price_of y) (price_of x))) as [Hyx|Hyx].
  - rewrite !filter_cons, IH. by destruct (decide (at_level s p y)).
  - rewrite (filter_cons _ x). destruct (decide (at_level s p x)) as [Hx|Hx]; [|by rewrite app_nil_r].
    assert (filter (at_level s p) (y :: l) = []) as ->; [|done].
    apply filter_none. intros z Hz [_ Hzp]. apply Hyx.
    destruct Hx as [_ Hxp]. unfold price_of. rewrite Hxp, <- Hzp.
    apply elem_of_cons in Hz as [->|Hz]; [apply better_refl|].
    rewrite Forall_forall in Hall. by apply Hall.
Qed.

(** The reference order is the priority order. *)
Lemma by_priority_ok s la : prioritised s la (by_priority s la) /\ by_priority s la ≡ₚ on_side s la.
Proof.
  assert (Hlev : forall p, level (on_side s la) s p = level la s p).
  { intros p. unfold level, on_side. rewrite list_filter_filter.
    apply list_filter_iff. unfold at_level. tauto. }
  assert (Hside : forall x, x ∈ on_side s la -> is_sell (o_TradingType (snd x)) = s)
    by (intros x [? _]%list_elem_of_filter; done).
  unfold by_priority. revert Hlev Hside. generalize (on_side s la) as k. intros k Hlev Hside.
  enough (Hgen : sorted_prio s (foldl (fun acc x => insert_prio s x acc) [] k) /\
    foldl (fun acc x => insert_prio s x acc) [] k ≡ₚ k /\
    forall p, filter (at_level s p) (foldl (fun acc x => insert_prio s x acc) [] k) = level k s p).
  { destruct Hgen as (Hs & Hp & Hl). split; [|done]. split; [done| |].
    - intros x. rewrite Hp. apply Hside.
    - intros p. by rewrite Hl. }
  clear. induction k as [|x k IH] using rev_ind; [by repeat constructor|].
  destruct IH as (Hs & Hp & Hl). rewrite foldl_app. simpl. split_and!.
  - by apply insert_prio_sorted.
  - rewrite insert_prio_perm, Hp. apply Permutation_cons_append.
  - intros p. rewrite insert_prio_level, Hl by done. unfold level.
    rewrite filter_app, filter_cons, filter_nil. by case_decide.
Qed.

Lemma prioritised_elem s la l x :
  prioritised s la l -> x ∈ l <-> x ∈ la /\ is_sell (o_TradingType (snd x)) = s.
Proof.
  intros Hp. split.
  - intros Hx. pose proof (prio_side _ _ _ Hp _ Hx) as Hs. split; [|done].
    assert (Hx' : x ∈ level la s (price_of x)).
    { rewrite <- (prio_level _ _ _ Hp). by apply list_elem_of_filter. }
    by apply list_elem_of_filter in Hx' as [_ ?].
  - intros [Hx Hs]. assert (Hx' : x ∈ filter (at_level s (price_of x)) l).
    { rewrite (prio_level _ _ _ Hp). by apply list_elem_of_filter. }
    by apply list_elem_of_filter in Hx' as [_ ?].
Qed.

(** [BestAsk]/[BestBid] give the price of the first order in priority. *)
Lemma best_head b la s l :
  rep b la -> prioritised s la l -> best b s = price_of <$> head l.
Proof.
  intros Hr Hp.
  assert (Hact : forall p, p ∈ prices b s <-> exists x, x ∈ l /\ price_of x = p).
  { intros p. rewrite (rep_price_active _ _ _ _ Hr). split.
    - intros (a & o & ? & ? & ?). exists (a, o). split; [|done]. by apply (prioritised_elem s la).
    - intros ([a o] & Hx & Hpx). apply (prioritised_elem s la) in Hx as [? ?]; [|done]. eauto. }
  assert (Hbest : forall p, p ∈ prices b s -> (forall q, q ∈ prices b s -> better s p q) ->
    price_of <$> head l = Some p).
  { intros p Hin Hmin. destruct l as [|x l]; [apply Hact in Hin as (?&?&?); set_solver|]. simpl. f_equal.
    apply (better_antisym s).
    - apply Hact in Hin as (y & [->|Hy]%elem_of_cons & <-); [apply better_refl|].
      destruct Hp as [Hs _ _]. inversion Hs as [|?? _ Hall]; subst.
      rewrite Forall_forall in Hall. by apply Hall.
    - apply Hmin, Hact. exists x. split; [left|done]. }
  assert (Hnil : prices b s = [] -> price_of <$> head l = None).
  { intros Hnil. destruct l as [|x l]; [done|]. exfalso.
    assert (price_of x ∈ prices b s) as Hx by (apply Hact; exists x; split; [left|done]).
    rewrite Hnil in Hx. set_solver. }
  pose proof (rep_sorted _ _ Hr s) as Hs. destruct s; simpl in *.
  - unfold BestAsk. destruct (sellPrices b) as [|p ps]; [by rewrite Hnil|].
    symmetry. apply Hbest; [left|]. inversion Hs as [|?? _ Hall]; subst.
    rewrite Forall_forall in Hall. intros q [->|Hq]%elem_of_cons; [done|]. apply Z.lt_le_incl. auto.
  - unfold BestBid. destruct (buyPrices b) as [|p ps _] eqn:Hbp using rev_ind; [by rewrite Hnil|].
    rewrite length_app. simpl. replace (length ps + 1 - 1)%nat with (length ps) by lia.
    rewrite list_lookup_middle by done. apply ascending_app in Hs as (_ & _ & Hlt).
    transitivity (Some p); [by destruct (ps ++ [p]) eqn:E; [destruct ps|]|].
    symmetry. apply Hbest; [set_solver|].
    intros q [Hq| ->%list_elem_of_singleton]%elem_of_app; [|done]. 
    apply Z.lt_le_incl, Hlt; set_solver.
Qed.

(** [Front] at the best price gives the first order in priority. *)
Lemma front_head b la s x l :
  rep b la -> prioritised s la (x :: l) -> Front b (side_type s) (price_of x) = Some (snd x).
Proof.
  intros Hr Hp. rewrite (rep_Front _ _ _ _ Hr).
  replace (is_sell (side_type s)) with s by by destruct s.
  rewrite <- (prio_level _ _ _ Hp), filter_cons_True; [done|].
  split; [|done]. apply (prio_side _ _ _ Hp). left.
Qed.

Lemma prioritised_without s la x l :
  NoDup la.*1 -> prioritised s la (x :: l) -> prioritised s (without (fst x) la) l.
Proof.
  intros Hnd [Hs Hside Hlev]. split.
  - by inversion Hs.
  - set_solver.
  - intros p. rewrite level_without, <- Hlev.
    assert (Hnd' : NoDup ((filter (at_level s p) (x :: l)).*1)) by (rewrite Hlev; by apply NoDup_fmap_filter).
    rewrite filter_cons in *. case_decide as Hxp.
    + unfold without. rewrite filter_cons_False by naive_solver. symmetry. apply filter_all.
      intros y Hy Heq. apply NoDup_cons in Hnd' as [Hx _]. apply Hx. apply list_elem_of_fmap. eauto.
    + symmetry. apply filter_all. intros [a o] Hy Heq. simpl in Heq. subst a.
      rewrite <- (filter_cons_False _ x) in Hy by done. rewrite Hlev in Hy. apply elem_of_level in Hy as (Hy & Hsy & Hpy).
      assert (Hx : x ∈ la).
      { apply (prioritised_elem s la (x :: l)); [done|left]. }
      destruct x as [a ox]. simpl in *.
      pose proof (entry_inj_addr _ _ _ _ Hnd Hx Hy) as <-. by destruct Hxp.
Qed.

Lemma prioritised_fill s la l a f :
  prioritised s la l -> prioritised s (fill_entry a f <$> la) (fill_entry a f <$> l).
Proof.
  intros [Hs Hside Hlev]. split.
  - unfold sorted_prio in *. clear Hside Hlev. induction Hs as [|y k Hs IH Hall]; csimpl; constructor; [done|].
    apply Forall_fmap. eapply Forall_impl; [done|]. intros z. unfold price_of. simpl.
    destruct (fill_entry_spec a f y) as (_ & _ & _ & ->).
    by destruct (fill_entry_spec a f z) as (_ & _ & _ & ->).
  - intros y (z & -> & Hz)%list_elem_of_fmap.
    destruct (fill_entry_spec a f z) as (_ & _ & -> & _). by apply Hside.
  - intros p. rewrite level_fill_entry, <- Hlev. apply filter_fmap_comm.
    intros z _. unfold at_level. by destruct (fill_entry_spec a f z) as (_ & _ & -> & ->).
Qed.
End priority.

(** ** The book as an abstract machine

    The promise of the order book to the matching engine, without prices
    slices, index or elements: a list of resting orders in order of arrival. *)

Inductive book_op :=
  | OpAdd (o : Order)
  | OpCancel (orderId : Z)
  | OpFill (orderId want : Z).

(** What an operation returns: nothing, a success flag, or the filled quantity. *)
Inductive book_res :=
  | ResUnit
  | ResBool (ok : bool)
  | ResQty (filled : Z).

Definition run_op (b : OrderBook) (op : book_op) : outcome (OrderBook * book_res) :=
  match op with
  | OpAdd o => Done (Add b o, ResUnit)
  | OpCancel i => '(b, ok) <~ Cancel b i; Done (b, ResBool ok)
  | OpFill i want => '(b, f) <~ Fill b i want; Done (b, ResQty f)
  end.

Definition spec_find (i : Z) (l : list Order) : option Order :=
  head (filter (fun o => o_Id o = i) l).

Definition spec_op (l : list Order) (op : book_op) : list Order * book_res :=
  match op with
  | OpAdd o => (l ++ [o], ResUnit)
  | OpCancel i =>
      match spec_find i l with
      | None => (l, ResBool false)
      | Some _ => (filter (fun o => o_Id o <> i) l, ResBool true)
      end
  | OpFill i want =>
      match spec_find i l with
      | None => (l, ResQty 0)
      | Some o =>
          let f := Z.min want (o_Quantity o - o_FilledQuantity o) in
          let o' := set_FilledQuantity (o_FilledQuantity o + f) o in
          if Z.eqb f 0 then (l, ResQty 0)
          else if Z.eqb (o_FilledQuantity o') (o_Quantity o')
          then (filter (fun o => o_Id o <> i) l, ResQty f)
          else ((fun x => if decide (o_Id x = i) then o' else x) <$> l, ResQty f)
      end
  end.

(** The client's side of the contract: a new order is open and its id is not
    resting, and a wanted quantity is a [uint64]. *)
Definition op_ok (l : list Order) (op : book_op) : bool :=
  match op with
  | OpAdd o => bool_decide (open_order o) && bool_decide (o_Id o ∉ o_Id <$> l)
  | OpCancel _ => true
  | OpFill _ want => bool_decide (is_u64 want)
  end.

Fixpoint run_ops (b : OrderBook) (ops : list book_op) : outcome (OrderBook * list book_res) :=
  match ops with
  | [] => Done (b, [])
  | op :: ops => '(b, r) <~ run_op b op; '(b, rs) <~ run_ops b ops; Done (b, r :: rs)
  end.

Fixpoint spec_ops (l : list Order) (ops : list book_op) : list Order * list book_res :=
  match ops with
  | [] => (l, [])
  | op :: ops => let '(l, r) := spec_op l op in let '(l, rs) := spec_ops l ops in (l, r :: rs)
  end.

Fixpoint ops_ok (l : list Order) (ops : list book_op) : bool :=
  match ops with
  | [] => true
  | op :: ops => op_ok l op && ops_ok (fst (spec_op l op)) ops
  end.

(** The best resting order of one side: best price, then earliest arrival. *)
Definition spec_best (s : bool) (l : list Order) : option Order :=
  foldl (fun acc o =>
    if decide (is_sell (o_TradingType o) = s) then
      match acc with
      | Some o' => if decide (better s (o_Price o') (o_Price o)) then acc else Some o
      | None => Some o
      end
    else acc) None l.

(** One side of the arrival list in matching order: best price first, and
    within a price by arrival. *)
Fixpoint insert_order (s : bool) (o : Order) (l : list Order) : list Order :=
  match l with
  | [] => [o]
  | o' :: l' => if decide (better s (o_Price o') (o_Price o)) then o' :: insert_order s o l' else o :: l
  end.

Definition priority (s : bool) (l : list Order) : list Order :=
  foldl (fun acc o => insert_order s o acc) [] (filter (fun o => is_sell (o_TradingType o) = s) l).

(** The book [b] implements the arrival list [l]. *)
Definition refines (b : OrderBook) (l : list Order) : Prop :=
  exists la, rep b la /\ la.*2 = l /\ Forall open_order l.

Section machine.
Implicit Types (la : abook) (l : list Order).

Lemma spec_find_Some la a o :
  NoDup (ids la) -> (a, o) ∈ la -> spec_find (o_Id o) la.*2 = Some o.
Proof.
  intros Hnd Hin. unfold spec_find.
  rewrite (filter_fmap_comm snd _ (fun x : entry => o_Id (snd x) = o_Id o)) by done.
  assert (Hx : (a, o) ∈ filter (fun x : entry => o_Id (snd x) = o_Id o) la)
    by (by apply list_elem_of_filter).
  destruct (filter _ la) as [|[a' o'] k] eqn:Hk; [set_solver|]. simpl. f_equal.
  assert (Hin' : (a', o') ∈ filter (fun x : entry => o_Id (snd x) = o_Id o) la) by (rewrite Hk; left).
  apply list_elem_of_filter in Hin' as [Heq Hin']. simpl in Heq.
  by destruct (entry_inj_id _ _ _ _ _ Hnd Hin' Hin Heq).
Qed.

Lemma spec_find_None l i : spec_find i l = None <-> i ∉ o_Id <$> l.
Proof.
  unfold spec_find. rewrite list_elem_of_fmap. split.
  - intros Hh (o & -> & Hin).
    assert (Hin' : o ∈ filter (fun x => o_Id x = o_Id o) l) by (by apply list_elem_of_filter).
    destruct (filter _ l); [set_solver|done].
  - intros Hno. rewrite filter_none; [done|]. intros o Hin <-. apply Hno. eauto.
Qed.

Lemma ids_orders la : ids la = o_Id <$> la.*2.
Proof. unfold ids. by rewrite <- list_fmap_compose. Qed.

Lemma without_orders la a o :
  NoDup (ids la) -> NoDup la.*1 -> (a, o) ∈ la ->
  (without a la).*2 = filter (fun x => o_Id x <> o_Id o) la.*2.
Proof.
  intros Hi Ha Hin. symmetry. apply filter_fmap_comm. intros [a' o'] Hin'. simpl.
  split; intros Hne ?; subst.
  - by rewrite (entry_inj_addr _ _ _ _ Ha Hin Hin') in Hne.
  - by destruct (entry_inj_id _ _ _ _ _ Hi Hin Hin') as [-> _].
Qed.

Lemma fill_entry_orders la a o f :
  NoDup (ids la) -> NoDup la.*1 -> (a, o) ∈ la ->
  (fill_entry a f <$> la).*2 = (fun x => if decide (o_Id x = o_Id o) then fill_order f o else x) <$> la.*2.
Proof.
  intros Hi Ha Hin. rewrite <- !list_fmap_compose. apply list_fmap_ext.
  intros n [a' o'] Hin'%list_elem_of_lookup_2. unfold fill_entry. simpl. repeat case_decide; simplify_eq/=.
  - by rewrite (entry_inj_addr _ _ _ _ Ha Hin Hin').
  - by pose proof (entry_inj_addr _ _ _ _ Ha Hin Hin') as <-.
  - by destruct (entry_inj_id _ _ _ _ _ Hi Hin Hin') as [-> _].
  - done.
Qed.

Lemma fill_order_open o f :
  open_order o -> 0 <= f < o_Quantity o - o_FilledQuantity o -> open_order (fill_order f o).
Proof. unfold open_order, fill_order. simpl. intros. rewrite add64_exact by lia. lia. Qed.

(** A fill of the abstract book is the machine's fill. *)
Lemma fill_book_spec la a o f :
  NoDup (ids la) -> NoDup la.*1 -> (a, o) ∈ la -> open_order o -> 0 < f <= o_Quantity o - o_FilledQuantity o ->
  fst (spec_op la.*2 (OpFill (o_Id o) f)) = (fill_book a o f la).*2.
Proof.
  intros Hi Ha Hin Ho Hf. cbn [spec_op]. rewrite (spec_find_Some la a o Hi Hin). rewrite Z.min_l by lia.
  destruct (Z.eqb_spec f 0) as [|_]; [lia|]. unfold fill_book. cbn [o_FilledQuantity set_FilledQuantity o_Quantity].
  destruct (Z.eqb_spec (o_FilledQuantity o + f) (o_Quantity o)) as [He|He].
  - rewrite decide_True by done. symmetry. by apply without_orders.
  - rewrite decide_False by done. rewrite (fill_entry_orders la a o f) by done. unfold fill_order.
    rewrite add64_exact; [done|]. unfold open_order in Ho. lia.
Qed.

Lemma spec_find_inv la i o : spec_find i la.*2 = Some o -> exists a, (a, o) ∈ la /\ o_Id o = i.
Proof.
  intros [k Hk]%head_Some.
  assert (Ho : o ∈ filter (fun x => o_Id x = i) la.*2) by (rewrite Hk; left).
  apply list_elem_of_filter in Ho as [? ([a o'] & -> & ?)%list_elem_of_fmap]. eauto.
Qed.

Lemma index_spec_find b la i : rep b la -> spec_find i la.*2 = None -> index b !! i = None.
Proof. intros Hr Hf. by rewrite (rep_index_None _ _ _ Hr), ids_orders, <- spec_find_None. Qed.

Lemma cancel_refines b la i :
  rep b la -> Forall open_order la.*2 ->
  let '(l', r) := spec_op la.*2 (OpCancel i) in
  exists b', run_op b (OpCancel i) = Done (b', r) /\ refines b' l'.
Proof.
  intros Hr Hopen. simpl. destruct (spec_find i la.*2) as [o|] eqn:Hf.
  - apply spec_find_inv in Hf as (a & Hin & <-).
    destruct (rep_Cancel _ _ _ _ Hr Hin) as (b' & -> & Hr'). simpl. eexists; split; [done|].
    exists (without a la). split_and!; [done|apply without_orders; [apply Hr|apply Hr|done]|].
    by apply Forall_filter.
  - unfold Cancel. rewrite (index_spec_find _ _ _ Hr Hf). eexists; split; [done|]. by exists la.
Qed.

Lemma fill_refines b la i want :
  rep b la -> Forall open_order la.*2 -> is_u64 want ->
  let '(l', r) := spec_op la.*2 (OpFill i want) in
  exists b', run_op b (OpFill i want) = Done (b', r) /\ refines b' l'.
Proof.
  intros Hr Hopen Hw. simpl. destruct (spec_find i la.*2) as [o|] eqn:Hf.
  2: { unfold Fill. rewrite (index_spec_find _ _ _ Hr Hf). eexists; split; [done|]. by exists la. }
  apply spec_find_inv in Hf as (a & Hin & <-).
  assert (Ho : open_order o) by (rewrite Forall_forall in Hopen; apply Hopen; apply list_elem_of_fmap; by exists (a, o)).
  set (f := Z.min want (o_Quantity o - o_FilledQuantity o)).
  destruct (Z.eqb_spec f 0) as [Hf0|Hf0].
  { unfold Fill. rewrite (proj2 (rep_index _ _ Hr _ _)) by eauto. cbn [ref_elem ref_of].
    rewrite (rep_Value _ _ _ _ Hr Hin), remaining_open by done. fold f. rewrite Hf0. simpl.
    eexists; split; [done|]. by exists la. }
  destruct (rep_Fill b la a o want) as (b' & -> & Hr'); [done..|unfold is_u64, open_order in *; lia|].
  fold f in Hr' |- *. simpl. unfold fill_book in Hr'.
  destruct (Z.eqb_spec (o_FilledQuantity o + f) (o_Quantity o)) as [Heq|Hne].
  - rewrite decide_True in Hr' by done. eexists; split; [done|].
    exists (without a la). split_and!; [done|apply without_orders; [apply Hr|apply Hr|done]|].
    by apply Forall_filter.
  - rewrite decide_False in Hr' by done. eexists; split; [done|].
    exists (fill_entry a f <$> la). split; [done|].
    assert (Hfo : set_FilledQuantity (o_FilledQuantity o + f) o = fill_order f o).
    { unfold fill_order. rewrite add64_exact; [done|]. unfold is_u64, open_order in *. lia. }
    rewrite (fill_entry_orders la a o f), Hfo by (apply Hr || done). split; [done|].
    apply Forall_fmap. eapply Forall_impl; [exact Hopen|]. intros x Hx. simpl. case_decide; [|done].
    apply fill_order_open; [done|]. unfold is_u64, open_order in *. lia.
Qed.

(** One operation: the book does what the abstract machine does, and does not panic. *)
Lemma run_op_refines b l op :
  refines b l -> op_ok l op = true ->
  exists b', run_op b op = Done (b', snd (spec_op l op)) /\ refines b' (fst (spec_op l op)).
Proof.
  intros (la & Hr & <- & Hopen) Hok. destruct op as [o|i|i want].
  - apply andb_true_iff in Hok as [Ho Hid]. rewrite bool_decide_eq_true in Ho, Hid.
    rewrite <- ids_orders in Hid. eexists; split; [done|].
    eexists; split; [by apply rep_Add|]. rewrite fmap_app. split; [done|].
    apply Forall_app. split; [done|]. by apply Forall_singleton.
  - pose proof (cancel_refines b la i Hr Hopen) as H. by destruct (spec_op la.*2 (OpCancel i)).
  - unfold op_ok in Hok. rewrite bool_decide_eq_true in Hok.
    pose proof (fill_refines b la i want Hr Hopen Hok) as H. by destruct (spec_op la.*2 (OpFill i want)).
Qed.

Lemma run_ops_refines b l ops :
  refines b l -> ops_ok l ops = true ->
  exists b', run_ops b ops = Done (b', snd (spec_ops l ops)) /\ refines b' (fst (spec_ops l ops)).
Proof.
  revert b l. induction ops as [|op ops IH]; intros b l Hr Hok; simpl in *; [eauto|].
  apply andb_true_iff in Hok as [Hop Hok].
  destruct (run_op_refines b l op Hr Hop) as (b1 & -> & Hr1).
  destruct (spec_op l op) as [l1 r]. simpl in *.
  destruct (IH b1 l1 Hr1 Hok) as (b2 & -> & Hr2).
  destruct (spec_ops l1 ops) as [l2 rs]. simpl in *. eauto.
Qed.

(** The best order of the arrival list is the head of the priority order. *)
Lemma spec_best_head s la : spec_best s la.*2 = snd <$> head (by_priority s la).
Proof.
  unfold spec_best, by_priority, on_side. induction la as [|[a o] la IH] using rev_ind; [done|].
  rewrite fmap_app, filter_app, !foldl_app, IH. simpl. rewrite filter_cons, filter_nil. simpl.
  case_decide; [|done]. simpl.
  set (l := foldl _ [] _). destruct l as [|y l']; simpl; [done|].
  unfold price_of. simpl. by case_decide.
Qed.

Lemma by_priority_orders s la : (by_priority s la).*2 = priority s la.*2.
Proof.
  assert (Hins : forall x (l : abook), (insert_prio s x l).*2 = insert_order s (snd x) l.*2).
  { intros x. induction l as [|y l IH]; [done|]. cbn. unfold price_of. case_decide; [|done]. cbn. by rewrite IH. }
  unfold by_priority, priority, on_side. induction la as [|[a o] la IH] using rev_ind; [done|].
  rewrite fmap_app, !filter_app, !foldl_app, <- IH. change ([(a, o)].*2) with [o].
  rewrite !filter_cons, !filter_nil. cbn [snd].
  case_decide; [|done]. cbn [foldl]. by rewrite Hins.
Qed.

Lemma refines_best b l s :
  refines b l ->
  best b s = o_Price <$> spec_best s l /\
  forall o, spec_best s l = Some o -> Front b (side_type s) (o_Price o) = Some o.
Proof.
  intros (la & Hr & <- & _). destruct (by_priority_ok s la) as [Hp _].
  rewrite spec_best_head. split.
  - rewrite (best_head _ _ _ _ Hr Hp). by destruct (head _).
  - intros o Ho. destruct (by_priority s la) as [|x k]; simplify_eq/=. by apply (front_head _ _ _ _ _ Hr Hp).
Qed.
End machine.
