(* ===== verification/Ledger.v ===== *)
(** * The in-memory ledger ([internal/ledger])

    Accounts, holdings, stocks and order books, with the snapshot conversion
    to and from the protobuf messages of [ledgerpb]. The maps of the Go code
    hold pointers, but [Get] returns a copy and [Upsert] stores a pointer to a
    fresh copy, so a map of values behaves the same; an order book is shared by
    pointer and is identified here by its stock id. *)

From S2P Require Import Prelude Domain Slices OrderBook BookSpec.

(** ** Stores *)

Abbreviation Accounts := (gmap Z Account).
Abbreviation StockBalances := (gmap (Z * Z) StockBalance).
Abbreviation Stocks := (gmap Z Stock).
Abbreviation OrderBooks := (gmap Z OrderBook).

Definition Accounts_Get (m : Accounts) (id : Z) : option Account := m !! id.
Definition Accounts_Upsert (acc : Account) (m : Accounts) : Accounts := <[acc_Id acc := acc]> m.

Definition StockBalances_Get (m : StockBalances) (accountID stockID : Z) : option StockBalance :=
  m !! (accountID, stockID).
Definition StockBalances_Upsert (sb : StockBalance) (m : StockBalances) : StockBalances :=
  <[(sb_AccountId sb, sb_StockId sb) := sb]> m.

Definition Stocks_Get (m : Stocks) (id : Z) : option Stock := m !! id.
Definition Stocks_Upsert (st : Stock) (m : Stocks) : Stocks := <[st_Id st := st]> m.

(** [OrderBooks.Get] creates the book of an unknown stock. *)
Definition OrderBooks_Get (m : OrderBooks) (stockId : Z) : OrderBooks * OrderBook :=
  match m !! stockId with
  | Some ob => (m, ob)
  | None => (<[stockId := NewOrderBook]> m, NewOrderBook)
  end.

Record State := mkState {
  s_Accounts : Accounts;
  s_StockBalances : StockBalances;
  s_Stocks : Stocks;
  s_OrderBooks : OrderBooks
}.

Definition NewState : State := mkState ∅ ∅ ∅ ∅.

(** ** Snapshot messages ([ledgerpb]) *)

Record pbAccount := mkPbAccount { pba_Id : Z; pba_Balance : Z; pba_AvailableBalance : Z }.
Record pbStockBalance := mkPbStockBalance {
  pbs_AccountId : Z; pbs_StockId : Z; pbs_Quantity : Z;
  pbs_AvailableQuantity : Z; pbs_Average : Z; pbs_TotalBuyAmount : Z }.
Record pbStock := mkPbStock { pbst_Id : Z; pbst_Price : Z; pbst_Status : Z }.
Record pbOrder := mkPbOrder {
  pbo_Id : Z; pbo_TargetId : Z; pbo_AccountId : Z; pbo_StockId : Z; pbo_Price : Z;
  pbo_Quantity : Z; pbo_FilledQuantity : Z; pbo_OrderType : Z; pbo_TradingType : Z }.
Record pbOrderBook := mkPbOrderBook { pbb_StockId : Z; pbb_Orders : list pbOrder }.
Record LedgerSnapshot := mkLedgerSnapshot {
  snap_Version : Z;
  snap_Accounts : list pbAccount;
  snap_StockBalances : list pbStockBalance;
  snap_Stocks : list pbStock;
  snap_OrderBooks : list pbOrderBook
}.

(** Sorted keys of a map: the [slices.Sort] at the head of each [toProto]. *)
Definition sorted_ids {A} (m : gmap Z A) : list Z := merge_sort Z.le (map_to_list m).*1.

(** The order of holdings: by account, then by stock. *)
Definition stockKey_le (a b : Z * Z) : Prop := fst a < fst b \/ (fst a = fst b /\ snd a <= snd b).
#[export] Instance stockKey_le_dec a b : Decision (stockKey_le a b).
Proof. unfold stockKey_le. apply _. Defined.

Definition acc_pb (acc : Account) : pbAccount :=
  mkPbAccount (acc_Id acc) (acc_Balance acc) (acc_AvailableBalance acc).
Definition Accounts_toProto (m : Accounts) : list pbAccount :=
  omap (fun id => acc_pb <$> m !! id) (sorted_ids m).
Definition Accounts_fromProto (items : list pbAccount) : Accounts :=
  foldl (fun m pb => <[pba_Id pb := mkAccount (pba_Id pb) (pba_Balance pb) (pba_AvailableBalance pb)]> m) ∅ items.

Definition sb_pb (sb : StockBalance) : pbStockBalance :=
  mkPbStockBalance (sb_AccountId sb) (sb_StockId sb) (sb_Quantity sb)
    (sb_AvailableQuantity sb) (sb_Average sb) (sb_TotalBuyAmount sb).
Definition StockBalances_toProto (m : StockBalances) : list pbStockBalance :=
  omap (fun k => sb_pb <$> m !! k) (merge_sort stockKey_le (map_to_list m).*1).
Definition StockBalances_fromProto (items : list pbStockBalance) : StockBalances :=
  foldl (fun m pb => <[(pbs_AccountId pb, pbs_StockId pb) :=
    mkStockBalance (pbs_AccountId pb) (pbs_StockId pb) (pbs_Quantity pb)
      (pbs_AvailableQuantity pb) (pbs_Average pb) (pbs_TotalBuyAmount pb)]> m) ∅ items.

Definition stock_pb (st : Stock) : pbStock :=
  mkPbStock (st_Id st) (st_Price st) (StockStatus_byte (st_Status st)).
Definition Stocks_toProto (m : Stocks) : list pbStock :=
  omap (fun id => stock_pb <$> m !! id) (sorted_ids m).
Definition Stocks_fromProto (items : list pbStock) : Stocks :=
  foldl (fun m pb => <[pbst_Id pb := mkStock (pbst_Id pb) (pbst_Price pb) (StockStatus_of (pbst_Status pb))]> m) ∅ items.

Definition order_pb (o : Order) : pbOrder :=
  mkPbOrder (o_Id o) (o_TargetId o) (o_AccountId o) (o_StockId o) (o_Price o) (o_Quantity o)
    (o_FilledQuantity o) (OrderType_byte (o_OrderType o)) (TradingType_byte (o_TradingType o)).

(** The snapshot has no [CreatedAt]: a restored order has the zero time. *)
Definition pb_order (po : pbOrder) : Order :=
  mkOrder (pbo_Id po) (pbo_TargetId po) (pbo_AccountId po) (pbo_StockId po) (pbo_Price po)
    (pbo_Quantity po) (pbo_FilledQuantity po) (OrderType_of (pbo_OrderType po))
    (TradingType_of (pbo_TradingType po)) 0.

Fixpoint books_pb (m : OrderBooks) (stockIds : list Z) : outcome (list pbOrderBook) :=
  match stockIds with
  | [] => Done []
  | id :: rest =>
      match m !! id with
      | None => Panicked NilDereference
      | Some ob =>
          os <~ orders ob;
          out <~ books_pb m rest;
          Done (mkPbOrderBook id (order_pb <$> os) :: out)
      end
  end.
Definition OrderBooks_toProto (m : OrderBooks) : outcome (list pbOrderBook) :=
  books_pb m (sorted_ids m).

Definition rebuild_book (pos : list pbOrder) : OrderBook :=
  foldl (fun ob po => Add ob (pb_order po)) NewOrderBook pos.
Definition OrderBooks_fromProto (items : list pbOrderBook) : OrderBooks :=
  foldl (fun m pb => <[pbb_StockId pb := rebuild_book (pbb_Orders pb)]> m) ∅ items.

(** ** Serialization *)

Definition snapshotVersion : Z := 1.

Definition to_snapshot (s : State) : outcome LedgerSnapshot :=
  books <~ OrderBooks_toProto (s_OrderBooks s);
  Done (mkLedgerSnapshot snapshotVersion (Accounts_toProto (s_Accounts s))
    (StockBalances_toProto (s_StockBalances s)) (Stocks_toProto (s_Stocks s)) books).

Definition of_snapshot (snap : LedgerSnapshot) : State :=
  mkState (Accounts_fromProto (snap_Accounts snap)) (StockBalances_fromProto (snap_StockBalances snap))
    (Stocks_fromProto (snap_Stocks snap)) (OrderBooks_fromProto (snap_OrderBooks snap)).

(** [google.golang.org/protobuf/proto], which the sources only call. *)
Class Proto (bytes : Type) := {
  proto_Marshal : LedgerSnapshot -> option bytes;
  proto_Unmarshal : bytes -> option LedgerSnapshot
}.

(** Documented behaviour of that package on these messages. *)
Class ProtoLaws (bytes : Type) `{!Proto bytes} := {
  proto_roundtrip snap data : proto_Marshal snap = Some data -> proto_Unmarshal data = Some snap
}.

Inductive ledger_error :=
  | MarshalFailed
  | UnmarshalFailed
  | UnsupportedVersion (v : Z).

Section serialize.
Context {bytes : Type} `{!Proto bytes}.

Definition Serialize (s : State) : outcome (bytes + ledger_error) :=
  snap <~ to_snapshot s;
  Done (match proto_Marshal snap with
        | Some data => inl data
        | None => inr MarshalFailed
        end).

(** [Restore] replaces the four stores, or leaves the state on an error. *)
Definition Restore (s : State) (data : bytes) : State * option ledger_error :=
  match proto_Unmarshal data with
  | None => (s, Some UnmarshalFailed)
  | Some snap =>
      if Z.eqb (snap_Version snap) snapshotVersion
      then (of_snapshot snap, None)
      else (s, Some (UnsupportedVersion (snap_Version snap)))
  end.
End serialize.
