(* ===== verification/Snapshot.v ===== *)
(** * Snapshots lose nothing but creation times

    Serialising a well-formed ledger and restoring it gives back the same
    accounts, holdings and stocks, and order books with the same queues at every
    price level, up to the [CreatedAt] field that the snapshot does not store. *)

From S2P Require Import Prelude Domain Slices OrderBook BookSpec Ledger.

(** ** Well-formed ledgers *)

(** An order the engine leaves in the book of stock [sid]. *)
Record resting_ok (sid : Z) (o : Order) : Prop := {
  ro_open : open_order o;
  ro_price : 0 < o_Price o < two64;
  ro_stock : o_StockId o = sid;
  ro_limit : o_OrderType o = ORDER_LIMIT;
  ro_side : o_TradingType o = TRADING_BUY \/ o_TradingType o = TRADING_SELL
}.

Definition wf_book (sid : Z) (b : OrderBook) : Prop :=
  exists la, rep b la /\ forall a o, (a, o) ∈ la -> resting_ok sid o.

(** Every record is stored under its own key, and every book is well-formed. *)
Record wf_state (st : State) : Prop := {
  wf_acc_key i acc : s_Accounts st !! i = Some acc -> acc_Id acc = i;
  wf_hold_key k h : s_StockBalances st !! k = Some h -> (sb_AccountId h, sb_StockId h) = k;
  wf_stock_key i s : s_Stocks st !! i = Some s -> st_Id s = i;
  wf_stock_status i s : s_Stocks st !! i = Some s -> StockStatus_wf (st_Status s);
  wf_books i b : s_OrderBooks st !! i = Some b -> wf_book i b
}.

(** The queue of a price level, as a client of the book sees it. *)
Definition levelOrders (b : OrderBook) (s : bool) (p : Z) : list Order :=
  Value b <$> default [] (queues b s !! p).

Definition untimed (o : Order) : Order :=
  mkOrder (o_Id o) (o_TargetId o) (o_AccountId o) (o_StockId o) (o_Price o) (o_Quantity o)
    (o_FilledQuantity o) (o_OrderType o) (o_TradingType o) 0.

(** Two books that no query can tell apart, except for creation times. *)
Definition same_queues (b b' : OrderBook) : Prop :=
  forall s p, untimed <$> levelOrders b s p = untimed <$> levelOrders b' s p.

#[export] Instance same_queues_equiv : Equivalence same_queues.
Proof.
  split; [by intros b s p|by intros b b' H s p|].
  intros b1 b2 b3 H12 H23 s p. by rewrite H12.
Qed.

(** ** Keyed stores *)

Section keyed.
Context {K A P : Type} `{Countable K} (pkey : P -> K) (enc : A -> P) (dec : P -> A).

Lemma foldl_insert_lookup (m m0 : gmap K A) ks i :
  NoDup ks ->
  (forall k v, m !! k = Some v -> pkey (enc v) = k /\ dec (enc v) = v) ->
  foldl (fun m pb => <[pkey pb := dec pb]> m) m0 (omap (fun k => enc <$> m !! k) ks) !! i =
  if decide (i ∈ ks) then match m !! i with Some v => Some v | None => m0 !! i end else m0 !! i.
Proof.
  intros Hnd Hkey. revert m0. induction Hnd as [|k ks Hk Hnd IH]; intros m0; simpl; [done|].
  destruct (m !! k) as [v|] eqn:Hv; simpl.
  - destruct (Hkey k v Hv) as [-> ->]. rewrite IH. destruct (decide (i = k)) as [->|].
    + rewrite decide_False, decide_True, Hv, lookup_insert_eq by set_solver. done.
    + rewrite lookup_insert_ne by done. repeat case_decide; set_solver.
  - rewrite IH. destruct (decide (i = k)) as [->|].
    + rewrite decide_False, decide_True, Hv by set_solver. done.
    + repeat case_decide; set_solver.
Qed.

Lemma keyed_roundtrip (m : gmap K A) ks :
  ks ≡ₚ (map_to_list m).*1 ->
  (forall k v, m !! k = Some v -> pkey (enc v) = k /\ dec (enc v) = v) ->
  foldl (fun m pb => <[pkey pb := dec pb]> m) ∅ (omap (fun k => enc <$> m !! k) ks) = m.
Proof.
  intros Hks Hkey. apply map_eq. intros i. rewrite foldl_insert_lookup; [|by rewrite Hks; apply NoDup_fst_map_to_list|done].
  rewrite lookup_empty. destruct (m !! i) as [v|] eqn:Hv.
  - rewrite decide_True; [done|]. rewrite Hks. apply list_elem_of_fmap.
    exists (i, v). split; [done|]. by apply elem_of_map_to_list.
  - by case_decide.
Qed.
End keyed.

(** ** Books *)

Section books.
Implicit Types (b : OrderBook) (la : abook) (os : list Order).

Lemma levelOrders_level b la s p : rep b la -> levelOrders b s p = (level la s p).*2.
Proof.
  intros Hr. unfold levelOrders. rewrite (rep_queue _ _ Hr).
  assert (default [] (nonempty (level la s p).*1) = (level la s p).*1) as -> by (by destruct (level la s p)).
  rewrite <- list_fmap_compose. apply list_fmap_ext.
  intros i [a o] [Hin _]%list_elem_of_lookup_2%elem_of_level. by apply (rep_Value _ la).
Qed.

(** Adding orders with distinct ids to an empty book. *)
Lemma rep_foldl_Add os :
  NoDup (o_Id <$> os) -> exists la, rep (foldl Add NewOrderBook os) la /\ la.*2 = os.
Proof.
  induction os as [|o os IH] using rev_ind; intros Hnd.
  { exists []. split; [apply rep_new|done]. }
  rewrite fmap_app in Hnd. apply NoDup_app in Hnd as (Hnd & Hdis & _).
  destruct (IH Hnd) as (la & Hr & Hla). rewrite foldl_app. simpl.
  eexists. split; [apply (rep_Add _ la); [done|]|].
  - rewrite ids_orders, Hla. set_solver.
  - by rewrite fmap_app, Hla.
Qed.

Definition at_side (s : bool) (p : Z) (o : Order) : Prop :=
  is_sell (o_TradingType o) = s /\ o_Price o = p.
#[local] Instance at_side_dec s p o : Decision (at_side s p o) := _.

Lemma level_orders_filter la s p : (level la s p).*2 = filter (at_side s p) la.*2.
Proof. symmetry. by apply filter_fmap_comm. Qed.

Lemma flat_side_level b la s s' p :
  rep b la ->
  filter (at_side s p) (flat_side b la s') = if decide (s' = s) then (level la s p).*2 else [].
Proof.
  intros Hr. unfold flat_side.
  assert (Hnone : p ∉ prices b s -> level la s p = []).
  { rewrite (rep_prices _ _ Hr). by destruct (level la s p); [|intros []]. }
  assert (Hother : forall q, filter (at_side s p) (level la s' q).*2 =
    if decide (s' = s /\ q = p) then (level la s p).*2 else []).
  { intros q. rewrite level_orders_filter, list_filter_filter. case_decide as Hsq.
    - destruct Hsq as [-> ->]. rewrite level_orders_filter. apply list_filter_iff. tauto.
    - apply filter_none. unfold at_side. intros o _ [? ?]. naive_solver. }
  case_decide as Hs.
  2: { induction (prices b s') as [|q ps IH]; [done|]. csimpl.
       rewrite filter_app, IH, Hother, decide_False by naive_solver. done. }
  subst s'. pose proof (ascending_NoDup _ (rep_sorted _ _ Hr s)) as Hnd.
  revert Hnone Hnd. generalize (prices b s) as ps. induction ps as [|q ps IH]; intros Hnone Hnd; csimpl.
  { rewrite Hnone by set_solver. done. }
  apply NoDup_cons in Hnd as [Hq Hnd]. rewrite filter_app, Hother.
  destruct (decide (q = p)) as [->|].
  - rewrite decide_True by done. rewrite <- (app_nil_r (level la s p).*2) at 2. f_equal.
    clear -Hother Hq. induction ps as [|q ps IH]; [done|]. csimpl.
    rewrite filter_app, Hother, decide_False, IH by set_solver. done.
  - rewrite decide_False by naive_solver. simpl. apply IH; [|done]. set_solver.
Qed.

Lemma pb_order_roundtrip sid o : resting_ok sid o -> pb_order (order_pb o) = untimed o.
Proof.
  intros [_ _ _ Hl Hs]. unfold pb_order, order_pb, untimed. simpl. rewrite Hl.
  by destruct Hs as [->| ->].
Qed.

Lemma foldl_Add_pb b (os : list Order) :
  foldl (fun ob po => Add ob (pb_order po)) b (order_pb <$> os) =
  foldl Add b ((fun o => pb_order (order_pb o)) <$> os).
Proof. revert b. induction os as [|o os IH]; intros b; csimpl; [done|]. apply IH. Qed.

(** Restoring the orders of a book gives a well-formed book with the same queues. *)
Lemma rebuild_book_ok sid b :
  wf_book sid b ->
  exists os, orders b = Done os /\
    wf_book sid (rebuild_book (order_pb <$> os)) /\ same_queues (rebuild_book (order_pb <$> os)) b.
Proof.
  intros (la & Hr & Hok). eexists. split; [by apply rep_orders|].
  pose proof (orders_perm _ _ _ Hr (rep_orders _ _ Hr)) as Hperm.
  set (os := flat_side b la false ++ flat_side b la true) in *.
  assert (Hos : (fun o => pb_order (order_pb o)) <$> os = untimed <$> os).
  { apply list_fmap_ext. intros i o Hi%list_elem_of_lookup_2. rewrite Hperm in Hi.
    apply list_elem_of_fmap in Hi as ([a o'] & -> & Hin). by eapply pb_order_roundtrip, Hok. }
  unfold rebuild_book. rewrite foldl_Add_pb, Hos.
  destruct (rep_foldl_Add (untimed <$> os)) as (la' & Hr' & Hla').
  { rewrite <- list_fmap_compose. change (NoDup (o_Id <$> os)). rewrite Hperm, <- ids_orders. apply Hr. }
  split.
  - exists la'. split; [done|]. intros a o Hin.
    assert (Hin' : o ∈ untimed <$> os) by (rewrite <- Hla'; apply list_elem_of_fmap; by exists (a, o)).
    apply list_elem_of_fmap in Hin' as (o1 & -> & Hin'). rewrite Hperm in Hin'.
    apply list_elem_of_fmap in Hin' as ([a1 o1'] & -> & Hin'). by destruct (Hok _ _ Hin').
  - intros s p. rewrite (levelOrders_level _ _ _ _ Hr'), (levelOrders_level _ _ _ _ Hr).
    rewrite level_orders_filter, Hla'.
    rewrite (filter_fmap_comm untimed _ (at_side s p)) by done.
    unfold os. rewrite filter_app, !(flat_side_level _ _ _ _ _ Hr).
    rewrite <- list_fmap_compose. destruct s; simpl; by rewrite ?app_nil_r.
Qed.
End books.

Definition book_item (m : OrderBooks) (k : Z) (pb : pbOrderBook) : Prop :=
  pbb_StockId pb = k /\
  exists b os, m !! k = Some b /\ orders b = Done os /\ pbb_Orders pb = order_pb <$> os.

Lemma books_pb_ok (m : OrderBooks) ks :
  (forall k, k ∈ ks -> exists b, m !! k = Some b /\ wf_book k b) ->
  exists items, books_pb m ks = Done items /\ Forall2 (book_item m) ks items.
Proof.
  induction ks as [|k ks IH]; intros Hwf; simpl; [eauto|].
  destruct (Hwf k ltac:(left)) as (b & Hb & Hwfb). rewrite Hb.
  destruct (rebuild_book_ok k b Hwfb) as (os & Hos & _). rewrite Hos. simpl.
  destruct IH as (items & -> & Hit); [set_solver|]. simpl.
  eexists; split; [done|]. constructor; [|done]. split; [done|]. eauto.
Qed.

Lemma books_fromProto_lookup (m m0 : OrderBooks) ks items i :
  Forall2 (book_item m) ks items -> NoDup ks ->
  let res := foldl (fun m pb => <[pbb_StockId pb := rebuild_book (pbb_Orders pb)]> m) m0 items in
  (i ∉ ks -> res !! i = m0 !! i) /\
  (i ∈ ks -> exists b os, m !! i = Some b /\ orders b = Done os /\ res !! i = Some (rebuild_book (order_pb <$> os))).
Proof.
  intros Hit. revert m0. induction Hit as [|k pb ks items (Hk & b & os & Hb & Hos & Hpo) _ IH];
    intros m0 Hnd; simpl; [set_solver|].
  apply NoDup_cons in Hnd as [Hnk Hnd]. rewrite Hk, Hpo.
  destruct (IH (<[k:=rebuild_book (order_pb <$> os)]> m0) Hnd) as [IH1 IH2]. split.
  - intros Hi. rewrite IH1 by set_solver. apply lookup_insert_ne. set_solver.
  - intros [->|Hi]%elem_of_cons; [|auto]. exists b, os. rewrite IH1 by done. by rewrite lookup_insert_eq.
Qed.

(** Equality of ledgers up to what a snapshot forgets. *)
Record same_ledger (st st' : State) : Prop := {
  sl_accounts : s_Accounts st = s_Accounts st';
  sl_holdings : s_StockBalances st = s_StockBalances st';
  sl_stocks : s_Stocks st = s_Stocks st';
  sl_books i : match s_OrderBooks st !! i, s_OrderBooks st' !! i with
               | Some b, Some b' => same_queues b b'
               | None, None => True
               | _, _ => False
               end
}.

Lemma sorted_ids_perm {A} (m : gmap Z A) : sorted_ids m ≡ₚ (map_to_list m).*1.
Proof. apply merge_sort_Permutation. Qed.

Lemma books_roundtrip (m : OrderBooks) :
  (forall i b, m !! i = Some b -> wf_book i b) ->
  exists items, OrderBooks_toProto m = Done items /\ forall i,
    match OrderBooks_fromProto items !! i, m !! i with
    | Some b', Some b => same_queues b' b /\ wf_book i b'
    | None, None => True
    | _, _ => False
    end.
Proof.
  intros Hwf.
  assert (Hmem : forall i, i ∈ sorted_ids m <-> is_Some (m !! i)).
  { intros i. rewrite sorted_ids_perm, list_elem_of_fmap. split.
    - intros ([k b] & -> & Hb%elem_of_map_to_list). eauto.
    - intros [b Hb]. exists (i, b). split; [done|]. by apply elem_of_map_to_list. }
  destruct (books_pb_ok m (sorted_ids m)) as (items & Hitems & Hf2).
  { intros k [b Hb]%Hmem. eauto. }
  exists items. split; [done|]. intros i. unfold OrderBooks_fromProto.
  destruct (books_fromProto_lookup m ∅ (sorted_ids m) items i Hf2) as [Hout Hin].
  { rewrite sorted_ids_perm. apply NoDup_fst_map_to_list. }
  destruct (m !! i) as [b|] eqn:Hb.
  - destruct Hin as (b' & os & Hb' & Hos & ->); [by apply Hmem; rewrite Hb|]. assert (b' = b) as -> by congruence.
    destruct (rebuild_book_ok i b (Hwf _ _ Hb)) as (os' & Hos' & ? & ?).
    assert (os' = os) as -> by congruence. done.
  - rewrite Hout; [done|]. by rewrite Hmem, Hb; intros [? ?].
Qed.

(** The messages of a snapshot rebuild the ledger. *)
Lemma of_to_snapshot st :
  wf_state st ->
  exists snap, to_snapshot st = Done snap /\ snap_Version snap = snapshotVersion /\
    same_ledger (of_snapshot snap) st /\ wf_state (of_snapshot snap).
Proof.
  intros [Hacc Hhold Hstock Hstat Hbooks].
  destruct (books_roundtrip _ Hbooks) as (items & Hitems & Hbk).
  unfold to_snapshot. rewrite Hitems. simpl. eexists; split; [done|]. split; [done|].
  assert (Ha : Accounts_fromProto (Accounts_toProto (s_Accounts st)) = s_Accounts st).
  { apply (keyed_roundtrip pba_Id acc_pb (fun pb => mkAccount (pba_Id pb) (pba_Balance pb) (pba_AvailableBalance pb)));
      [apply sorted_ids_perm|]. intros k [] Hk. by apply Hacc in Hk. }
  assert (Hh : StockBalances_fromProto (StockBalances_toProto (s_StockBalances st)) = s_StockBalances st).
  { apply (keyed_roundtrip (fun pb => (pbs_AccountId pb, pbs_StockId pb)) sb_pb (fun pb =>
      mkStockBalance (pbs_AccountId pb) (pbs_StockId pb) (pbs_Quantity pb)
        (pbs_AvailableQuantity pb) (pbs_Average pb) (pbs_TotalBuyAmount pb)));
      [apply merge_sort_Permutation|]. intros k [] Hk. by apply Hhold in Hk. }
  assert (Hs : Stocks_fromProto (Stocks_toProto (s_Stocks st)) = s_Stocks st).
  { apply (keyed_roundtrip pbst_Id stock_pb (fun pb =>
      mkStock (pbst_Id pb) (pbst_Price pb) (StockStatus_of (pbst_Status pb)))); [apply sorted_ids_perm|].
    intros k v Hk. split; [by apply Hstock in Hk|]. simpl.
    rewrite StockStatus_of_byte by (by eapply Hstat). by destruct v. }
  unfold of_snapshot. simpl. rewrite Ha, Hh, Hs. split; split; simpl; try done.
  - intros i. specialize (Hbk i). repeat case_match; naive_solver.
  - intros i b Hb. specialize (Hbk i). rewrite Hb in Hbk. by destruct (s_OrderBooks st !! i) as [?|]; [destruct Hbk|].
Qed.
