(* ===== verification/BookSim.v ===== *)
(** * Books that behave alike

    The restart from a snapshot rebuilds every book with new elements and
    without creation times. Two books are related ([≡]) when a one-to-one
    correspondence of elements carries one to the other, up to the creation
    times of the orders. The relation is a partial equivalence; on well-formed
    books it is exactly [same_queues]. Every operation of the book respects it:
    it returns related results and panics alike, whatever the books hold. *)

From S2P Require Import Prelude Domain Slices OrderBook BookSpec Ledger Snapshot.

(** ** Orders *)

#[export] Instance Order_equiv : Equiv Order := fun o o' => untimed o = untimed o'.

#[export] Instance Order_equivalence : Equivalence (≡@{Order}).
Proof. unfold equiv, Order_equiv. split; [done|by intros ?? ->|by intros ??? -> ->]. Qed.

Lemma order_equiv_fields (o o' : Order) :
  o ≡ o' <->
  o_Id o = o_Id o' /\ o_TargetId o = o_TargetId o' /\ o_AccountId o = o_AccountId o' /\
  o_StockId o = o_StockId o' /\ o_Price o = o_Price o' /\ o_Quantity o = o_Quantity o' /\
  o_FilledQuantity o = o_FilledQuantity o' /\ o_OrderType o = o_OrderType o' /\
  o_TradingType o = o_TradingType o'.
Proof.
  unfold equiv, Order_equiv, untimed. split; [by intros [= ?]|].
  by intros (-> & -> & -> & -> & -> & -> & -> & -> & ->).
Qed.

(** Turn an equivalence of orders into the equations of their fields. *)
Ltac order_fields H :=
  let E := fresh "E" in
  pose proof H as E; apply order_equiv_fields in E as (? & ? & ? & ? & ? & ? & ? & ? & ?).

#[export] Instance remaining_proper : Proper ((≡) ==> (=)) remaining.
Proof. intros o o' H. order_fields H. unfold remaining. congruence. Qed.

#[export] Instance set_FilledQuantity_proper q : Proper ((≡) ==> (≡)) (set_FilledQuantity q).
Proof. intros o o' H. order_fields H. apply order_equiv_fields. by split_and!. Qed.

(** ** Correspondence of elements *)

Record ref_linked (R : relation elem) (r r' : orderRef) : Prop := {
  rl_side : ref_tradingType r = ref_tradingType r';
  rl_price : ref_price r = ref_price r';
  rl_elem : R (ref_elem r) (ref_elem r')
}.

Record linked (R : relation elem) (b b' : OrderBook) : Prop := {
  lk_one a a' c c' : R a a' -> R c c' -> a = c <-> a' = c';
  lk_elems a a' : R a a' -> exists o o', elems b !! a = Some o /\ elems b' !! a' = Some o' /\ o ≡ o';
  lk_prices s : prices b s = prices b' s;
  lk_queue s p : option_Forall2 (Forall2 R) (queues b s !! p) (queues b' s !! p);
  lk_index i : option_Forall2 (ref_linked R) (index b !! i) (index b' !! i)
}.

#[export] Instance OrderBook_equiv : Equiv OrderBook := fun b b' => exists R, linked R b b'.

Lemma option_Forall2_flip {A B} (R : A -> B -> Prop) x y :
  option_Forall2 R x y -> option_Forall2 (flip R) y x.
Proof. by destruct 1; constructor. Qed.

Lemma option_Forall2_compose {A B C} (R : A -> B -> Prop) (S : B -> C -> Prop) (T : A -> C -> Prop) x y z :
  (forall a b c, R a b -> S b c -> T a c) -> option_Forall2 R x y -> option_Forall2 S y z -> option_Forall2 T x z.
Proof. intros HT. destruct 1; inversion_clear 1; constructor; eauto. Qed.

Lemma Forall2_compose {A B C} (R : A -> B -> Prop) (S : B -> C -> Prop) x y z :
  Forall2 R x y -> Forall2 S y z -> Forall2 (fun a c => exists b, R a b /\ S b c) x z.
Proof. intros H. revert z. induction H; intros z; inversion_clear 1; constructor; eauto. Qed.

#[export] Instance OrderBook_sym : Symmetric (≡@{OrderBook}).
Proof.
  intros b b' [R [H1 H2 H3 H4 H5]]. exists (flip R). split.
  - intros a a' c c' ??. symmetry. by apply H1.
  - intros a a' Ha. destruct (H2 _ _ Ha) as (o & o' & ? & ? & ?). by exists o', o.
  - done.
  - intros s p. specialize (H4 s p). destruct H4; constructor. by apply Forall2_flip.
  - intros i. specialize (H5 i). destruct H5 as [?? []|]; constructor. by split.
Qed.

#[export] Instance OrderBook_trans : Transitive (≡@{OrderBook}).
Proof.
  intros b1 b2 b3 [R [H1 H2 H3 H4 H5]] [S [K1 K2 K3 K4 K5]].
  exists (fun a c => exists b, R a b /\ S b c). split.
  - intros a a' c c' (x & Hx & Hx') (y & Hy & Hy'). by rewrite (H1 a x c y), (K1 x a' y c').
  - intros a a' (x & Hx & Hx'). destruct (H2 _ _ Hx) as (o & o1 & ? & Ho1 & ?).
    destruct (K2 _ _ Hx') as (o2 & o' & Ho2 & ? & ?). exists o, o'. rewrite Ho1 in Ho2. injection Ho2 as <-.
    split_and!; [done|done|by etrans].
  - intros s. by rewrite H3.
  - intros s p. eapply option_Forall2_compose; [|apply H4|apply K4]. intros ???. apply Forall2_compose.
  - intros i. eapply option_Forall2_compose; [|apply H5|apply K5]. intros ??? [] []. split; [congruence..|eauto].
Qed.

(** ** Operations *)

Section ops.
Implicit Types (b : OrderBook) (o : Order) (R : relation elem).

Lemma linked_Value R b b' a a' : linked R b b' -> R a a' -> Value b a ≡ Value b' a'.
Proof. intros Hl Ha. destruct (lk_elems _ _ _ Hl _ _ Ha) as (o & o' & H1 & H2 & Ho). unfold Value. by rewrite H1, H2. Qed.

Lemma linked_index_Some R b b' i r :
  linked R b b' -> index b !! i = Some r -> exists r', index b' !! i = Some r' /\ ref_linked R r r'.
Proof. intros Hl Hi. pose proof (lk_index _ _ _ Hl i) as H. rewrite Hi in H. inversion_clear H. eauto. Qed.

(** Updating one level on both sides. *)
Lemma linked_set_side R b b' s p q q' ps (qs qs' : gmap Z (list elem)) :
  linked R b b' -> option_Forall2 (Forall2 R) q q' ->
  (forall p', qs !! p' = if decide (p' = p) then q else queues b s !! p') ->
  (forall p', qs' !! p' = if decide (p' = p) then q' else queues b' s !! p') ->
  linked R (set_side b s qs ps) (set_side b' s qs' ps).
Proof.
  intros [H1 H2 H3 H4 H5] Hq Hqs Hqs'. split; [done| | | |].
  - intros a a' Ha. rewrite !elems_set_side. eauto.
  - intros s'. rewrite !prices_set_side. by case_decide.
  - intros s' p'. rewrite !queues_set_side. case_decide; [subst s'|done].
    rewrite Hqs, Hqs'. by case_decide.
  - intros i. rewrite !index_set_side. done.
Qed.

Lemma linked_set_index R b b' (m m' : gmap Z orderRef) :
  linked R b b' -> (forall i, option_Forall2 (ref_linked R) (m !! i) (m' !! i)) ->
  linked R (set_index b m) (set_index b' m').
Proof.
  intros [H1 H2 H3 H4 H5] Hm. by split.
Qed.

(** More elements, and the correspondence of the new ones. *)
Lemma linked_snoc R b b' o o' :
  linked R b b' -> o ≡ o' ->
  let R' a a' := R a a' \/ (a = length (elems b) /\ a' = length (elems b')) in
  linked R' (set_elems b (elems b ++ [o])) (set_elems b' (elems b' ++ [o'])).
Proof.
  intros [H1 H2 H3 H4 H5] Ho R'.
  assert (Hlt : forall a a', R a a' -> (a < length (elems b))%nat /\ (a' < length (elems b'))%nat).
  { intros a a' Ha. destruct (H2 _ _ Ha) as (?&?&?%lookup_lt_Some&?%lookup_lt_Some&_). done. }
  split.
  - intros a a' c c' [Ha|[-> ->]] [Hc|[-> ->]].
    + by apply H1.
    + destruct (Hlt _ _ Ha). lia.
    + destruct (Hlt _ _ Hc). lia.
    + done.
  - intros a a' [Ha|[-> ->]]; cbn [elems set_elems].
    + destruct (H2 _ _ Ha) as (x & x' & Hx & Hx' & ?). exists x, x'.
      by rewrite !(lookup_app_l_Some _ _ _ _ Hx), !(lookup_app_l_Some _ _ _ _ Hx').
    + exists o, o'. by rewrite !list_lookup_middle.
  - intros s. rewrite !prices_set_elems. done.
  - intros s p. rewrite !queues_set_elems. destruct (H4 s p) as [q q' Hq|]; constructor.
    eapply Forall2_impl; [done|]. by left.
  - intros i. cbn [index set_elems]. destruct (H5 i) as [r r' []|]; constructor. split; [done..|by left].
Qed.

(** A new queue for one level and a new reference. *)
Lemma linked_push R b b' s p q q' ps i r r' :
  linked R b b' -> Forall2 R q q' -> ref_linked R r r' ->
  let b1 := set_side b s (<[p := q]> (queues b s)) ps in
  let b1' := set_side b' s (<[p := q']> (queues b' s)) ps in
  linked R (set_index b1 (<[i := r]> (index b1))) (set_index b1' (<[i := r']> (index b1'))).
Proof.
  intros Hl Hq Hr b1 b1'. apply linked_set_index.
  - apply (linked_set_side R _ _ s p (Some q) (Some q')); [done|by constructor|..];
      intros p'; rewrite lookup_insert; by repeat case_decide; subst.
  - intros j. unfold b1, b1'. rewrite !index_set_side, !lookup_insert.
    case_decide; [by constructor|apply (lk_index _ _ _ Hl)].
Qed.

#[export] Instance Add_proper : Proper ((≡) ==> (≡) ==> (≡)) Add.
Proof.
  intros b b' [R Hl] o o' Ho. pose proof (linked_snoc R b b' o o' Hl Ho) as Hn.
  set (R' := fun a a' => _) in Hn. exists R'. order_fields Ho. unfold Add.
  replace (o_Price o') with (o_Price o) by done. replace (o_TradingType o') with (o_TradingType o) by done.
  replace (o_Id o') with (o_Id o) by done. rewrite <- (lk_prices _ _ _ Hl).
  assert (Hnew : R' (length (elems b)) (length (elems b'))) by (right; done).
  assert (Hq : forall q q', Forall2 R' q q' -> Forall2 R' (q ++ [length (elems b)]) (q' ++ [length (elems b')])).
  { intros q q' Hq. apply Forall2_app; [done|]. by repeat constructor. }
  destruct (lk_queue _ _ _ Hl (is_sell (o_TradingType o)) (o_Price o)) as [q q' Hqq|]; cbv beta iota zeta.
  - apply linked_push; [done|apply Hq|done]. eapply Forall2_impl; [done|]. by left.
  - destruct (BinarySearch _ _) as [i f]. apply linked_push; [done|by apply (Hq [] [])|done].
Qed.

(** Unlinking corresponding elements. *)
Lemma linked_filter R b b' c c' q q' :
  linked R b b' -> R c c' -> Forall2 R q q' ->
  Forall2 R (filter (fun a => a <> c) q) (filter (fun a => a <> c') q').
Proof.
  intros Hl Hc. induction 1 as [|a a' q q' Ha _ IH]; [constructor|].
  pose proof (lk_one _ _ _ Hl _ _ _ _ Ha Hc) as Hiff. rewrite !filter_cons.
  repeat case_decide; [by constructor|tauto..|done].
Qed.

Lemma linked_removeRef R b b' i r r' :
  linked R b b' -> ref_linked R r r' ->
  outcome_rel (linked R) (removeRef b i r) (removeRef b' i r').
Proof.
  intros Hl [Hs Hp He]. unfold removeRef. rewrite <- Hs, <- Hp.
  set (s := is_sell _). set (p := ref_price r).
  assert (Hi : linked R (set_index b (delete i (index b))) (set_index b' (delete i (index b')))).
  { apply linked_set_index; [done|]. intros j. rewrite !lookup_delete. case_decide; [constructor|apply (lk_index _ _ _ Hl)]. }
  destruct (lk_queue _ _ _ Hl s p) as [q q' Hq|]; [|constructor]. cbv zeta.
  pose proof (linked_filter _ _ _ _ _ _ _ Hl He Hq) as Hf. pose proof (Forall2_length _ _ _ Hf) as Hlen.
  rewrite <- Hlen, !queues_set_index, !prices_set_index, <- (lk_prices _ _ _ Hl s). destruct (Nat.eqb _ 0).
  - destruct (BinarySearch _ _) as [k f]. constructor.
    apply (linked_set_side R _ _ s p None None); [done|constructor|..];
      intros p'; rewrite lookup_delete, queues_set_index; by repeat case_decide; subst.
  - constructor. eapply (linked_set_side R _ _ s p (Some _) (Some _)); [done|constructor; exact Hf|..];
      intros p'; rewrite lookup_insert, queues_set_index; by repeat case_decide; subst.
Qed.

#[export] Instance Cancel_proper :
  Proper ((≡) ==> (=) ==> outcome_rel (prod_relation (≡) (=))) Cancel.
Proof.
  intros b b' [R Hl] i _ <-. unfold Cancel. destruct (lk_index _ _ _ Hl i) as [r r' Hr|].
  - eapply outcome_rel_bind; [by apply linked_removeRef|]. intros b1 b1' Hb1. constructor.
    split; [by exists R|done].
  - constructor. split; [by exists R|done].
Qed.

#[export] Instance Get_proper : Proper ((≡) ==> (=) ==> (≡)) Get.
Proof.
  intros b b' [R Hl] i _ <-. unfold Get. destruct (lk_index _ _ _ Hl i) as [r r' []|]; constructor.
  by eapply linked_Value.
Qed.

#[export] Instance BestAsk_proper : Proper ((≡) ==> (=)) BestAsk.
Proof. intros b b' [R Hl]. unfold BestAsk. pose proof (lk_prices _ _ _ Hl true) as Hp. cbn in Hp. by rewrite Hp. Qed.

#[export] Instance BestBid_proper : Proper ((≡) ==> (=)) BestBid.
Proof. intros b b' [R Hl]. unfold BestBid. pose proof (lk_prices _ _ _ Hl false) as Hp. cbn in Hp. by rewrite Hp. Qed.

#[export] Instance Front_proper : Proper ((≡) ==> (=) ==> (=) ==> (≡)) Front.
Proof.
  intros b b' [R Hl] side _ <- p _ <-. unfold Front.
  destruct (lk_queue _ _ _ Hl (is_sell side) p) as [q q' Hq|]; [|constructor].
  destruct Hq; constructor. by eapply linked_Value.
Qed.

Lemma linked_levelQuantity R b b' q q' :
  linked R b b' -> Forall2 R q q' -> levelQuantity b q = levelQuantity b' q'.
Proof.
  intros Hl Hq. unfold levelQuantity. generalize 0. induction Hq as [|a a' q q' Ha _ IH]; intros acc; [done|].
  cbn [foldl]. rewrite (linked_Value _ _ _ _ _ Hl Ha). apply IH.
Qed.

#[export] Instance LevelQuantity_proper : Proper ((≡) ==> (=) ==> (=) ==> (=)) LevelQuantity.
Proof.
  intros b b' [R Hl] side _ <- p _ <-. unfold LevelQuantity.
  destruct (lk_queue _ _ _ Hl (is_sell side) p) as [q q' Hq|]; [|done]. by eapply linked_levelQuantity.
Qed.

(** Writing an order through corresponding elements. *)
Lemma linked_write R b b' a a' o o' :
  linked R b b' -> R a a' -> o ≡ o' ->
  linked R (set_elems b (<[a := o]> (elems b))) (set_elems b' (<[a' := o']> (elems b'))).
Proof.
  intros [H1 H2 H3 H4 H5] Ha Ho. split; try done. intros c c' Hc. cbn [elems set_elems].
  pose proof (H1 _ _ _ _ Ha Hc) as Hiff. destruct (H2 _ _ Hc) as (x & x' & Hx & Hx' & Hxx).
  destruct (decide (a = c)) as [<-|].
  - assert (a' = c') as <- by tauto. exists o, o'.
    rewrite !list_lookup_insert_eq by eauto using lookup_lt_Some. done.
  - exists x, x'. rewrite !list_lookup_insert_ne by tauto. done.
Qed.

#[export] Instance Fill_proper :
  Proper ((≡) ==> (=) ==> (=) ==> outcome_rel (prod_relation (≡) (=))) Fill.
Proof.
  intros b b' [R Hl] i _ <- want _ <-. unfold Fill.
  destruct (lk_index _ _ _ Hl i) as [r r' Hr|]; [|constructor; split; [by exists R|done]]. cbv zeta.
  pose proof (linked_Value _ _ _ _ _ Hl (rl_elem _ _ _ Hr)) as Hv.
  rewrite <- (remaining_proper _ _ Hv). set (f := Z.min _ _).
  destruct (Z.eqb f 0); [constructor; split; [by exists R|done]|]. order_fields Hv.
  assert (Hf : o_FilledQuantity (Value b (ref_elem r)) = o_FilledQuantity (Value b' (ref_elem r'))) by done.
  assert (Hq : o_Quantity (Value b (ref_elem r)) = o_Quantity (Value b' (ref_elem r'))) by done.
  rewrite <- Hf. cbn [o_FilledQuantity o_Quantity set_FilledQuantity]. rewrite <- Hq.
  pose proof (linked_write R b b' _ _ _ _ Hl (rl_elem _ _ _ Hr)
    (set_FilledQuantity_proper (o_FilledQuantity (Value b (ref_elem r)) ⊕ f) _ _ Hv)) as Hw.
  destruct (Z.eqb _ _).
  - eapply outcome_rel_bind; [by apply linked_removeRef|]. intros b1 b1' Hb1. constructor.
    split; [by exists R|done].
  - constructor. split; [by exists R|done].
Qed.

Lemma linked_side_orders R b b' s ps :
  linked R b b' -> outcome_rel (Forall2 (≡)) (side_orders b s ps) (side_orders b' s ps).
Proof.
  intros Hl. induction ps as [|p ps IH]; cbn [side_orders]; [by repeat constructor|].
  destruct (lk_queue _ _ _ Hl s p) as [q q' Hq|]; [|constructor].
  eapply outcome_rel_bind; [exact IH|]. intros r r' Hr. constructor. apply Forall2_app; [|done].
  apply Forall2_fmap. eapply Forall2_impl; [done|]. intros ??. by eapply linked_Value.
Qed.

#[export] Instance orders_proper : Proper ((≡) ==> outcome_rel (Forall2 (≡))) orders.
Proof.
  intros b b' [R Hl]. unfold orders. change (buyPrices ?b) with (prices b false).
  change (sellPrices ?b) with (prices b true). rewrite <- !(lk_prices _ _ _ Hl).
  eapply outcome_rel_bind; [by apply (linked_side_orders R)|]. intros x x' Hx.
  eapply outcome_rel_bind; [by apply (linked_side_orders R)|]. intros y y' Hy.
  constructor. by apply Forall2_app.
Qed.

(** The index, whose size bounds the matching loop. *)
Lemma equiv_index_size b b' : b ≡ b' -> size (index b) = size (index b').
Proof.
  intros [R Hl]. rewrite <- !size_dom. f_equal. apply set_eq. intros i. rewrite !elem_of_dom.
  destruct (lk_index _ _ _ Hl i); split; by intros [? ?].
Qed.

Lemma NewOrderBook_equiv : NewOrderBook ≡ NewOrderBook.
Proof. exists (fun _ _ => False). split; try done; [by intros [] p; constructor|by intros i; constructor]. Qed.
End ops.

(** ** Well-formed books

    On books that store their orders consistently the relation says no more than
    what a client sees: the queues, up to creation times. *)

Section represented.
Implicit Types (b : OrderBook) (la : abook).

Lemma equiv_same_queues b b' : b ≡ b' -> same_queues b b'.
Proof.
  intros [R Hl] s p. unfold levelOrders. destruct (lk_queue _ _ _ Hl s p) as [q q' Hq|]; [|done].
  cbn [default from_option id]. induction Hq as [|a a' q q' Ha _ IH]; [done|]. csimpl. rewrite IH. f_equal.
  exact (linked_Value _ _ _ _ _ Hl Ha).
Qed.

(** The elements of the orders with the same id. *)
Definition same_id la la' : relation elem := fun a a' =>
  exists o o', (a, o) ∈ la /\ (a', o') ∈ la' /\ o ≡ o'.

Lemma levels_linked la la' s p :
  untimed <$> (level la s p).*2 = untimed <$> (level la' s p).*2 ->
  Forall2 (same_id la la') (level la s p).*1 (level la' s p).*1.
Proof.
  intros He. apply Forall2_fmap, Forall2_same_length_lookup.
  rewrite <- !list_fmap_compose in He. split.
  { apply (f_equal length) in He. by rewrite !length_fmap in He. }
  intros i [a o] [a' o'] Ha Ha'. apply (f_equal (fun l => l !! i)) in He.
  rewrite !list_lookup_fmap, Ha, Ha' in He. injection He as He.
  apply list_elem_of_lookup_2, elem_of_level in Ha as [? _], Ha' as [? _].
  exists o, o'. split_and!; [done..|]. unfold equiv, Order_equiv, untimed. simpl in He. congruence.
Qed.

(** Corresponding orders are found from either side. *)
Lemma same_queues_entry b b' la la' a o :
  rep b la -> rep b' la' -> same_queues b b' -> (a, o) ∈ la ->
  exists a' o', (a', o') ∈ la' /\ o ≡ o'.
Proof.
  intros Hr Hr' Hsq Hin. specialize (Hsq (is_sell (o_TradingType o)) (o_Price o)).
  rewrite (levelOrders_level _ _ _ _ Hr), (levelOrders_level _ _ _ _ Hr') in Hsq.
  assert (Ho : untimed o ∈ untimed <$> (level la (is_sell (o_TradingType o)) (o_Price o)).*2).
  { apply list_elem_of_fmap_2, list_elem_of_fmap. exists (a, o). split; [done|]. by apply elem_of_level. }
  rewrite Hsq in Ho. apply list_elem_of_fmap in Ho as (o' & Hoo & Ho').
  apply list_elem_of_fmap in Ho' as ([a' o1] & -> & Hin'). apply elem_of_level in Hin' as [? _]. by exists a', o1.
Qed.

Lemma same_queues_linked b b' la la' :
  rep b la -> rep b' la' -> same_queues b b' -> linked (same_id la la') b b'.
Proof.
  intros Hr Hr' Hsq.
  assert (Hlev : forall s p, untimed <$> (level la s p).*2 = untimed <$> (level la' s p).*2).
  { intros s p. rewrite <- (levelOrders_level _ _ _ _ Hr), <- (levelOrders_level _ _ _ _ Hr'). apply Hsq. }
  assert (Hnil : forall s p, level la s p = [] <-> level la' s p = []).
  { intros s p. specialize (Hlev s p). apply (f_equal length) in Hlev. rewrite !length_fmap in Hlev.
    rewrite <- !length_zero_iff_nil. lia. }
  split.
  - intros a a' c c' (o & o' & Ho & Ho' & Hoo) (x & x' & Hx & Hx' & Hxx). order_fields Hoo. order_fields Hxx. split.
    + intros <-. pose proof (entry_inj_addr _ _ _ _ (rep_addrs _ _ Hr) Ho Hx) as ->.
      apply (entry_inj_id la' a' c' o' x' (rep_ids _ _ Hr')); [done|done|congruence].
    + intros <-. pose proof (entry_inj_addr _ _ _ _ (rep_addrs _ _ Hr') Ho' Hx') as ->.
      apply (entry_inj_id la a c o x (rep_ids _ _ Hr)); [done|done|congruence].
  - intros a a' (o & o' & Ho & Ho' & Hoo). exists o, o'.
    split_and!; [by apply (rep_elems _ _ Hr)|by apply (rep_elems _ _ Hr')|done].
  - intros s. apply (StronglySorted_unique_strong Z.lt).
    + intros x y ? ?. lia.
    + exact (rep_sorted _ _ Hr s).
    + exact (rep_sorted _ _ Hr' s).
    + apply NoDup_Permutation; [apply ascending_NoDup, Hr|apply ascending_NoDup, Hr'|].
      intros p. rewrite (rep_prices _ _ Hr), (rep_prices _ _ Hr'). by rewrite Hnil.
  - intros s p. rewrite (rep_queue _ _ Hr), (rep_queue _ _ Hr'). pose proof (levels_linked la la' s p (Hlev s p)) as Hf.
    destruct Hf; constructor. by constructor.
  - intros i. destruct (index b !! i) as [r|] eqn:Hi.
    + apply (rep_index _ _ Hr) in Hi as (a & o & Hin & <- & ->).
      destruct (same_queues_entry _ _ _ _ _ _ Hr Hr' Hsq Hin) as (a' & o' & Hin' & Ho). order_fields Ho.
      assert (Hi' : index b' !! o_Id o = Some (ref_of a' o')).
      { apply (rep_index _ _ Hr'). exists a', o'. by split_and!. }
      rewrite Hi'. constructor. split; [done..|]. cbn. by exists o, o'.
    + destruct (index b' !! i) as [r'|] eqn:Hi'; [|constructor]. exfalso.
      apply (rep_index _ _ Hr') in Hi' as (a' & o' & Hin' & <- & ->).
      symmetry in Hsq. destruct (same_queues_entry _ _ _ _ _ _ Hr' Hr Hsq Hin') as (a & o & Hin & Ho). order_fields Ho.
      apply (rep_index_None _ _ _ Hr) in Hi. apply Hi, elem_of_ids. eauto.
Qed.

Lemma wf_book_equiv sid b b' :
  wf_book sid b -> wf_book sid b' -> (b ≡ b' <-> same_queues b b').
Proof.
  intros (la & Hr & _) (la' & Hr' & _). split; [apply equiv_same_queues|].
  intros Hsq. eexists. by apply (same_queues_linked b b' la la').
Qed.
End represented.
