(* ===== verification/Events.v ===== *)
(** * Event patterns and output events ([internal/core/engine.go])

    The pattern constants of the input and output WAL, the events that one
    request produces, and the errors of the engine. The [data any] field of an
    [outEvent] is a sum over the payload types the engine emits. *)

From S2P Require Import Prelude Domain.

Open Scope string_scope.

(** ** Input patterns *)
Definition PatternOrderCreated := "order.created".
Definition PatternAccountCreated := "account.created".
Definition PatternTransferCreated := "transfer.created".
Definition PatternStockList := "stock.list".
Definition PatternAdminBalanceAdjust := "admin.account.balance.adjust".
Definition PatternAdminStockBalanceAdjust := "admin.stock.balance.adjust".

(** ** Output patterns *)
Definition PatternTradeExecuted := "trade.executed".
Definition PatternOrderOpen := "order.open".
Definition PatternOrderFilled := "order.filled".
Definition PatternOrderCanceled := "order.canceled".
Definition PatternOrderReplaced := "order.replaced".
Definition PatternOrderCompleted := "order.completed".
Definition PatternOrderRejected := "order.rejected".
Definition PatternAccountUpdated := "account.updated".
Definition PatternAccountActivated := "account.activated".
Definition PatternHoldingUpdated := "holding.updated".
Definition PatternStockListed := "stock.listed".
Definition PatternStockUpdated := "stock.updated".
Definition PatternOrderBookUpdated := "orderbook.updated".
Definition PatternTransferCompleted := "transfer.completed".
Definition PatternTransferRejected := "transfer.rejected".
Definition PatternAdminRequestCompleted := "admin.request.completed".
Definition PatternAdminRequestRejected := "admin.request.rejected".

Close Scope string_scope.

Inductive event_data :=
  | EvTrade (t : Trade)
  | EvOrder (o : OrderEvent)
  | EvOrderRejected (r : OrderRejected)
  | EvAccount (a : Account)
  | EvHolding (h : StockBalance)
  | EvStock (s : Stock)
  | EvOrderBook (u : OrderBookUpdated)
  | EvTransferCompleted (t : TransferCompleted)
  | EvTransferRejected (t : TransferRejected)
  | EvAdminCompleted (r : AdminRequestCompleted)
  | EvAdminRejected (r : AdminRequestRejected).

Record outEvent := mkOutEvent {
  pattern : string;
  data : event_data
}.

(** ** Errors the order processing returns. [OutOfFuel] is not an error of the
    code: it marks a matching loop cut short by the model's bound, and is shown
    never to occur. *)
Inductive engine_error :=
  | TradeIDExhausted
  | UnknownTradingType
  | RemoveEditTarget (id : Z)
  | CancelTargetNotActive (id : Z)
  | RemoveCancelTarget (id : Z)
  | OutOfFuel.
