(* ===== verification/Matching.v ===== *)
(** * Order matching ([internal/core/order.go])

    [matchEvents] reserves the taker's funds, matches it against the opposite
    side of the book in price-time order, settles every trade in the ledger, and
    collects the output events. It is split here into the steps of its body, in
    the order in which the body runs them.

    [Core] holds the fields of [Engine] that order processing reads and writes.
    [time.Now] reads the [n]-th instant of an arbitrary clock; [ticks] counts
    the readings. *)

From S2P Require Import Prelude Domain Slices OrderBook Ledger Events.

Class Clock := clock_at : nat -> Time.

Record Core := mkCore {
  state : State;
  inputSeq : Z;
  outputAppliedSeq : Z;
  lastTradeID : Z;
  ticks : nat
}.

Definition set_state (c : Core) (s : State) : Core :=
  mkCore s (inputSeq c) (outputAppliedSeq c) (lastTradeID c) (ticks c).
Definition set_lastTradeID (c : Core) (i : Z) : Core :=
  mkCore (state c) (inputSeq c) (outputAppliedSeq c) i (ticks c).
Definition set_inputSeq (c : Core) (i : Z) : Core :=
  mkCore (state c) i (outputAppliedSeq c) (lastTradeID c) (ticks c).

(** ** Access to the shared stores *)

Definition upsert_account (acc : Account) (s : State) : State :=
  mkState (Accounts_Upsert acc (s_Accounts s)) (s_StockBalances s) (s_Stocks s) (s_OrderBooks s).
Definition upsert_holding (h : StockBalance) (s : State) : State :=
  mkState (s_Accounts s) (StockBalances_Upsert h (s_StockBalances s)) (s_Stocks s) (s_OrderBooks s).
Definition upsert_stock (st : Stock) (s : State) : State :=
  mkState (s_Accounts s) (s_StockBalances s) (Stocks_Upsert st (s_Stocks s)) (s_OrderBooks s).
Definition set_books (m : OrderBooks) (s : State) : State :=
  mkState (s_Accounts s) (s_StockBalances s) (s_Stocks s) m.

(** [e.state.OrderBooks.Get(id)] for its effect: the book exists afterwards. *)
Definition open_book (sid : Z) (s : State) : State :=
  set_books (fst (OrderBooks_Get (s_OrderBooks s) sid)) s.
(** The book behind the pointer that [Get] returned. *)
Definition book (sid : Z) (s : State) : OrderBook := snd (OrderBooks_Get (s_OrderBooks s) sid).
Definition set_book (sid : Z) (b : OrderBook) (s : State) : State :=
  set_books (<[sid := b]> (s_OrderBooks s)) s.

(** [if acc, ok := e.state.Accounts.Get(id); ok { ...; Upsert(&acc) }]. *)
Definition modify_account (id : Z) (f : Account -> Account) (s : State) : State :=
  match Accounts_Get (s_Accounts s) id with
  | Some acc => upsert_account (f acc) s
  | None => s
  end.
Definition modify_holding (acc sid : Z) (f : StockBalance -> StockBalance) (s : State) : State :=
  match StockBalances_Get (s_StockBalances s) acc sid with
  | Some h => upsert_holding (f h) s
  | None => s
  end.

(** ** Small helpers of order.go *)

Definition orderStatusPattern (order : Order) : string :=
  if Z.eqb (o_FilledQuantity order) (o_Quantity order) then PatternOrderFilled
  else match o_OrderType order with
       | ORDER_MARKET => PatternOrderCanceled
       | _ => PatternOrderOpen
       end.

Definition orderEvent (order : Order) : OrderEvent :=
  mkOrderEvent (o_Id order) (o_TargetId order) (o_AccountId order) (o_StockId order) (o_Price order)
    (o_TradingType order) (o_OrderType order) (o_Quantity order) (o_FilledQuantity order)
    (if IsZero (o_CreatedAt order) then None else Some (o_CreatedAt order)) None.

Definition set_oe_FilledQuantity (v : Z) (e : OrderEvent) : OrderEvent :=
  mkOrderEvent (oe_Id e) (oe_TargetId e) (oe_AccountId e) (oe_StockId e) (oe_Price e)
    (oe_TradingType e) (oe_OrderType e) (oe_Quantity e) v (oe_CreatedAt e) (oe_FullyFilledAt e).
Definition set_oe_FullyFilledAt (v : Time) (e : OrderEvent) : OrderEvent :=
  mkOrderEvent (oe_Id e) (oe_TargetId e) (oe_AccountId e) (oe_StockId e) (oe_Price e)
    (oe_TradingType e) (oe_OrderType e) (oe_Quantity e) (oe_FilledQuantity e) (oe_CreatedAt e) (Some v).

Definition orderBookSide (side : TradingType) : string :=
  match side with TRADING_SELL => "SELL" | _ => "BUY" end%string.

(** [trackLevel] and [trackAccount]: append unless seen. *)
Definition track {A} `{EqDecision A} (x : A) (l : list A) : list A :=
  if decide (x ∈ l) then l else l ++ [x].

Section matching.
Context `{!Clock}.

(** [time.Now().UTC()]. *)
Definition time_now (c : Core) : Time * Core :=
  (clock_at (ticks c),
   mkCore (state c) (inputSeq c) (outputAppliedSeq c) (lastTradeID c) (S (ticks c))).

Definition nextTradeID (c : Core) : Core * (Z + engine_error) :=
  if Z.eqb (lastTradeID c) MaxInt64 then (c, inr TradeIDExhausted)
  else let c := set_lastTradeID c (lastTradeID c + 1) in (c, inl (lastTradeID c)).

(** Replay does not consume trade ids for inputs whose output exists. *)
Definition takeTradeID (c : Core) : Core * (Z + engine_error) :=
  if Z.eqb (outputAppliedSeq c) 0 || Z.gtb (inputSeq c) (outputAppliedSeq c)
  then nextTradeID c else (c, inl 0).

(** *** Reservation of the taker's funds *)
Definition reserve (order : Order) (remaining : Z) (s : State) : State :=
  match o_TradingType order with
  | TRADING_BUY =>
      modify_account (o_AccountId order) (fun acc =>
        set_AvailableBalance (acc_AvailableBalance acc ⊖ (o_Price order ⊗ remaining)) acc) s
  | TRADING_SELL =>
      modify_holding (o_AccountId order) (o_StockId order) (fun h =>
        set_AvailableQuantity (sb_AvailableQuantity h ⊖ remaining) h) s
  | _ => s
  end.

(** *** The best opposite price and the side it is on *)
Definition best_counter (order : Order) (ob : OrderBook) : option Z * TradingType :=
  match o_TradingType order with
  | TRADING_BUY => (BestAsk ob, TRADING_SELL)
  | TRADING_SELL => (BestBid ob, TRADING_BUY)
  | _ => (None, TRADING_BUY)
  end.

(** A limit order does not trade through its own price. *)
Definition price_rejected (order : Order) (bestPrice : Z) : bool :=
  match o_OrderType order with
  | ORDER_LIMIT =>
      match o_TradingType order with
      | TRADING_BUY => Z.gtb bestPrice (o_Price order)
      | TRADING_SELL => Z.ltb bestPrice (o_Price order)
      | _ => false
      end
  | _ => false
  end.

(** *** Settlement of one trade in the ledger *)
Definition buyer_holding (h : StockBalance) (filled cash : Z) : outcome StockBalance :=
  let quantity := sb_Quantity h ⊕ filled in
  let total := sb_TotalBuyAmount h ⊕ cash in
  if Z.eqb quantity 0 then Panicked DivideByZero
  else Done (mkStockBalance (sb_AccountId h) (sb_StockId h) quantity
               (sb_AvailableQuantity h ⊕ filled) (total / quantity) total).

Definition seller_holding (filled : Z) (h : StockBalance) : StockBalance :=
  let quantity := sb_Quantity h ⊖ filled in
  let total := sb_TotalBuyAmount h ⊖ (filled ⊗ sb_Average h) in
  if Z.eqb quantity 0
  then mkStockBalance (sb_AccountId h) (sb_StockId h) quantity (sb_AvailableQuantity h) 0 0
  else mkStockBalance (sb_AccountId h) (sb_StockId h) quantity (sb_AvailableQuantity h) (sb_Average h) total.

Definition settle (buyerID sellerID stockId filled cash : Z) (s : State) : outcome State :=
  let s := modify_account buyerID (fun a => set_Balance (acc_Balance a ⊖ cash) a) s in
  let buyerHold :=
    default (mkStockBalance buyerID stockId 0 0 0 0)
      (StockBalances_Get (s_StockBalances s) buyerID stockId) in
  buyerHold <~ buyer_holding buyerHold filled cash;
  let s := upsert_holding buyerHold s in
  let s := modify_account sellerID (fun a =>
    mkAccount (acc_Id a) (acc_Balance a ⊕ cash) (acc_AvailableBalance a ⊕ cash)) s in
  Done (modify_holding sellerID stockId (seller_holding filled) s).

(** *** One trade's events *)

(** The maker's state after the trade: filled, or still open. *)
Definition maker_event (counter : Order) (filled : Z) (c : Core) : Core * outEvent :=
  let makerFilled := o_FilledQuantity counter ⊕ filled in
  let makerEvent := set_oe_FilledQuantity makerFilled (orderEvent counter) in
  if Z.eqb makerFilled (o_Quantity counter) then
    let '(now, c) := time_now c in
    (c, mkOutEvent PatternOrderFilled (EvOrder (set_oe_FullyFilledAt now makerEvent)))
  else (c, mkOutEvent PatternOrderOpen (EvOrder makerEvent)).

Definition trade_event (order counter : Order) (tradeID bestPrice filled : Z) (c : Core) : Core * outEvent :=
  let '(now, c) := time_now c in
  (c, mkOutEvent PatternTradeExecuted (EvTrade
        (mkTrade tradeID (o_StockId order) bestPrice filled (o_Id counter) (o_Id order)
           (o_TradingType order) now))).

(** *** The matching loop *)

(** The local variables of [matchEvents] that the loop changes. *)
Record locals := mkLocals {
  l_core : Core;
  l_order : Order;
  l_filledCash : Z;
  l_lastTradePrice : Z;
  l_events : list outEvent;
  l_accountIDs : list Z;
  l_levels : list (TradingType * Z)
}.

Inductive loop_step :=
  | Break (l : locals)
  | Continue (l : locals)
  | Fail (l : locals) (e : engine_error).

(** The rest of an iteration, after [Fill] has filled [filled > 0]. *)
Definition after_fill (l : locals) (counterSide : TradingType) (bestPrice : Z) (counter : Order)
    (c : Core) (filled : Z) : outcome loop_step :=
  let order := set_FilledQuantity (o_FilledQuantity (l_order l) ⊕ filled) (l_order l) in
  let levels := track (counterSide, bestPrice) (l_levels l) in
  let cash := bestPrice ⊗ filled in
  let filledCash := l_filledCash l ⊕ cash in
  let '(buyerID, sellerID) :=
    if is_sell (o_TradingType order) then (o_AccountId counter, o_AccountId order)
    else (o_AccountId order, o_AccountId counter) in
  s <~ settle buyerID sellerID (o_StockId order) filled cash (state c);
  match takeTradeID (set_state c s) with
  | (c, inr e) =>
      Done (Fail (mkLocals c order filledCash bestPrice (l_events l) (l_accountIDs l) levels) e)
  | (c, inl tradeID) =>
      let '(c, trade) := trade_event order counter tradeID bestPrice filled c in
      let '(c, maker) := maker_event counter filled c in
      Done (Continue (mkLocals c order filledCash bestPrice (l_events l ++ [trade; maker])
                        (track (o_AccountId counter) (l_accountIDs l)) levels))
  end.

(** One iteration, entered when the order is not completely filled. *)
Definition match_step (l : locals) : outcome loop_step :=
  let order := l_order l in
  let ob := book (o_StockId order) (state (l_core l)) in
  match best_counter order ob with
  | (None, _) => Done (Break l)
  | (Some bestPrice, counterSide) =>
      if price_rejected order bestPrice then Done (Break l)
      else match Front ob counterSide bestPrice with
           | None => Done (Break l)
           | Some counter =>
               let want := o_Quantity order ⊖ o_FilledQuantity order in
               '(ob, filled) <~ Fill ob (o_Id counter) want;
               let c := set_state (l_core l) (set_book (o_StockId order) ob (state (l_core l))) in
               if Z.eqb filled 0
               then Done (Break (mkLocals c order (l_filledCash l) (l_lastTradePrice l)
                                   (l_events l) (l_accountIDs l) (l_levels l)))
               else after_fill l counterSide bestPrice counter c filled
           end
  end.

(** The loop. Every iteration that continues either completes the taker or
    takes a maker out of the index, so the index bounds the iterations. *)
Fixpoint match_loop (fuel : nat) (l : locals) : outcome (locals * option engine_error) :=
  if Z.ltb (o_FilledQuantity (l_order l)) (o_Quantity (l_order l)) then
    match fuel with
    | O => Done (l, Some OutOfFuel)
    | S fuel =>
        r <~ match_step l;
        match r with
        | Break l => Done (l, None)
        | Continue l => match_loop fuel l
        | Fail l e => Done (l, Some e)
        end
    end
  else Done (l, None).

(** *** After the loop *)

(** A limit remainder rests in the book; a market remainder is released. *)
Definition place_remainder (l : locals) : locals :=
  let order := l_order l in
  let c := l_core l in
  if Z.ltb (o_FilledQuantity order) (o_Quantity order) then
    match o_OrderType order with
    | ORDER_LIMIT =>
        let ob := Add (book (o_StockId order) (state c)) order in
        mkLocals (set_state c (set_book (o_StockId order) ob (state c))) order (l_filledCash l)
          (l_lastTradePrice l) (l_events l) (l_accountIDs l)
          (track (o_TradingType order, o_Price order) (l_levels l))
    | ORDER_MARKET =>
        let unfilled := o_Quantity order ⊖ o_FilledQuantity order in
        let s :=
          match o_TradingType order with
          | TRADING_BUY =>
              modify_account (o_AccountId order) (fun acc =>
                set_AvailableBalance (acc_AvailableBalance acc ⊕ (o_Price order ⊗ unfilled)) acc) (state c)
          | TRADING_SELL =>
              modify_holding (o_AccountId order) (o_StockId order) (fun h =>
                set_AvailableQuantity (sb_AvailableQuantity h ⊕ unfilled) h) (state c)
          | _ => state c
          end in
        mkLocals (set_state c s) order (l_filledCash l) (l_lastTradePrice l) (l_events l)
          (l_accountIDs l) (l_levels l)
    | ORDER_TYPE_OTHER _ => l
    end
  else l.

(** The difference between the cash reserved for the filled part of a buy
    order and the cash it cost is released. *)
Definition refund_buyer (initialFilled : Z) (l : locals) (s : State) : State :=
  let order := l_order l in
  match o_TradingType order with
  | TRADING_BUY =>
      let newlyFilled := o_FilledQuantity order ⊖ initialFilled in
      let locked := o_Price order ⊗ newlyFilled in
      let refund := locked ⊖ l_filledCash l in
      if Z.gtb refund 0 then
        modify_account (o_AccountId order) (fun acc =>
          set_AvailableBalance (acc_AvailableBalance acc ⊕ refund) acc) s
      else s
  | _ => s
  end.

(** The stock's price becomes the last trade price. *)
Definition update_stock_price (l : locals) (s : State) : State * option Stock :=
  if Z.gtb (l_lastTradePrice l) 0 then
    match Stocks_Get (s_Stocks s) (o_StockId (l_order l)) with
    | Some stock =>
        let stock := set_Price (l_lastTradePrice l) stock in
        (upsert_stock stock s, Some stock)
    | None => (s, None)
    end
  else (s, None).

Definition taker_event (order : Order) (c : Core) : Core * outEvent :=
  let takerPattern := orderStatusPattern order in
  if String.eqb takerPattern PatternOrderFilled then
    let '(now, c) := time_now c in
    (c, mkOutEvent takerPattern (EvOrder (set_oe_FullyFilledAt now (orderEvent order))))
  else (c, mkOutEvent takerPattern (EvOrder (orderEvent order))).

Definition book_levels (ob : OrderBook) (levels : list (TradingType * Z)) : list OrderBookLevel :=
  (fun '(side, price) => mkOrderBookLevel (orderBookSide side) price (LevelQuantity ob side price)) <$> levels.

Definition book_events (stockId : Z) (levels : list (TradingType * Z)) (s : State) : list outEvent :=
  match levels with
  | [] => []
  | _ => [mkOutEvent PatternOrderBookUpdated
            (EvOrderBook (mkOrderBookUpdated stockId (book_levels (book stockId s) levels)))]
  end.

(** The final balance and holding of every account the request touched. *)
Definition account_events (stockId : Z) (s : State) (accountIDs : list Z) : list outEvent :=
  concat ((fun id =>
    match Accounts_Get (s_Accounts s) id with
    | Some acc => [mkOutEvent PatternAccountUpdated (EvAccount acc)]
    | None => []
    end ++
    match StockBalances_Get (s_StockBalances s) id stockId with
    | Some h => [mkOutEvent PatternHoldingUpdated (EvHolding h)]
    | None => []
    end) <$> accountIDs).

Definition stock_events (updatedStock : option Stock) : list outEvent :=
  match updatedStock with
  | Some st => [mkOutEvent PatternStockUpdated (EvStock st)]
  | None => []
  end.

(** Everything after the loop. *)
Definition finish_match (initialFilled : Z) (l : locals) : Core * list outEvent :=
  let l := place_remainder l in
  let order := l_order l in
  let s := refund_buyer initialFilled l (state (l_core l)) in
  let '(s, updatedStock) := update_stock_price l s in
  let '(c, taker) := taker_event order (set_state (l_core l) s) in
  (c, l_events l ++ [taker] ++ book_events (o_StockId order) (l_levels l) (state c)
        ++ account_events (o_StockId order) (state c) (l_accountIDs l)
        ++ stock_events updatedStock).

Definition start_match (order : Order) (c : Core) : locals :=
  let s := open_book (o_StockId order) (state c) in
  let remaining := o_Quantity order ⊖ o_FilledQuantity order in
  mkLocals (set_state c (reserve order remaining s)) order 0 0 [] [o_AccountId order] [].

Definition match_fuel (l : locals) : nat :=
  S (size (index (book (o_StockId (l_order l)) (state (l_core l))))).

Definition matchEvents (order : Order) (c : Core) : outcome (Core * (list outEvent + engine_error)) :=
  let l := start_match order c in
  '(l, err) <~ match_loop (match_fuel l) l;
  match err with
  | Some e => Done (l_core l, inr e)
  | None => let '(c, evs) := finish_match (o_FilledQuantity order) l in Done (c, inl evs)
  end.
End matching.
