(* ===== verification/Validation.v ===== *)
(** * Order validation ([order_validation.go], [order_rejection.go])

    A validator returns the reason of a rejection, or nothing; the message text
    of the error is not modelled. [OrderBooks.Get] creates a missing book, so
    the validation of an edit or a cancel may change the ledger, and every
    validator that reaches it returns the new state. *)

From S2P Require Import Prelude Domain Slices OrderBook Ledger Events Matching.

(** ** Reasons *)

Inductive RejectReason :=
  | RejectInvalidOrder
  | RejectInsufficientBalance
  | RejectInsufficientStock
  | RejectStockNotTradable
  | RejectOrderNotActive.

#[export] Instance RejectReason_eq_dec : EqDecision RejectReason.
Proof. solve_decision. Defined.

Definition RejectReason_string (r : RejectReason) : string :=
  match r with
  | RejectInvalidOrder => "INVALID_ORDER"
  | RejectInsufficientBalance => "INSUFFICIENT_BALANCE"
  | RejectInsufficientStock => "INSUFFICIENT_STOCK"
  | RejectStockNotTradable => "STOCK_NOT_TRADABLE"
  | RejectOrderNotActive => "ORDER_NOT_ACTIVE"
  end%string.

(** The event [appendReject] writes. *)
Definition reject_event (order : Order) (r : RejectReason) : outEvent :=
  mkOutEvent PatternOrderRejected (EvOrderRejected (mkOrderRejected (o_Id order) (RejectReason_string r))).

(** ** Validators *)

Definition validateStock (order : Order) (s : State) : option RejectReason :=
  match Stocks_Get (s_Stocks s) (o_StockId order) with
  | None => Some RejectInvalidOrder
  | Some stock =>
      if negb (bool_decide (st_Status stock = LISTED)) &&
         negb (bool_decide (o_TradingType order = TRADING_CANCEL))
      then Some RejectStockNotTradable
      else None
  end.

Definition validateTrade (order : Order) : option RejectReason :=
  if Z.eqb (o_Quantity order) 0 || negb (Z.eqb (o_FilledQuantity order) 0) then Some RejectInvalidOrder
  else if negb (bool_decide (o_OrderType order = ORDER_LIMIT)) &&
          negb (bool_decide (o_OrderType order = ORDER_MARKET)) then Some RejectInvalidOrder
  else if Z.eqb (o_Price order) 0 then Some RejectInvalidOrder
  else None.

Definition validateBuy (order : Order) (s : State) : option RejectReason :=
  match validateTrade order with
  | Some r => Some r
  | None =>
      match Accounts_Get (s_Accounts s) (o_AccountId order) with
      | None => Some RejectInvalidOrder
      | Some account =>
          let '(hi, cost) := Mul64 (o_Price order) (o_Quantity order) in
          if negb (Z.eqb hi 0) then Some RejectInvalidOrder
          else if Z.ltb (acc_AvailableBalance account) cost then Some RejectInsufficientBalance
          else None
      end
  end.

Definition validateSell (order : Order) (s : State) : option RejectReason :=
  match validateTrade order with
  | Some r => Some r
  | None =>
      match StockBalances_Get (s_StockBalances s) (o_AccountId order) (o_StockId order) with
      | None => Some RejectInsufficientStock
      | Some holding =>
          if Z.ltb (sb_AvailableQuantity holding) (o_Quantity order)
          then Some RejectInsufficientStock else None
      end
  end.

Definition validateTargetRequest (order : Order) (s : State) : State * (Order + RejectReason) :=
  if Z.leb (o_TargetId order) 0 then (s, inr RejectInvalidOrder)
  else
    let s := open_book (o_StockId order) s in
    match Get (book (o_StockId order) s) (o_TargetId order) with
    | None => (s, inr RejectOrderNotActive)
    | Some target =>
        if negb (Z.eqb (o_AccountId target) (o_AccountId order))
        then (s, inr RejectOrderNotActive)
        else (s, inl target)
    end.

(** The funds check of an edit, once the target is known. *)
Definition validateEditFunds (order target : Order) (s : State) : option RejectReason :=
  let remaining := o_Quantity target ⊖ o_FilledQuantity target in
  match o_TradingType target with
  | TRADING_BUY =>
      match Accounts_Get (s_Accounts s) (o_AccountId target) with
      | None => Some RejectInvalidOrder
      | Some account =>
          let '(oldHi, oldReserved) := Mul64 (o_Price target) remaining in
          let '(newHi, newRequired) := Mul64 (o_Price order) remaining in
          if negb (Z.eqb oldHi 0) || negb (Z.eqb newHi 0) then Some RejectInvalidOrder
          else
            let '(effective, carry) := Add64 (acc_AvailableBalance account) oldReserved 0 in
            if negb (Z.eqb carry 0) then Some RejectInvalidOrder
            else if Z.ltb effective newRequired then Some RejectInsufficientBalance
            else None
      end
  | TRADING_SELL =>
      match StockBalances_Get (s_StockBalances s) (o_AccountId target) (o_StockId target) with
      | None => Some RejectInsufficientStock
      | Some _ => None
      end
  | _ => None
  end.

Definition validateEdit (order : Order) (s : State) : State * option RejectReason :=
  match validateTargetRequest order s with
  | (s, inr r) => (s, Some r)
  | (s, inl target) =>
      if Z.eqb (o_Id order) (o_TargetId order) then (s, Some RejectInvalidOrder)
      else if Z.eqb (o_Price order) 0 || Z.eqb (o_Price order) (o_Price target)
      then (s, Some RejectInvalidOrder)
      else (s, validateEditFunds order target s)
  end.

Definition validateCancel (order : Order) (s : State) : State * option RejectReason :=
  match validateTargetRequest order s with
  | (s, inr r) => (s, Some r)
  | (s, inl _) => (s, None)
  end.

Definition validateOrder (order : Order) (s : State) : State * option RejectReason :=
  if Z.leb (o_Id order) 0 then (s, Some RejectInvalidOrder)
  else
    match validateStock order s with
    | Some r => (s, Some r)
    | None =>
        match o_TradingType order with
        | TRADING_BUY => (s, validateBuy order s)
        | TRADING_SELL => (s, validateSell order s)
        | TRADING_EDIT => validateEdit order s
        | TRADING_CANCEL => validateCancel order s
        | TRADING_OTHER _ => (s, Some RejectInvalidOrder)
        end
    end.
