(* ===== verification/Orders.v ===== *)
(** * Edit, cancel and routing ([internal/core/order.go])

    The state changes and events of an edit and of a cancel request, and the
    routing of a validated order. The append to the output WAL that ends each of
    them is in [Engine]. *)

From S2P Require Import Prelude Domain Slices OrderBook Ledger Events Matching Validation.

Section orders.
Context `{!Clock}.

(** Take an active order out of the book and release what it reserved. *)
Definition removeAndRelease (target : Order) (s : State) : outcome (State * bool) :=
  let s := open_book (o_StockId target) s in
  '(ob, ok) <~ Cancel (book (o_StockId target) s) (o_Id target);
  let s := set_book (o_StockId target) ob s in
  if negb ok then Done (s, false)
  else
    let remaining := o_Quantity target ⊖ o_FilledQuantity target in
    Done (match o_TradingType target with
          | TRADING_BUY =>
              modify_account (o_AccountId target) (fun a =>
                set_AvailableBalance (acc_AvailableBalance a ⊕ (o_Price target ⊗ remaining)) a) s
          | TRADING_SELL =>
              modify_holding (o_AccountId target) (o_StockId target) (fun h =>
                set_AvailableQuantity (sb_AvailableQuantity h ⊕ remaining) h) s
          | _ => s
          end, true).

(** The order that replaces the target: only the price changes. *)
Definition replacement_of (order target : Order) : Order :=
  mkOrder (o_Id order) (o_TargetId order) (o_AccountId order) (o_StockId order) (o_Price order)
    (o_Quantity target) (o_FilledQuantity target) (o_OrderType target) (o_TradingType target)
    (o_CreatedAt order).

(** Append the level to the first orderbook event, or emit a new one. *)
Fixpoint mergeOrderBookLevel (events : list outEvent) (level : OrderBookLevel) (stockID : Z) : list outEvent :=
  match events with
  | [] => [mkOutEvent PatternOrderBookUpdated (EvOrderBook (mkOrderBookUpdated stockID [level]))]
  | ev :: rest =>
      match data ev with
      | EvOrderBook update =>
          if String.eqb (pattern ev) PatternOrderBookUpdated
          then mkOutEvent (pattern ev)
                 (EvOrderBook (mkOrderBookUpdated (obu_StockId update) (obu_Levels update ++ [level]))) :: rest
          else ev :: mergeOrderBookLevel rest level stockID
      | _ => ev :: mergeOrderBookLevel rest level stockID
      end
  end.

Definition target_level (target : Order) (ob : OrderBook) : OrderBookLevel :=
  mkOrderBookLevel (orderBookSide (o_TradingType target)) (o_Price target)
    (LevelQuantity ob (o_TradingType target) (o_Price target)).

Definition editEvents (order : Order) (c : Core) : outcome (Core * (list outEvent + engine_error)) :=
  let s := open_book (o_StockId order) (state c) in
  let target := default zero_Order (Get (book (o_StockId order) s) (o_TargetId order)) in
  '(s, ok) <~ removeAndRelease target s;
  let c := set_state c s in
  if negb ok then Done (c, inr (RemoveEditTarget (o_TargetId order)))
  else
    '(c, r) <~ matchEvents (replacement_of order target) c;
    match r with
    | inr e => Done (c, inr e)
    | inl events =>
        let events := mergeOrderBookLevel events
          (target_level target (book (o_StockId order) (state c))) (o_StockId target) in
        Done (c, inl (mkOutEvent PatternOrderReplaced (EvOrder (orderEvent target)) :: events))
    end.

Definition cancelEvents (order : Order) (c : Core) : outcome (Core * (list outEvent + engine_error)) :=
  let s := open_book (o_StockId order) (state c) in
  match Get (book (o_StockId order) s) (o_TargetId order) with
  | None => Done (set_state c s, inr (CancelTargetNotActive (o_TargetId order)))
  | Some target =>
      '(s, ok) <~ removeAndRelease target s;
      let c := set_state c s in
      if negb ok then Done (c, inr (RemoveCancelTarget (o_TargetId order)))
      else
        let events :=
          [mkOutEvent PatternOrderCanceled (EvOrder (orderEvent target));
           mkOutEvent PatternOrderCompleted (EvOrder (orderEvent order));
           mkOutEvent PatternOrderBookUpdated (EvOrderBook (mkOrderBookUpdated (o_StockId target)
             [target_level target (book (o_StockId order) s)]))] in
        let balance :=
          match o_TradingType target with
          | TRADING_BUY =>
              match Accounts_Get (s_Accounts s) (o_AccountId target) with
              | Some account => [mkOutEvent PatternAccountUpdated (EvAccount account)]
              | None => []
              end
          | TRADING_SELL =>
              match StockBalances_Get (s_StockBalances s) (o_AccountId target) (o_StockId target) with
              | Some holding => [mkOutEvent PatternHoldingUpdated (EvHolding holding)]
              | None => []
              end
          | _ => []
          end in
        Done (c, inl (events ++ balance))
  end.

(** [route] up to the output append. *)
Definition route_events (order : Order) (c : Core) : outcome (Core * (list outEvent + engine_error)) :=
  match o_TradingType order with
  | TRADING_BUY | TRADING_SELL => matchEvents order c
  | TRADING_EDIT => editEvents order c
  | TRADING_CANCEL => cancelEvents order c
  | TRADING_OTHER _ => Done (c, inr UnknownTradingType)
  end.
End orders.
