(* ===== verification/Transfer.v ===== *)
(** * Transfers between accounts ([transfer.go], [transfer_rejection.go]) *)

From S2P Require Import Prelude Domain Slices OrderBook Ledger Events Matching.

Inductive TransferRejectReason :=
  | TransferRejectInsufficientBalance
  | TransferRejectInvalidSender
  | TransferRejectInvalidRecipient
  | TransferRejectSelfTransfer
  | TransferRejectInvalidRequest
  | TransferRejectSenderNotActive
  | TransferRejectRecipientNotActive.

Definition TransferRejectReason_string (r : TransferRejectReason) : string :=
  match r with
  | TransferRejectInsufficientBalance => "INSUFFICIENT_BALANCE"
  | TransferRejectInvalidSender => "INVALID_SENDER"
  | TransferRejectInvalidRecipient => "INVALID_RECIPIENT"
  | TransferRejectSelfTransfer => "SELF_TRANSFER"
  | TransferRejectInvalidRequest => "INVALID_REQUEST"
  | TransferRejectSenderNotActive => "SENDER_NOT_ACTIVE"
  | TransferRejectRecipientNotActive => "RECIPIENT_NOT_ACTIVE"
  end%string.

Definition validateTransfer (transfer : Transfer) (s : State) : (Account * Account) + TransferRejectReason :=
  if Z.leb (tf_Id transfer) 0 then inr TransferRejectInvalidRequest
  else if Z.eqb (tf_Amount transfer) 0 then inr TransferRejectInvalidRequest
  else if Z.eqb (tf_SenderAccountId transfer) (tf_RecipientAccountId transfer)
  then inr TransferRejectSelfTransfer
  else if Z.leb (tf_SenderAccountId transfer) 0 then inr TransferRejectInvalidSender
  else match Accounts_Get (s_Accounts s) (tf_SenderAccountId transfer) with
  | None => inr TransferRejectInvalidSender
  | Some sender =>
      if Z.leb (tf_RecipientAccountId transfer) 0 then inr TransferRejectInvalidRecipient
      else match Accounts_Get (s_Accounts s) (tf_RecipientAccountId transfer) with
      | None => inr TransferRejectInvalidRecipient
      | Some recipient =>
          if Z.ltb (acc_AvailableBalance sender) (tf_Amount transfer)
          then inr TransferRejectInsufficientBalance
          else inl (sender, recipient)
      end
  end.

Section transfer.
Context `{!Clock}.

(** The event [appendTransferReject] writes. *)
Definition transfer_reject_event (transfer : Transfer) (r : TransferRejectReason) (completedAt : Time) : outEvent :=
  mkOutEvent PatternTransferRejected (EvTransferRejected
    (mkTransferRejected (tf_Id transfer) (tf_SenderAccountId transfer) (tf_RecipientAccountId transfer)
       (tf_Amount transfer) (TransferRejectReason_string r) completedAt)).

Definition debit (amount : Z) (a : Account) : Account :=
  mkAccount (acc_Id a) (acc_Balance a ⊖ amount) (acc_AvailableBalance a ⊖ amount).
Definition credit (amount : Z) (a : Account) : Account :=
  mkAccount (acc_Id a) (acc_Balance a ⊕ amount) (acc_AvailableBalance a ⊕ amount).

(** [applyTransfer] up to the output append. *)
Definition transferEvents (transfer : Transfer) (c : Core) : Core * list outEvent :=
  let '(completedAt, c) := time_now c in
  match validateTransfer transfer (state c) with
  | inr r => (c, [transfer_reject_event transfer r completedAt])
  | inl (sender, recipient) =>
      let sender := debit (tf_Amount transfer) sender in
      let recipient := credit (tf_Amount transfer) recipient in
      let s := upsert_account recipient (upsert_account sender (state c)) in
      (set_state c s,
       [mkOutEvent PatternAccountUpdated (EvAccount sender);
        mkOutEvent PatternAccountUpdated (EvAccount recipient);
        mkOutEvent PatternTransferCompleted (EvTransferCompleted
          (mkTransferCompleted (tf_Id transfer) (tf_SenderAccountId transfer)
             (tf_RecipientAccountId transfer) (tf_Amount transfer) completedAt))])
  end.
End transfer.
