(* ===== verification/Admin.v ===== *)
(** * Account creation, listing and admin adjustments
    ([handle.go], [handle_admin.go], [admin_rejection.go])

    The ledger changes and events of the non-order requests, up to the output
    append. *)

From S2P Require Import Prelude Domain Slices OrderBook Ledger Events Matching Transfer.

Inductive AdminRejectReason :=
  | AdminRejectTargetNotFound
  | AdminRejectInvalidState
  | AdminRejectInsufficientBalance
  | AdminRejectInsufficientStock
  | AdminRejectInvalidRequest.

Definition AdminRejectReason_string (r : AdminRejectReason) : string :=
  match r with
  | AdminRejectTargetNotFound => "TARGET_NOT_FOUND"
  | AdminRejectInvalidState => "INVALID_STATE"
  | AdminRejectInsufficientBalance => "INSUFFICIENT_BALANCE"
  | AdminRejectInsufficientStock => "INSUFFICIENT_STOCK"
  | AdminRejectInvalidRequest => "INVALID_REQUEST"
  end%string.

(** [uint64(-delta)] and [uint64(delta)] of an [int64]. *)
Definition decrease_of (delta : Z) : Z := u64 (i64 (- delta)).
Definition increase_of (delta : Z) : Z := u64 delta.

Section admin.
Context `{!Clock}.

Definition adminRequestCompleted (requestID : Z) (c : Core) : Core * outEvent :=
  let '(now, c) := time_now c in
  (c, mkOutEvent PatternAdminRequestCompleted (EvAdminCompleted (mkAdminRequestCompleted requestID now))).

Definition adminRequestRejected (requestID : Z) (r : AdminRejectReason) (c : Core) : Core * outEvent :=
  let '(now, c) := time_now c in
  (c, mkOutEvent PatternAdminRequestRejected
        (EvAdminRejected (mkAdminRequestRejected requestID (AdminRejectReason_string r) now))).

(** ** Balances *)

Definition validateBalanceAdjust (req : BalanceAdjust) (s : State) : option AdminRejectReason :=
  if Z.eqb (ba_Delta req) 0 then Some AdminRejectInvalidRequest
  else match Accounts_Get (s_Accounts s) (ba_AccountId req) with
  | None => Some AdminRejectTargetNotFound
  | Some acc =>
      if Z.ltb (ba_Delta req) 0 then
        let decrease := decrease_of (ba_Delta req) in
        if Z.ltb (acc_Balance acc) decrease || Z.ltb (acc_AvailableBalance acc) decrease
        then Some AdminRejectInsufficientBalance else None
      else None
  end.

Definition balanceAdjustEvents (req : BalanceAdjust) (c : Core) : Core * list outEvent :=
  match validateBalanceAdjust req (state c) with
  | Some r =>
      let '(c, rejected) := adminRequestRejected (ba_Id req) r c in (c, [rejected])
  | None =>
      let acc := default zero_Account (Accounts_Get (s_Accounts (state c)) (ba_AccountId req)) in
      let acc :=
        if Z.ltb (ba_Delta req) 0 then debit (decrease_of (ba_Delta req)) acc
        else credit (increase_of (ba_Delta req)) acc in
      let c := set_state c (upsert_account acc (state c)) in
      let '(c, completed) := adminRequestCompleted (ba_Id req) c in
      (c, [mkOutEvent PatternAccountUpdated (EvAccount acc); completed])
  end.

(** ** Holdings *)

Definition validateStockBalanceAdjust (req : StockBalanceAdjust) (s : State) : option AdminRejectReason :=
  if Z.eqb (sba_Delta req) 0 then Some AdminRejectInvalidRequest
  else match Accounts_Get (s_Accounts s) (sba_AccountId req) with
  | None => Some AdminRejectTargetNotFound
  | Some _ =>
      match Stocks_Get (s_Stocks s) (sba_StockId req) with
      | None => Some AdminRejectTargetNotFound
      | Some _ =>
          match StockBalances_Get (s_StockBalances s) (sba_AccountId req) (sba_StockId req) with
          | None =>
              if Z.ltb (sba_Delta req) 0 then Some AdminRejectInsufficientStock
              else if Z.eqb (sba_Average req) 0 then Some AdminRejectInvalidRequest
              else None
          | Some holding =>
              if Z.ltb (sba_Delta req) 0 then
                let decrease := decrease_of (sba_Delta req) in
                if Z.ltb (sb_Quantity holding) decrease || Z.ltb (sb_AvailableQuantity holding) decrease
                then Some AdminRejectInsufficientStock else None
              else None
          end
      end
  end.

(** The holding after an accepted adjustment. *)
Definition adjusted_holding (req : StockBalanceAdjust) (h : option StockBalance) : StockBalance :=
  match h with
  | None =>
      let increase := increase_of (sba_Delta req) in
      mkStockBalance (sba_AccountId req) (sba_StockId req) increase increase
        (sba_Average req) (increase ⊗ sba_Average req)
  | Some h =>
      if Z.ltb (sba_Delta req) 0 then
        let decrease := decrease_of (sba_Delta req) in
        let quantity := sb_Quantity h ⊖ decrease in
        let available := sb_AvailableQuantity h ⊖ decrease in
        let total := sb_TotalBuyAmount h ⊖ (decrease ⊗ sb_Average h) in
        if Z.eqb quantity 0
        then mkStockBalance (sb_AccountId h) (sb_StockId h) quantity available 0 0
        else mkStockBalance (sb_AccountId h) (sb_StockId h) quantity available (sb_Average h) total
      else
        let increase := increase_of (sba_Delta req) in
        mkStockBalance (sb_AccountId h) (sb_StockId h) (sb_Quantity h ⊕ increase)
          (sb_AvailableQuantity h ⊕ increase) (sb_Average h)
          (sb_TotalBuyAmount h ⊕ (increase ⊗ sb_Average h))
  end.

Definition stockBalanceAdjustEvents (req : StockBalanceAdjust) (c : Core) : Core * list outEvent :=
  match validateStockBalanceAdjust req (state c) with
  | Some r =>
      let '(c, rejected) := adminRequestRejected (sba_Id req) r c in (c, [rejected])
  | None =>
      let holding := adjusted_holding req
        (StockBalances_Get (s_StockBalances (state c)) (sba_AccountId req) (sba_StockId req)) in
      let c := set_state c (upsert_holding holding (state c)) in
      let '(c, completed) := adminRequestCompleted (sba_Id req) c in
      (c, [mkOutEvent PatternHoldingUpdated (EvHolding holding); completed])
  end.

(** ** Accounts and stocks *)

Definition activateAccountEvents (acc : Account) (c : Core) : Core * list outEvent :=
  (set_state c (upsert_account acc (state c)),
   [mkOutEvent PatternAccountActivated (EvAccount acc)]).

Definition setStockStatusEvents (stock : Stock) (status : StockStatus) (p : string) (c : Core) : Core * list outEvent :=
  let stock := mkStock (st_Id stock) (st_Price stock) status in
  (set_state c (upsert_stock stock (state c)), [mkOutEvent p (EvStock stock)]).
End admin.
