(* ===== verification/LedgerSim.v ===== *)
(** * Ledgers that behave alike

    The relation of [BookSim] lifted to ledgers: equal accounts, holdings and
    stocks, related books. Order processing respects it step by step: from
    related ledgers a request ends the same way, with related ledgers and with
    the same events up to the creation times of orders. So nothing that a
    restart from a snapshot changed in the ledger can be told from the outside,
    except those times. *)

From S2P Require Import Prelude Domain Slices OrderBook BookSpec Ledger Snapshot BookSim Events Matching.

(** ** Events *)

Definition untimed_data (d : event_data) : event_data :=
  match d with
  | EvOrder o =>
      EvOrder (mkOrderEvent (oe_Id o) (oe_TargetId o) (oe_AccountId o) (oe_StockId o) (oe_Price o)
        (oe_TradingType o) (oe_OrderType o) (oe_Quantity o) (oe_FilledQuantity o) None (oe_FullyFilledAt o))
  | _ => d
  end.
Definition untimed_event (ev : outEvent) : outEvent := mkOutEvent (pattern ev) (untimed_data (data ev)).

(** Two lists of events that differ in the creation times of orders only. *)
#[export] Instance events_equiv : Equiv (list outEvent) := fun evs evs' => untimed_event <$> evs = untimed_event <$> evs'.

#[export] Instance events_equivalence : Equivalence (≡@{list outEvent}).
Proof. unfold equiv, events_equiv. split; [done|by intros ?? ->|by intros ??? -> ->]. Qed.

#[export] Instance events_app_proper : Proper ((≡) ==> (≡) ==> (≡)) (@app outEvent).
Proof. unfold equiv, events_equiv. intros ?? H1 ?? H2. by rewrite !fmap_app, H1, H2. Qed.

Lemma event_cons_equiv ev ev' (evs evs' : list outEvent) :
  untimed_event ev = untimed_event ev' -> evs ≡ evs' -> (ev :: evs) ≡ (ev' :: evs').
Proof. unfold equiv, events_equiv. intros H1 H2. csimpl. by rewrite H1, H2. Qed.

(** ** Ledgers and cores *)

Record state_related (s s' : State) : Prop := {
  sr_accounts : s_Accounts s = s_Accounts s';
  sr_holdings : s_StockBalances s = s_StockBalances s';
  sr_stocks : s_Stocks s = s_Stocks s';
  sr_books i : option_Forall2 (≡) (s_OrderBooks s !! i) (s_OrderBooks s' !! i)
}.
#[export] Instance State_equiv : Equiv State := state_related.

#[export] Instance State_sym : Symmetric (≡@{State}).
Proof.
  intros s s' [H1 H2 H3 H4]. split; [done..|]. intros i. destruct (H4 i); constructor. by symmetry.
Qed.

#[export] Instance State_trans : Transitive (≡@{State}).
Proof.
  intros s1 s2 s3 [H1 H2 H3 H4] [K1 K2 K3 K4]. split; [congruence..|]. intros i.
  eapply option_Forall2_compose; [|apply H4|apply K4]. intros ????. by etrans.
Qed.

Record core_related (c c' : Core) : Prop := {
  cr_state : state c ≡ state c';
  cr_inputSeq : inputSeq c = inputSeq c';
  cr_applied : outputAppliedSeq c = outputAppliedSeq c';
  cr_lastID : lastTradeID c = lastTradeID c';
  cr_ticks : ticks c = ticks c'
}.
#[export] Instance Core_equiv : Equiv Core := core_related.

#[export] Instance set_state_proper : Proper ((≡) ==> (≡) ==> (≡)) set_state.
Proof. intros ?? [] ???. by split. Qed.

#[export] Instance set_lastTradeID_proper : Proper ((≡) ==> (=) ==> (≡)) set_lastTradeID.
Proof. intros ?? [] ?? ->. by split. Qed.

#[export] Instance set_inputSeq_proper : Proper ((≡) ==> (=) ==> (≡)) set_inputSeq.
Proof. intros ?? [] ?? ->. by split. Qed.

(** What a request answers: the new core, and events or an error. *)
Definition result_related : relation (Core * (list outEvent + engine_error)) :=
  prod_relation (≡) (sum_relation (≡) (=)).

(** Two well-formed ledgers are related when a snapshot cannot tell them apart. *)
Lemma wf_state_equiv s s' : wf_state s -> wf_state s' -> (s ≡ s' <-> same_ledger s s').
Proof.
  intros Hw Hw'. split.
  - intros [H1 H2 H3 H4]. split; [done..|]. intros i. destruct (H4 i); [by apply equiv_same_queues|done].
  - intros [H1 H2 H3 H4]. split; [done..|]. intros i. specialize (H4 i).
    pose proof (wf_books _ Hw i) as Hb. pose proof (wf_books _ Hw' i) as Hb'.
    destruct (s_OrderBooks s !! i), (s_OrderBooks s' !! i); try done; constructor.
    apply (wf_book_equiv i); auto.
Qed.

(** ** Access to the stores *)

Section stores.
Implicit Types (s : State) (o : Order).

(** A function that does not look at the creation time. *)
Lemma untimed_proper {A} (f : Order -> A) : (forall o, f o = f (untimed o)) -> Proper ((≡) ==> (=)) f.
Proof. intros Hf o o' Ho. rewrite (Hf o), (Hf o'). f_equal. exact Ho. Qed.

#[export] Instance book_proper : Proper ((=) ==> (≡) ==> (≡)) book.
Proof.
  intros sid _ <- s s' Hs. unfold book, OrderBooks_Get.
  destruct (sr_books _ _ Hs sid); [done|apply NewOrderBook_equiv].
Qed.

#[export] Instance set_book_proper : Proper ((=) ==> (≡) ==> (≡) ==> (≡)) set_book.
Proof.
  intros sid _ <- b b' Hb s s' [H1 H2 H3 H4]. split; [done..|]. intros i. cbn.
  rewrite !lookup_insert. case_decide; [by constructor|done].
Qed.

#[export] Instance open_book_proper : Proper ((=) ==> (≡) ==> (≡)) open_book.
Proof.
  intros sid _ <- s s' Hs. pose proof Hs as [H1 H2 H3 H4]. unfold open_book, OrderBooks_Get.
  destruct (H4 sid) as [b b' Hb|]; split; try done. intros i. cbn.
  rewrite !lookup_insert. case_decide; [constructor; apply NewOrderBook_equiv|done].
Qed.

#[export] Instance upsert_account_proper : Proper ((=) ==> (≡) ==> (≡)) upsert_account.
Proof. intros a _ <- s s' [H1 H2 H3 H4]. split; cbn; by rewrite ?H1. Qed.

#[export] Instance upsert_holding_proper : Proper ((=) ==> (≡) ==> (≡)) upsert_holding.
Proof. intros h _ <- s s' [H1 H2 H3 H4]. split; cbn; by rewrite ?H2. Qed.

#[export] Instance upsert_stock_proper : Proper ((=) ==> (≡) ==> (≡)) upsert_stock.
Proof. intros h _ <- s s' [H1 H2 H3 H4]. split; cbn; by rewrite ?H3. Qed.

#[export] Instance modify_account_proper : Proper ((=) ==> (=) ==> (≡) ==> (≡)) modify_account.
Proof.
  intros i _ <- f _ <- s s' Hs. unfold modify_account. rewrite (sr_accounts _ _ Hs).
  destruct (Accounts_Get _ _); [by apply upsert_account_proper|done].
Qed.

#[export] Instance modify_holding_proper : Proper ((=) ==> (=) ==> (=) ==> (≡) ==> (≡)) modify_holding.
Proof.
  intros i _ <- j _ <- f _ <- s s' Hs. unfold modify_holding. rewrite (sr_holdings _ _ Hs).
  destruct (StockBalances_Get _ _ _); [by apply upsert_holding_proper|done].
Qed.

#[export] Instance reserve_proper : Proper ((≡) ==> (=) ==> (≡) ==> (≡)) reserve.
Proof.
  intros o o' Ho r _ <- s s' Hs. rewrite (untimed_proper reserve (fun _ => eq_refl) _ _ Ho). unfold reserve.
  destruct (o_TradingType o'); [by apply modify_account_proper|by apply modify_holding_proper|done..].
Qed.

#[export] Instance settle_proper :
  Proper ((=) ==> (=) ==> (=) ==> (=) ==> (=) ==> (≡) ==> outcome_rel (≡)) settle.
Proof.
  intros buyer _ <- seller _ <- sid _ <- q _ <- cash _ <- s s' Hs. unfold settle. cbv zeta.
  pose proof (modify_account_proper buyer _ eq_refl
    (fun a => set_Balance (acc_Balance a ⊖ cash) a) _ eq_refl _ _ Hs) as Hb.
  rewrite <- (sr_holdings _ _ Hb). destruct (buyer_holding _ _ _) as [h|]; [|constructor]. constructor.
  by apply modify_holding_proper, modify_account_proper, upsert_holding_proper.
Qed.
End stores.
