(* ===== verification/MatchSim.v ===== *)
(** * Requests on ledgers that behave alike

    Validation, matching, edits, cancels, transfers, account creation, listing
    and adjustments respect the relation of [LedgerSim]: the same answer, the
    same events up to creation times, related ledgers. *)

From S2P Require Import Prelude Domain Slices OrderBook BookSpec Ledger Snapshot BookSim Events Matching Validation Orders Transfer Admin LedgerSim.

(** Rewrite with the equations of the fields of two related records. *)
Ltac use_fields :=
  repeat match goal with H : ?f ?x = ?f ?y |- context [?f ?y] => rewrite <- H end.

Section requests.
Context `{!Clock}.
Implicit Types (s : State) (o order : Order) (c : Core) (l : locals).

(** ** The matching loop *)

Record locals_related l l' : Prop := {
  lr_core : l_core l ≡ l_core l';
  lr_order : l_order l ≡ l_order l';
  lr_cash : l_filledCash l = l_filledCash l';
  lr_price : l_lastTradePrice l = l_lastTradePrice l';
  lr_events : l_events l ≡ l_events l';
  lr_accounts : l_accountIDs l = l_accountIDs l';
  lr_levels : l_levels l = l_levels l'
}.
#[local] Instance locals_equiv : Equiv locals := locals_related.

Inductive step_related : relation loop_step :=
  | rel_Break l l' : l ≡ l' -> step_related (Break l) (Break l')
  | rel_Continue l l' : l ≡ l' -> step_related (Continue l) (Continue l')
  | rel_Fail l l' e : l ≡ l' -> step_related (Fail l e) (Fail l' e).

Lemma time_now_equiv c c' : c ≡ c' -> prod_relation (=) (≡) (time_now c) (time_now c').
Proof. intros [H1 H2 H3 H4 H5]. unfold time_now. rewrite H5. split; [done|]. by split. Qed.

Lemma takeTradeID_equiv c c' : c ≡ c' -> prod_relation (≡) (=) (takeTradeID c) (takeTradeID c').
Proof.
  intros Hc. pose proof Hc as [H1 H2 H3 H4 H5]. unfold takeTradeID, nextTradeID. rewrite H2, H3, H4.
  by repeat case_match; split.
Qed.

Lemma best_counter_equiv order order' b b' : order ≡ order' -> b ≡ b' -> best_counter order b = best_counter order' b'.
Proof.
  intros Ho Hb. rewrite (untimed_proper best_counter (fun _ => eq_refl) _ _ Ho). unfold best_counter.
  by rewrite (BestAsk_proper _ _ Hb), (BestBid_proper _ _ Hb).
Qed.

Lemma price_rejected_equiv order order' p : order ≡ order' -> price_rejected order p = price_rejected order' p.
Proof. intros Ho. by rewrite (untimed_proper price_rejected (fun _ => eq_refl) _ _ Ho). Qed.

(** The two events of a trade. *)
Lemma trade_event_equiv order order' o o' tid p q c c' :
  order ≡ order' -> o ≡ o' -> c ≡ c' ->
  prod_relation (≡) (fun ev ev' => untimed_event ev = untimed_event ev')
    (trade_event order o tid p q c) (trade_event order' o' tid p q c').
Proof.
  intros Ho1 Ho2 Hc. order_fields Ho1. order_fields Ho2. unfold trade_event.
  destruct (time_now_equiv _ _ Hc) as [Ht Hn]. destruct (time_now c), (time_now c'). cbn in *. subst.
  split; [done|]. cbn. congruence.
Qed.

Lemma maker_event_equiv o o' q c c' :
  o ≡ o' -> c ≡ c' ->
  prod_relation (≡) (fun ev ev' => untimed_event ev = untimed_event ev')
    (maker_event o q c) (maker_event o' q c').
Proof.
  intros Ho Hc. order_fields Ho. unfold maker_event.
  replace (o_FilledQuantity o') with (o_FilledQuantity o) by done. replace (o_Quantity o') with (o_Quantity o) by done.
  destruct (time_now_equiv _ _ Hc) as [Ht Hn]. destruct (time_now c), (time_now c'). cbn in *. subst.
  destruct (Z.eqb _ _); split; try done; unfold untimed_event; cbn; congruence.
Qed.

Lemma after_fill_equiv l l' side p o o' c c' q :
  l ≡ l' -> o ≡ o' -> c ≡ c' ->
  outcome_rel step_related (after_fill l side p o c q) (after_fill l' side p o' c' q).
Proof.
  intros [H1 H2 H3 H4 H5 H6 H7] Ho Hc. unfold after_fill. cbv zeta. rewrite <- H3, <- H6, <- H7.
  order_fields H2. order_fields Ho.
  cbn [o_TradingType o_AccountId o_StockId set_FilledQuantity].
  replace (o_FilledQuantity (l_order l')) with (o_FilledQuantity (l_order l)) by done.
  assert (Horder : set_FilledQuantity (o_FilledQuantity (l_order l) ⊕ q) (l_order l) ≡
    set_FilledQuantity (o_FilledQuantity (l_order l) ⊕ q) (l_order l')) by by apply set_FilledQuantity_proper.
  replace (o_TradingType (l_order l')) with (o_TradingType (l_order l)) by done.
  replace (o_AccountId (l_order l')) with (o_AccountId (l_order l)) by done.
  replace (o_StockId (l_order l')) with (o_StockId (l_order l)) by done.
  replace (o_AccountId o') with (o_AccountId o) by done.
  destruct (if is_sell _ then _ else _) as [buyer seller].
  eapply outcome_rel_bind; [by apply settle_proper; [done..|apply cr_state]|]. intros s s' Hs.
  destruct (takeTradeID_equiv _ _ (set_state_proper _ _ Hc _ _ Hs)) as [Hc1 Ht].
  destruct (takeTradeID _) as [c1 t], (takeTradeID _) as [c1' t']. cbn in Hc1, Ht. subst t'.
  destruct t as [tid|err]; [|by constructor; constructor; split].
  destruct (trade_event_equiv _ _ _ _ tid p q _ _ Horder Ho Hc1) as [Hc2 He1].
  destruct (trade_event _ _ _ _ _ c1) as [c2 ev1], (trade_event _ _ _ _ _ c1') as [c2' ev1']. cbn in Hc2, He1.
  destruct (maker_event_equiv _ _ q _ _ Ho Hc2) as [Hc3 He2].
  destruct (maker_event _ _ c2) as [c3 ev2], (maker_event _ _ c2') as [c3' ev2']. cbn in Hc3, He2.
  constructor. constructor. split; try done. cbn. apply events_app_proper; [done|].
  by apply event_cons_equiv, event_cons_equiv.
Qed.

Lemma match_step_equiv l l' : l ≡ l' -> outcome_rel step_related (match_step l) (match_step l').
Proof.
  intros Hl. pose proof Hl as [H1 H2 H3 H4 H5 H6 H7]. unfold match_step. cbv zeta.
  assert (Hbreak : outcome_rel step_related (Done (Break l)) (Done (Break l'))) by (constructor; by constructor).
  pose proof H2 as Ho. order_fields Ho. pose proof (cr_state _ _ H1) as Hs.
  replace (o_StockId (l_order l')) with (o_StockId (l_order l)) by done.
  pose proof (book_proper (o_StockId (l_order l)) _ eq_refl _ _ Hs) as Hb.
  rewrite <- (best_counter_equiv _ _ _ _ H2 Hb).
  destruct (best_counter _ _) as [[best|] side]; [|exact Hbreak].
  rewrite <- (price_rejected_equiv _ _ best H2). destruct (price_rejected _ _); [exact Hbreak|].
  destruct (Front_proper _ _ Hb side _ eq_refl best _ eq_refl) as [o o' Hoo|]; [|exact Hbreak].
  order_fields Hoo. replace (o_Id o') with (o_Id o) by done.
  replace (o_Quantity (l_order l')) with (o_Quantity (l_order l)) by done.
  replace (o_FilledQuantity (l_order l')) with (o_FilledQuantity (l_order l)) by done.
  eapply outcome_rel_bind; [by apply Fill_proper|]. intros [b1 f] [b1' f'] [Hb1 Hf]. cbn in Hb1, Hf. subst f'.
  assert (Hc : set_state (l_core l) (set_book (o_StockId (l_order l)) b1 (state (l_core l))) ≡
    set_state (l_core l') (set_book (o_StockId (l_order l)) b1' (state (l_core l')))).
  { apply set_state_proper; [done|]. by apply set_book_proper. }
  destruct (Z.eqb f 0); [by constructor; constructor; split|]. by apply after_fill_equiv.
Qed.

Lemma match_loop_equiv fuel l l' :
  l ≡ l' -> outcome_rel (prod_relation (≡) (=)) (match_loop fuel l) (match_loop fuel l').
Proof.
  revert l l'. induction fuel as [|fuel IH]; intros l l' Hl; cbn [match_loop];
    pose proof (lr_order _ _ Hl) as Ho; order_fields Ho;
    replace (o_Quantity (l_order l')) with (o_Quantity (l_order l)) by done;
    replace (o_FilledQuantity (l_order l')) with (o_FilledQuantity (l_order l)) by done;
    destruct (Z.ltb _ _); try by constructor.
  eapply outcome_rel_bind; [by apply match_step_equiv|]. intros r r' [k k' Hk|k k' Hk|k k' e Hk].
  - by constructor.
  - by apply IH.
  - by constructor.
Qed.

(** ** After the loop *)

Lemma place_remainder_equiv l l' : l ≡ l' -> place_remainder l ≡ place_remainder l'.
Proof.
  intros Hl. pose proof Hl as [H1 H2 H3 H4 H5 H6 H7]. pose proof (cr_state _ _ H1) as Hs.
  order_fields H2. unfold place_remainder. cbv zeta. use_fields.
  destruct (Z.ltb _ _); [|done]. destruct (o_OrderType (l_order l)); [| |done].
  - split; try done. cbn.
    apply set_state_proper; [done|]. apply set_book_proper; [done| |done]. apply Add_proper; [|done]. by apply book_proper.
  - split; try done. cbn. apply set_state_proper; [done|].
    destruct (o_TradingType (l_order l)); [by apply modify_account_proper|by apply modify_holding_proper|done..].
Qed.

Lemma refund_buyer_equiv F0 l l' s s' : l ≡ l' -> s ≡ s' -> refund_buyer F0 l s ≡ refund_buyer F0 l' s'.
Proof.
  intros [H1 H2 H3 H4 H5 H6 H7] Hs. order_fields H2. unfold refund_buyer. cbv zeta. use_fields.
  destruct (o_TradingType (l_order l)); [|done..]. destruct (Z.gtb _ _); [by apply modify_account_proper|done].
Qed.

Lemma update_stock_price_equiv l l' s s' :
  l ≡ l' -> s ≡ s' -> prod_relation (≡) (=) (update_stock_price l s) (update_stock_price l' s').
Proof.
  intros [H1 H2 H3 H4 H5 H6 H7] Hs. order_fields H2. unfold update_stock_price. rewrite <- H4, <- (sr_stocks _ _ Hs).
  use_fields. destruct (Z.gtb _ _); [|done]. destruct (Stocks_Get _ _); [|done]. split; [|done].
  by apply upsert_stock_proper.
Qed.

Lemma taker_event_equiv o o' c c' :
  o ≡ o' -> c ≡ c' ->
  prod_relation (≡) (fun ev ev' => untimed_event ev = untimed_event ev') (taker_event o c) (taker_event o' c').
Proof.
  intros Ho Hc. order_fields Ho. unfold taker_event.
  rewrite <- (untimed_proper orderStatusPattern (fun _ => eq_refl) _ _ Ho).
  destruct (time_now_equiv _ _ Hc) as [Ht Hn]. destruct (time_now c), (time_now c'). cbn in *. subst.
  destruct (String.eqb _ _); split; try done; unfold untimed_event; cbn; congruence.
Qed.

Lemma book_events_equiv sid lv s s' : s ≡ s' -> book_events sid lv s = book_events sid lv s'.
Proof.
  intros Hs. unfold book_events, book_levels.
  assert (Hq : forall side p, LevelQuantity (book sid s) side p = LevelQuantity (book sid s') side p).
  { intros side p. apply LevelQuantity_proper; [by apply book_proper|done..]. }
  destruct lv as [|x lv]; [done|]. do 4 f_equal. apply list_fmap_ext. intros _ [side p] _. by rewrite Hq.
Qed.

Lemma account_events_equiv sid ids s s' : s ≡ s' -> account_events sid s ids = account_events sid s' ids.
Proof. intros [H1 H2 H3 H4]. unfold account_events. by rewrite H1, H2. Qed.

Lemma finish_match_equiv F0 l l' :
  l ≡ l' -> prod_relation (≡) (≡) (finish_match F0 l) (finish_match F0 l').
Proof.
  intros Hl. unfold finish_match. cbv zeta. pose proof (place_remainder_equiv _ _ Hl) as Hp.
  set (k := place_remainder l) in *. set (k' := place_remainder l') in *.
  pose proof Hp as [H1 H2 H3 H4 H5 H6 H7]. pose proof (cr_state _ _ H1) as Hs.
  destruct (update_stock_price_equiv _ _ _ _ Hp (refund_buyer_equiv F0 _ _ _ _ Hp Hs)) as [Hs1 Hu].
  destruct (update_stock_price k _) as [s1 u], (update_stock_price k' _) as [s1' u']. cbn in Hs1, Hu. subst u'.
  destruct (taker_event_equiv _ _ _ _ H2 (set_state_proper _ _ H1 _ _ Hs1)) as [Hc He].
  destruct (taker_event (l_order k) _) as [c ev], (taker_event (l_order k') _) as [c' ev']. cbn in Hc, He.
  split; [done|]. cbn [snd]. order_fields H2. use_fields.
  rewrite (book_events_equiv _ _ _ _ (cr_state _ _ Hc)), (account_events_equiv _ _ _ _ (cr_state _ _ Hc)).
  apply events_app_proper; [done|]. by apply event_cons_equiv.
Qed.

Lemma start_match_equiv o o' c c' : o ≡ o' -> c ≡ c' -> start_match o c ≡ start_match o' c'.
Proof.
  intros Ho Hc. pose proof Ho as Ho'. order_fields Ho'. unfold start_match. use_fields.
  split; cbn; try done. apply set_state_proper; [done|]. apply reserve_proper; [done..|].
  by apply open_book_proper; [|apply cr_state].
Qed.

Lemma matchEvents_equiv o o' c c' : o ≡ o' -> c ≡ c' -> outcome_rel result_related (matchEvents o c) (matchEvents o' c').
Proof.
  intros Ho Hc. unfold matchEvents. cbv zeta. pose proof (start_match_equiv _ _ _ _ Ho Hc) as Hl.
  assert (Hfuel : match_fuel (start_match o c) = match_fuel (start_match o' c')).
  { unfold match_fuel. f_equal. apply equiv_index_size. pose proof Hl as [H1 H2 _ _ _ _ _]. order_fields H2.
    use_fields. by apply book_proper; [|apply cr_state]. }
  rewrite <- Hfuel. eapply outcome_rel_bind; [by apply match_loop_equiv|].
  intros [k err] [k' err'] [Hk He]. cbn in Hk, He. subst err'. destruct err as [err|].
  { constructor. split; [apply Hk|by constructor]. }
  order_fields Ho. use_fields. destruct (finish_match_equiv (o_FilledQuantity o) _ _ Hk) as [Hc' He].
  destruct (finish_match _ k), (finish_match _ k'). constructor. split; [done|by constructor].
Qed.

(** ** Edit and cancel *)

Lemma removeAndRelease_equiv o o' s s' :
  o ≡ o' -> s ≡ s' -> outcome_rel (prod_relation (≡) (=)) (removeAndRelease o s) (removeAndRelease o' s').
Proof.
  intros Ho Hs. rewrite (untimed_proper removeAndRelease (fun _ => eq_refl) _ _ Ho). unfold removeAndRelease. cbv zeta.
  pose proof (open_book_proper (o_StockId o') _ eq_refl _ _ Hs) as Hs1.
  eapply outcome_rel_bind; [apply Cancel_proper; [by apply book_proper|done]|].
  intros [b ok] [b' ok'] [Hb Hk]. cbn in Hb, Hk. subst ok'.
  pose proof (set_book_proper (o_StockId o') _ eq_refl _ _ Hb _ _ Hs1) as Hs2.
  destruct ok; constructor; (split; [|done]); [|done]. cbn [negb fst].
  destruct (o_TradingType o'); [by apply modify_account_proper|by apply modify_holding_proper|done..].
Qed.

Lemma mergeOrderBookLevel_equiv evs evs' lv sid :
  evs ≡ evs' -> mergeOrderBookLevel evs lv sid ≡ mergeOrderBookLevel evs' lv sid.
Proof.
  revert evs'. induction evs as [|[p d] evs IH]; intros [|[p' d'] evs'] He; try done.
  injection He as Hp Hd He. specialize (IH _ He). subst p'. destruct d, d'; try discriminate Hd;
    cbn [mergeOrderBookLevel data pattern]; cbn in Hd;
    try (apply event_cons_equiv; [unfold untimed_event; cbn; congruence|exact IH]).
  injection Hd as ->. destruct (String.eqb _ _); by apply event_cons_equiv.
Qed.

Lemma target_level_equiv o o' b b' : o ≡ o' -> b ≡ b' -> target_level o b = target_level o' b'.
Proof.
  intros Ho Hb. order_fields Ho. unfold target_level. use_fields. f_equal. by apply LevelQuantity_proper.
Qed.

Lemma replacement_of_equiv order order' o o' :
  order ≡ order' -> o ≡ o' -> replacement_of order o ≡ replacement_of order' o'.
Proof.
  intros H1 H2. order_fields H1. order_fields H2. apply order_equiv_fields. by split_and!.
Qed.

Lemma orderEvent_equiv p o o' :
  o ≡ o' -> untimed_event (mkOutEvent p (EvOrder (orderEvent o))) = untimed_event (mkOutEvent p (EvOrder (orderEvent o'))).
Proof. intros Ho. order_fields Ho. unfold untimed_event. cbn. congruence. Qed.

Lemma editEvents_equiv o o' c c' : o ≡ o' -> c ≡ c' -> outcome_rel result_related (editEvents o c) (editEvents o' c').
Proof.
  intros Ho Hc. pose proof Ho as Ho1. order_fields Ho1. unfold editEvents. cbv zeta. use_fields.
  pose proof (open_book_proper (o_StockId o) _ eq_refl _ _ (cr_state _ _ Hc)) as Hs.
  set (s := open_book _ (state c)) in *. set (s' := open_book _ (state c')) in *.
  assert (Ht : default zero_Order (Get (book (o_StockId o) s) (o_TargetId o)) ≡
    default zero_Order (Get (book (o_StockId o) s') (o_TargetId o))).
  { by destruct (Get_proper _ _ (book_proper (o_StockId o) _ eq_refl _ _ Hs) (o_TargetId o) _ eq_refl). }
  set (t := default zero_Order _) in *. set (t' := default zero_Order _) in *.
  eapply outcome_rel_bind; [by apply removeAndRelease_equiv|]. intros [s1 ok] [s1' ok'] [Hs1 Hk].
  cbn in Hs1, Hk. subst ok'. pose proof (set_state_proper _ _ Hc _ _ Hs1) as Hc1. destruct ok.
  2: { constructor. by split; [|constructor]. }
  cbn [negb]. eapply outcome_rel_bind; [by apply matchEvents_equiv; [apply replacement_of_equiv|]|].
  intros [c2 r] [c2' r'] [Hc2 Hr]. cbn in Hc2, Hr. destruct Hr as [evs evs' He|err err' <-].
  2: { constructor. by split; [|constructor]. }
  constructor. split; [done|]. constructor. apply event_cons_equiv; [by apply orderEvent_equiv|].
  pose proof Ht as Ht1. order_fields Ht1. use_fields.
  rewrite <- (target_level_equiv _ _ _ _ Ht (book_proper (o_StockId o) _ eq_refl _ _ (cr_state _ _ Hc2))).
  by apply mergeOrderBookLevel_equiv.
Qed.

Lemma cancelEvents_equiv o o' c c' : o ≡ o' -> c ≡ c' -> outcome_rel result_related (cancelEvents o c) (cancelEvents o' c').
Proof.
  intros Ho Hc. pose proof Ho as Ho1. order_fields Ho1. unfold cancelEvents. cbv zeta. use_fields.
  pose proof (open_book_proper (o_StockId o) _ eq_refl _ _ (cr_state _ _ Hc)) as Hs.
  set (s := open_book _ (state c)) in *. set (s' := open_book _ (state c')) in *.
  destruct (Get_proper _ _ (book_proper (o_StockId o) _ eq_refl _ _ Hs) (o_TargetId o) _ eq_refl) as [t t' Ht|].
  2: { constructor. split; [by apply set_state_proper|by constructor]. }
  eapply outcome_rel_bind; [by apply removeAndRelease_equiv|]. intros [s1 ok] [s1' ok'] [Hs1 Hk].
  cbn in Hs1, Hk. subst ok'. pose proof (set_state_proper _ _ Hc _ _ Hs1) as Hc1. destruct ok.
  2: { constructor. by split; [|constructor]. }
  cbn [negb]. constructor. split; [done|]. constructor. pose proof Ht as Ht1. order_fields Ht1. use_fields.
  rewrite <- (target_level_equiv _ _ _ _ Ht (book_proper (o_StockId o) _ eq_refl _ _ Hs1)).
  rewrite <- (sr_accounts _ _ Hs1), <- (sr_holdings _ _ Hs1).
  apply events_app_proper; [|done]. apply event_cons_equiv; [by apply orderEvent_equiv|].
  apply event_cons_equiv; [by apply orderEvent_equiv|]. done.
Qed.

Lemma route_events_equiv o o' c c' : o ≡ o' -> c ≡ c' -> outcome_rel result_related (route_events o c) (route_events o' c').
Proof.
  intros Ho Hc. pose proof Ho as Ho1. order_fields Ho1. unfold route_events. use_fields.
  destruct (o_TradingType o); [by apply matchEvents_equiv..|by apply editEvents_equiv|by apply cancelEvents_equiv|].
  constructor. by split; [|constructor].
Qed.

(** ** Validation *)

Lemma validateOrder_equiv o s s' :
  s ≡ s' -> prod_relation (≡) (=) (validateOrder o s) (validateOrder o s').
Proof.
  intros Hs. unfold validateOrder, validateStock, validateBuy, validateSell.
  rewrite <- (sr_accounts _ _ Hs), <- (sr_holdings _ _ Hs), <- (sr_stocks _ _ Hs).
  destruct (Z.leb _ 0); [done|].
  destruct (match Stocks_Get _ _ with Some _ => _ | None => _ end); [done|].
  assert (Htarget : prod_relation (≡) (sum_relation (≡) (=)) (validateTargetRequest o s) (validateTargetRequest o s')).
  { unfold validateTargetRequest. destruct (Z.leb _ 0); [by split; [|constructor]|].
    pose proof (open_book_proper (o_StockId o) _ eq_refl _ _ Hs) as Hs1. cbv zeta.
    destruct (Get_proper _ _ (book_proper (o_StockId o) _ eq_refl _ _ Hs1) (o_TargetId o) _ eq_refl) as [t t' Ht|].
    2: { by split; [|constructor]. }
    order_fields Ht. use_fields. destruct (negb _); by split; [|constructor]. }
  destruct (o_TradingType o); try done.
  - unfold validateEdit. destruct (validateTargetRequest o s) as [s1 [t|r]], (validateTargetRequest o s') as [s1' [t'|r']];
      destruct Htarget as [Hs1 Ht]; cbn in Hs1, Ht; inversion Ht as [?? Htt|?? Hr]; subst; [|done].
    destruct (Z.eqb _ _); [done|]. pose proof Htt as Ht1. order_fields Ht1. use_fields.
    destruct (_ || _); [done|]. split; [done|]. cbn [snd]. unfold validateEditFunds. cbv zeta.
    rewrite <- (sr_accounts _ _ Hs1), <- (sr_holdings _ _ Hs1). by use_fields.
  - unfold validateCancel. destruct (validateTargetRequest o s) as [s1 [t|r]], (validateTargetRequest o s') as [s1' [t'|r']];
      destruct Htarget as [Hs1 Ht]; cbn in Hs1, Ht; inversion Ht as [?? Htt|?? Hr]; subst; done.
Qed.

(** ** The requests that cannot fail *)

(** The same events, equal to the letter. *)
Definition total_related : relation (Core * list outEvent) := prod_relation (≡) (=).

Lemma transferEvents_equiv t c c' : c ≡ c' -> total_related (transferEvents t c) (transferEvents t c').
Proof.
  intros Hc. unfold transferEvents. destruct (time_now_equiv _ _ Hc) as [Ht Hn].
  destruct (time_now c) as [n d], (time_now c') as [n' d']. cbn in Ht, Hn. subst n'.
  assert (Hv : validateTransfer t (state d) = validateTransfer t (state d')).
  { unfold validateTransfer. by rewrite (sr_accounts _ _ (cr_state _ _ Hn)). }
  rewrite <- Hv. destruct (validateTransfer t (state d)) as [[a b]|r]; [|done]. split; [|done].
  by apply set_state_proper, upsert_account_proper, upsert_account_proper, cr_state.
Qed.

Lemma balanceAdjustEvents_equiv r c c' : c ≡ c' -> total_related (balanceAdjustEvents r c) (balanceAdjustEvents r c').
Proof.
  intros Hc. pose proof (cr_state _ _ Hc) as Hs. unfold balanceAdjustEvents, validateBalanceAdjust.
  rewrite <- (sr_accounts _ _ Hs). destruct (if Z.eqb (ba_Delta r) 0 then _ else _) as [rej|].
  - unfold adminRequestRejected. destruct (time_now_equiv _ _ Hc) as [Ht Hn].
    destruct (time_now c), (time_now c'). cbn in Ht, Hn. by subst.
  - cbv zeta. set (acc := if Z.ltb _ _ then _ else _).
    assert (Hc1 : set_state c (upsert_account acc (state c)) ≡ set_state c' (upsert_account acc (state c'))).
    { by apply set_state_proper, upsert_account_proper. }
    unfold adminRequestCompleted. destruct (time_now_equiv _ _ Hc1) as [Ht Hn].
    destruct (time_now _), (time_now _). cbn in Ht, Hn. by subst.
Qed.

Lemma stockBalanceAdjustEvents_equiv r c c' :
  c ≡ c' -> total_related (stockBalanceAdjustEvents r c) (stockBalanceAdjustEvents r c').
Proof.
  intros Hc. pose proof (cr_state _ _ Hc) as Hs. unfold stockBalanceAdjustEvents, validateStockBalanceAdjust.
  rewrite <- (sr_accounts _ _ Hs), <- (sr_holdings _ _ Hs), <- (sr_stocks _ _ Hs).
  destruct (if Z.eqb (sba_Delta r) 0 then _ else _) as [rej|].
  - unfold adminRequestRejected. destruct (time_now_equiv _ _ Hc) as [Ht Hn].
    destruct (time_now c), (time_now c'). cbn in Ht, Hn. by subst.
  - cbv zeta. set (h := adjusted_holding _ _).
    assert (Hc1 : set_state c (upsert_holding h (state c)) ≡ set_state c' (upsert_holding h (state c'))).
    { by apply set_state_proper, upsert_holding_proper. }
    unfold adminRequestCompleted. destruct (time_now_equiv _ _ Hc1) as [Ht Hn].
    destruct (time_now _), (time_now _). cbn in Ht, Hn. by subst.
Qed.

Lemma activateAccountEvents_equiv a c c' : c ≡ c' -> total_related (activateAccountEvents a c) (activateAccountEvents a c').
Proof. intros Hc. split; [|done]. by apply set_state_proper, upsert_account_proper, cr_state. Qed.

Lemma setStockStatusEvents_equiv st status p c c' :
  c ≡ c' -> total_related (setStockStatusEvents st status p c) (setStockStatusEvents st status p c').
Proof. intros Hc. split; [|done]. by apply set_state_proper, upsert_stock_proper, cr_state. Qed.
End requests.
