(* ===== verification/Invariant.v ===== *)
(** * The ledger invariant

    What an account or a holding has and cannot use is exactly what its resting
    orders reserve: [Balance = AvailableBalance + reserved cash], and
    [Quantity = AvailableQuantity + reserved shares]. While a request is being
    processed, the taker's reservation is not in the book yet, so the invariant
    carries two functions: cash held per account and shares held per holding.
    The lemmas here give the effect of each elementary ledger update. *)

From S2P Require Import Prelude Domain Slices OrderBook BookSpec Ledger Snapshot Events Matching.

(** ** Reserved amounts *)

(** The orders resting in a book. *)
Definition resting (b : OrderBook) : list Order :=
  match orders b with Done os => os | Panicked _ => [] end.

Definition unfilled (o : Order) : Z := o_Quantity o - o_FilledQuantity o.

(** Cash a resting order reserves for account [i]; shares it reserves. *)
Definition cash_of (i : Z) (o : Order) : Z :=
  if decide (o_TradingType o = TRADING_BUY /\ o_AccountId o = i) then o_Price o * unfilled o else 0.
Definition qty_of (i : Z) (o : Order) : Z :=
  if decide (o_TradingType o = TRADING_SELL /\ o_AccountId o = i) then unfilled o else 0.

Definition reserved_cash (m : OrderBooks) (i : Z) : Z :=
  msum (fun _ b => lsum (cash_of i) (resting b)) m.
Definition reserved_qty (m : OrderBooks) (i sid : Z) : Z :=
  from_option (fun b => lsum (qty_of i) (resting b)) 0 (m !! sid).

(** Total cash of the accounts, and total shares of one stock. *)
Definition total_cash (st : State) : Z := msum (fun _ a => acc_Balance a) (s_Accounts st).
Definition total_qty (sid : Z) (st : State) : Z :=
  msum (fun (k : Z * Z) h => if decide (snd k = sid) then sb_Quantity h else 0) (s_StockBalances st).

(** ** The invariant *)

Record ledger_inv (hc : Z -> Z) (hq : Z -> Z -> Z) (st : State) : Prop := {
  inv_wf : wf_state st;
  inv_cash i a : s_Accounts st !! i = Some a ->
    0 <= acc_AvailableBalance a /\ acc_Balance a < two64 /\
    acc_Balance a = acc_AvailableBalance a + reserved_cash (s_OrderBooks st) i + hc i;
  inv_qty i sid h : s_StockBalances st !! (i, sid) = Some h ->
    0 <= sb_AvailableQuantity h /\ sb_Quantity h < two64 /\
    sb_Quantity h = sb_AvailableQuantity h + reserved_qty (s_OrderBooks st) i sid + hq i sid;
  inv_owner i sid h : s_StockBalances st !! (i, sid) = Some h -> is_Some (s_Accounts st !! i);
  inv_orders sid b o : s_OrderBooks st !! sid = Some b -> o ∈ resting b ->
    match o_TradingType o with
    | TRADING_SELL => is_Some (s_StockBalances st !! (o_AccountId o, sid))
    | _ => is_Some (s_Accounts st !! o_AccountId o)
    end
}.

(** Nothing is held: the invariant between two requests. *)
Abbreviation ledger_ok := (ledger_inv (fun _ => 0) (fun _ _ => 0)).

(** [shift f i d] adds [d] at [i]. *)
Definition shift1 (f : Z -> Z) (i d : Z) : Z -> Z := fun j => if decide (j = i) then f j + d else f j.
Definition shift2 (f : Z -> Z -> Z) (i s d : Z) : Z -> Z -> Z :=
  fun j t => if decide (j = i /\ t = s) then f j t + d else f j t.

Section resting.
Implicit Types (b : OrderBook) (la : abook) (o : Order).

Lemma resting_perm b la : rep b la -> resting b ≡ₚ la.*2.
Proof.
  intros Hr. unfold resting. pose proof (rep_orders _ _ Hr) as Ho. rewrite Ho.
  by apply (orders_perm _ _ _ Hr).
Qed.

Lemma resting_elem b la o : rep b la -> o ∈ resting b <-> exists a, (a, o) ∈ la.
Proof.
  intros Hr. rewrite (resting_perm _ _ Hr), list_elem_of_fmap. split.
  - intros ([a o'] & -> & ?). eauto.
  - intros (a & ?). by exists (a, o).
Qed.

Lemma resting_wf sid b o : wf_book sid b -> o ∈ resting b -> resting_ok sid o.
Proof. intros (la & Hr & Hok) (a & Hin)%(resting_elem _ _ _ Hr). eauto. Qed.

Lemma unfilled_pos sid o : resting_ok sid o -> 0 < unfilled o.
Proof. intros [Ho _ _ _ _]. unfold open_order, unfilled in *. lia. Qed.

Lemma cash_of_nonneg sid i o : resting_ok sid o -> 0 <= cash_of i o.
Proof.
  intros Ho. pose proof (unfilled_pos _ _ Ho). pose proof (ro_price _ _ Ho).
  unfold cash_of. case_decide; [|done]. nia.
Qed.

Lemma qty_of_nonneg sid i o : resting_ok sid o -> 0 <= qty_of i o.
Proof. intros Ho. pose proof (unfilled_pos _ _ Ho). unfold qty_of. case_decide; lia. Qed.

Lemma lsum_without (f : Order -> Z) la a o :
  NoDup la.*1 -> (a, o) ∈ la -> lsum f (without a la).*2 = lsum f la.*2 - f o.
Proof.
  intros Hnd Hin. rewrite (Permutation_filter_split (fun x : entry => fst x <> a) la) at 2.
  rewrite fmap_app, lsum_app. unfold without.
  enough (lsum f (filter (fun x : entry => ~ fst x <> a) la).*2 = f o) by lia.
  assert (Heq : filter (fun x : entry => ~ fst x <> a) la = [(a, o)]); [|rewrite Heq; simpl; lia].
  clear f. induction la as [|[a' o'] la IH]; [set_solver|].
  apply NoDup_cons in Hnd as [Hn Hnd]. rewrite filter_cons. apply elem_of_cons in Hin as [[= <- <-]|Hin].
  - rewrite decide_True by naive_solver. f_equal. apply filter_none.
    intros [a1 o1] Hin1 Heq%dec_stable. simpl in Heq. subst. apply Hn.
    apply list_elem_of_fmap. by exists (a, o1).
  - rewrite decide_False; [by apply IH|]. simpl. intros Heq%dec_stable. subst. apply Hn.
    apply list_elem_of_fmap. by exists (a, o).
Qed.

Lemma lsum_fill_entry (f : Order -> Z) la a o q :
  NoDup la.*1 -> (a, o) ∈ la ->
  lsum f (fill_entry a q <$> la).*2 = lsum f la.*2 - f o + f (fill_order q o).
Proof.
  intros Hnd Hin. induction la as [|[a' o'] la IH]; [set_solver|]. csimpl.
  apply NoDup_cons in Hnd as [Hn Hnd]. apply elem_of_cons in Hin as [[= <- <-]|Hin].
  - unfold fill_entry at 1. simpl. rewrite decide_True by done. simpl.
    enough (lsum f (fill_entry a q <$> la).*2 = lsum f la.*2) by lia. f_equal.
    rewrite <- list_fmap_compose. apply list_fmap_ext. intros n [a1 o1] Hin1%list_elem_of_lookup_2.
    unfold fill_entry. simpl. rewrite decide_False; [done|]. intros ->. apply Hn.
    apply list_elem_of_fmap. by exists (a, o1).
  - rewrite IH by done. unfold fill_entry. simpl. rewrite decide_False; [simpl; lia|].
    intros ->. apply Hn. apply list_elem_of_fmap. by exists (a, o).
Qed.

(** Filling a maker releases its reservation in proportion. *)
Lemma unfilled_fill o q :
  open_order o -> 0 <= q <= unfilled o -> unfilled (fill_order q o) = unfilled o - q.
Proof.
  unfold open_order, unfilled, fill_order. simpl. intros. rewrite add64_exact by lia. lia.
Qed.

Lemma cash_of_fill_book la a o q i :
  NoDup la.*1 -> (a, o) ∈ la -> open_order o -> 0 <= q <= unfilled o ->
  lsum (cash_of i) (fill_book a o q la).*2 =
  lsum (cash_of i) la.*2 -
    (if decide (o_TradingType o = TRADING_BUY /\ o_AccountId o = i) then o_Price o * q else 0).
Proof.
  intros Hnd Hin Ho Hq. pose proof (unfilled_fill _ _ Ho Hq) as Hu. unfold fill_book. case_decide as Hf.
  - rewrite (lsum_without _ _ _ o) by done. unfold cash_of, unfilled in *. case_decide; lia.
  - rewrite (lsum_fill_entry _ _ _ o) by done. unfold cash_of. rewrite Hu. simpl. case_decide; lia.
Qed.

Lemma qty_of_fill_book la a o q i :
  NoDup la.*1 -> (a, o) ∈ la -> open_order o -> 0 <= q <= unfilled o ->
  lsum (qty_of i) (fill_book a o q la).*2 =
  lsum (qty_of i) la.*2 -
    (if decide (o_TradingType o = TRADING_SELL /\ o_AccountId o = i) then q else 0).
Proof.
  intros Hnd Hin Ho Hq. pose proof (unfilled_fill _ _ Ho Hq) as Hu. unfold fill_book. case_decide as Hf.
  - rewrite (lsum_without _ _ _ o) by done. unfold qty_of, unfilled in *. case_decide; lia.
  - rewrite (lsum_fill_entry _ _ _ o) by done. unfold qty_of. rewrite Hu. simpl. case_decide; lia.
Qed.
End resting.

(** ** Elementary updates *)

Section updates.
Implicit Types (st : State) (m : OrderBooks).

Lemma resting_new : resting NewOrderBook = [].
Proof. done. Qed.

Lemma book_lookup sid st b : s_OrderBooks st !! sid = Some b -> book sid st = b.
Proof. intros Hb. unfold book, OrderBooks_Get. by rewrite Hb. Qed.

Lemma book_None sid st : s_OrderBooks st !! sid = None -> book sid st = NewOrderBook.
Proof. intros Hb. unfold book, OrderBooks_Get. by rewrite Hb. Qed.

Lemma wf_new sid : wf_book sid NewOrderBook.
Proof. exists []. split; [apply rep_new|]. set_solver. Qed.

Lemma wf_book_at sid st : wf_state st -> wf_book sid (book sid st).
Proof.
  intros Hwf. destruct (s_OrderBooks st !! sid) as [b|] eqn:Hb.
  - rewrite (book_lookup _ _ _ Hb). by apply (wf_books _ Hwf).
  - rewrite (book_None _ _ Hb). apply wf_new.
Qed.

Lemma reserved_cash_nonneg st i : wf_state st -> 0 <= reserved_cash (s_OrderBooks st) i.
Proof.
  intros Hwf. apply msum_nonneg. intros sid b Hb. apply lsum_nonneg. intros o Ho.
  eapply cash_of_nonneg, resting_wf; [|done]. by apply (wf_books _ Hwf).
Qed.

Lemma reserved_qty_nonneg st i sid : wf_state st -> 0 <= reserved_qty (s_OrderBooks st) i sid.
Proof.
  intros Hwf. unfold reserved_qty. destruct (s_OrderBooks st !! sid) as [b|] eqn:Hb; simpl; [|done].
  apply lsum_nonneg. intros o Ho. eapply qty_of_nonneg, resting_wf; [|done]. by apply (wf_books _ Hwf).
Qed.

Lemma reserved_cash_set_book sid b' st i :
  reserved_cash (s_OrderBooks (set_book sid b' st)) i =
  reserved_cash (s_OrderBooks st) i - lsum (cash_of i) (resting (book sid st)) + lsum (cash_of i) (resting b').
Proof.
  unfold reserved_cash. simpl. rewrite msum_insert.
  destruct (s_OrderBooks st !! sid) as [b|] eqn:Hb; simpl.
  - rewrite (book_lookup _ _ _ Hb). lia.
  - rewrite (book_None _ _ Hb), resting_new. simpl. lia.
Qed.

Lemma reserved_qty_book sid st i :
  reserved_qty (s_OrderBooks st) i sid = lsum (qty_of i) (resting (book sid st)).
Proof.
  unfold reserved_qty. destruct (s_OrderBooks st !! sid) as [b|] eqn:Hb; simpl.
  - by rewrite (book_lookup _ _ _ Hb).
  - by rewrite (book_None _ _ Hb), resting_new.
Qed.

Lemma reserved_qty_set_book sid b' st i t :
  reserved_qty (s_OrderBooks (set_book sid b' st)) i t =
  if decide (t = sid) then lsum (qty_of i) (resting b') else reserved_qty (s_OrderBooks st) i t.
Proof.
  unfold reserved_qty. simpl. rewrite lookup_insert. case_decide; subst.
  - by rewrite decide_True.
  - by rewrite decide_False.
Qed.

(** The owner of a resting order exists. *)
Definition owner_ok st sid (o : Order) : Prop :=
  match o_TradingType o with
  | TRADING_SELL => is_Some (s_StockBalances st !! (o_AccountId o, sid))
  | _ => is_Some (s_Accounts st !! o_AccountId o)
  end.

Lemma inv_owner_at hc hq st sid o : ledger_inv hc hq st -> o ∈ resting (book sid st) -> owner_ok st sid o.
Proof.
  intros Hi Ho. destruct (s_OrderBooks st !! sid) as [b|] eqn:Hb.
  - rewrite (book_lookup _ _ _ Hb) in Ho. by apply (inv_orders _ _ _ Hi _ _ _ Hb).
  - rewrite (book_None _ _ Hb), resting_new in Ho. set_solver.
Qed.

(** Replacing an account. *)
Lemma inv_upsert_account hc hc' hq st a :
  ledger_inv hc hq st ->
  0 <= acc_AvailableBalance a -> acc_Balance a < two64 ->
  acc_Balance a = acc_AvailableBalance a + reserved_cash (s_OrderBooks st) (acc_Id a) + hc' (acc_Id a) ->
  (forall j, j <> acc_Id a -> hc' j = hc j) ->
  ledger_inv hc' hq (upsert_account a st).
Proof.
  intros [Hwf Hc Hq Ho Hr] Hav Hlt Hbal Hne. destruct Hwf as [Hk1 Hk2 Hk3 Hk4 Hk5]. split; simpl.
  - split; simpl; try done. unfold Accounts_Upsert. intros i x. rewrite lookup_insert.
    case_decide; [naive_solver|apply Hk1].
  - unfold Accounts_Upsert. intros i x. rewrite lookup_insert. case_decide.
    + intros [= <-]. subst. done.
    + intros Hx. rewrite Hne by congruence. by apply Hc.
  - done.
  - intros i sid h Hh. destruct (Ho _ _ _ Hh) as [x Hx].
    unfold Accounts_Upsert. rewrite lookup_insert. case_decide; eauto.
  - intros sid b o Hb Hin. specialize (Hr _ _ _ Hb Hin). unfold Accounts_Upsert. rewrite lookup_insert.
    case_decide; [|done]. destruct (o_TradingType o); eauto.
Qed.

(** Replacing or creating a holding of an existing account. *)
Lemma inv_upsert_holding hc hq hq' st h :
  ledger_inv hc hq st ->
  0 <= sb_AvailableQuantity h -> sb_Quantity h < two64 ->
  sb_Quantity h = sb_AvailableQuantity h +
    reserved_qty (s_OrderBooks st) (sb_AccountId h) (sb_StockId h) + hq' (sb_AccountId h) (sb_StockId h) ->
  is_Some (s_Accounts st !! sb_AccountId h) ->
  (forall i sid, (i, sid) <> (sb_AccountId h, sb_StockId h) -> hq' i sid = hq i sid) ->
  ledger_inv hc hq' (upsert_holding h st).
Proof.
  intros [Hwf Hc Hq Ho Hr] Hav Hlt Hbal Hacc Hne. destruct Hwf as [Hk1 Hk2 Hk3 Hk4 Hk5]. split; simpl.
  - split; simpl; try done. unfold StockBalances_Upsert. intros k x. rewrite lookup_insert.
    case_decide; [naive_solver|apply Hk2].
  - done.
  - unfold StockBalances_Upsert. intros i sid x. rewrite lookup_insert. case_decide as Heq.
    + intros [= <-]. simplify_eq. done.
    + intros Hx. rewrite Hne by congruence. by apply Hq.
  - unfold StockBalances_Upsert. intros i sid x. rewrite lookup_insert. case_decide as Heq; [|apply Ho].
    intros [= <-]. by simplify_eq.
  - intros sid b o Hb Hin. specialize (Hr _ _ _ Hb Hin). unfold StockBalances_Upsert. rewrite lookup_insert.
    destruct (o_TradingType o); try done. case_decide; eauto.
Qed.

(** Replacing a book moves the difference of its reservations into what is held. *)
Lemma inv_set_book hc hc' hq hq' st sid b' :
  ledger_inv hc hq st -> wf_book sid b' ->
  (forall o, o ∈ resting b' -> owner_ok st sid o) ->
  (forall i, hc' i = hc i + lsum (cash_of i) (resting (book sid st)) - lsum (cash_of i) (resting b')) ->
  (forall i t, hq' i t = hq i t +
     if decide (t = sid) then lsum (qty_of i) (resting (book sid st)) - lsum (qty_of i) (resting b') else 0) ->
  ledger_inv hc' hq' (set_book sid b' st).
Proof.
  intros [Hwf Hc Hq Ho Hr] Hb' Hown Hhc Hhq. destruct Hwf as [Hk1 Hk2 Hk3 Hk4 Hk5]. split.
  - split; simpl; try done. intros i b. rewrite lookup_insert. case_decide; [naive_solver|apply Hk5].
  - intros i a Ha. destruct (Hc _ _ Ha) as (? & ? & Heq). split_and!; [done..|].
    rewrite reserved_cash_set_book, Hhc. lia.
  - intros i t h Hh. destruct (Hq _ _ _ Hh) as (? & ? & Heq). split_and!; [done..|].
    rewrite reserved_qty_set_book, Hhq. case_decide; [subst; rewrite reserved_qty_book in Heq|]; lia.
  - apply Ho.
  - intros t b o. simpl. rewrite lookup_insert. case_decide; [|apply Hr].
    intros [= <-] Hin. subst. by apply Hown.
Qed.

Lemma inv_open_book hc hq st sid : ledger_inv hc hq st -> ledger_inv hc hq (open_book sid st).
Proof.
  intros Hi. unfold open_book, OrderBooks_Get. destruct (s_OrderBooks st !! sid) as [b|] eqn:Hb; simpl.
  { by destruct st. }
  apply (inv_set_book hc _ hq); [done|apply wf_new|rewrite resting_new; set_solver|..];
    intros; rewrite (book_None _ _ Hb), resting_new; simpl; [lia|case_decide; lia].
Qed.

Lemma book_default sid st : book sid st = default NewOrderBook (s_OrderBooks st !! sid).
Proof. unfold book, OrderBooks_Get. by destruct (s_OrderBooks st !! sid). Qed.

Lemma book_open sid t st : book sid (open_book t st) = book sid st.
Proof.
  rewrite !book_default. unfold open_book, OrderBooks_Get.
  destruct (s_OrderBooks st !! t) as [b|] eqn:Hb; simpl; [done|].
  rewrite lookup_insert. case_decide; [subst; by rewrite Hb|done].
Qed.

Lemma book_set_book sid b st : book sid (set_book sid b st) = b.
Proof. unfold book, OrderBooks_Get. simpl. by rewrite lookup_insert_eq. Qed.

Lemma inv_ext hc hc' hq hq' st :
  ledger_inv hc hq st -> (forall i, hc' i = hc i) -> (forall i t, hq' i t = hq i t) -> ledger_inv hc' hq' st.
Proof.
  intros [Hwf Hc Hq Ho Hr] H1 H2. split; try done; intros; rewrite ?H1, ?H2; auto.
Qed.

Lemma total_cash_upsert a st :
  total_cash (upsert_account a st) =
  total_cash st + acc_Balance a - from_option acc_Balance 0 (s_Accounts st !! acc_Id a).
Proof. unfold total_cash. simpl. unfold Accounts_Upsert. rewrite msum_insert.
  destruct (s_Accounts st !! acc_Id a); simpl; lia. Qed.

Lemma total_qty_upsert sid h st :
  total_qty sid (upsert_holding h st) =
  total_qty sid st +
    if decide (sb_StockId h = sid)
    then sb_Quantity h - from_option sb_Quantity 0 (s_StockBalances st !! (sb_AccountId h, sb_StockId h)) else 0.
Proof.
  unfold total_qty. simpl. unfold StockBalances_Upsert. rewrite msum_insert. simpl.
  destruct (s_StockBalances st !! _); simpl; case_decide; lia.
Qed.
End updates.
