(* ===== verification/Settlement.v ===== *)
(** * Settlement of one trade

    [settle] moves cash from the buyer to the seller and shares from the seller
    to the buyer. When the buyer's cash and the seller's shares are held for the
    trade, it keeps the ledger invariant, releases what was held, conserves the
    totals and does not panic. *)

From S2P Require Import Prelude Domain Slices OrderBook BookSpec Ledger Snapshot Events Matching Invariant.

(** A bound on the shares of one stock that keeps sums of two holdings in range. *)
Definition two63 : Z := 9223372036854775808.

Section settlement.
Implicit Types (st : State) (hc : Z -> Z) (hq : Z -> Z -> Z).

Definition held_nonneg hc hq : Prop := (forall i, 0 <= hc i) /\ (forall i t, 0 <= hq i t).

Lemma inv_balance_range hc hq st i a :
  ledger_inv hc hq st -> held_nonneg hc hq -> s_Accounts st !! i = Some a ->
  0 <= acc_Balance a <= total_cash st /\ acc_Id a = i /\ hc i <= acc_Balance a.
Proof.
  intros Hi [Hc _] Ha.
  assert (Hnn : forall i a, s_Accounts st !! i = Some a -> 0 <= acc_Balance a /\ hc i <= acc_Balance a).
  { intros j x Hx. destruct (inv_cash _ _ _ Hi _ _ Hx) as (? & ? & ?).
    pose proof (reserved_cash_nonneg st j (inv_wf _ _ _ Hi)). specialize (Hc j). lia. }
  split_and!; [apply (Hnn _ _ Ha)| |by apply (wf_acc_key _ (inv_wf _ _ _ Hi))|apply (Hnn _ _ Ha)].
  apply (msum_lookup_le (fun _ a => acc_Balance a) _ i); [|done]. intros j x Hx. apply (Hnn _ _ Hx).
Qed.

Lemma inv_quantity_range hc hq st i sid h :
  ledger_inv hc hq st -> held_nonneg hc hq -> s_StockBalances st !! (i, sid) = Some h ->
  0 <= sb_Quantity h <= total_qty sid st /\ sb_AccountId h = i /\ sb_StockId h = sid /\
  hq i sid <= sb_Quantity h - sb_AvailableQuantity h.
Proof.
  intros Hi [_ Hq] Hh.
  assert (Hnn : forall i t h, s_StockBalances st !! (i, t) = Some h ->
    0 <= sb_Quantity h /\ hq i t <= sb_Quantity h - sb_AvailableQuantity h).
  { intros j t x Hx. destruct (inv_qty _ _ _ Hi _ _ _ Hx) as (? & ? & ?).
    pose proof (reserved_qty_nonneg st j t (inv_wf _ _ _ Hi)). specialize (Hq j t). lia. }
  pose proof (wf_hold_key _ (inv_wf _ _ _ Hi) _ _ Hh) as [= ? ?].
  split_and!; [apply (Hnn _ _ _ Hh)| |done|done|apply (Hnn _ _ _ Hh)].
  unfold total_qty.
  pose proof (msum_lookup_le (fun (k : Z * Z) h => if decide (snd k = sid) then sb_Quantity h else 0)
    (s_StockBalances st) (i, sid) h) as Hle.
  simpl in Hle. rewrite decide_True in Hle by done. apply Hle; [|done].
  intros [j t] x Hx. simpl. case_decide; [|done]. apply (Hnn _ _ _ Hx).
Qed.

(** An account without a holding has no sell order in the book. *)
Lemma no_holding_no_reserved hc hq st i sid :
  ledger_inv hc hq st -> s_StockBalances st !! (i, sid) = None -> reserved_qty (s_OrderBooks st) i sid = 0.
Proof.
  intros Hi Hn. rewrite reserved_qty_book. apply lsum_zero. intros o Ho. unfold qty_of.
  case_decide as Hd; [|done]. destruct Hd as [Ht <-].
  pose proof (inv_owner_at _ _ _ _ _ Hi Ho) as Hown. unfold owner_ok in Hown. rewrite Ht, Hn in Hown.
  by destruct Hown.
Qed.

Lemma shift1_other f i d j : j <> i -> shift1 f i d j = f j.
Proof. unfold shift1. by case_decide. Qed.
Lemma shift1_same f i d : shift1 f i d i = f i + d.
Proof. unfold shift1. by rewrite decide_True. Qed.
Lemma shift2_other f i s d j t : (j, t) <> (i, s) -> shift2 f i s d j t = f j t.
Proof. unfold shift2. intros. rewrite decide_False; [done|]. naive_solver. Qed.
Lemma shift2_same f i s d : shift2 f i s d i s = f i s + d.
Proof. unfold shift2. by rewrite decide_True. Qed.

(** The buyer pays out of what it holds. *)
Lemma debit_buyer_inv hc hq st i a cash :
  ledger_inv hc hq st -> held_nonneg hc hq -> s_Accounts st !! i = Some a -> 0 <= cash <= hc i ->
  let st' := modify_account i (fun a => set_Balance (acc_Balance a ⊖ cash) a) st in
  ledger_inv (shift1 hc i (- cash)) hq st' /\ total_cash st' = total_cash st - cash /\
  s_StockBalances st' = s_StockBalances st /\ is_Some (s_Accounts st' !! i).
Proof.
  intros Hi Hnn Ha Hcash. destruct (inv_balance_range _ _ _ _ _ Hi Hnn Ha) as (Hb & Hid & Hh).
  destruct (inv_cash _ _ _ Hi _ _ Ha) as (Hav & Hlt & Heq).
  unfold modify_account, Accounts_Get. rewrite Ha. rewrite sub64_exact by lia.
  split_and!; [|rewrite total_cash_upsert; simpl; rewrite Hid, Ha; simpl; lia|done|].
  - apply (inv_upsert_account hc); simpl; rewrite ?Hid; [done|lia|lia| |].
    + rewrite shift1_same. lia.
    + intros. by apply shift1_other.
  - simpl. unfold Accounts_Upsert. simpl. rewrite Hid, lookup_insert_eq. eauto.
Qed.

(** The seller is paid. *)
Lemma credit_seller_inv hc hq st i a cash :
  ledger_inv hc hq st -> held_nonneg hc hq -> s_Accounts st !! i = Some a ->
  0 <= cash -> total_cash st + cash < two64 ->
  let st' := modify_account i (fun a =>
    mkAccount (acc_Id a) (acc_Balance a ⊕ cash) (acc_AvailableBalance a ⊕ cash)) st in
  ledger_inv hc hq st' /\ total_cash st' = total_cash st + cash /\ s_StockBalances st' = s_StockBalances st.
Proof.
  intros Hi Hnn Ha Hcash Htot. destruct (inv_balance_range _ _ _ _ _ Hi Hnn Ha) as (Hb & Hid & Hh).
  destruct (inv_cash _ _ _ Hi _ _ Ha) as (Hav & Hlt & Heq).
  pose proof (reserved_cash_nonneg st i (inv_wf _ _ _ Hi)). destruct Hnn as [Hc Hq]. specialize (Hc i).
  unfold modify_account, Accounts_Get. rewrite Ha. rewrite !add64_exact by lia.
  split_and!; [|rewrite total_cash_upsert; simpl; rewrite Hid, Ha; simpl; lia|done].
  apply (inv_upsert_account hc); simpl; rewrite ?Hid; [done|lia|lia|lia|done].
Qed.

(** The shares arrive in the buyer's holding, which is created if needed. *)
Lemma credit_holding_inv hc hq st i sid q cash :
  ledger_inv hc hq st -> held_nonneg hc hq -> is_Some (s_Accounts st !! i) ->
  (s_StockBalances st !! (i, sid) = None -> hq i sid = 0) ->
  0 < q < two63 -> total_qty sid st < two63 ->
  exists h',
    buyer_holding (default (mkStockBalance i sid 0 0 0 0) (StockBalances_Get (s_StockBalances st) i sid)) q cash
      = Done h' /\
    sb_AccountId h' = i /\ sb_StockId h' = sid /\
    let st' := upsert_holding h' st in
    ledger_inv hc hq st' /\
    (forall t, total_qty t st' = total_qty t st + if decide (t = sid) then q else 0) /\
    s_Accounts st' = s_Accounts st.
Proof.
  intros Hi Hnn Hacc Hnone Hq Htot.
  set (h := default _ _).
  assert (Hh : sb_AccountId h = i /\ sb_StockId h = sid /\ 0 <= sb_Quantity h < two63 /\
    0 <= sb_AvailableQuantity h <= sb_Quantity h /\
    sb_Quantity h = sb_AvailableQuantity h + reserved_qty (s_OrderBooks st) i sid + hq i sid /\
    sb_Quantity h = from_option sb_Quantity 0 (s_StockBalances st !! (i, sid))).
  { unfold h, StockBalances_Get. destruct (s_StockBalances st !! (i, sid)) as [h0|] eqn:Hh0; simpl.
    - destruct (inv_quantity_range _ _ _ _ _ _ Hi Hnn Hh0) as (? & ? & ? & ?).
      destruct (inv_qty _ _ _ Hi _ _ _ Hh0) as (? & ? & ?). destruct Hnn as [_ Hn]. specialize (Hn i sid).
      pose proof (reserved_qty_nonneg st i sid (inv_wf _ _ _ Hi)). split_and!; lia.
    - rewrite (no_holding_no_reserved _ _ _ _ _ Hi Hh0), Hnone by done. split_and!; lia. }
  clearbody h. destruct Hh as (Ha & Hs & Hr1 & Hr2 & Heq & Hfo).
  unfold two63, two64 in *.
  unfold buyer_holding. rewrite (add64_exact (sb_Quantity h)), (add64_exact (sb_AvailableQuantity h))
    by (unfold two64; lia).
  destruct (Z.eqb_spec (sb_Quantity h + q) 0) as [|_]; [lia|].
  eexists; split; [done|]. simpl. split_and!; [done..| | |done].
  - apply (inv_upsert_holding _ hq); simpl; rewrite ?Ha, ?Hs; [done|lia|unfold two64; lia|lia|done|done].
  - intros t. rewrite total_qty_upsert. simpl. rewrite Ha, Hs, <- Hfo. repeat case_decide; congruence || lia.
Qed.

(** The shares leave the seller's holding. *)
Lemma debit_holding_inv hc hq st i sid h q :
  ledger_inv hc hq st -> held_nonneg hc hq -> s_StockBalances st !! (i, sid) = Some h ->
  0 <= q <= hq i sid ->
  let st' := modify_holding i sid (seller_holding q) st in
  ledger_inv hc (shift2 hq i sid (- q)) st' /\
  (forall t, total_qty t st' = total_qty t st - if decide (t = sid) then q else 0) /\
  total_cash st' = total_cash st.
Proof.
  intros Hi Hnn Hh Hq. destruct (inv_quantity_range _ _ _ _ _ _ Hi Hnn Hh) as (Hr & Ha & Hs & Hu).
  destruct (inv_qty _ _ _ Hi _ _ _ Hh) as (Hav & Hlt & Heq).
  unfold modify_holding, StockBalances_Get. rewrite Hh.
  assert (Hsh : sb_AccountId (seller_holding q h) = i /\ sb_StockId (seller_holding q h) = sid /\
    sb_Quantity (seller_holding q h) = sb_Quantity h - q /\
    sb_AvailableQuantity (seller_holding q h) = sb_AvailableQuantity h).
  { unfold seller_holding. rewrite (sub64_exact (sb_Quantity h)) by lia. by case_match. }
  destruct Hsh as (Hsa & Hss & Hsq & Hsv). split_and!; [| |done].
  - apply (inv_upsert_holding _ hq); rewrite ?Hsa, ?Hss, ?Hsq, ?Hsv; [done|lia|lia| | |].
    + rewrite shift2_same. lia.
    + by apply (inv_owner _ _ _ Hi i sid h).
    + intros. by apply shift2_other.
  - intros t. rewrite total_qty_upsert, Hsa, Hss, Hsq, Hh. simpl. repeat case_decide; congruence || lia.
Qed.
(** What a settlement leaves alone. *)
Record settle_frame (buyer seller sid : Z) (st st' : State) : Prop := {
  sf_books : s_OrderBooks st' = s_OrderBooks st;
  sf_stocks : s_Stocks st' = s_Stocks st;
  sf_accounts i : i <> buyer -> i <> seller -> s_Accounts st' !! i = s_Accounts st !! i;
  sf_holdings k : k <> (buyer, sid) -> k <> (seller, sid) -> s_StockBalances st' !! k = s_StockBalances st !! k;
  sf_known i : is_Some (s_Accounts st !! i) -> is_Some (s_Accounts st' !! i);
  sf_held k : is_Some (s_StockBalances st !! k) -> is_Some (s_StockBalances st' !! k)
}.

Lemma modify_account_lookup i f st j :
  (forall a, acc_Id (f a) = acc_Id a) -> wf_state st ->
  s_Accounts (modify_account i f st) !! j = if decide (j = i) then f <$> s_Accounts st !! i else s_Accounts st !! j.
Proof.
  intros Hf Hwf. unfold modify_account, Accounts_Get. destruct (s_Accounts st !! i) as [a|] eqn:Ha; simpl.
  - unfold Accounts_Upsert. rewrite Hf, (wf_acc_key _ Hwf _ _ Ha), lookup_insert.
    destruct (decide (i = j)), (decide (j = i)); congruence || done.
  - case_decide; by subst.
Qed.

Lemma modify_holding_lookup i t f st k :
  (forall h, sb_AccountId (f h) = sb_AccountId h /\ sb_StockId (f h) = sb_StockId h) -> wf_state st ->
  s_StockBalances (modify_holding i t f st) !! k =
  if decide (k = (i, t)) then f <$> s_StockBalances st !! (i, t) else s_StockBalances st !! k.
Proof.
  intros Hf Hwf. unfold modify_holding, StockBalances_Get.
  destruct (s_StockBalances st !! (i, t)) as [h|] eqn:Hh; simpl.
  - unfold StockBalances_Upsert. destruct (Hf h) as [-> ->].
    pose proof (wf_hold_key _ Hwf _ _ Hh) as [= -> ->]. rewrite lookup_insert.
    destruct (decide ((i, t) = k)), (decide (k = (i, t))); congruence || done.
  - case_decide; by subst.
Qed.

Lemma modify_account_rest i f st :
  s_StockBalances (modify_account i f st) = s_StockBalances st /\
  s_Stocks (modify_account i f st) = s_Stocks st /\ s_OrderBooks (modify_account i f st) = s_OrderBooks st.
Proof. unfold modify_account. by case_match. Qed.

Lemma modify_holding_rest i t f st :
  s_Accounts (modify_holding i t f st) = s_Accounts st /\
  s_Stocks (modify_holding i t f st) = s_Stocks st /\ s_OrderBooks (modify_holding i t f st) = s_OrderBooks st.
Proof. unfold modify_holding. by case_match. Qed.

Lemma seller_holding_key q h :
  sb_AccountId (seller_holding q h) = sb_AccountId h /\ sb_StockId (seller_holding q h) = sb_StockId h.
Proof. unfold seller_holding. by case_match. Qed.

#[export] Instance settle_frame_trans buyer seller sid : Transitive (settle_frame buyer seller sid).
Proof.
  intros x y z [B1 S1 A1 H1 K1 L1] [B2 S2 A2 H2 K2 L2].
  split; try congruence; intros; rewrite ?A2, ?A1, ?H2, ?H1 by done; auto.
Qed.

Lemma frame_account buyer seller sid i f st :
  i = buyer \/ i = seller -> (forall a, acc_Id (f a) = acc_Id a) -> wf_state st ->
  settle_frame buyer seller sid st (modify_account i f st).
Proof.
  intros Hi Hf Hwf. destruct (modify_account_rest i f st) as (Hh & Hs & Hb).
  split; rewrite ?Hh; try done.
  - intros j ? ?. rewrite modify_account_lookup, decide_False by (done || naive_solver). done.
  - intros j Hj. rewrite modify_account_lookup by done. case_decide; subst; [by rewrite fmap_is_Some|done].
Qed.

Lemma frame_upsert buyer seller sid h st :
  (sb_AccountId h, sb_StockId h) = (buyer, sid) \/ (sb_AccountId h, sb_StockId h) = (seller, sid) ->
  settle_frame buyer seller sid st (upsert_holding h st).
Proof.
  intros Hk. split; try done; simpl; unfold StockBalances_Upsert.
  - intros k ? ?. apply lookup_insert_ne. naive_solver.
  - intros k ?. rewrite lookup_insert. case_decide; eauto.
Qed.

Lemma frame_holding buyer seller sid i f st :
  i = buyer \/ i = seller ->
  (forall h, sb_AccountId (f h) = sb_AccountId h /\ sb_StockId (f h) = sb_StockId h) -> wf_state st ->
  settle_frame buyer seller sid st (modify_holding i sid f st).
Proof.
  intros Hi Hf Hwf. destruct (modify_holding_rest i sid f st) as (Ha & Hs & Hb).
  split; rewrite ?Ha; try done.
  - intros k ? ?. rewrite modify_holding_lookup, decide_False by (done || naive_solver). done.
  - intros k Hk. rewrite modify_holding_lookup by done. case_decide; subst; [by rewrite fmap_is_Some|done].
Qed.

(** What a trade needs: the buyer's cash and the seller's shares are held for it. *)
Record can_settle hc hq st (buyer seller sid q cash : Z) : Prop := {
  cs_nonneg : held_nonneg hc hq;
  cs_buyer : is_Some (s_Accounts st !! buyer);
  cs_seller : is_Some (s_StockBalances st !! (seller, sid));
  cs_cash : 0 <= cash <= hc buyer;
  cs_qty : 0 < q <= hq seller sid;
  cs_new : s_StockBalances st !! (buyer, sid) = None -> hq buyer sid = 0;
  cs_total_cash : total_cash st < two64;
  cs_total_qty : total_qty sid st < two63
}.

Lemma shift1_nonneg hc hq i d :
  held_nonneg hc hq -> 0 <= hc i + d -> held_nonneg (shift1 hc i d) hq.
Proof. intros [Hc Hq] Hd. split; [|done]. intros j. unfold shift1. case_decide; subst; auto. Qed.

Lemma shift2_nonneg hc hq i t d :
  held_nonneg hc hq -> 0 <= hq i t + d -> held_nonneg hc (shift2 hq i t d).
Proof.
  intros [Hc Hq] Hd. split; [done|]. intros j u. unfold shift2. case_decide as He; [|auto].
  by destruct He as [-> ->].
Qed.

Lemma total_qty_holdings sid st st' :
  s_StockBalances st' = s_StockBalances st -> total_qty sid st' = total_qty sid st.
Proof. intros Heq. unfold total_qty. by rewrite Heq. Qed.

Lemma settle_inv hc hq st buyer seller sid q cash :
  ledger_inv hc hq st -> can_settle hc hq st buyer seller sid q cash ->
  exists st', settle buyer seller sid q cash st = Done st' /\
    ledger_inv (shift1 hc buyer (- cash)) (shift2 hq seller sid (- q)) st' /\
    total_cash st' = total_cash st /\ (forall t, total_qty t st' = total_qty t st) /\
    settle_frame buyer seller sid st st'.
Proof.
  intros Hi [Hnn [a Ha] [h Hh] Hcash Hq Hnew Htc Htq]. unfold settle.
  destruct (debit_buyer_inv _ _ _ _ _ cash Hi Hnn Ha Hcash) as (Hi1 & Ht1 & Hs1 & Ha1).
  set (st1 := modify_account buyer _ st) in *.
  assert (Hnn1 : held_nonneg (shift1 hc buyer (- cash)) hq) by (apply shift1_nonneg; [done|lia]).
  destruct (inv_quantity_range _ _ _ _ _ _ Hi Hnn Hh) as (Hr & _ & _ & Hu).
  destruct (inv_qty _ _ _ Hi _ _ _ Hh) as (Hav & _ & _).
  destruct (credit_holding_inv _ _ st1 buyer sid q cash Hi1 Hnn1 Ha1) as (h2 & Hb2 & Hid2 & Hsid2 & Hi2 & Ht2 & Hac2).
  { by rewrite Hs1. } { lia. } { by rewrite (total_qty_holdings sid st st1). }
  cbv zeta. rewrite Hb2. cbn [obind]. set (st2 := upsert_holding h2 st1) in *.
  assert (Hs2 : is_Some (s_StockBalances st2 !! (seller, sid))).
  { unfold st2. simpl. unfold StockBalances_Upsert. rewrite lookup_insert. case_decide; [eauto|]. rewrite Hs1; eauto. }
  destruct Hs2 as [h2' Hs2]. destruct (inv_owner _ _ _ Hi2 _ _ _ Hs2) as [a2 Ha2].
  assert (Htc2 : total_cash st2 = total_cash st - cash) by exact Ht1.
  destruct (credit_seller_inv _ _ st2 seller a2 cash Hi2 Hnn1 Ha2) as (Hi3 & Ht3 & Hs3); [lia|lia|].
  set (st3 := modify_account seller _ st2) in *.
  assert (Hs3' : s_StockBalances st3 !! (seller, sid) = Some h2') by (by rewrite Hs3).
  destruct (debit_holding_inv _ _ st3 seller sid h2' q Hi3 Hnn1 Hs3') as (Hi4 & Ht4 & Htc4); [lia|].
  exists (modify_holding seller sid (seller_holding q) st3). split; [done|]. split_and!; [done|lia| |].
  - intros t. rewrite Ht4, (total_qty_holdings t st2 st3 Hs3), Ht2, (total_qty_holdings t st st1 Hs1). lia.
  - transitivity st1; [apply frame_account; [auto|done|apply (inv_wf _ _ _ Hi)]|].
    transitivity st2; [apply frame_upsert; left; congruence|].
    transitivity st3; [apply frame_account; [auto|done|apply (inv_wf _ _ _ Hi2)]|].
    apply frame_holding; [auto|apply seller_holding_key|apply (inv_wf _ _ _ Hi3)].
Qed.

(** Moving cash or shares between available and held: [d > 0] reserves,
    [d < 0] releases. *)
Lemma move_cash_inv hc hq st i a f d :
  ledger_inv hc hq st -> s_Accounts st !! i = Some a ->
  acc_Id (f a) = acc_Id a -> acc_Balance (f a) = acc_Balance a ->
  acc_AvailableBalance (f a) = acc_AvailableBalance a - d -> d <= acc_AvailableBalance a ->
  ledger_inv (shift1 hc i d) hq (modify_account i f st) /\ total_cash (modify_account i f st) = total_cash st.
Proof.
  intros Hi Ha Hfi Hfb Hfa Hd. destruct (inv_cash _ _ _ Hi _ _ Ha) as (Hav & Hlt & Heq).
  pose proof (wf_acc_key _ (inv_wf _ _ _ Hi) _ _ Ha) as Hid.
  unfold modify_account, Accounts_Get. rewrite Ha. split.
  - apply (inv_upsert_account hc); rewrite ?Hfi, ?Hfb, ?Hfa, ?Hid; [done|lia|done| |].
    + rewrite shift1_same. lia.
    + intros. by apply shift1_other.
  - rewrite total_cash_upsert, Hfi, Hfb, Hid, Ha. simpl. lia.
Qed.

Lemma move_qty_inv hc hq st i t h f d :
  ledger_inv hc hq st -> s_StockBalances st !! (i, t) = Some h ->
  sb_AccountId (f h) = sb_AccountId h -> sb_StockId (f h) = sb_StockId h -> sb_Quantity (f h) = sb_Quantity h ->
  sb_AvailableQuantity (f h) = sb_AvailableQuantity h - d -> d <= sb_AvailableQuantity h ->
  ledger_inv hc (shift2 hq i t d) (modify_holding i t f st) /\
  forall u, total_qty u (modify_holding i t f st) = total_qty u st.
Proof.
  intros Hi Hh Hfi Hft Hfq Hfa Hd. destruct (inv_qty _ _ _ Hi _ _ _ Hh) as (Hav & Hlt & Heq).
  pose proof (wf_hold_key _ (inv_wf _ _ _ Hi) _ _ Hh) as [= Hid Hsid].
  unfold modify_holding, StockBalances_Get. rewrite Hh. split.
  - apply (inv_upsert_holding _ hq); rewrite ?Hfi, ?Hft, ?Hfq, ?Hfa, ?Hid, ?Hsid; [done|lia|done| | |].
    + rewrite shift2_same. lia.
    + by apply (inv_owner _ _ _ Hi i t h).
    + intros. by apply shift2_other.
  - intros u. rewrite total_qty_upsert, Hfi, Hft, Hfq, Hid, Hsid, Hh. simpl. case_decide; lia.
Qed.

Lemma inv_upsert_stock hc hq st s :
  ledger_inv hc hq st -> StockStatus_wf (st_Status s) -> ledger_inv hc hq (upsert_stock s st).
Proof.
  intros [Hwf Hc Hq Ho Hr] Hs. destruct Hwf as [Hk1 Hk2 Hk3 Hk4 Hk5]. split; simpl; try done.
  split; simpl; try done; unfold Stocks_Upsert; intros i x; rewrite lookup_insert; case_decide; naive_solver.
Qed.
End settlement.
