(* ===== verification/MatchStep.v ===== *)
(** * One iteration of the matching loop

    An iteration takes the resting order with the highest priority, fills it,
    settles the trade and numbers it. The lemmas here show what it does to the
    book, to the ledger and to the local variables. *)

From S2P Require Import Prelude Domain Slices OrderBook BookSpec Ledger Snapshot Events Matching Invariant Settlement.

(** ** What the taker holds while it is matched *)

Definition hold_cash (order : Order) (x : Z) (i : Z) : Z :=
  if decide (o_TradingType order = TRADING_BUY /\ o_AccountId order = i) then x else 0.
Definition hold_qty (order : Order) (x : Z) (i t : Z) : Z :=
  if decide (o_TradingType order = TRADING_SELL /\ o_AccountId order = i /\ o_StockId order = t) then x else 0.

(** The side a taker trades against. *)
Definition counter_side (order : Order) : bool := bool_decide (o_TradingType order = TRADING_BUY).

Definition is_trade (order : Order) : Prop :=
  o_TradingType order = TRADING_BUY \/ o_TradingType order = TRADING_SELL.

(** The priority list once its head [(a, o)] has been filled by [q]. *)
Definition rest_prio (a : elem) (o : Order) (q : Z) (lp : abook) : abook :=
  if decide (o_FilledQuantity o + q = o_Quantity o) then tail lp else fill_entry a q <$> lp.

(** The quantity traded with the head of the priority list. *)
Definition trade_qty (order o : Order) : Z := Z.min (unfilled order) (unfilled o).

Section step.
Context `{!Clock}.
Implicit Types (l : locals) (st : State) (la lp : abook) (order o : Order).

Lemma best_counter_ok order b :
  is_trade order ->
  best_counter order b = (best b (counter_side order), side_type (counter_side order)).
Proof. unfold best_counter, counter_side. intros [Ht|Ht]; by rewrite Ht. Qed.

Lemma prioritised_rest s la a o q lp :
  NoDup la.*1 -> prioritised s la ((a, o) :: lp) ->
  prioritised s (fill_book a o q la) (rest_prio a o q ((a, o) :: lp)).
Proof.
  intros Hnd Hp. unfold fill_book, rest_prio. case_decide.
  - by apply (prioritised_without s la (a, o)).
  - by apply prioritised_fill.
Qed.

(** An iteration finds the head of the priority list, or stops. *)
Lemma match_step_shape l la lp :
  let order := l_order l in
  let s := counter_side order in
  is_trade order -> open_order order ->
  rep (book (o_StockId order) (state (l_core l))) la ->
  (forall a o, (a, o) ∈ la -> open_order o) -> prioritised s la lp ->
  match lp with
  | [] => match_step l = Done (Break l)
  | (a, o) :: lp' =>
      if price_rejected order (o_Price o) then match_step l = Done (Break l)
      else exists b',
        rep b' (fill_book a o (trade_qty order o) la) /\
        match_step l = after_fill l (side_type s) (o_Price o) o
          (set_state (l_core l) (set_book (o_StockId order) b' (state (l_core l)))) (trade_qty order o)
  end.
Proof.
  intros order s Ht Hord Hr Hopen Hp. unfold match_step. cbv zeta. fold order.
  rewrite best_counter_ok by done. fold s. rewrite (best_head _ _ _ _ Hr Hp).
  destruct lp as [|[a o] lp]; [done|]. cbn [head fmap option_fmap option_map].
  change (price_of (a, o)) with (o_Price o).
  destruct (price_rejected order (o_Price o)); [done|].
  change (o_Price o) with (price_of (a, o)) at 1. rewrite (front_head _ _ _ (a, o) lp Hr Hp). cbn [snd].
  assert (Hin : (a, o) ∈ la) by (apply (prioritised_elem s la ((a, o) :: lp)); [done|left]).
  pose proof (Hopen _ _ Hin) as Ho. unfold open_order in Hord, Ho.
  rewrite sub64_exact by lia.
  destruct (rep_Fill _ _ a o (o_Quantity order - o_FilledQuantity order) Hr Hin Ho ltac:(lia)) as (b' & Hf & Hr').
  fold (unfilled order) (unfilled o) in Hf, Hr'. fold (trade_qty order o) in Hf, Hr'.
  fold (unfilled order). rewrite Hf. cbn [obind]. exists b'. split; [done|].
  destruct (Z.eqb_spec (trade_qty order o) 0) as [H0|]; [|done].
  unfold trade_qty, unfilled in H0. lia.
Qed.

Lemma trade_qty_range order o :
  open_order order -> open_order o -> 0 < trade_qty order o /\ trade_qty order o <= unfilled o /\
    trade_qty order o <= unfilled order.
Proof. unfold open_order, trade_qty, unfilled. lia. Qed.

Lemma fill_entry_elem a o q la x :
  NoDup la.*1 -> (a, o) ∈ la -> x ∈ fill_entry a q <$> la -> x = (a, fill_order q o) \/ (x ∈ la /\ fst x <> a).
Proof.
  intros Hnd Hin ([a' o'] & -> & Hin')%list_elem_of_fmap. unfold fill_entry. simpl. case_decide as He.
  - subst. left. by rewrite (entry_inj_addr _ _ _ _ Hnd Hin Hin').
  - auto.
Qed.

Lemma fill_book_elem a o q la x :
  NoDup la.*1 -> (a, o) ∈ la -> x ∈ fill_book a o q la ->
  (x = (a, fill_order q o) /\ o_FilledQuantity o + q <> o_Quantity o) \/ (x ∈ la /\ fst x <> a).
Proof.
  intros Hnd Hin. unfold fill_book. case_decide.
  - intros [? ?]%list_elem_of_filter. auto.
  - intros [->|?]%(fill_entry_elem _ o); auto.
Qed.

(** Other price levels are not touched. *)
Lemma level_fill_book_ne a o q la s p :
  NoDup la.*1 -> (a, o) ∈ la -> ~ (s = is_sell (o_TradingType o) /\ p = o_Price o) ->
  level (fill_book a o q la) s p = level la s p.
Proof.
  intros Hnd Hin Hne. unfold fill_book. case_decide; [by apply (level_without_ne a o)|].
  rewrite level_fill_entry. rewrite <- (list_fmap_id (level la s p)) at 2. apply list_fmap_ext.
  intros i [a' o'] Hin'%list_elem_of_lookup_2. unfold fill_entry. simpl. case_decide as He; [|done]. subst a'.
  apply elem_of_level in Hin' as (Hin' & Hs & Hp). pose proof (entry_inj_addr _ _ _ _ Hnd Hin Hin') as <-.
  naive_solver.
Qed.

(** Filled makers still satisfy the conditions of a resting order. *)
Lemma fill_book_resting sid a o q la a' o' :
  NoDup la.*1 -> (a, o) ∈ la -> (forall a o, (a, o) ∈ la -> resting_ok sid o) ->
  0 <= q <= unfilled o -> (a', o') ∈ fill_book a o q la -> resting_ok sid o'.
Proof.
  intros Hnd Hin Hok Hq [[[= -> ->] Hne]|[? _]]%(fill_book_elem _ o); [|by eauto|done|done].
  destruct (Hok _ _ Hin) as [Ho Hp Hs Hl Ht]. split; try done.
  unfold open_order, unfilled in *. simpl. rewrite add64_exact by lia. lia.
Qed.

(** Filling a maker turns its reservation into something held for the trade. *)
Lemma fill_inv hc hq st sid b' la a o q :
  ledger_inv hc hq st -> rep (book sid st) la -> (forall a o, (a, o) ∈ la -> resting_ok sid o) ->
  (a, o) ∈ la -> 0 <= q <= unfilled o -> rep b' (fill_book a o q la) ->
  ledger_inv (fun i => hc i + hold_cash o (o_Price o * q) i) (fun i t => hq i t + hold_qty o q i t)
    (set_book sid b' st).
Proof.
  intros Hi Hr Hok Hin Hq Hr'. pose proof (rep_addrs _ _ Hr) as Hnd.
  pose proof (ro_open _ _ (Hok _ _ Hin)) as Ho. pose proof (ro_stock _ _ (Hok _ _ Hin)) as Hs.
  apply (inv_set_book hc _ hq); [done| | | |].
  - exists (fill_book a o q la). split; [done|]. intros a' o'. by apply fill_book_resting.
  - intros o' (a' & Hin')%(resting_elem _ _ _ Hr'). apply (fill_book_elem _ o) in Hin' as [[[= -> ->] _]|[Hin' _]]; [| |done|done].
    + assert (Hown : owner_ok st sid o) by (eapply inv_owner_at; [done|]; apply (resting_elem _ _ _ Hr); eauto).
      exact Hown.
    + eapply inv_owner_at; [done|]. apply (resting_elem _ _ _ Hr). eauto.
  - intros i. rewrite (resting_perm _ _ Hr), (resting_perm _ _ Hr').
    rewrite (cash_of_fill_book la a o q i) by done. unfold hold_cash. case_decide; lia.
  - intros i t. unfold hold_qty. rewrite Hs. destruct (decide (t = sid)) as [->|Ht].
    + rewrite (resting_perm _ _ Hr), (resting_perm _ _ Hr'), (qty_of_fill_book la a o q i) by done.
      repeat case_decide; naive_solver lia.
    + rewrite decide_False; [lia|naive_solver].
Qed.

(** The two parties of a trade. *)
Definition parties order o : Z * Z :=
  if is_sell (o_TradingType order) then (o_AccountId o, o_AccountId order)
  else (o_AccountId order, o_AccountId o).

(** The maker is on the other side of the taker. *)
Definition opposite order o : Prop :=
  (o_TradingType order = TRADING_BUY /\ o_TradingType o = TRADING_SELL) \/
  (o_TradingType order = TRADING_SELL /\ o_TradingType o = TRADING_BUY).

Lemma opposite_counter sid order o :
  is_trade order -> resting_ok sid o -> is_sell (o_TradingType o) = counter_side order -> opposite order o.
Proof.
  unfold opposite, counter_side. intros [Ht|Ht] Ho; rewrite Ht; destruct (ro_side _ _ Ho) as [Hs|Hs]; rewrite Hs;
    simpl; auto; done.
Qed.

Lemma hold_nonneg order x y :
  (o_TradingType order = TRADING_BUY -> 0 <= x) -> 0 <= y -> held_nonneg (hold_cash order x) (hold_qty order y).
Proof. intros. split; intros; unfold hold_cash, hold_qty; case_decide; naive_solver lia. Qed.

Lemma held_nonneg_add hc hq hc' hq' :
  held_nonneg hc hq -> held_nonneg hc' hq' ->
  held_nonneg (fun i => hc i + hc' i) (fun i t => hq i t + hq' i t).
Proof. intros [A B] [C D]. split; intros; [specialize (A i); specialize (C i)|specialize (B i t); specialize (D i t)]; lia. Qed.

(** The cash of a trade is covered by what the buyer holds, so it does not overflow. *)
Lemma held_cash_exact hc hq st i p q :
  ledger_inv hc hq st -> held_nonneg hc hq -> is_Some (s_Accounts st !! i) -> 0 <= p * q <= hc i -> p ⊗ q = p * q.
Proof.
  intros Hi Hnn [a Ha] Hpq. destruct (inv_balance_range _ _ _ _ _ Hi Hnn Ha) as (_ & _ & Hh).
  destruct (inv_cash _ _ _ Hi _ _ Ha) as (_ & Hlt & _). apply mul64_exact. lia.
Qed.

(** Everything the trade of [order] with the maker [o] needs of the ledger. *)
Record tradable (order : Order) (x : Z) (o : Order) (q : Z) (st : State) : Prop := {
  td_opposite : opposite order o;
  td_stock : o_StockId o = o_StockId order;
  td_price : 0 < o_Price o;
  td_qty : 0 < q <= unfilled order;
  td_cash : o_TradingType order = TRADING_BUY -> 0 <= x;
  td_cover : o_TradingType order = TRADING_BUY -> o_Price o * q <= x;
  td_taker : owner_ok st (o_StockId order) order;
  td_maker : owner_ok st (o_StockId order) o;
  td_total_cash : total_cash st < two64;
  td_total_qty : total_qty (o_StockId order) st < two63
}.

Lemma trade_inv order x o q st :
  let p := o_Price o in
  let '(buyer, seller) := parties order o in
  ledger_inv (fun i => hold_cash order x i + hold_cash o (p * q) i)
    (fun i t => hold_qty order (unfilled order) i t + hold_qty o q i t) st ->
  tradable order x o q st ->
  p ⊗ q = p * q /\
  exists st', settle buyer seller (o_StockId order) q (p * q) st = Done st' /\
    ledger_inv (hold_cash order (x - p * q)) (hold_qty order (unfilled order - q)) st' /\
    total_cash st' = total_cash st /\ (forall t, total_qty t st' = total_qty t st) /\
    settle_frame buyer seller (o_StockId order) st st'.
Proof.
  intros p. destruct (parties order o) as [buyer seller] eqn:Hpar. intros Hi [Hopp Hso Hp Hq Hx Hcov Htk Hmk Htc Htq].
  fold p in Hp, Hcov. assert (Hpq : 0 <= p * q) by nia.
  assert (Hnn := held_nonneg_add _ _ _ _ (hold_nonneg order x (unfilled order) Hx ltac:(lia))
    (hold_nonneg o (p * q) q (fun _ => Hpq) ltac:(lia))).
  unfold parties in Hpar. unfold owner_ok in *.
  assert (Hcs : can_settle (fun i => hold_cash order x i + hold_cash o (p * q) i)
    (fun i t => hold_qty order (unfilled order) i t + hold_qty o q i t) st buyer seller (o_StockId order) q (p * q)).
  { destruct Hopp as [[H1 H2]|[H1 H2]]; rewrite H1 in Hpar; simpl in Hpar; injection Hpar as <- <-;
      rewrite H1 in Htk; rewrite H2 in Hmk; split; try done; unfold hold_cash, hold_qty; rewrite ?H1, ?H2, ?Hso.
    - rewrite decide_True, decide_False by naive_solver. specialize (Hcov H1). lia.
    - rewrite decide_False, decide_True by naive_solver. lia.
    - intros Hn. rewrite !decide_False; [done| |naive_solver]. intros (_ & He & _). rewrite He, Hn in Hmk. by destruct Hmk.
    - rewrite decide_False, decide_True by naive_solver. lia.
    - rewrite decide_True, decide_False by naive_solver. lia.
    - intros Hn. rewrite !decide_False; [done|naive_solver|]. intros (_ & He & _). rewrite He, Hn in Htk. by destruct Htk. }
  split; [by apply (held_cash_exact _ _ _ buyer _ _ Hi Hnn); apply Hcs|].
  destruct (settle_inv _ _ _ _ _ _ _ _ Hi Hcs) as (st' & He & Hi' & Hc' & Hq' & Hf'). exists st'. split; [done|].
  split_and!; [|done..].
  eapply inv_ext; [exact Hi'|..]; destruct Hopp as [[H1 H2]|[H1 H2]]; rewrite H1 in Hpar; simpl in Hpar;
    injection Hpar as <- <-; intros; unfold shift1, shift2, hold_cash, hold_qty; rewrite ?H1, ?H2, ?Hso;
    repeat case_decide; naive_solver lia.
Qed.
End step.
