(* ===== verification/MatchLoop.v ===== *)
(** * The matching loop

    The reference is [greedy]: walk the opposite side in price-time priority,
    trade with each order the smaller of the two open quantities, and stop when
    the taker is filled or its limit is reached. The loop is shown to perform
    exactly these trades, to keep the ledger invariant, and to terminate. *)

From S2P Require Import Prelude Domain Slices OrderBook BookSpec Ledger Snapshot Events Matching Invariant Settlement MatchStep.

(** ** Reference matching *)

(** A fill: the maker before the trade, and the quantity traded. *)
Abbreviation fill := (Order * Z)%type.

Fixpoint greedy (order : Order) (want : Z) (l : list Order) : list fill :=
  match l with
  | [] => []
  | o :: l =>
      if Z.eqb want 0 || price_rejected order (o_Price o) then []
      else let q := Z.min want (unfilled o) in (o, q) :: greedy order (want - q) l
  end.

Definition fills_qty (fs : list fill) : Z := lsum snd fs.
Definition fills_cash (fs : list fill) : Z := lsum (fun f => o_Price (fst f) * snd f) fs.

(** The abstract book after the fills. *)
Definition apply_fills (fs : list fill) (l : list Order) : list Order :=
  foldl (fun l f => fst (spec_op l (OpFill (o_Id (fst f)) (snd f)))) l fs.

(** Trade ids are consumed only when the input is not being replayed. *)
Definition live (c : Core) : bool := Z.eqb (outputAppliedSeq c) 0 || Z.gtb (inputSeq c) (outputAppliedSeq c).
Definition trade_ids (c : Core) (n : nat) : list Z :=
  if live c then seqZ (lastTradeID c + 1) (Z.of_nat n) else replicate n 0.
Definition ids_left (c : Core) (n : nat) : Prop := live c = true -> lastTradeID c + Z.of_nat n <= MaxInt64.

(** The two events of one fill. *)
Definition executed (order : Order) (f : fill) (tid : Z) (evs : list outEvent) : Prop :=
  let '(o, q) := f in
  exists t1 t2,
    evs = [mkOutEvent PatternTradeExecuted (EvTrade
             (mkTrade tid (o_StockId order) (o_Price o) q (o_Id o) (o_Id order) (o_TradingType order) t1));
           if Z.eqb (o_FilledQuantity o + q) (o_Quantity o)
           then mkOutEvent PatternOrderFilled (EvOrder
                  (set_oe_FullyFilledAt t2 (set_oe_FilledQuantity (o_Quantity o) (orderEvent o))))
           else mkOutEvent PatternOrderOpen (EvOrder
                  (set_oe_FilledQuantity (o_FilledQuantity o + q) (orderEvent o)))].

(** ** What the loop leaves alone *)

Record ledger_frame (touched : list Z) (sid : Z) (st st' : State) : Prop := {
  lf_accounts i : i ∉ touched -> s_Accounts st' !! i = s_Accounts st !! i;
  lf_holdings i t : i ∉ touched \/ t <> sid -> s_StockBalances st' !! (i, t) = s_StockBalances st !! (i, t);
  lf_stocks : s_Stocks st' = s_Stocks st;
  lf_books t : t <> sid -> s_OrderBooks st' !! t = s_OrderBooks st !! t;
  lf_known i : is_Some (s_Accounts st !! i) -> is_Some (s_Accounts st' !! i);
  lf_held k : is_Some (s_StockBalances st !! k) -> is_Some (s_StockBalances st' !! k)
}.

Section frames.
Lemma ledger_frame_refl ts sid st : ledger_frame ts sid st st.
Proof. by split. Qed.

Lemma ledger_frame_trans ts1 ts2 ts3 sid st1 st2 st3 :
  ledger_frame ts1 sid st1 st2 -> ledger_frame ts2 sid st2 st3 -> ts1 ⊆ ts3 -> ts2 ⊆ ts3 ->
  ledger_frame ts3 sid st1 st3.
Proof.
  intros [A1 H1 S1 B1 K1 L1] [A2 H2 S2 B2 K2 L2] I1 I2. split; try congruence; auto.
  - intros i Hi. rewrite A2, A1; set_solver.
  - intros i t Hi. rewrite H2, H1; set_solver.
  - intros t Ht. by rewrite B2, B1.
Qed.

Lemma frame_set_book sid b st : ledger_frame [] sid st (set_book sid b st).
Proof. split; try done. intros t Ht. simpl. by rewrite lookup_insert_ne. Qed.

Lemma frame_settle buyer seller sid st st' :
  settle_frame buyer seller sid st st' -> ledger_frame [buyer; seller] sid st st'.
Proof.
  intros [B S A H K L]. split; try done.
  - intros i Hi. apply A; set_solver.
  - intros i t Hi. apply H; intros [= -> ->]; set_solver.
  - intros t _. by rewrite B.
Qed.

Lemma owner_ok_frame ts sid st st' t o : ledger_frame ts sid st st' -> owner_ok st t o -> owner_ok st' t o.
Proof. intros Hf. unfold owner_ok. destruct (o_TradingType o); apply Hf. Qed.

Lemma set_filled_id o : set_FilledQuantity (o_FilledQuantity o) o = o.
Proof. by destruct o. Qed.

Lemma trade_ids_app c c' n1 n2 :
  inputSeq c' = inputSeq c -> outputAppliedSeq c' = outputAppliedSeq c ->
  lastTradeID c' = lastTradeID c + (if live c then Z.of_nat n1 else 0) ->
  trade_ids c (n1 + n2) = trade_ids c n1 ++ trade_ids c' n2.
Proof.
  intros Hi Ho Hl. unfold trade_ids. assert (live c' = live c) as -> by (unfold live; by rewrite Hi, Ho).
  destruct (live c); [|by rewrite replicate_add].
  rewrite Nat2Z.inj_add, seqZ_app by lia. do 2 f_equal. lia.
Qed.
End frames.

(** ** What the loop has done *)

Section loop.
Context `{!Clock}.
Implicit Types (l : locals) (st : State) (la lp : abook) (fs : list fill).

Definition accounts_of fs : list Z := (fun f => o_AccountId (fst f)) <$> fs.
Definition levels_of fs : list (TradingType * Z) := (fun f => (o_TradingType (fst f), o_Price (fst f))) <$> fs.

Record looped fs l l' : Prop := {
  ld_order : l_order l' = set_FilledQuantity (o_FilledQuantity (l_order l) + fills_qty fs) (l_order l);
  ld_cash : o_TradingType (l_order l) = TRADING_BUY -> l_filledCash l' = l_filledCash l + fills_cash fs;
  ld_price : l_lastTradePrice l' = default (l_lastTradePrice l) (last ((fun f => o_Price (fst f)) <$> fs));
  ld_events : exists evss, Forall3 (executed (l_order l)) fs (trade_ids (l_core l) (length fs)) evss /\
    l_events l' = l_events l ++ concat evss;
  ld_accounts : l_accountIDs l' = foldl (flip track) (l_accountIDs l) (accounts_of fs);
  ld_levels : l_levels l' = foldl (flip track) (l_levels l) (levels_of fs);
  ld_inputSeq : inputSeq (l_core l') = inputSeq (l_core l);
  ld_applied : outputAppliedSeq (l_core l') = outputAppliedSeq (l_core l);
  ld_lastID : lastTradeID (l_core l') =
    lastTradeID (l_core l) + (if live (l_core l) then Z.of_nat (length fs) else 0);
  ld_frame : ledger_frame (o_AccountId (l_order l) :: accounts_of fs) (o_StockId (l_order l))
    (state (l_core l)) (state (l_core l'));
  ld_total_cash : total_cash (state (l_core l')) = total_cash (state (l_core l));
  ld_total_qty t : total_qty t (state (l_core l')) = total_qty t (state (l_core l))
}.

Lemma looped_nil l : looped [] l l.
Proof.
  split; try done; unfold fills_qty, fills_cash; simpl; try lia.
  - by rewrite Z.add_0_r, set_filled_id.
  - exists []. split; [|by rewrite app_nil_r]. unfold trade_ids. simpl. destruct (live _); constructor.
  - destruct (live _); lia.
Qed.

Lemma looped_app fs1 fs2 l1 l2 l3 : looped fs1 l1 l2 -> looped fs2 l2 l3 -> looped (fs1 ++ fs2) l1 l3.
Proof.
  intros H1 H2. pose proof (ld_order _ _ _ H1) as Ho.
  destruct H2 as [O2 C2 P2 (ev2 & E2 & Ee2) A2 L2 I2 W2 T2 F2 TC2 TQ2]. rewrite Ho in *.
  destruct H1 as [O1 C1 P1 (ev1 & E1 & Ee1) A1 L1 I1 W1 T1 F1 TC1 TQ1].
  assert (Hlive : live (l_core l2) = live (l_core l1)) by (unfold live; by rewrite I1, W1).
  split; unfold fills_qty, fills_cash, accounts_of, levels_of in *.
  - rewrite O2, lsum_app. unfold set_FilledQuantity. cbn. f_equal. lia.
  - intros Hb. rewrite C2, C1, lsum_app by done. lia.
  - rewrite P2, P1, fmap_app, last_app. by destruct (last (_ <$> fs2)).
  - exists (ev1 ++ ev2). split.
    + rewrite length_app, (trade_ids_app _ (l_core l2)) by done. by apply Forall3_app.
    + rewrite Ee2, Ee1, concat_app. by rewrite app_assoc.
  - by rewrite A2, A1, fmap_app, foldl_app.
  - by rewrite L2, L1, fmap_app, foldl_app.
  - congruence.
  - congruence.
  - rewrite T2, T1, Hlive, length_app. destruct (live _); lia.
  - eapply ledger_frame_trans; [exact F1|exact F2|..]; rewrite fmap_app; simpl; set_solver.
  - congruence.
  - intros t. by rewrite TQ2, TQ1.
Qed.

(** The invariant of the loop. [x] is the cash the taker still holds, [la] the
    abstract book, and [lp] its opposite side in priority order. *)
Record looping (x : Z) la lp l : Prop := {
  lo_trade : is_trade (l_order l);
  lo_range : 0 <= o_FilledQuantity (l_order l) <= o_Quantity (l_order l) /\ o_Quantity (l_order l) < two64;
  lo_rep : rep (book (o_StockId (l_order l)) (state (l_core l))) la;
  lo_ok a o : (a, o) ∈ la -> resting_ok (o_StockId (l_order l)) o;
  lo_prio : prioritised (counter_side (l_order l)) la lp;
  lo_inv : ledger_inv (hold_cash (l_order l) x) (hold_qty (l_order l) (unfilled (l_order l))) (state (l_core l));
  lo_cover : o_TradingType (l_order l) = TRADING_BUY -> o_Price (l_order l) * unfilled (l_order l) <= x;
  lo_limit : 0 < o_Price (l_order l);
  lo_filled : o_TradingType (l_order l) = TRADING_BUY -> 0 <= l_filledCash l /\ l_filledCash l + x < two64;
  lo_owner : owner_ok (state (l_core l)) (o_StockId (l_order l)) (l_order l);
  lo_total_cash : total_cash (state (l_core l)) < two64;
  lo_total_qty : total_qty (o_StockId (l_order l)) (state (l_core l)) < two63;
  lo_cap o : o_TradingType (l_order l) = TRADING_BUY -> o ∈ lp.*2 ->
    price_rejected (l_order l) (o_Price o) = false -> o_Price o <= o_Price (l_order l)
}.

Lemma takeTradeID_ok c :
  ids_left c 1 ->
  exists tid, takeTradeID c =
    (set_lastTradeID c (lastTradeID c + (if live c then 1 else 0)), inl tid) /\ trade_ids c 1 = [tid].
Proof.
  intros Hl. unfold takeTradeID, trade_ids. fold (live c). unfold ids_left in Hl. destruct (live c).
  - unfold nextTradeID. destruct (Z.eqb_spec (lastTradeID c) MaxInt64) as [He|_]; [specialize (Hl eq_refl); lia|].
    eexists. split; [done|]. done.
  - eexists. split; [|done]. rewrite Z.add_0_r. by destruct c.
Qed.

(** The events of an iteration. *)
Lemma fill_events_ok order o q c tid :
  open_order o -> 0 < q <= unfilled o ->
  exists c' e1 e2,
    (let '(c, trade) := trade_event order o tid (o_Price o) q c in
     let '(c, maker) := maker_event o q c in (c, [trade; maker])) = (c', [e1; e2]) /\
    executed order (o, q) tid [e1; e2] /\
    state c' = state c /\ inputSeq c' = inputSeq c /\ outputAppliedSeq c' = outputAppliedSeq c /\
    lastTradeID c' = lastTradeID c.
Proof.
  intros Ho Hq. unfold trade_event, maker_event, open_order, unfilled in *. simpl. rewrite add64_exact by lia.
  destruct (Z.eqb_spec (o_FilledQuantity o + q) (o_Quantity o)) as [He|He]; do 3 eexists;
    (split; [done|]); (split; [|done]).
  - rewrite He. by do 2 eexists.
  - by exists (clock_at (ticks c)), 0.
Qed.

(** The ledger part of an iteration. *)
Lemma iteration_ledger x la lp l a o b' :
  let order := l_order l in let q := trade_qty order o in let p := o_Price o in
  looping x la ((a, o) :: lp) l -> open_order order -> price_rejected order p = false ->
  rep b' (fill_book a o q la) ->
  let '(buyer, seller) := parties order o in
  p ⊗ q = p * q /\
  (o_TradingType order = TRADING_BUY -> p * q <= o_Price order * q) /\
  exists st', settle buyer seller (o_StockId order) q (p * q)
                (set_book (o_StockId order) b' (state (l_core l))) = Done st' /\
    ledger_inv (hold_cash order (x - p * q)) (hold_qty order (unfilled order - q)) st' /\
    total_cash st' = total_cash (state (l_core l)) /\
    (forall t, total_qty t st' = total_qty t (state (l_core l))) /\
    book (o_StockId order) st' = b' /\
    ledger_frame [o_AccountId order; o_AccountId o] (o_StockId order) (state (l_core l)) st'.
Proof.
  intros order q p Hl Hord Hrej Hr'. pose proof (lo_rep _ _ _ _ Hl) as Hr.
  assert (Hin : (a, o) ∈ la) by (apply (prioritised_elem _ _ _ _ (lo_prio _ _ _ _ Hl)); left).
  pose proof (lo_ok _ _ _ _ Hl _ _ Hin) as Hok. pose proof (ro_price _ _ Hok) as Hp.
  destruct (trade_qty_range order o Hord (ro_open _ _ Hok)) as (Hq1 & Hq2 & Hq3).
  pose proof (fill_inv _ _ _ _ b' la a o q (lo_inv _ _ _ _ Hl) Hr (lo_ok _ _ _ _ Hl) Hin
    ltac:(lia) Hr') as Hinv. fold order in Hinv. fold p in Hinv, Hp.
  assert (Hcap : o_TradingType order = TRADING_BUY -> p * q <= o_Price order * q).
  { intros Hb. pose proof (lo_cap _ _ _ _ Hl o Hb) as Hc. fold order in Hc. specialize (Hc ltac:(left) Hrej).
    fold p in Hc. apply Z.mul_le_mono_nonneg_r; [|done]. unfold q. lia. }
  assert (Htd : tradable order x o q (set_book (o_StockId order) b' (state (l_core l)))).
  { pose proof (lo_cover _ _ _ _ Hl) as Hcov. fold order in Hcov. pose proof (lo_limit _ _ _ _ Hl) as Hlim. fold order in Hlim.
    assert (Hmono : o_Price order * q <= o_Price order * unfilled order) by (unfold q; nia).
    assert (0 <= o_Price order * q) by (unfold q; nia). fold q in Hq1, Hq2, Hq3.
    split; fold p; [|apply Hok|lia|lia| | |apply Hl| |apply Hl|apply Hl].
    - apply (opposite_counter (o_StockId order)); [apply Hl|done|].
      by apply (prio_side _ _ _ (lo_prio _ _ _ _ Hl) (a, o)); left.
    - intros Hb. specialize (Hcov Hb). lia.
    - intros Hb. specialize (Hcov Hb). specialize (Hcap Hb). lia.
    - assert (owner_ok (state (l_core l)) (o_StockId order) o); [|done].
      eapply inv_owner_at; [apply Hl|]. apply (resting_elem _ _ _ Hr). eauto. }
  pose proof (trade_inv order x o q (set_book (o_StockId order) b' (state (l_core l)))) as Htr. cbv zeta in Htr. fold p in Htr. destruct (parties order o) as [buyer seller] eqn:Hpar.
  destruct (Htr Hinv Htd) as (Hex & st' & He & Hi' & Hc' & Hq' & Hf). split_and!; [done|done|].
  exists st'. split_and!; [done|done|done|intros; by rewrite Hq'| |].
  - rewrite book_default, (sf_books _ _ _ _ _ Hf). simpl. by rewrite lookup_insert_eq.
  - eapply ledger_frame_trans; [apply frame_set_book|by apply frame_settle|set_solver|].
    unfold parties in Hpar. destruct (is_sell _); simplify_eq; set_solver.
Qed.

Lemma rest_prio_elem a o q lp o' :
  o' ∈ (rest_prio a o q ((a, o) :: lp)).*2 -> exists o1, o1 ∈ ((a, o) :: lp).*2 /\ o_Price o' = o_Price o1.
Proof.
  unfold rest_prio. case_decide; cbn [tail].
  - intros Hin. exists o'. split; [|done]. cbn. by right.
  - rewrite <- list_fmap_compose. intros (x & -> & Hx)%list_elem_of_fmap. exists (snd x). split.
    + apply list_elem_of_fmap. eauto.
    + cbn. unfold fill_entry. by case_decide.
Qed.

(** The cash that a buying taker has paid so far stays in range. *)
Lemma filled_exact x la lp l a o q :
  looping x la ((a, o) :: lp) l -> (a, o) ∈ la -> 0 <= q <= unfilled (l_order l) ->
  o_TradingType (l_order l) = TRADING_BUY -> o_Price o * q <= o_Price (l_order l) * q ->
  l_filledCash l ⊕ (o_Price o * q) = l_filledCash l + o_Price o * q /\ 0 <= o_Price o * q.
Proof.
  intros Hl Hin Hq Hb Hle. destruct (lo_filled _ _ _ _ Hl Hb) as [H0 H1].
  pose proof (ro_price _ _ (lo_ok _ _ _ _ Hl _ _ Hin)). pose proof (lo_cover _ _ _ _ Hl Hb).
  pose proof (lo_limit _ _ _ _ Hl). split; [apply add64_exact|]; nia.
Qed.

(** The loop invariant after a trade with the head of the priority list. *)
Lemma looping_next x la lp l a o l' :
  let order := l_order l in
  let q := trade_qty order o in
  looping x la ((a, o) :: lp) l -> open_order order -> (a, o) ∈ la ->
  l_order l' = set_FilledQuantity (o_FilledQuantity order + q) order ->
  (o_TradingType order = TRADING_BUY ->
   o_Price o * q <= o_Price order * q /\ l_filledCash l' = l_filledCash l + o_Price o * q) ->
  rep (book (o_StockId order) (state (l_core l'))) (fill_book a o q la) ->
  ledger_inv (hold_cash order (x - o_Price o * q)) (hold_qty order (unfilled order - q)) (state (l_core l')) ->
  ledger_frame (o_AccountId order :: [o_AccountId o]) (o_StockId order) (state (l_core l)) (state (l_core l')) ->
  total_cash (state (l_core l')) = total_cash (state (l_core l)) ->
  (forall t, total_qty t (state (l_core l')) = total_qty t (state (l_core l))) ->
  looping (x - o_Price o * q) (fill_book a o q la) (rest_prio a o q ((a, o) :: lp)) l'.
Proof.
  intros order q Hl Hord Hin Ho' Hbuy Hbk Hinv Hfr Htc Htq.
  pose proof (lo_ok _ _ _ _ Hl _ _ Hin) as Hok. pose proof (ro_price _ _ Hok) as Hp.
  destruct (trade_qty_range order o Hord (ro_open _ _ Hok)) as (Hq1 & Hq2 & Hq3). fold q in Hq1, Hq2, Hq3.
  pose proof (lo_range _ _ _ _ Hl) as Hrange. fold order in Hrange.
  assert (Hu : unfilled (l_order l') = unfilled order - q) by (rewrite Ho'; unfold unfilled; simpl; lia).
  split; rewrite ?Hu, ?Ho'; cbn [o_StockId o_TradingType o_AccountId o_Price o_OrderType o_Quantity o_FilledQuantity set_FilledQuantity].
  - apply Hl.
  - unfold unfilled in Hq3. lia.
  - exact Hbk.
  - intros a' o'. by apply fill_book_resting; [apply (lo_rep _ _ _ _ Hl)|done|apply Hl|lia].
  - apply prioritised_rest; [apply (lo_rep _ _ _ _ Hl)|apply Hl].
  - exact Hinv.
  - intros Hb. pose proof (lo_cover _ _ _ _ Hl Hb) as Hcov. fold order in Hcov. destruct (Hbuy Hb). lia.
  - apply Hl.
  - intros Hb. destruct (Hbuy Hb) as [_ ->]. destruct (lo_filled _ _ _ _ Hl Hb). nia.
  - eapply (owner_ok_frame _ _ _ _ _ order); [exact Hfr|apply Hl].
  - rewrite Htc. apply Hl.
  - rewrite Htq. apply Hl.
  - intros o' Hb Hin' Hrej'. apply rest_prio_elem in Hin' as (o1 & Hin1 & He1). rewrite He1 in Hrej' |- *.
    by apply (lo_cap _ _ _ _ Hl).
Qed.

(** One iteration trades with the head of the priority list. *)
Lemma match_step_ok x la lp l a o :
  let q := trade_qty (l_order l) o in
  looping x la ((a, o) :: lp) l -> open_order (l_order l) -> price_rejected (l_order l) (o_Price o) = false ->
  ids_left (l_core l) 1 ->
  exists l', match_step l = Done (Continue l') /\ looped [(o, q)] l l' /\
    looping (x - o_Price o * q) (fill_book a o q la) (rest_prio a o q ((a, o) :: lp)) l'.
Proof.
  intros q Hl Hord Hrej Hids. set (order := l_order l) in *.
  assert (Hin : (a, o) ∈ la) by (apply (prioritised_elem _ _ _ _ (lo_prio _ _ _ _ Hl)); left).
  pose proof (lo_ok _ _ _ _ Hl _ _ Hin) as Hok. pose proof (ro_open _ _ Hok) as Hopen.
  destruct (trade_qty_range order o Hord Hopen) as (Hq1 & Hq2 & Hq3). fold q in Hq1, Hq2, Hq3.
  pose proof (match_step_shape l la ((a, o) :: lp) (lo_trade _ _ _ _ Hl) Hord (lo_rep _ _ _ _ Hl)
    (fun a o H => ro_open _ _ (lo_ok _ _ _ _ Hl a o H)) (lo_prio _ _ _ _ Hl)) as Hs.
  cbv beta iota zeta in Hs. fold order in Hs. rewrite Hrej in Hs. fold q in Hs. destruct Hs as (b' & Hr' & ->).
  pose proof (iteration_ledger x la lp l a o b' Hl Hord Hrej Hr') as Hit. cbv zeta in Hit. fold order q in Hit.
  unfold after_fill. cbv zeta. fold order. cbn [o_TradingType o_AccountId o_StockId set_FilledQuantity].
  fold (parties order o). destruct (parties order o) as [buyer seller].
  destruct Hit as (Hex & Hle & st' & Hset & Hinv & Htc & Htq & Hbk & Hfr). rewrite Hex. cbn [state set_state]. rewrite Hset.
  cbn [obind]. set (c1 := set_state _ st').
  destruct (takeTradeID_ok c1 Hids) as (tid & -> & Hids').
  assert (Hrange : 0 <= o_FilledQuantity order <= o_Quantity order /\ o_Quantity order < two64) by apply Hl.
  assert (Hadd : o_FilledQuantity order ⊕ q = o_FilledQuantity order + q) by (apply add64_exact; unfold unfilled in *; lia).
  rewrite Hadd. set (order' := set_FilledQuantity _ order).
  destruct (fill_events_ok order' o q (set_lastTradeID c1 (lastTradeID c1 + (if live c1 then 1 else 0))) tid Hopen
    ltac:(lia)) as (c2 & e1 & e2 & Hev & Hexe & Hc2).
  destruct (trade_event _ _ _ _ _ _) as [c2' tr]. destruct (maker_event o q c2') as [c3 mk]. injection Hev as -> -> ->.
  eexists; split; [done|]. destruct Hc2 as (Hst & Hin2 & Hout2 & Hlast2). cbn in Hst, Hin2, Hout2, Hlast2.
  assert (Hlf : o_TradingType order = TRADING_BUY -> l_filledCash l ⊕ (o_Price o * q) = l_filledCash l + o_Price o * q).
  { intros Hb. apply (filled_exact x la lp l a o q Hl Hin); [fold order; lia|done|by apply Hle]. }
  split.
  - split; cbn; fold order; rewrite ?Hst, ?Hin2, ?Hout2, ?Hlast2; try done.
    + unfold fills_qty. simpl. by rewrite Z.add_0_r.
    + intros Hb. rewrite Hlf by done. unfold fills_cash. simpl. lia.
    + exists [[e1; e2]]. change (trade_ids (l_core l) 1) with (trade_ids c1 1). rewrite Hids'. split; [|done].
      by repeat constructor.
    + f_equal. f_equal. unfold counter_side. pose proof (opposite_counter _ order o (lo_trade _ _ _ _ Hl) Hok
        (prio_side _ _ _ (lo_prio _ _ _ _ Hl) (a, o) ltac:(left))) as [[-> ->]|[-> ->]]; done.
  - apply (looping_next x la lp l a o); cbn [l_order l_core l_filledCash]; rewrite ?Hst; try done.
    + intros Hb. split; [by apply Hle|by apply Hlf].
    + fold order. by rewrite Hbk.
Qed.

(** Why the loop has stopped: the taker is filled, or the opposite side has
    nothing left that it may trade with. *)
Definition stopped (order : Order) (lp : list Order) : Prop :=
  unfilled order = 0 \/ from_option (fun o => price_rejected order (o_Price o)) true (head lp) = true.

Lemma greedy_filled order v w os : greedy (set_FilledQuantity v order) w os = greedy order w os.
Proof.
  revert w. induction os as [|o os IH]; intros w; [done|]. cbn [greedy]. rewrite IH. done.
Qed.

Lemma greedy_zero order os : greedy order 0 os = [].
Proof. by destruct os. Qed.

Lemma match_loop_done fuel l : unfilled (l_order l) = 0 -> match_loop fuel l = Done (l, None).
Proof.
  unfold unfilled. intros Hu. destruct fuel; cbn [match_loop];
    (destruct (Z.ltb_spec (o_FilledQuantity (l_order l)) (o_Quantity (l_order l))); [lia|done]).
Qed.

Lemma match_loop_step fuel l r :
  0 < unfilled (l_order l) -> match_step l = Done r ->
  match_loop (S fuel) l =
  match r with Break l => Done (l, None) | Continue l => match_loop fuel l | Fail l e => Done (l, Some e) end.
Proof.
  unfold unfilled. intros Hu Hr. cbn [match_loop].
  destruct (Z.ltb_spec (o_FilledQuantity (l_order l)) (o_Quantity (l_order l))); [|lia]. by rewrite Hr.
Qed.

(** The price levels of the fills are the only ones that change. *)
Definition order_at (s : bool) (p : Z) (o : Order) : Prop := is_sell (o_TradingType o) = s /\ o_Price o = p.

Definition levels_kept fs la la' : Prop :=
  forall s p, Forall (fun f => ~ order_at s p (fst f)) fs -> level la' s p = level la s p.

(** One fill in the book is one fill of the reference, and touches one level. *)
Lemma fill_book_fills x la lp l a o :
  let q := trade_qty (l_order l) o in
  looping x la ((a, o) :: lp) l -> open_order (l_order l) ->
  (fill_book a o q la).*2 = apply_fills [(o, q)] la.*2 /\ levels_kept [(o, q)] la (fill_book a o q la) /\
  0 <= q /\ 0 <= unfilled (l_order l) - q.
Proof.
  intros q Hl Hord. assert (Hin : (a, o) ∈ la) by (apply (prioritised_elem _ _ _ _ (lo_prio _ _ _ _ Hl)); left).
  pose proof (ro_open _ _ (lo_ok _ _ _ _ Hl _ _ Hin)) as Ho.
  destruct (trade_qty_range _ _ Hord Ho) as (Hq1 & Hq2 & Hq3). fold q in Hq1, Hq2, Hq3. split_and!; [| |lia|lia].
  - cbn. symmetry. apply fill_book_spec; [apply (lo_rep _ _ _ _ Hl)|apply (lo_rep _ _ _ _ Hl)|done|done|].
    unfold unfilled in Hq2. lia.
  - intros s p Hf. inversion_clear Hf as [|?? Hf' _]. cbn [fst] in Hf'.
    apply level_fill_book_ne; [apply (lo_rep _ _ _ _ Hl)|done|]. intros [-> ->]. by apply Hf'.
Qed.

(** The loop makes the trades of the reference, in its order, within the fuel. *)
Lemma match_loop_ok fuel x la lp l :
  looping x la lp l -> (length lp < fuel)%nat -> ids_left (l_core l) (length lp) ->
  let fs := greedy (l_order l) (unfilled (l_order l)) lp.*2 in
  exists l' la' lp', match_loop fuel l = Done (l', None) /\ looped fs l l' /\
    looping (x - fills_cash fs) la' lp' l' /\ la'.*2 = apply_fills fs la.*2 /\ stopped (l_order l') lp'.*2 /\ levels_kept fs la la'.
Proof.
  revert fuel x la l. induction lp as [|[a o] lp IH]; intros fuel x la l Hl Hfuel Hids fs.
  all: destruct (decide (unfilled (l_order l) = 0)) as [Hu|Hu].
  all: try (unfold fs; rewrite Hu, greedy_zero; do 3 eexists;
    split_and!; [by apply match_loop_done|apply looped_nil|by rewrite Z.sub_0_r|done|by left|done]).
  all: destruct fuel as [|fuel]; [simpl in Hfuel; lia|].
  all: assert (Hord : open_order (l_order l))
    by (pose proof (lo_range _ _ _ _ Hl); unfold open_order, unfilled in *; lia).
  all: assert (Hu0 : 0 < unfilled (l_order l)) by (unfold open_order, unfilled in *; lia).
  all: pose proof (match_step_shape l la _ (lo_trade _ _ _ _ Hl) Hord (lo_rep _ _ _ _ Hl)
    (fun a o H => ro_open _ _ (lo_ok _ _ _ _ Hl a o H)) (lo_prio _ _ _ _ Hl)) as Hs; cbv beta iota zeta in Hs.
  - do 3 eexists. split_and!; [by rewrite (match_loop_step _ _ _ Hu0 Hs)|apply looped_nil|by rewrite Z.sub_0_r|done|by right|done].
  - unfold fs. clear fs. cbn [fmap list_fmap snd greedy]. rewrite (proj2 (Z.eqb_neq _ _) Hu). cbn [orb].
    destruct (price_rejected (l_order l) (o_Price o)) eqn:Hrej.
    { do 3 eexists. split_and!; [by rewrite (match_loop_step _ _ _ Hu0 Hs)|apply looped_nil|by rewrite Z.sub_0_r|done|by right|done]. }
    clear Hs. fold (trade_qty (l_order l) o). set (q := trade_qty (l_order l) o).
    destruct (match_step_ok x la lp l a o Hl Hord Hrej) as (l1 & Hs & Hd & Hl1).
    { intros Hv. specialize (Hids Hv). simpl in Hids. lia. }
    fold q in Hd, Hl1. rewrite (match_loop_step _ _ _ Hu0 Hs).
    destruct (fill_book_fills x la lp l a o Hl Hord) as (Hab & Hlev & Hq1 & Hq2). fold q in Hab, Hlev, Hq1, Hq2.
    pose proof (ld_order _ _ _ Hd) as Ho1.
    assert (Hu1 : unfilled (l_order l1) = unfilled (l_order l) - q).
    { rewrite Ho1. unfold unfilled, fills_qty. simpl. lia. }
    unfold rest_prio in Hl1. case_decide as Hfull.
    + destruct (IH fuel _ _ l1 Hl1) as (l2 & la2 & lp2 & He2 & Hd2 & Hl2 & Ha2 & Hst2 & Hk2).
      { simpl in Hfuel. lia. }
      { intros Hv. unfold live in Hv. rewrite (ld_inputSeq _ _ _ Hd), (ld_applied _ _ _ Hd) in Hv.
        specialize (Hids Hv). rewrite (ld_lastID _ _ _ Hd). unfold live. rewrite Hv. simpl in *. lia. }
      rewrite Hu1, Ho1, greedy_filled in *. set (fs2 := greedy _ _ _) in *.
      exists l2, la2, lp2. split_and!; [done|by apply (looped_app [(o, q)] fs2 l l1)| | |done|].
      * replace (x - fills_cash ((o, q) :: fs2)) with (x - o_Price o * q - fills_cash fs2); [done|].
        unfold fills_cash. rewrite lsum_cons. cbn [fst snd]. lia.
      * by rewrite Ha2, Hab.
      * intros s p Hf. inversion_clear Hf. rewrite Hk2 by done. apply Hlev. by constructor.
    + assert (Hz : unfilled (l_order l) - q = 0) by (unfold q, trade_qty, unfilled in *; lia).
      rewrite Hz, greedy_zero. rewrite Hz in Hu1. do 3 eexists.
      split_and!; [by apply match_loop_done|done| |exact Hab|by left|exact Hlev].
      unfold fills_cash. simpl. by rewrite Z.add_0_r.
Qed.
End loop.
