(* ===== verification/MatchSpec.v ===== *)
(** * What [matchEvents] does

    The reservation before the loop and the steps after it are added to the
    loop's specification, which gives the behaviour of [matchEvents] as a whole:
    it does not panic or fail, keeps the ledger invariant, conserves cash and
    shares, trades as the reference does, and reports the final values. *)

From S2P Require Import Prelude Domain Slices OrderBook BookSpec Ledger Snapshot Events Matching Invariant Settlement MatchStep MatchLoop.

(** ** Preconditions: what a validated order satisfies *)

(** The funds the taker needs are available. *)
Definition funded (order : Order) (st : State) : Prop :=
  match o_TradingType order with
  | TRADING_BUY => exists a, s_Accounts st !! o_AccountId order = Some a /\
      o_Price order * unfilled order <= acc_AvailableBalance a
  | _ => exists h, s_StockBalances st !! (o_AccountId order, o_StockId order) = Some h /\
      unfilled order <= sb_AvailableQuantity h
  end.

Record matchable (order : Order) (st : State) : Prop := {
  mt_trade : is_trade order;
  mt_type : o_OrderType order = ORDER_LIMIT \/ o_OrderType order = ORDER_MARKET;
  mt_open : open_order order;
  mt_price : 0 < o_Price order < two64;
  mt_funded : funded order st;
  mt_fresh o : o ∈ resting (book (o_StockId order) st) -> o_Id o <> o_Id order;
  (** the price of a market buy is an upper bound of the prices it can meet *)
  mt_cap o : o_OrderType order = ORDER_MARKET -> o_TradingType order = TRADING_BUY ->
    o ∈ resting (book (o_StockId order) st) -> o_TradingType o = TRADING_SELL -> o_Price o <= o_Price order
}.

(** Totals that leave room for the sums of two records. *)
Definition bounded (sid : Z) (st : State) : Prop := total_cash st < two64 /\ total_qty sid st < two63.

Section funds.
Implicit Types (st : State) (order : Order).

Lemma frame_modify_account i f st sid :
  (forall a, acc_Id (f a) = acc_Id a) -> wf_state st -> ledger_frame [i] sid st (modify_account i f st).
Proof.
  intros Hf Hwf. pose proof (frame_settle i i sid _ _ (frame_account i i sid i f st (or_introl eq_refl) Hf Hwf)) as H.
  eapply ledger_frame_trans; [apply ledger_frame_refl|exact H|done|set_solver].
Qed.

Lemma frame_modify_holding i f st sid :
  (forall h, sb_AccountId (f h) = sb_AccountId h /\ sb_StockId (f h) = sb_StockId h) -> wf_state st ->
  ledger_frame [i] sid st (modify_holding i sid f st).
Proof.
  intros Hf Hwf. pose proof (frame_settle i i sid _ _ (frame_holding i i sid i f st (or_introl eq_refl) Hf Hwf)) as H.
  eapply ledger_frame_trans; [apply ledger_frame_refl|exact H|done|set_solver].
Qed.

(** What one update of the taker's record preserves. *)
Record taker_step (order : Order) st st' : Prop := {
  ts_cash : total_cash st' = total_cash st;
  ts_qty t : total_qty t st' = total_qty t st;
  ts_books : s_OrderBooks st' = s_OrderBooks st;
  ts_frame : ledger_frame [o_AccountId order] (o_StockId order) st st'
}.

Lemma taker_step_refl order st : taker_step order st st.
Proof. by split. Qed.

(** The taker moves [x] of cash (a buyer) or [y] shares (a seller) from available
    to held; [g] and [k] compute the new available amounts. *)
Definition move_funds (order : Order) (g k : Z -> Z) st : State :=
  match o_TradingType order with
  | TRADING_BUY => modify_account (o_AccountId order) (fun a => set_AvailableBalance (g (acc_AvailableBalance a)) a) st
  | TRADING_SELL => modify_holding (o_AccountId order) (o_StockId order)
      (fun h => set_AvailableQuantity (k (sb_AvailableQuantity h)) h) st
  | _ => st
  end.

Lemma move_funds_inv order x0 y0 x y g k st :
  is_trade order -> ledger_inv (hold_cash order x0) (hold_qty order y0) st ->
  owner_ok st (o_StockId order) order ->
  (forall a, o_TradingType order = TRADING_BUY -> s_Accounts st !! o_AccountId order = Some a ->
     g (acc_AvailableBalance a) = acc_AvailableBalance a - (x - x0) /\ x - x0 <= acc_AvailableBalance a) ->
  (forall h, o_TradingType order = TRADING_SELL -> s_StockBalances st !! (o_AccountId order, o_StockId order) = Some h ->
     k (sb_AvailableQuantity h) = sb_AvailableQuantity h - (y - y0) /\ y - y0 <= sb_AvailableQuantity h) ->
  ledger_inv (hold_cash order x) (hold_qty order y) (move_funds order g k st) /\
  taker_step order st (move_funds order g k st).
Proof.
  intros Ht Hi Hown Hg Hk. pose proof (inv_wf _ _ _ Hi) as Hwf. unfold owner_ok in Hown. unfold move_funds.
  destruct Ht as [Ht|Ht]; rewrite Ht in *.
  - destruct Hown as [a Ha]. destruct (Hg a eq_refl Ha) as [Hg1 Hg2].
    destruct (move_cash_inv _ _ _ _ _ (fun a => set_AvailableBalance (g (acc_AvailableBalance a)) a) (x - x0) Hi Ha)
      as [Hi' Htot]; [done|done|done|lia|]. split.
    + eapply inv_ext; [exact Hi'|..]; intros; unfold shift1, hold_cash, hold_qty; rewrite Ht;
        repeat case_decide; naive_solver lia.
    + destruct (modify_account_rest (o_AccountId order) (fun a => set_AvailableBalance (g (acc_AvailableBalance a)) a) st)
        as (Hr1 & Hr2 & Hr3).
      split; [done|intros; by apply total_qty_holdings|done|by apply frame_modify_account].
  - destruct Hown as [h Hh]. destruct (Hk h eq_refl Hh) as [Hk1 Hk2].
    destruct (move_qty_inv _ _ _ _ _ _ (fun h => set_AvailableQuantity (k (sb_AvailableQuantity h)) h) (y - y0) Hi Hh)
      as [Hi' Htot]; [done|done|done|done|lia|]. split.
    + eapply inv_ext; [exact Hi'|..]; intros; unfold shift2, hold_cash, hold_qty; rewrite Ht;
        repeat case_decide; naive_solver lia.
    + destruct (modify_holding_rest (o_AccountId order) (o_StockId order)
        (fun h => set_AvailableQuantity (k (sb_AvailableQuantity h)) h) st) as (Hr1 & Hr2 & Hr3).
      split; [unfold total_cash; by rewrite Hr1|done|done|by apply frame_modify_holding].
Qed.
End funds.

(** ** Before and after the loop *)

(** What is left of a limit order rests in the book. *)
Definition remainder (order : Order) : list Order :=
  if decide (o_OrderType order = ORDER_LIMIT /\ 0 < unfilled order) then [order] else [].

Section around.
Context `{!Clock}.
Implicit Types (st : State) (order : Order) (la lp : abook) (l : locals).

Lemma frame_open_book sid st : ledger_frame [] sid st (open_book sid st).
Proof.
  unfold open_book, OrderBooks_Get. destruct (s_OrderBooks st !! sid); split; try done; simpl.
  intros t Ht. by rewrite lookup_insert_ne.
Qed.

Lemma available_le_balance hc hq st i a :
  ledger_inv hc hq st -> held_nonneg hc hq -> s_Accounts st !! i = Some a ->
  acc_AvailableBalance a + hc i <= acc_Balance a < two64.
Proof.
  intros Hi [Hc _] Ha. destruct (inv_cash _ _ _ Hi _ _ Ha) as (? & ? & ?). specialize (Hc i).
  pose proof (reserved_cash_nonneg st i (inv_wf _ _ _ Hi)). lia.
Qed.

Lemma funded_owner order st : is_trade order -> funded order st -> owner_ok st (o_StockId order) order.
Proof. unfold funded, owner_ok. intros [Ht|Ht]; rewrite Ht; intros (? & ? & _); eauto. Qed.

Lemma reserve_inv order st :
  ledger_ok st -> is_trade order -> open_order order -> 0 < o_Price order -> funded order st ->
  let st' := reserve order (unfilled order) st in
  ledger_inv (hold_cash order (o_Price order * unfilled order)) (hold_qty order (unfilled order)) st' /\
  taker_step order st st'.
Proof.
  intros Hi Ht Ho Hp Hfund. unfold open_order in Ho.
  change (reserve order (unfilled order) st) with
    (move_funds order (fun av => av ⊖ (o_Price order ⊗ unfilled order)) (fun av => av ⊖ unfilled order) st).
  assert (Hu : 0 < unfilled order) by (unfold unfilled; lia).
  assert (Hi0 : ledger_inv (hold_cash order 0) (hold_qty order 0) st).
  { eapply inv_ext; [done|..]; intros; unfold hold_cash, hold_qty; by case_decide. }
  apply (move_funds_inv order 0 0); [done|done|by apply funded_owner|..]; unfold funded in Hfund.
  - intros a Hb Ha. rewrite Hb in Hfund. destruct Hfund as (a' & Ha' & Hle). rewrite Ha in Ha'. injection Ha' as <-.
    destruct (available_le_balance _ _ _ _ _ Hi ltac:(done) Ha) as [H1 H2].
    rewrite mul64_exact by nia. rewrite sub64_exact by nia. lia.
  - intros h Hs Hh. rewrite Hs in Hfund. destruct Hfund as (h' & Hh' & Hle). rewrite Hh in Hh'. injection Hh' as <-.
    destruct (inv_qty _ _ _ Hi _ _ _ Hh) as (? & ? & ?). pose proof (reserved_qty_nonneg st (o_AccountId order)
      (o_StockId order) (inv_wf _ _ _ Hi)). rewrite sub64_exact by lia. lia.
Qed.

(** The loop starts in its invariant. *)
Lemma start_ok order c la :
  ledger_ok (state c) -> matchable order (state c) -> bounded (o_StockId order) (state c) ->
  rep (book (o_StockId order) (state c)) la ->
  let l := start_match order c in
  looping (o_Price order * unfilled order) la (by_priority (counter_side order) la) l /\
  ledger_frame [o_AccountId order] (o_StockId order) (state c) (state (l_core l)) /\
  total_cash (state (l_core l)) = total_cash (state c) /\
  forall t, total_qty t (state (l_core l)) = total_qty t (state c).
Proof.
  intros Hi [Ht Hty Ho Hp Hfund Hfr Hcap] [Hb1 Hb2] Hr l.
  assert (Ho' := Ho). unfold open_order in Ho'.
  set (st1 := open_book (o_StockId order) (state c)).
  assert (Hst : state (l_core l) = reserve order (unfilled order) st1).
  { unfold l, start_match. cbn [l_core state set_state]. by rewrite sub64_exact by lia. }
  pose proof (frame_open_book (o_StockId order) (state c)) as Hf1. fold st1 in Hf1.
  assert (Hacc : s_Accounts st1 = s_Accounts (state c) /\ s_StockBalances st1 = s_StockBalances (state c)) by done.
  destruct Hacc as [Hacc Hhold].
  destruct (reserve_inv order st1) as [Hinv [Htc Htq Hbk Hf]]; [by apply inv_open_book|done|done|lia| |].
  { unfold funded. by rewrite Hacc, Hhold. }
  rewrite <- Hst in *.
  assert (Hwf : wf_book (o_StockId order) (book (o_StockId order) (state c))) by (apply wf_book_at, Hi).
  assert (Hok : forall a o, (a, o) ∈ la -> resting_ok (o_StockId order) o).
  { intros a o Hin. eapply resting_wf; [exact Hwf|]. apply (resting_elem _ _ _ Hr). eauto. }
  assert (Hpu : o_TradingType order = TRADING_BUY -> o_Price order * unfilled order < two64).
  { intros Hb. unfold funded in Hfund. rewrite Hb in Hfund. destruct Hfund as (a & Ha & Hle).
    destruct (available_le_balance _ _ _ _ _ Hi ltac:(done) Ha). lia. }
  destruct (by_priority_ok (counter_side order) la) as [Hprio Hperm].
  split_and!.
  - split; change (l_order l) with order; [done|lia| |done|done|done|lia|lia| | | | |].
    + rewrite book_default, Hbk, <- book_default. unfold st1. by rewrite book_open.
    + intros Hb. split; [done|]. cbn. rewrite Z.add_0_l. auto.
    + eapply owner_ok_frame; [exact Hf|]. eapply owner_ok_frame; [exact Hf1|]. by apply funded_owner.
    + rewrite Htc. exact Hb1.
    + rewrite Htq. exact Hb2.
    + intros o Hb Hin Hrej. unfold price_rejected in Hrej. rewrite Hb in Hrej. destruct Hty as [Hl|Hm].
      * rewrite Hl in Hrej. rewrite Z.gtb_ltb, Z.ltb_ge in Hrej. done.
      * apply list_elem_of_fmap in Hin as ([a o'] & -> & Hin).
        clear Hrej. apply (prioritised_elem _ _ _ _ Hprio) in Hin as [Hin Hs]. simpl in *.
        assert (Hres : o' ∈ resting (book (o_StockId order) (state c))) by (apply (resting_elem _ _ _ Hr); eauto).
        apply Hcap; [done..|]. unfold counter_side in Hs. rewrite Hb in Hs. simpl in Hs.
        destruct (ro_side _ _ (Hok _ _ Hin)) as [Hx|Hx]; [by rewrite Hx in Hs|done].
  - eapply ledger_frame_trans; [exact Hf1|exact Hf|set_solver|set_solver].
  - exact Htc.
  - exact Htq.
Qed.

(** Releasing [x] of cash or [y] shares that the taker holds. *)
Lemma release_inv order x0 y0 x y st :
  is_trade order -> ledger_inv (hold_cash order x0) (hold_qty order y0) st ->
  owner_ok st (o_StockId order) order ->
  (o_TradingType order = TRADING_BUY -> 0 <= x <= x0) -> 0 <= y <= y0 ->
  let st' := move_funds order (fun av => av ⊕ x) (fun av => av ⊕ y) st in
  ledger_inv (hold_cash order (x0 - x)) (hold_qty order (y0 - y)) st' /\ taker_step order st st'.
Proof.
  intros Ht Hi Hown Hx Hy. apply (move_funds_inv order x0 y0); [done..| |].
  - intros a Hb Ha. specialize (Hx Hb).
    destruct (available_le_balance _ _ _ _ _ Hi (hold_nonneg order x0 y0 ltac:(lia) ltac:(lia)) Ha) as [H1 H2].
    unfold hold_cash in H1. rewrite decide_True in H1 by done. destruct (inv_cash _ _ _ Hi _ _ Ha) as (? & _ & _).
    rewrite add64_exact by lia. lia.
  - intros h Hs Hh. destruct (inv_qty _ _ _ Hi _ _ _ Hh) as (? & ? & Heq).
    pose proof (reserved_qty_nonneg st (o_AccountId order) (o_StockId order) (inv_wf _ _ _ Hi)).
    unfold hold_qty in Heq. rewrite decide_True in Heq by done. rewrite add64_exact by lia. lia.
Qed.

(** Adding the remainder of a limit order to the book uses up what is held for it. *)
Lemma add_inv order x la st :
  ledger_inv (hold_cash order x) (hold_qty order (unfilled order)) st -> resting_ok (o_StockId order) order ->
  owner_ok st (o_StockId order) order ->
  rep (book (o_StockId order) st) la -> (forall a o, (a, o) ∈ la -> resting_ok (o_StockId order) o) ->
  o_Id order ∉ ids la ->
  let b' := Add (book (o_StockId order) st) order in
  rep b' (la ++ [(length (elems (book (o_StockId order) st)), order)]) /\
  ledger_inv (hold_cash order (x - o_Price order * unfilled order)) (hold_qty order 0)
    (set_book (o_StockId order) b' st).
Proof.
  intros Hi Hok Hown Hr Hall Hfresh b'. set (a := length _).
  assert (Hr' : rep b' (la ++ [(a, order)])) by (by apply rep_Add). split; [done|].
  assert (Hin : forall o, o ∈ resting b' -> o = order \/ exists a, (a, o) ∈ la).
  { intros o (a' & [?|[= -> ->]%list_elem_of_singleton]%elem_of_app)%(resting_elem _ _ _ Hr'); eauto. }
  apply (inv_set_book (hold_cash order x) _ (hold_qty order (unfilled order))); [done| | | |].
  - exists (la ++ [(a, order)]). split; [done|].
    intros a' o [?|[= -> ->]%list_elem_of_singleton]%elem_of_app; eauto.
  - intros o [->|(a' & Ha')]%Hin; [done|]. eapply inv_owner_at; [done|]. apply (resting_elem _ _ _ Hr). eauto.
  - intros i. rewrite (resting_perm _ _ Hr), (resting_perm _ _ Hr'), fmap_app, lsum_app.
    unfold hold_cash, cash_of. simpl. case_decide; lia.
  - intros i t. destruct (decide (t = o_StockId order)) as [->|Hne].
    + rewrite (resting_perm _ _ Hr), (resting_perm _ _ Hr'), fmap_app, lsum_app.
      unfold hold_qty, qty_of. simpl. repeat case_decide; naive_solver lia.
    + unfold hold_qty. rewrite !decide_False by naive_solver. lia.
Qed.

(** What the end of [matchEvents] changes besides the ledger. *)
Record placed l l' : Prop := {
  pl_order : l_order l' = l_order l;
  pl_cash : l_filledCash l' = l_filledCash l;
  pl_price : l_lastTradePrice l' = l_lastTradePrice l;
  pl_events : l_events l' = l_events l;
  pl_accounts : l_accountIDs l' = l_accountIDs l;
  pl_levels : l_levels l' =
    foldl (flip track) (l_levels l) ((fun o => (o_TradingType o, o_Price o)) <$> remainder (l_order l));
  pl_core : l_core l' = set_state (l_core l) (state (l_core l'));
  pl_total_cash : total_cash (state (l_core l')) = total_cash (state (l_core l));
  pl_total_qty t : total_qty t (state (l_core l')) = total_qty t (state (l_core l));
  pl_frame : ledger_frame [o_AccountId (l_order l)] (o_StockId (l_order l)) (state (l_core l)) (state (l_core l'))
}.

Lemma set_state_id c : set_state c (state c) = c.
Proof. by destruct c. Qed.

Lemma place_ok x la lp l :
  let order := l_order l in
  looping x la lp l -> o_OrderType order = ORDER_LIMIT \/ o_OrderType order = ORDER_MARKET ->
  o_Price order < two64 -> o_Id order ∉ ids la ->
  let l' := place_remainder l in
  placed l l' /\
  ledger_inv (hold_cash order (x - o_Price order * unfilled order)) (hold_qty order 0) (state (l_core l')) /\
  exists la', rep (book (o_StockId order) (state (l_core l'))) la' /\ la'.*2 = la.*2 ++ remainder order.
Proof.
  intros order Hl Hty Hp Hfresh l'. unfold l', place_remainder. fold order.
  pose proof (lo_range _ _ _ _ Hl) as Hrg. fold order in Hrg.
  pose proof (lo_inv _ _ _ _ Hl) as Hi. fold order in Hi. pose proof (lo_limit _ _ _ _ Hl) as Hlim. fold order in Hlim.
  destruct (Z.ltb_spec (o_FilledQuantity order) (o_Quantity order)) as [Hlt|Hge].
  2: { assert (Hu : unfilled order = 0) by (unfold unfilled; lia). rewrite Hu, Z.mul_0_r, Z.sub_0_r.
       assert (Hrem : remainder order = []) by (unfold remainder; rewrite decide_False by lia; done).
       rewrite Hrem, app_nil_r. rewrite Hu in Hi. split_and!; [|done|by exists la; split; [apply Hl|]].
       split; try done; fold order; rewrite ?Hrem; try done; by destruct (l_core l). }
  assert (Hu : 0 < unfilled order) by (unfold unfilled; lia).
  destruct Hty as [Hty|Hty]; rewrite Hty; unfold remainder.
  - rewrite decide_True by done.
    assert (Hrok : resting_ok (o_StockId order) order).
    { split; try done; [unfold open_order; lia|apply Hl]. }
    destruct (add_inv order x la (state (l_core l)) Hi Hrok (lo_owner _ _ _ _ Hl) (lo_rep _ _ _ _ Hl)
      (lo_ok _ _ _ _ Hl) Hfresh) as [Hr' Hi'].
    cbn [l_core state set_state]. split_and!; [|done|].
    + split; try done; cbn [l_order l_levels l_core state set_state]; fold order.
      * unfold remainder. by rewrite decide_True.
      * eapply ledger_frame_trans; [apply frame_set_book|apply (ledger_frame_refl [])|set_solver|set_solver].
    + eexists. rewrite book_set_book. split; [exact Hr'|]. by rewrite fmap_app.
  - rewrite decide_False by (rewrite Hty; naive_solver). cbn [l_core state set_state].
    assert (Hpu : o_TradingType order = TRADING_BUY -> 0 <= o_Price order * unfilled order <= x).
    { intros Hb. pose proof (lo_cover _ _ _ _ Hl Hb). fold order in H0. nia. }
    assert (Hexact : o_TradingType order = TRADING_BUY -> o_Price order ⊗ unfilled order = o_Price order * unfilled order).
    { intros Hb. destruct (lo_filled _ _ _ _ Hl Hb). apply mul64_exact. specialize (Hpu Hb). lia. }
    destruct (release_inv order x (unfilled order) (o_Price order * unfilled order) (unfilled order)
      (state (l_core l)) (lo_trade _ _ _ _ Hl) Hi (lo_owner _ _ _ _ Hl) Hpu ltac:(lia)) as [Hi' [Hc Hq Hb Hf]].
    rewrite Z.sub_diag in Hi'. rewrite sub64_exact by lia. fold (unfilled order).
    match goal with |- placed l (mkLocals (set_state _ ?s) _ _ _ _ _ _) /\ _ =>
      assert (Hs : s = move_funds order (fun av => av ⊕ (o_Price order * unfilled order)) (fun av => av ⊕ unfilled order)
        (state (l_core l))) end.
    { unfold move_funds. destruct (lo_trade _ _ _ _ Hl) as [Ht|Ht]; fold order in Ht; rewrite Ht; [|done].
      by rewrite Hexact. }
    rewrite Hs. cbn [l_core state set_state]. split_and!; [|done|].
    + split; try done. cbn. fold order. unfold remainder. rewrite decide_False by (rewrite Hty; naive_solver). done.
    + exists la. rewrite app_nil_r, book_default, Hb, <- book_default. split; [apply Hl|done].
Qed.

(** The refund gives back exactly what is still held. *)
Lemma refund_ok order F0 r l st :
  l_order l = order -> is_trade order -> ledger_inv (hold_cash order r) (hold_qty order 0) st ->
  owner_ok st (o_StockId order) order ->
  (o_TradingType order = TRADING_BUY ->
     0 <= r /\ r = o_Price order * (o_FilledQuantity order - F0) - l_filledCash l /\ 0 <= l_filledCash l /\
     o_Price order * (o_FilledQuantity order - F0) < two64 /\ 0 <= F0 <= o_FilledQuantity order /\
     o_FilledQuantity order < two64) ->
  let st' := refund_buyer F0 l st in ledger_ok st' /\ taker_step order st st'.
Proof.
  intros Hlo Ht Hi Hown Hr. unfold refund_buyer. rewrite Hlo.
  assert (Hzero : forall st, ledger_inv (hold_cash order 0) (hold_qty order 0) st -> ledger_ok st).
  { intros st' Hi'. eapply inv_ext; [exact Hi'|..]; intros; unfold hold_cash, hold_qty; by case_decide. }
  destruct Ht as [Ht|Ht]; rewrite Ht.
  2: { split; [|apply taker_step_refl]. apply Hzero. eapply inv_ext; [exact Hi|..]; [|done].
       intros i. unfold hold_cash. rewrite !decide_False; [done| |]; rewrite Ht; naive_solver. }
  destruct (Hr Ht) as (Hr0 & Hreq & Hfc & Hlt & HF & HF2).
  rewrite (sub64_exact (o_FilledQuantity order)) by lia.
  rewrite mul64_exact by lia. rewrite sub64_exact by lia.
  rewrite <- Hreq, Z.gtb_ltb. destruct (Z.ltb_spec 0 r) as [Hpos|Hnpos].
  - destruct (release_inv order r 0 r 0 st (or_introl Ht) Hi Hown ltac:(lia) ltac:(lia)) as [Hi' Hts].
    rewrite Z.sub_diag in Hi'. unfold move_funds in *. rewrite Ht in *. split; [by apply Hzero|done].
  - assert (r = 0) as -> by lia. split; [by apply Hzero|apply taker_step_refl].
Qed.

(** The stock takes the price of the last trade. *)
Definition with_price (sid price : Z) (st : State) : State :=
  if Z.gtb price 0 then
    match s_Stocks st !! sid with
    | Some stock => upsert_stock (set_Price price stock) st
    | None => st
    end
  else st.

Lemma update_stock_ok l st :
  let sid := o_StockId (l_order l) in let '(st', updated) := update_stock_price l st in
  st' = with_price sid (l_lastTradePrice l) st /\
  updated = if Z.gtb (l_lastTradePrice l) 0 then set_Price (l_lastTradePrice l) <$> s_Stocks st !! sid else None.
Proof.
  unfold update_stock_price, with_price, Stocks_Get. destruct (Z.gtb _ 0); [|done].
  by destruct (s_Stocks st !! _).
Qed.

Lemma with_price_inv hc hq sid p st : ledger_inv hc hq st -> ledger_inv hc hq (with_price sid p st).
Proof.
  intros Hi. unfold with_price. destruct (Z.gtb p 0); [|done].
  destruct (s_Stocks st !! sid) as [s|] eqn:Hs; [|done]. apply inv_upsert_stock; [done|].
  by apply (wf_stock_status _ (inv_wf _ _ _ Hi) _ _ Hs).
Qed.

Lemma with_price_rest sid p st :
  s_Accounts (with_price sid p st) = s_Accounts st /\
  s_StockBalances (with_price sid p st) = s_StockBalances st /\
  s_OrderBooks (with_price sid p st) = s_OrderBooks st.
Proof. unfold with_price. repeat case_match; done. Qed.

(** The taker's own event. *)
Definition taker_data (order : Order) (t : Time) : OrderEvent :=
  if String.eqb (orderStatusPattern order) PatternOrderFilled
  then set_oe_FullyFilledAt t (orderEvent order) else orderEvent order.

Lemma taker_event_ok order c :
  exists t c', taker_event order c = (c', mkOutEvent (orderStatusPattern order) (EvOrder (taker_data order t))) /\
    state c' = state c /\ inputSeq c' = inputSeq c /\ outputAppliedSeq c' = outputAppliedSeq c /\
    lastTradeID c' = lastTradeID c.
Proof.
  unfold taker_event, taker_data, time_now. destruct (String.eqb _ _); by exists (clock_at (ticks c)); eexists.
Qed.
End around.

(** ** The whole of [matchEvents] *)

(** The trades of the reference, and the taker after them. *)
Definition fills (order : Order) (l : list Order) : list fill :=
  greedy order (unfilled order) (priority (counter_side order) l).
Definition taken (order : Order) (l : list Order) : Order :=
  set_FilledQuantity (o_FilledQuantity order + fills_qty (fills order l)) order.
Definition last_price (fs : list fill) : Z := default 0 (last ((fun f => o_Price (fst f)) <$> fs)).

(** The accounts and price levels that the events report on. *)
Definition reported_accounts (order : Order) (l : list Order) : list Z :=
  foldl (flip track) [o_AccountId order] (accounts_of (fills order l)).
Definition reported_levels (order : Order) (l : list Order) : list (TradingType * Z) :=
  foldl (flip track) []
    (levels_of (fills order l) ++ ((fun o => (o_TradingType o, o_Price o)) <$> remainder (taken order l))).

#[export] Instance order_at_dec s p o : Decision (order_at s p o) := _.

Section matched.
Context `{!Clock}.
Implicit Types (order : Order) (l : list Order) (c : Core) (la lp : abook).

Record matched order l c c' (evs : list outEvent) : Prop := {
  mr_inv : ledger_ok (state c');
  mr_total_cash : total_cash (state c') = total_cash (state c);
  mr_total_qty t : total_qty t (state c') = total_qty t (state c);
  mr_book : exists la', rep (book (o_StockId order) (state c')) la' /\
    la'.*2 = apply_fills (fills order l) l ++ remainder (taken order l);
  mr_stopped : unfilled (taken order l) = 0 \/
    forall o, o ∈ apply_fills (fills order l) l -> is_sell (o_TradingType o) = counter_side order ->
      price_rejected order (o_Price o) = true;
  mr_levels s p : Forall (fun f => ~ order_at s p (fst f)) (fills order l) ->
    filter (order_at s p) (apply_fills (fills order l) l) = filter (order_at s p) l;
  mr_range : o_FilledQuantity order <= o_FilledQuantity (taken order l) <= o_Quantity order;
  mr_frame : exists st, ledger_frame (o_AccountId order :: accounts_of (fills order l)) (o_StockId order) (state c) st /\
    state c' = with_price (o_StockId order) (last_price (fills order l)) st;
  mr_events : exists evss t,
    Forall3 (executed order) (fills order l) (trade_ids c (length (fills order l))) evss /\
    evs = concat evss
      ++ [mkOutEvent (orderStatusPattern (taken order l)) (EvOrder (taker_data (taken order l) t))]
      ++ book_events (o_StockId order) (reported_levels order l) (state c')
      ++ account_events (o_StockId order) (state c') (reported_accounts order l)
      ++ stock_events (if Z.gtb (last_price (fills order l)) 0
                       then s_Stocks (state c') !! o_StockId order else None);
  mr_inputSeq : inputSeq c' = inputSeq c;
  mr_applied : outputAppliedSeq c' = outputAppliedSeq c;
  mr_lastID : lastTradeID c' =
    lastTradeID c + (if live c then Z.of_nat (length (fills order l)) else 0)
}.

Lemma filter_level la s p : filter (order_at s p) la.*2 = (level la s p).*2.
Proof. by apply filter_fmap_comm. Qed.

(** No order on the opposite side may trade once the head of its priority list may not. *)
Lemma stopped_all order la lp :
  is_trade order -> prioritised (counter_side order) la lp -> stopped order lp.*2 ->
  unfilled order = 0 \/
  forall a o, (a, o) ∈ la -> is_sell (o_TradingType o) = counter_side order -> price_rejected order (o_Price o) = true.
Proof.
  intros Ht Hp [?|Hst]; [by left|right]. intros a o Hin Hs.
  assert (Hlp : (a, o) ∈ lp) by (by apply (prioritised_elem _ _ _ _ Hp)).
  destruct lp as [|x lp]; [set_solver|]. simpl in Hst.
  apply elem_of_cons in Hlp as [<-|Hlp]; [done|].
  pose proof (prio_sorted _ _ _ Hp) as Hsort. inversion Hsort as [|?? _ Hall]; subst.
  rewrite Forall_forall in Hall. specialize (Hall _ Hlp). unfold price_of, better, counter_side in Hall.
  unfold price_rejected in *. destruct (o_OrderType order); [|done..].
  destruct Ht as [Ht|Ht]; rewrite Ht in *; simpl in *.
  - rewrite Z.gtb_ltb, Z.ltb_lt in *. lia.
  - rewrite Z.ltb_lt in *. lia.
Qed.

Lemma apply_fills_ids fs l i : i ∈ o_Id <$> apply_fills fs l -> i ∈ o_Id <$> l.
Proof.
  revert l. induction fs as [|[o q] fs IH]; intros l; [done|]. cbn [apply_fills foldl].
  intros Hin%IH. revert Hin. cbn [spec_op fst snd]. destruct (spec_find (o_Id o) l) as [o1|] eqn:Hf; [|done].
  cbv zeta. repeat case_match; cbn [fst]; try done.
  - intros (x & -> & [_ Hx]%list_elem_of_filter)%list_elem_of_fmap. apply list_elem_of_fmap. eauto.
  - rewrite <- list_fmap_compose. intros (x & -> & Hx)%list_elem_of_fmap. cbn. case_decide as Hd.
    + cbn. apply head_Some in Hf as [k Hk].
      assert (Ho1 : o1 ∈ filter (fun x => o_Id x = o_Id o) l) by (rewrite Hk; left).
      apply list_elem_of_filter in Ho1 as [_ Ho1]. apply list_elem_of_fmap. eauto.
    + apply list_elem_of_fmap. eauto.
Qed.

(** The index has one entry per resting order. *)
Lemma rep_index_size b la : rep b la -> (length la <= size (index b))%nat.
Proof.
  intros Hr. rewrite <- (length_fmap (fun x : entry => o_Id (snd x)) la). fold (ids la).
  rewrite <- (size_list_to_set (C := gset Z)) by apply Hr. rewrite <- (size_dom (D := gset Z)).
  apply subseteq_size. intros i Hi%elem_of_list_to_set. apply elem_of_ids in Hi as (a & o & Hin & <-).
  apply elem_of_dom. exists (ref_of a o). apply (rep_index _ _ Hr). eauto.
Qed.

Lemma ids_left_le c c' n m :
  ids_left c n -> (m <= n)%nat -> live c' = live c -> lastTradeID c' = lastTradeID c -> ids_left c' m.
Proof. unfold ids_left. intros Hn Hm -> -> Hv. specialize (Hn Hv). lia. Qed.

(** The end of [matchEvents], after a loop that has made the trades [fs]. *)
Lemma finish_ok order x la lp fs (l0 l : locals) :
  let F0 := o_FilledQuantity order in
  looping x la lp l -> looped fs l0 l -> l_order l0 = order -> l_filledCash l0 = 0 ->
  o_OrderType order = ORDER_LIMIT \/ o_OrderType order = ORDER_MARKET -> 0 < o_Price order < two64 ->
  open_order order -> o_Id order ∉ ids la -> 0 <= fills_qty fs ->
  x = o_Price order * unfilled order - fills_cash fs ->
  (o_TradingType order = TRADING_BUY -> o_Price order * unfilled order < two64) ->
  exists st t c',
    finish_match F0 l = (c', l_events l
      ++ [mkOutEvent (orderStatusPattern (l_order l)) (EvOrder (taker_data (l_order l) t))]
      ++ book_events (o_StockId order) (foldl (flip track) (l_levels l)
           ((fun o => (o_TradingType o, o_Price o)) <$> remainder (l_order l))) (state c')
      ++ account_events (o_StockId order) (state c') (l_accountIDs l)
      ++ stock_events (if Z.gtb (l_lastTradePrice l) 0 then s_Stocks (state c') !! o_StockId order else None)) /\
    state c' = with_price (o_StockId order) (l_lastTradePrice l) st /\ ledger_ok st /\
    total_cash st = total_cash (state (l_core l)) /\ (forall t, total_qty t st = total_qty t (state (l_core l))) /\
    ledger_frame [o_AccountId order] (o_StockId order) (state (l_core l)) st /\
    (exists la', rep (book (o_StockId order) st) la' /\ la'.*2 = la.*2 ++ remainder (l_order l)) /\
    inputSeq c' = inputSeq (l_core l) /\ outputAppliedSeq c' = outputAppliedSeq (l_core l) /\
    lastTradeID c' = lastTradeID (l_core l).
Proof.
  intros F0 Hl Hd Hl0 Hc0 Hty Hp Hopen Hfresh Hfq Hx Hpu.
  pose proof (ld_order _ _ _ Hd) as Ho. rewrite Hl0 in Ho. unfold open_order in Hopen.
  assert (Hrest : o_Price (l_order l) = o_Price order /\ o_OrderType (l_order l) = o_OrderType order /\
    o_AccountId (l_order l) = o_AccountId order /\ o_StockId (l_order l) = o_StockId order /\
    o_TradingType (l_order l) = o_TradingType order /\ o_Id (l_order l) = o_Id order /\
    o_Quantity (l_order l) = o_Quantity order /\ o_FilledQuantity (l_order l) = F0 + fills_qty fs)
    by (rewrite Ho; done).
  destruct Hrest as (R1 & R2 & R3 & R4 & R5 & R6 & R7 & R8).
  destruct (place_ok x la lp l Hl) as (Hpl & Hi & la' & Hr' & Hla'); [by rewrite R2|lia|by rewrite R6|].
  unfold finish_match. cbv zeta. set (l2 := place_remainder l) in *.
  destruct Hpl as [P1 P2 P3 P4 P5 P6 P7 P8 P9 P10]. rewrite P1, P4, P5, P6. rewrite R4, R3 in *.
  destruct (refund_ok (l_order l) F0 (x - o_Price (l_order l) * unfilled (l_order l)) l2 (state (l_core l2)))
    as [Hok [T1 T2 T3 T4]]; [done|apply Hl|done| | |].
  { eapply owner_ok_frame; [exact P10|]. rewrite R4. rewrite <- R4 at 1. apply Hl. }
  { intros Hb. rewrite R5 in Hb. destruct (lo_filled _ _ _ _ Hl ltac:(by rewrite R5)) as [Hf1 Hf2].
    pose proof (lo_cover _ _ _ _ Hl ltac:(by rewrite R5)) as Hcov. pose proof (lo_range _ _ _ _ Hl) as Hrg.
    pose proof (ld_cash _ _ _ Hd ltac:(by rewrite Hl0)) as Hfc. rewrite Hc0 in Hfc. specialize (Hpu Hb).
    rewrite P2, R8, R1. rewrite R1 in Hcov. unfold unfilled in *. rewrite R7, R8 in *. fold F0 in Hpu, Hx. nia. }
  pose proof (update_stock_ok l2 (refund_buyer F0 l2 (state (l_core l2)))) as Hus. cbv zeta in Hus.
  destruct (update_stock_price l2 _) as [st' upd]. destruct Hus as [-> ->]. rewrite P1, P3, R4.
  set (st := refund_buyer F0 l2 (state (l_core l2))) in *.
  destruct (taker_event_ok (l_order l) (set_state (l_core l2) (with_price (o_StockId order) (l_lastTradePrice l) st)))
    as (t & c' & -> & E1 & E2 & E3 & E4). cbn [state set_state] in E1. cbn in E2, E3, E4.
  exists st, t, c'. split_and!.
  - do 4 f_equal. f_equal. f_equal. rewrite E1. unfold with_price. destruct (Z.gtb _ 0); [|done].
    destruct (s_Stocks st !! o_StockId order) as [s|] eqn:Hs; simpl; [|by rewrite Hs].
    unfold Stocks_Upsert. cbn. rewrite (wf_stock_key _ (inv_wf _ _ _ Hok) _ _ Hs), lookup_insert_eq. done.
  - done.
  - done.
  - by rewrite T1.
  - intros u. by rewrite T2.
  - rewrite R3, R4 in T4. eapply ledger_frame_trans; [exact P10|exact T4|done|done].
  - exists la'. rewrite book_default, T3, <- book_default. done.
  - rewrite E2, P7. done.
  - rewrite E3, P7. done.
  - rewrite E4, P7. done.
Qed.

Lemma greedy_qty order w os :
  Forall open_order os -> 0 <= w -> 0 <= fills_qty (greedy order w os) <= w.
Proof.
  unfold fills_qty. revert w. induction os as [|o os IH]; intros w Hos Hw; [simpl; lia|].
  inversion_clear Hos as [|?? Ho Hos']. cbn [greedy].
  destruct (Z.eqb w 0 || price_rejected order (o_Price o)); [simpl; lia|]. cbv zeta. rewrite lsum_cons. cbn [snd].
  assert (0 <= Z.min w (unfilled o) <= w) by (unfold open_order, unfilled in *; lia).
  specialize (IH (w - Z.min w (unfilled o)) Hos' ltac:(lia)). lia.
Qed.

Lemma with_price_totals sid p st :
  total_cash (with_price sid p st) = total_cash st /\ forall t, total_qty t (with_price sid p st) = total_qty t st.
Proof. unfold total_cash, total_qty. by destruct (with_price_rest sid p st) as (-> & -> & _). Qed.

(** The loop fills at most what the taker wants. *)
Lemma fills_bound x order la (l0 : locals) :
  looping x la (by_priority (counter_side order) la) l0 -> open_order order ->
  0 <= fills_qty (fills order la.*2) <= unfilled order.
Proof.
  intros Hl0 Ho. apply greedy_qty; [|unfold open_order, unfilled in *; lia].
  rewrite <- by_priority_orders. apply Forall_forall. intros o ([a o'] & -> & Hin)%list_elem_of_fmap.
  apply (prioritised_elem _ _ _ _ (lo_prio _ _ _ _ Hl0)) in Hin as [Hin _].
  by apply (ro_open _ _ (lo_ok _ _ _ _ Hl0 _ _ Hin)).
Qed.

(** A fresh id stays fresh while the makers are filled. *)
Lemma fresh_after order st la la' fs :
  rep (book (o_StockId order) st) la -> (forall o, o ∈ resting (book (o_StockId order) st) -> o_Id o <> o_Id order) ->
  la'.*2 = apply_fills fs la.*2 -> o_Id order ∉ ids la'.
Proof.
  intros Hr Hfr Hla Hin. rewrite ids_orders, Hla in Hin. apply apply_fills_ids in Hin. rewrite <- ids_orders in Hin.
  apply elem_of_ids in Hin as (a & o & Hin & Hid). apply (Hfr o); [|done]. apply (resting_elem _ _ _ Hr). eauto.
Qed.

(** [matchEvents] on a validated order: no panic, no error, no lack of fuel. *)
Lemma matchEvents_ok order c la :
  ledger_ok (state c) -> matchable order (state c) -> bounded (o_StockId order) (state c) ->
  rep (book (o_StockId order) (state c)) la -> ids_left c (length la) ->
  exists c' evs, matchEvents order c = Done (c', inl evs) /\ matched order la.*2 c c' evs.
Proof.
  intros Hi Hm Hb Hr Hids. pose proof (start_ok order c la Hi Hm Hb Hr) as Hstart. cbv zeta in Hstart.
  unfold matchEvents. cbv zeta. set (l0 := start_match order c) in *.
  destruct Hstart as (Hl0 & Hf0 & Htc0 & Htq0).
  set (lp := by_priority (counter_side order) la) in *.
  assert (Hlen : (length lp <= length la)%nat).
  { unfold lp. rewrite (Permutation_length (proj2 (by_priority_ok (counter_side order) la))). apply length_filter. }
  assert (Hidx : (length la <= size (index (book (o_StockId order) (state (l_core l0)))))%nat)
    by (apply rep_index_size, Hl0).
  destruct (match_loop_ok (match_fuel l0) _ la lp l0 Hl0) as (l & la1 & lp1 & He & Hd & Hl & Hla1 & Hst & Hkept).
  { unfold match_fuel. change (l_order l0) with order. lia. }
  { by apply (ids_left_le c _ (length la)). }
  change (l_order l0) with order in *. unfold lp in Hla1, Hst, Hl, Hd, Hkept. rewrite by_priority_orders in *.
  fold (fills order la.*2) in *. set (fs := fills order la.*2) in *.
  pose proof (fills_bound _ order la l0 Hl0 (mt_open _ _ Hm)) as Hfq. fold fs in Hfq.
  assert (Hord : l_order l = taken order la.*2) by exact (ld_order _ _ _ Hd).
  rewrite He. cbn [obind]. cbv beta iota.
  destruct (finish_ok order _ la1 lp1 fs l0 l Hl Hd) as
    (st & t & c' & Hfin & Hst' & Hok & Htc & Htq & Hf & (la2 & Hr2 & Hla2) & Hin & Hout & Hlast);
    [done|done|apply Hm|apply Hm|apply Hm| |lia|done| |].
  { by apply (fresh_after order (state c) la la1 fs Hr (mt_fresh _ _ Hm)). }
  { intros Hbuy. pose proof (lo_filled _ _ _ _ Hl0 Hbuy) as Hlf. change (l_filledCash l0) with 0 in Hlf. lia. }
  rewrite Hfin. do 2 eexists. split; [done|].
  assert (Hprice : l_lastTradePrice l = last_price fs) by (rewrite (ld_price _ _ _ Hd); done).
  rewrite Hprice in *. destruct (with_price_rest (o_StockId order) (last_price fs) st) as (W1 & W2 & W3).
  destruct (with_price_totals (o_StockId order) (last_price fs) st) as [W4 W5].
  split.
  - rewrite Hst'. by apply with_price_inv.
  - rewrite Hst', W4, Htc, (ld_total_cash _ _ _ Hd). done.
  - intros u. rewrite Hst', W5, Htq, (ld_total_qty _ _ _ Hd). done.
  - exists la2. rewrite Hst', book_default, W3, <- book_default. split; [done|]. by rewrite Hla2, Hla1, Hord.
  - rewrite <- Hord. destruct (stopped_all (l_order l) la1 lp1 (lo_trade _ _ _ _ Hl) (lo_prio _ _ _ _ Hl) Hst) as [?|Hall];
      [by left|right]. rewrite Hord in Hall. fold fs. rewrite <- Hla1.
    intros o ([a o'] & -> & Hin')%list_elem_of_fmap Hs. exact (Hall a o' Hin' Hs).
  - intros s p Hlev. fold fs. rewrite <- Hla1, !filter_level. by rewrite (Hkept s p Hlev).
  - unfold taken. fold fs. cbn. unfold unfilled in Hfq. lia.
  - exists st. split; [|done]. eapply ledger_frame_trans; [exact Hf0| |set_solver|reflexivity].
    eapply ledger_frame_trans; [exact (ld_frame _ _ _ Hd)|exact Hf|reflexivity|set_solver].
  - destruct (ld_events _ _ _ Hd) as (evss & Hev & Hevs). exists evss, t. split; [exact Hev|].
    rewrite Hevs, (ld_levels _ _ _ Hd), (ld_accounts _ _ _ Hd), Hord. unfold reported_levels, reported_accounts.
    rewrite foldl_app. done.
  - by rewrite Hin, (ld_inputSeq _ _ _ Hd).
  - by rewrite Hout, (ld_applied _ _ _ Hd).
  - by rewrite Hlast, (ld_lastID _ _ _ Hd).
Qed.
End matched.
