(* ===== verification/Limits.v ===== *)
(** * Termination of matching, and what the reference trades guarantee

    The matching loop stops for every order and every well-formed book, whatever
    the balances are: each iteration that continues takes a resting order out of
    the index or fills the taker. The reference trades respect the limit of the
    taker, fill every maker but the last completely, and use the makers in
    priority order. *)

From S2P Require Import Prelude Domain Slices OrderBook BookSpec Ledger Snapshot Events Matching Invariant Settlement MatchStep MatchLoop MatchSpec.

Section termination.
Context `{!Clock}.
Implicit Types (l : locals) (la lp : abook) (order : Order) (st : State).

Lemma settle_books buyer seller sid q cash st st' :
  settle buyer seller sid q cash st = Done st' -> s_OrderBooks st' = s_OrderBooks st.
Proof.
  unfold settle. cbv zeta. destruct (buyer_holding _ _ _) as [h|]; [|done]. cbn [obind]. intros [= <-].
  destruct (modify_holding_rest seller sid (seller_holding q)
    (modify_account seller (fun a => mkAccount (acc_Id a) (acc_Balance a ⊕ cash) (acc_AvailableBalance a ⊕ cash))
       (upsert_holding h (modify_account buyer (fun a => set_Balance (acc_Balance a ⊖ cash) a) st)))) as (_ & _ & ->).
  destruct (modify_account_rest seller
    (fun a => mkAccount (acc_Id a) (acc_Balance a ⊕ cash) (acc_AvailableBalance a ⊕ cash))
    (upsert_holding h (modify_account buyer (fun a => set_Balance (acc_Balance a ⊖ cash) a) st))) as (_ & _ & ->).
  simpl. by destruct (modify_account_rest buyer (fun a => set_Balance (acc_Balance a ⊖ cash) a) st) as (_ & _ & ->).
Qed.

(** What an iteration that continues leaves behind. *)
Lemma after_fill_continue l side p o c q l' :
  after_fill l side p o c q = Done (Continue l') ->
  l_order l' = set_FilledQuantity (o_FilledQuantity (l_order l) ⊕ q) (l_order l) /\
  s_OrderBooks (state (l_core l')) = s_OrderBooks (state c).
Proof.
  unfold after_fill. cbv zeta. destruct (if is_sell _ then _ else _) as [buyer seller].
  destruct (settle _ _ _ _ _ _) as [s|] eqn:Hs; [|done]. cbn [obind]. apply settle_books in Hs.
  unfold takeTradeID, nextTradeID, trade_event, maker_event, time_now.
  repeat case_match; intros; simplify_eq/=; done.
Qed.

Lemma after_fill_error l side p o c q l' e :
  after_fill l side p o c q = Done (Fail l' e) -> e = TradeIDExhausted.
Proof.
  unfold after_fill. cbv zeta. destruct (if is_sell _ then _ else _) as [buyer seller].
  destruct (settle _ _ _ _ _ _) as [s|]; [|done]. cbn [obind].
  unfold takeTradeID, nextTradeID, trade_event, maker_event, time_now.
  repeat case_match; intros; simplify_eq/=; done.
Qed.

Lemma match_step_error l l' e : match_step l = Done (Fail l' e) -> e = TradeIDExhausted.
Proof.
  unfold match_step. cbv zeta. destruct (best_counter _ _) as [[best|] side]; [|done].
  destruct (price_rejected _ _); [done|]. destruct (Front _ _ _) as [o|]; [|done].
  destruct (Fill _ _ _) as [[ob filled]|]; [|done]. cbn [obind]. destruct (Z.eqb filled 0); [done|].
  apply after_fill_error.
Qed.

Lemma match_step_other l : ~ is_trade (l_order l) -> match_step l = Done (Break l).
Proof.
  intros Ht. unfold match_step, best_counter, is_trade in *. cbv zeta.
  destruct (o_TradingType (l_order l)); naive_solver.
Qed.

Lemma after_fill_panic l side p o c q e : after_fill l side p o c q = Panicked e -> e = DivideByZero.
Proof.
  unfold after_fill, settle, buyer_holding. cbv zeta. destruct (if is_sell _ then _ else _) as [buyer seller].
  destruct (Z.eqb _ 0); cbn [obind]; [by intros [= <-]|].
  unfold trade_event, maker_event, time_now. repeat case_match; intros; simplify_eq/=; done.
Qed.

(** The loop returns, or stops for want of trade ids, or divides by a quantity
    that has wrapped around to zero; it never runs out of fuel. *)
Definition ends (m : outcome (locals * option engine_error)) : Prop :=
  match m with
  | Done (_, None) => True
  | Done (_, Some e) => e = TradeIDExhausted
  | Panicked p => p = DivideByZero
  end.

Lemma match_loop_fuel fuel la lp l :
  open_order (l_order l) \/ unfilled (l_order l) = 0 ->
  rep (book (o_StockId (l_order l)) (state (l_core l))) la ->
  (forall a o, (a, o) ∈ la -> open_order o) -> prioritised (counter_side (l_order l)) la lp ->
  (length lp < fuel)%nat -> ends (match_loop fuel l).
Proof.
  revert fuel la l. induction lp as [|[a o] lp IH]; intros fuel la l Hord Hr Hopen Hp Hfuel.
  all: destruct (decide (unfilled (l_order l) = 0)) as [Hu|Hu]; [by rewrite match_loop_done|].
  all: destruct Hord as [Hord|?]; [|done].
  all: destruct fuel as [|fuel]; [simpl in Hfuel; lia|].
  all: assert (Hu0 : 0 < unfilled (l_order l)) by (unfold open_order, unfilled in *; lia).
  all: destruct (decide (is_trade (l_order l))) as [Ht|Ht];
    [|rewrite (match_loop_step _ _ _ Hu0 (match_step_other _ Ht)); done].
  all: pose proof (match_step_shape l la _ Ht Hord Hr Hopen Hp) as Hs; cbv beta iota zeta in Hs.
  - by rewrite (match_loop_step _ _ _ Hu0 Hs).
  - destruct (price_rejected (l_order l) (o_Price o)); [by rewrite (match_loop_step _ _ _ Hu0 Hs)|].
    destruct Hs as (b' & Hr' & Hs). set (q := trade_qty (l_order l) o) in *.
    destruct (match_step l) as [[l1|l1|l1 e]|] eqn:Hstep.
    + by rewrite (match_loop_step _ _ _ Hu0 Hstep).
    + rewrite (match_loop_step _ _ _ Hu0 Hstep). symmetry in Hs.
      destruct (after_fill_continue _ _ _ _ _ _ _ Hs) as [Ho1 Hb1].
      assert (Hin : (a, o) ∈ la) by (apply (prioritised_elem _ _ _ _ Hp); left).
      pose proof (Hopen _ _ Hin) as Ho. destruct (trade_qty_range _ _ Hord Ho) as (Hq1 & Hq2 & Hq3). fold q in Hq1, Hq2, Hq3.
      rewrite add64_exact in Ho1 by (unfold open_order, unfilled in *; lia).
      assert (Hu1 : unfilled (l_order l1) = unfilled (l_order l) - q) by (rewrite Ho1; unfold unfilled; simpl; lia).
      pose proof (rep_addrs _ _ Hr) as Hnd.
      pose proof (prioritised_rest _ _ a o q lp Hnd Hp) as Hp'. unfold rest_prio in Hp'. case_decide as Hfull.
      * apply (IH fuel (fill_book a o q la) l1).
        -- destruct (decide (unfilled (l_order l1) = 0)); [by right|left]. rewrite Ho1 in *.
           unfold open_order, unfilled in *. simpl in *. lia.
        -- rewrite Ho1. cbn [o_StockId set_FilledQuantity]. rewrite book_default, Hb1. simpl. by rewrite lookup_insert_eq.
        -- intros a' o' [[[= -> ->] Hne]|[? _]]%(fill_book_elem _ o); [done|by eauto|done|done].
        -- rewrite Ho1. exact Hp'.
        -- simpl in Hfuel. lia.
      * rewrite match_loop_done; [done|]. rewrite Hu1. unfold q, trade_qty, unfilled in *. lia.
    + rewrite (match_loop_step _ _ _ Hu0 Hstep). by apply (match_step_error _ _ _ Hstep).
    + unfold unfilled in Hu0. cbn [match_loop].
      destruct (Z.ltb_spec (o_FilledQuantity (l_order l)) (o_Quantity (l_order l))); [|lia]. rewrite Hstep.
      symmetry in Hs. by apply after_fill_panic in Hs.
Qed.

Lemma reserve_books order r st : s_OrderBooks (reserve order r st) = s_OrderBooks st.
Proof. unfold reserve, modify_account, modify_holding. repeat case_match; done. Qed.

(** [matchEvents] terminates on every open order and every well-formed book. *)
Lemma matchEvents_fuel order c :
  open_order order -> wf_book (o_StockId order) (book (o_StockId order) (state c)) ->
  (exists c' evs, matchEvents order c = Done (c', inl evs)) \/
  (exists c', matchEvents order c = Done (c', inr TradeIDExhausted)) \/
  matchEvents order c = Panicked DivideByZero.
Proof.
  intros Ho (la & Hr & Hok). unfold matchEvents. cbv zeta. set (l := start_match order c).
  assert (Hbook : book (o_StockId order) (state (l_core l)) = book (o_StockId order) (state c)).
  { unfold l, start_match. cbn [l_core state set_state]. rewrite book_default, reserve_books, <- book_default.
    apply book_open. }
  destruct (by_priority_ok (counter_side order) la) as [Hp Hperm].
  assert (Hfuel : (length (by_priority (counter_side order) la) < match_fuel l)%nat).
  { unfold match_fuel. change (l_order l) with order. rewrite Hbook, (Permutation_length Hperm).
    pose proof (rep_index_size _ _ Hr). unfold on_side.
    pose proof (length_filter (fun x : entry => is_sell (o_TradingType (snd x)) = counter_side order) la). lia. }
  pose proof (match_loop_fuel (match_fuel l) la _ l (or_introl Ho) ltac:(by change (l_order l) with order; rewrite Hbook)
    (fun a o Hin => ro_open _ _ (Hok a o Hin)) Hp Hfuel) as Hl.
  destruct (match_loop (match_fuel l) l) as [[l1 [e|]]|p] eqn:He; cbn [obind]; simpl in Hl.
  - subst. eauto.
  - destruct (finish_match _ _). eauto.
  - subst. auto.
Qed.
End termination.

(** ** The reference trades *)

Section reference.
Implicit Types (order o : Order) (os : list Order).

(** The makers are a prefix of the priority list. *)
Lemma greedy_prefix order w os : exists rest, os = (greedy order w os).*1 ++ rest.
Proof.
  revert w. induction os as [|o os IH]; intros w; cbn [greedy]; [by exists []|].
  destruct (_ || _); [by eexists|]. destruct (IH (w - Z.min w (unfilled o))) as [rest Hrest].
  exists rest. cbn. by f_equal.
Qed.

(** A trade takes the whole of a maker unless the taker is filled by it. *)
Lemma greedy_complete order w os fs1 o q fs2 :
  0 <= w -> Forall open_order os -> greedy order w os = fs1 ++ (o, q) :: fs2 -> fs2 <> [] -> q = unfilled o.
Proof.
  revert w fs1. induction os as [|m os IH]; intros w fs1 Hw Hos; cbn [greedy]; [by destruct fs1|].
  inversion_clear Hos as [|?? Hm Hos']. destruct (_ || _); [by destruct fs1|].
  destruct fs1 as [|f fs1]; simpl.
  - intros [= -> <- Hfs] Hne. destruct (decide (unfilled o <= w)); [lia|].
    rewrite Z.min_l in Hfs by lia. rewrite Z.sub_diag in Hfs. rewrite greedy_zero in Hfs. congruence.
  - intros [= _ Hfs] Hne. eapply (IH (w - Z.min w (unfilled m))); [|done|exact Hfs|done]. lia.
Qed.

(** No trade is worse than the limit of the taker, and every trade moves shares. *)
Lemma greedy_limit order w os o q :
  0 <= w -> Forall open_order os -> (o, q) ∈ greedy order w os ->
  price_rejected order (o_Price o) = false /\ 0 < q <= unfilled o.
Proof.
  revert w. induction os as [|m os IH]; intros w Hw Hos; cbn [greedy]; [set_solver|].
  inversion_clear Hos as [|?? Hm Hos']. destruct (Z.eqb_spec w 0); simpl; [set_solver|].
  destruct (price_rejected order (o_Price m)) eqn:Hrej; [set_solver|].
  intros [[= -> ->]|Hin]%elem_of_cons.
  - split; [done|]. unfold open_order, unfilled in *. lia.
  - eapply IH; [|done|exact Hin]. lia.
Qed.

(** The taker stops short of its quantity only when nothing acceptable is left. *)
Lemma greedy_exhaustive order w os :
  0 <= w -> Forall open_order os -> fills_qty (greedy order w os) < w ->
  exists rest, os = (greedy order w os).*1 ++ rest /\
    from_option (fun o => price_rejected order (o_Price o)) true (head rest) = true.
Proof.
  unfold fills_qty. revert w. induction os as [|m os IH]; intros w Hw Hos Hlt; cbn [greedy] in *; [by exists []|].
  inversion_clear Hos as [|?? Hm Hos']. destruct (Z.eqb_spec w 0); simpl in *; [lia|].
  destruct (price_rejected order (o_Price m)) eqn:Hrej; [by exists (m :: os)|]. rewrite lsum_cons in Hlt. simpl in *.
  destruct (IH (w - Z.min w (unfilled m))) as (rest & Hr & Hh); [lia|done|lia|].
  exists rest. split; [cbn; by f_equal|done].
Qed.
End reference.
