(* ===== verification/Crossing.v ===== *)
(** * The book is never crossed

    Between two requests no resting buy order meets a resting sell order: every
    bid is below every ask. Matching restores this after each order. *)

From S2P Require Import Prelude Domain Slices OrderBook BookSpec Ledger Snapshot Events Matching Invariant Settlement MatchStep MatchLoop MatchSpec.

Definition uncrossed_orders (l : list Order) : Prop :=
  forall o1 o2, o1 ∈ l -> o2 ∈ l -> o_TradingType o1 = TRADING_BUY -> o_TradingType o2 = TRADING_SELL ->
    o_Price o1 < o_Price o2.

Definition uncrossed (b : OrderBook) : Prop := uncrossed_orders (resting b).

Section crossing.
Context `{!Clock}.
Implicit Types (l : list Order) (o order : Order) (la : abook).

(** An order of the filled book is an order of the book before, perhaps with more filled. *)
Lemma apply_fills_origin fs l o :
  o ∈ apply_fills fs l ->
  exists o', o' ∈ l /\ o_TradingType o = o_TradingType o' /\ o_Price o = o_Price o'.
Proof.
  revert l. induction fs as [|[m q] fs IH]; intros l; [by eauto|]. cbn [apply_fills foldl].
  intros (o1 & Hin & Ht & Hp)%IH. rewrite Ht, Hp. clear Ht Hp. revert Hin. cbn [spec_op fst snd].
  destruct (spec_find (o_Id m) l) as [o2|] eqn:Hf; [|by eauto]. cbv zeta. repeat case_match; cbn [fst].
  - by eauto.
  - intros [_ ?]%list_elem_of_filter. eauto.
  - intros (o3 & -> & Hin)%list_elem_of_fmap. case_decide; [|by eauto].
    apply head_Some in Hf as [k Hk]. assert (Ho2 : o2 ∈ filter (fun x => o_Id x = o_Id m) l) by (rewrite Hk; left).
    apply list_elem_of_filter in Ho2 as [_ ?]. exists o2. done.
Qed.

Lemma uncrossed_sub l l' :
  (forall o, o ∈ l' -> exists o', o' ∈ l /\ o_TradingType o = o_TradingType o' /\ o_Price o = o_Price o') ->
  uncrossed_orders l -> uncrossed_orders l'.
Proof.
  intros Hsub Hu o1 o2 (x1 & H1 & Ht1 & ->)%Hsub (x2 & H2 & Ht2 & ->)%Hsub Hb Hs.
  apply Hu; [done|done|congruence|congruence].
Qed.

Lemma uncrossed_rep b la : rep b la -> uncrossed b <-> uncrossed_orders la.*2.
Proof.
  intros Hr. unfold uncrossed, uncrossed_orders. by setoid_rewrite (resting_perm _ _ Hr).
Qed.

(** The remainder of a limit order does not meet the other side. *)
Lemma remainder_clear order l o :
  is_trade order ->
  (unfilled (taken order l) = 0 \/
   forall o, o ∈ apply_fills (fills order l) l -> is_sell (o_TradingType o) = counter_side order ->
     price_rejected order (o_Price o) = true) ->
  remainder (taken order l) <> [] -> o ∈ apply_fills (fills order l) l ->
  (o_TradingType order = TRADING_BUY -> o_TradingType o = TRADING_SELL -> o_Price order < o_Price o) /\
  (o_TradingType order = TRADING_SELL -> o_TradingType o = TRADING_BUY -> o_Price o < o_Price order).
Proof.
  intros Ht Hst Hrem Hin. unfold remainder in Hrem. case_decide as Hd; [|done]. destruct Hd as [Hty Hu].
  destruct Hst as [Hz|Hall]; [lia|]. specialize (Hall o Hin). unfold price_rejected, counter_side in Hall.
  change (o_OrderType (taken order l)) with (o_OrderType order) in Hty. rewrite Hty in Hall.
  split; intros Hb Ho; rewrite Hb, Ho in Hall; specialize (Hall eq_refl).
  - rewrite Z.gtb_ltb, Z.ltb_lt in Hall. done.
  - by rewrite Z.ltb_lt in Hall.
Qed.

(** Matching an order leaves its book uncrossed. *)
Lemma matched_uncrossed order la c c' evs :
  is_trade order -> rep (book (o_StockId order) (state c)) la -> matched order la.*2 c c' evs ->
  uncrossed_orders la.*2 -> uncrossed (book (o_StockId order) (state c')).
Proof.
  intros Ht Hr Hm Hu. destruct (mr_book _ _ _ _ _ Hm) as (la' & Hr' & Hla').
  rewrite (uncrossed_rep _ _ Hr'), Hla'.
  assert (Hu' : uncrossed_orders (apply_fills (fills order la.*2) la.*2)).
  { eapply uncrossed_sub; [|exact Hu]. intros o. apply apply_fills_origin. }
  assert (Hrem : forall o, o ∈ remainder (taken order la.*2) ->
    o_TradingType o = o_TradingType order /\ o_Price o = o_Price order /\ remainder (taken order la.*2) <> []).
  { intros o Ho. unfold remainder in *. case_decide; [|set_solver]. apply list_elem_of_singleton in Ho as ->. done. }
  intros o1 o2 [H1|H1]%elem_of_app [H2|H2]%elem_of_app Hb Hs.
  - by apply Hu'.
  - destruct (Hrem _ H2) as (Ht2 & -> & Hne). apply (remainder_clear order la.*2 o1); try done; [apply Hm|congruence].
  - destruct (Hrem _ H1) as (Ht1 & -> & Hne). apply (remainder_clear order la.*2 o2); try done; [apply Hm|congruence].
  - destruct (Hrem _ H1) as (Ht1 & _). destruct (Hrem _ H2) as (Ht2 & _). congruence.
Qed.

Lemma frame_book ts sid st st' t : ledger_frame ts sid st st' -> t <> sid -> book t st' = book t st.
Proof. intros Hf Ht. by rewrite !book_default, (lf_books _ _ _ _ Hf). Qed.

Lemma matched_books order la c c' evs :
  is_trade order -> rep (book (o_StockId order) (state c)) la -> matched order la.*2 c c' evs ->
  (forall t, uncrossed (book t (state c))) -> forall t, uncrossed (book t (state c')).
Proof.
  intros Ht Hr Hm Hu t. destruct (decide (t = o_StockId order)) as [->|Hne].
  - eapply matched_uncrossed; [done|done|done|]. by apply (uncrossed_rep _ _ Hr).
  - destruct (mr_frame _ _ _ _ _ Hm) as (st & Hf & ->).
    rewrite book_default. destruct (with_price_rest (o_StockId order) (last_price (fills order la.*2)) st) as (_ & _ & ->).
    rewrite <- book_default, (frame_book _ _ _ _ _ Hf Hne). apply Hu.
Qed.
End crossing.
