(* ===== verification/Reports.v ===== *)
(** * The events of a request report its effects

    A client that follows the output events sees every change: each account,
    holding and price level that a matched order changed appears with its final
    value, and nothing is reported with a stale value. *)

From S2P Require Import Prelude Domain Slices OrderBook BookSpec Ledger Snapshot Events Matching Invariant Settlement MatchStep MatchLoop MatchSpec.

Section reports.
Context `{!Clock}.
Implicit Types (order : Order) (la : abook) (c : Core) (st : State).

Lemma elem_track {A} `{EqDecision A} (x y : A) l : x ∈ track y l <-> x ∈ l \/ x = y.
Proof. unfold track. case_decide; [|set_solver]. naive_solver. Qed.

Lemma elem_track_all {A} `{EqDecision A} (x : A) xs l :
  x ∈ foldl (flip track) l xs <-> x ∈ l \/ x ∈ xs.
Proof.
  revert l. induction xs as [|y xs IH]; intros l; simpl; [set_solver|].
  rewrite IH, elem_track. set_solver.
Qed.

Lemma reported_accounts_spec order l i :
  i ∈ reported_accounts order l <-> i = o_AccountId order \/ i ∈ accounts_of (fills order l).
Proof. unfold reported_accounts. rewrite elem_track_all. set_solver. Qed.

Lemma account_event_elem sid st ids i a :
  i ∈ ids -> s_Accounts st !! i = Some a ->
  mkOutEvent PatternAccountUpdated (EvAccount a) ∈ account_events sid st ids.
Proof.
  intros Hi Ha. unfold account_events. apply elem_of_concat. eexists. split; [|apply list_elem_of_fmap; by exists i].
  unfold Accounts_Get. rewrite Ha. set_solver.
Qed.

Lemma holding_event_elem sid st ids i h :
  i ∈ ids -> s_StockBalances st !! (i, sid) = Some h ->
  mkOutEvent PatternHoldingUpdated (EvHolding h) ∈ account_events sid st ids.
Proof.
  intros Hi Hh. unfold account_events. apply elem_of_concat. eexists. split; [|apply list_elem_of_fmap; by exists i].
  unfold StockBalances_Get. rewrite Hh. set_solver.
Qed.

Lemma account_events_sound sid st ids ev :
  ev ∈ account_events sid st ids ->
  (exists i a, s_Accounts st !! i = Some a /\ ev = mkOutEvent PatternAccountUpdated (EvAccount a)) \/
  (exists i h, s_StockBalances st !! (i, sid) = Some h /\ ev = mkOutEvent PatternHoldingUpdated (EvHolding h)).
Proof.
  unfold account_events, Accounts_Get, StockBalances_Get.
  intros (evs & Hev & (i & -> & Hi)%list_elem_of_fmap)%elem_of_concat.
  apply elem_of_app in Hev as [Hev|Hev]; case_match; apply list_elem_of_singleton in Hev || set_solver; subst; eauto.
Qed.

(** The quantity of a level is a function of the orders at that level. *)
Lemma level_quantity_orders b la side p :
  rep b la -> LevelQuantity b side p = u64 (lsum remaining (filter (order_at (is_sell side) p) la.*2)).
Proof. intros Hr. by rewrite (rep_LevelQuantity _ _ _ _ Hr), filter_level, lsum_map. Qed.

(** A level whose quantity changed is reported. *)
Lemma changed_level_reported order la c c' evs s p :
  rep (book (o_StockId order) (state c)) la -> matched order la.*2 c c' evs ->
  (forall f, f ∈ fills order la.*2 -> o_TradingType (fst f) = side_type (is_sell (o_TradingType (fst f)))) ->
  is_trade order ->
  LevelQuantity (book (o_StockId order) (state c')) (side_type s) p <>
    LevelQuantity (book (o_StockId order) (state c)) (side_type s) p ->
  (side_type s, p) ∈ reported_levels order la.*2.
Proof.
  intros Hr Hm Hside Ht Hne. unfold reported_levels. rewrite elem_track_all. right. rewrite elem_of_app.
  destruct (decide (Forall (fun f => ~ order_at s p (fst f)) (fills order la.*2))) as [Hf|Hf].
  - right. apply dec_stable. intros Hnot. apply Hne.
    destruct (mr_book _ _ _ _ _ Hm) as (la' & Hr' & Hla').
    rewrite (level_quantity_orders _ _ _ _ Hr), (level_quantity_orders _ _ _ _ Hr'), Hla'.
    replace (is_sell (side_type s)) with s by by destruct s.
    rewrite filter_app, (mr_levels _ _ _ _ _ Hm s p Hf), lsum_app.
    rewrite (filter_none _ (remainder _)); [simpl; f_equal; lia|].
    intros o Ho [Hs Hp]. apply Hnot. apply list_elem_of_fmap. exists o. split; [|done].
    rewrite Hp. f_equal. unfold remainder in Ho. case_decide; [|set_solver]. apply list_elem_of_singleton in Ho as ->.
    cbn in Hs |- *. unfold is_trade in Ht. destruct Ht as [Ht|Ht]; rewrite Ht in *; simpl in Hs; by subst.
  - left. apply not_Forall_Exists in Hf; [|apply _]. apply Exists_exists in Hf as (f & Hin & Hat).
    apply dec_stable in Hat as [Hs Hp]. apply list_elem_of_fmap. exists f. split; [|done].
    rewrite (Hside f Hin), Hs, Hp. done.
Qed.

Lemma level_event_elem sid st levels s p :
  (side_type s, p) ∈ levels ->
  exists ls, mkOutEvent PatternOrderBookUpdated (EvOrderBook (mkOrderBookUpdated sid ls)) ∈ book_events sid levels st /\
    mkOrderBookLevel (orderBookSide (side_type s)) p (LevelQuantity (book sid st) (side_type s) p) ∈ ls.
Proof.
  intros Hin. unfold book_events. destruct levels as [|x levels]; [set_solver|].
  eexists. split; [by apply list_elem_of_singleton|]. unfold book_levels. apply list_elem_of_fmap.
  by exists (side_type s, p).
Qed.

(** Every effect of a matched order is in its events, with its final value. *)
Record reported order c c' (evs : list outEvent) : Prop := {
  rp_accounts i a : s_Accounts (state c') !! i = Some a -> s_Accounts (state c) !! i <> Some a ->
    mkOutEvent PatternAccountUpdated (EvAccount a) ∈ evs;
  rp_holdings i t h : s_StockBalances (state c') !! (i, t) = Some h -> s_StockBalances (state c) !! (i, t) <> Some h ->
    mkOutEvent PatternHoldingUpdated (EvHolding h) ∈ evs;
  rp_stocks i s : s_Stocks (state c') !! i = Some s -> s_Stocks (state c) !! i <> Some s ->
    mkOutEvent PatternStockUpdated (EvStock s) ∈ evs;
  rp_levels s p :
    LevelQuantity (book (o_StockId order) (state c')) (side_type s) p <>
      LevelQuantity (book (o_StockId order) (state c)) (side_type s) p ->
    exists ls, mkOutEvent PatternOrderBookUpdated (EvOrderBook (mkOrderBookUpdated (o_StockId order) ls)) ∈ evs /\
      mkOrderBookLevel (orderBookSide (side_type s)) p
        (LevelQuantity (book (o_StockId order) (state c')) (side_type s) p) ∈ ls
}.

Lemma matched_reported order la c c' evs :
  wf_state (state c) ->
  rep (book (o_StockId order) (state c)) la -> matched order la.*2 c c' evs -> is_trade order ->
  (forall f, f ∈ fills order la.*2 -> o_TradingType (fst f) = side_type (is_sell (o_TradingType (fst f)))) ->
  reported order c c' evs.
Proof.
  intros Hwf Hr Hm Ht Hside. destruct (mr_events _ _ _ _ _ Hm) as (evss & t & _ & Hevs).
  destruct (mr_frame _ _ _ _ _ Hm) as (st & Hf & Hst).
  destruct (with_price_rest (o_StockId order) (last_price (fills order la.*2)) st) as (W1 & W2 & W3).
  split.
  - intros i a Ha Hne. rewrite Hevs, !elem_of_app. do 3 right. left. apply (account_event_elem _ _ _ i); [|done].
    apply reported_accounts_spec. apply dec_stable. intros Hnot. apply Hne. rewrite Hst, W1 in Ha.
    rewrite <- Ha. symmetry. apply (lf_accounts _ _ _ _ Hf). set_solver.
  - intros i u h Hh Hne. rewrite Hevs, !elem_of_app. do 3 right. left.
    assert (Hiu : i ∈ o_AccountId order :: accounts_of (fills order la.*2) /\ u = o_StockId order).
    { apply dec_stable. intros Hnot. apply Hne. rewrite Hst, W2 in Hh. rewrite <- Hh. symmetry.
      apply (lf_holdings _ _ _ _ Hf). destruct (decide (u = o_StockId order)); [left|right]; naive_solver. }
    destruct Hiu as [Hi ->]. apply (holding_event_elem _ _ _ i); [|done]. apply reported_accounts_spec. set_solver.
  - intros i s Hs Hne. rewrite Hevs, !elem_of_app. do 4 right.
    rewrite Hst in Hs |- *. unfold with_price in *. pose proof (lf_stocks _ _ _ _ Hf) as Hstk.
    destruct (Z.gtb _ 0); [|by rewrite Hstk in Hs].
    destruct (s_Stocks st !! o_StockId order) as [s0|] eqn:H0; [|by rewrite Hstk in Hs].
    cbn [s_Stocks upsert_stock] in *. unfold Stocks_Upsert in *. cbn [st_Id set_Price] in *.
    assert (Hid : st_Id s0 = o_StockId order) by (apply (wf_stock_key _ Hwf); by rewrite <- Hstk).
    rewrite Hid in *. rewrite lookup_insert_eq. rewrite lookup_insert in Hs. case_decide.
    + subst. injection Hs as <-. by apply list_elem_of_singleton.
    + by rewrite Hstk in Hs.
  - intros s p Hne. pose proof (changed_level_reported _ _ _ _ _ _ _ Hr Hm Hside Ht Hne) as Hin.
    destruct (level_event_elem (o_StockId order) (state c') _ _ _ Hin) as (ls & Hev & Hl).
    exists ls. split; [|done]. rewrite Hevs, !elem_of_app. do 2 right. by left.
Qed.

(** The makers of the reference trades are resting orders of the book. *)
Lemma greedy_elem order w os f : f ∈ greedy order w os -> fst f ∈ os.
Proof.
  revert w. induction os as [|o os IH]; intros w; cbn [greedy]; [set_solver|].
  destruct (_ || _); [set_solver|]. intros [->|Hin]%elem_of_cons; [left|right]. by eapply IH.
Qed.

Lemma fills_elem order la f :
  f ∈ fills order la.*2 -> exists a, (a, fst f) ∈ la /\ is_sell (o_TradingType (fst f)) = counter_side order.
Proof.
  intros Hin%greedy_elem. rewrite <- by_priority_orders in Hin.
  apply list_elem_of_fmap in Hin as ([a o] & Ho & Hin). simpl in Ho. subst.
  destruct (by_priority_ok (counter_side order) la) as [Hp _].
  apply (prioritised_elem _ _ _ _ Hp) in Hin as [Hin Hs]. eauto.
Qed.
End reports.
