(* ===== verification/Footprint.v ===== *)
(** * What a request can change

    Matching, edits and cancels change only the accounts and holdings of the
    accounts they report, whatever the amounts are. Unlike the theorems on
    balances, this needs no bound on sums and no balanced ledger: only that every
    record is stored under its own key and every order in the book of its stock
    ([keyed]), which every request preserves. *)

From S2P Require Import Prelude Domain Slices OrderBook Ledger Events Matching Validation Orders MatchLoop.

(** ** Keys *)

(** The book of stock [sid]: its index refers to orders of that stock. *)
Definition shelf (sid : Z) (b : OrderBook) : Prop :=
  forall i r, index b !! i = Some r -> exists o, elems b !! ref_elem r = Some o /\ o_StockId o = sid.

Record keyed (st : State) : Prop := {
  kd_account i a : s_Accounts st !! i = Some a -> acc_Id a = i;
  kd_holding k h : s_StockBalances st !! k = Some h -> (sb_AccountId h, sb_StockId h) = k;
  kd_stock i s : s_Stocks st !! i = Some s -> st_Id s = i;
  kd_book i b : s_OrderBooks st !! i = Some b -> shelf i b
}.

Lemma keyed_new : keyed NewState.
Proof. split; intros ?? Hl; cbn in Hl; by rewrite lookup_empty in Hl. Qed.

Section shelves.
Implicit Types (b : OrderBook) (o : Order).

Lemma shelf_new sid : shelf sid NewOrderBook.
Proof. intros i r Hl. cbn in Hl. by rewrite lookup_empty in Hl. Qed.

Lemma shelf_Add sid b o : o_StockId o = sid -> shelf sid b -> shelf sid (Add b o).
Proof.
  intros Ho Hs.
  assert (He : elems (Add b o) = elems b ++ [o]) by (unfold Add, set_side; repeat case_match; by simplify_eq/=).
  assert (Hx : index (Add b o) = <[o_Id o := mkOrderRef (o_TradingType o) (o_Price o) (length (elems b))]> (index b))
    by (unfold Add, set_side; repeat case_match; by simplify_eq/=).
  intros i r. rewrite Hx, He. intros [[_ <-]|[_ Hr]]%lookup_insert_Some; cbn.
  - exists o. split; [by apply list_lookup_middle|done].
  - destruct (Hs _ _ Hr) as (q & Hq & ?). exists q. split; [by apply lookup_app_l_Some|done].
Qed.

Lemma shelf_removeRef sid b i r b' : shelf sid b -> removeRef b i r = Done b' -> shelf sid b'.
Proof.
  intros Hs Hr.
  assert (elems b' = elems b /\ index b' = delete i (index b)) as [He Hx]
    by (revert Hr; unfold removeRef; repeat case_match; intros; simplify_eq/=; by destruct (is_sell _)).
  intros j q. rewrite He, Hx. intros [_ Hj]%lookup_delete_Some. eauto.
Qed.

Lemma shelf_Cancel sid b i b' ok : shelf sid b -> Cancel b i = Done (b', ok) -> shelf sid b'.
Proof.
  intros Hs. unfold Cancel. destruct (index b !! i) as [r|]; [|by intros [= <- <-]].
  destruct (removeRef b i r) as [b1|] eqn:Hr; [|done]. cbn. intros [= <- <-]. by eapply shelf_removeRef.
Qed.

Lemma shelf_Value sid b i r : shelf sid b -> index b !! i = Some r -> o_StockId (Value b (ref_elem r)) = sid.
Proof. intros Hs Hr. destruct (Hs _ _ Hr) as (o & Ho & ?). unfold Value. by rewrite Ho. Qed.

Lemma shelf_Get sid b i o : shelf sid b -> Get b i = Some o -> o_StockId o = sid.
Proof.
  intros Hs. unfold Get. destruct (index b !! i) as [r|] eqn:Hr; [|done]. intros [= <-]. by eapply shelf_Value.
Qed.

Lemma shelf_Fill sid b i want b' f : shelf sid b -> Fill b i want = Done (b', f) -> shelf sid b'.
Proof.
  intros Hs. unfold Fill. destruct (index b !! i) as [r|] eqn:Hr; [|by intros [= <- <-]].
  destruct (Z.eqb _ 0); [by intros [= <- <-]|].
  set (o := set_FilledQuantity _ _). set (b1 := set_elems b _).
  assert (Hb1 : shelf sid b1).
  { intros j q Hj. cbn in Hj |- *. destruct (Hs _ _ Hj) as (x & Hx & Hsid).
    destruct (decide (ref_elem r = ref_elem q)) as [Heq|Hne].
    - rewrite Heq, list_lookup_insert_eq by (by eapply lookup_lt_Some). exists o. split; [done|].
      exact (shelf_Value _ _ _ _ Hs Hr).
    - rewrite list_lookup_insert_ne by done. eauto. }
  destruct (Z.eqb _ _); [|by intros [= <- <-]].
  destruct (removeRef b1 i r) as [b2|] eqn:Hrm; [|done]. cbn. intros [= <- <-]. by eapply shelf_removeRef.
Qed.
End shelves.

(** ** Footprints *)

(** The state stays keyed, only records of [ids] in stock [sid] changed, and no
    account appeared. *)
Record footprint (ids : list Z) (sid : Z) (st st' : State) : Prop := {
  fp_keyed : keyed st';
  fp_frame : ledger_frame ids sid st st';
  fp_known i : is_Some (s_Accounts st' !! i) -> is_Some (s_Accounts st !! i)
}.

Section footprints.
Implicit Types (st : State).

Lemma fp_refl ids sid st : keyed st -> footprint ids sid st st.
Proof. intros Hk. split; [done|apply ledger_frame_refl|done]. Qed.

Lemma fp_trans ids1 ids2 ids sid st1 st2 st3 :
  footprint ids1 sid st1 st2 -> footprint ids2 sid st2 st3 -> ids1 ⊆ ids -> ids2 ⊆ ids -> footprint ids sid st1 st3.
Proof. intros [_ F1 N1] [K2 F2 N2] H1 H2. split; [done|by eapply ledger_frame_trans|auto]. Qed.

Lemma fp_weaken ids ids' sid st st' : footprint ids sid st st' -> ids ⊆ ids' -> footprint ids' sid st st'.
Proof.
  intros F H. eapply fp_trans; [exact F|apply (fp_refl []), F|done|]. apply list_subseteq_nil.
Qed.

Lemma keyed_upsert_account a st : keyed st -> keyed (upsert_account a st).
Proof.
  intros [K1 K2 K3 K4]. split; [|done..]. intros i b. cbn. unfold Accounts_Upsert.
  intros [[<- <-]|[_ Hb]]%lookup_insert_Some; eauto.
Qed.

Lemma keyed_upsert_holding h st : keyed st -> keyed (upsert_holding h st).
Proof.
  intros [K1 K2 K3 K4]. split; [done| |done..]. intros i b. cbn. unfold StockBalances_Upsert.
  intros [[<- <-]|[_ Hb]]%lookup_insert_Some; eauto.
Qed.

Lemma keyed_upsert_stock s st : keyed st -> keyed (upsert_stock s st).
Proof.
  intros [K1 K2 K3 K4]. split; [done|done| |done]. intros i b. cbn. unfold Stocks_Upsert.
  intros [[<- <-]|[_ Hb]]%lookup_insert_Some; eauto.
Qed.

Lemma fp_upsert_account a sid st :
  is_Some (s_Accounts st !! acc_Id a) -> keyed st -> footprint [acc_Id a] sid st (upsert_account a st).
Proof.
  intros Ha Hk. split; [by apply keyed_upsert_account| |].
  2: { intros i. cbn. unfold Accounts_Upsert. rewrite lookup_insert. case_decide; [by subst|done]. }
  split; cbn; try done; unfold Accounts_Upsert.
  - intros i Hi. rewrite lookup_insert_ne; set_solver.
  - intros i Hi. rewrite lookup_insert. case_decide; [eauto|done].
Qed.

Lemma fp_upsert_holding h st : keyed st -> footprint [sb_AccountId h] (sb_StockId h) st (upsert_holding h st).
Proof.
  intros Hk. split; [by apply keyed_upsert_holding| |done]. split; cbn; try done; unfold StockBalances_Upsert.
  - intros i t Hi. rewrite lookup_insert_ne; [done|]. intros [= <- <-]. set_solver.
  - intros k Hi. rewrite lookup_insert. case_decide; [eauto|done].
Qed.

Lemma fp_modify_account i f sid st :
  (forall a, acc_Id (f a) = acc_Id a) -> keyed st -> footprint [i] sid st (modify_account i f st).
Proof.
  intros Hf Hk. unfold modify_account, Accounts_Get. destruct (s_Accounts st !! i) as [a|] eqn:Ha; [|by apply fp_refl].
  rewrite <- (kd_account _ Hk _ _ Ha), <- Hf. apply fp_upsert_account; [|done].
  rewrite Hf, (kd_account _ Hk _ _ Ha), Ha. eauto.
Qed.

Lemma fp_modify_holding i sid f st :
  (forall h, sb_AccountId (f h) = sb_AccountId h /\ sb_StockId (f h) = sb_StockId h) -> keyed st ->
  footprint [i] sid st (modify_holding i sid f st).
Proof.
  intros Hf Hk. unfold modify_holding, StockBalances_Get.
  destruct (s_StockBalances st !! (i, sid)) as [h|] eqn:Hh; [|by apply fp_refl].
  pose proof (kd_holding _ Hk _ _ Hh) as [= <- <-]. destruct (Hf h) as [<- <-]. by apply fp_upsert_holding.
Qed.

Lemma keyed_set_book sid b st : shelf sid b -> keyed st -> keyed (set_book sid b st).
Proof.
  intros Hb [K1 K2 K3 K4]. split; [done..|]. intros i b'. cbn. intros [[<- <-]|[_ Hb']]%lookup_insert_Some; eauto.
Qed.

Lemma fp_set_book sid b st : shelf sid b -> keyed st -> footprint [] sid st (set_book sid b st).
Proof. intros Hb Hk. split; [by apply keyed_set_book|apply frame_set_book|done]. Qed.

Lemma fp_open_book sid st : keyed st -> footprint [] sid st (open_book sid st).
Proof.
  intros Hk. unfold open_book, OrderBooks_Get. destruct (s_OrderBooks st !! sid) as [b|] eqn:Hb; cbn.
  - destruct st. by apply fp_refl.
  - exact (fp_set_book sid NewOrderBook st (shelf_new sid) Hk).
Qed.

Lemma shelf_book sid st : keyed st -> shelf sid (book sid st).
Proof.
  intros Hk. unfold book, OrderBooks_Get. destruct (s_OrderBooks st !! sid) as [b|] eqn:Hb; cbn.
  - by apply (kd_book _ Hk).
  - apply shelf_new.
Qed.
End footprints.

#[export] Hint Resolve fp_refl fp_modify_account fp_modify_holding fp_set_book fp_open_book shelf_book shelf_Add : kronex.

(** ** Matching *)

Section matching.
Context `{!Clock}.
Implicit Types (l : locals) (order : Order) (c : Core) (st : State).

Lemma settle_fp buyer seller sid filled cash st st' :
  keyed st -> settle buyer seller sid filled cash st = Done st' -> footprint [buyer; seller] sid st st'.
Proof.
  intros Hk. unfold settle. set (st1 := modify_account buyer _ st).
  assert (F1 : footprint [buyer] sid st st1) by (by apply fp_modify_account).
  set (h0 := default _ _).
  assert (Hh0 : sb_AccountId h0 = buyer /\ sb_StockId h0 = sid).
  { unfold h0, StockBalances_Get. destruct (s_StockBalances st1 !! (buyer, sid)) as [h|] eqn:Hh; [|done].
    pose proof (kd_holding _ (fp_keyed _ _ _ _ F1) _ _ Hh) as [= ??]. done. }
  destruct (buyer_holding h0 filled cash) as [h|] eqn:Hb; [|done]. cbn [obind]. intros [= <-].
  assert (Hh : sb_AccountId h = buyer /\ sb_StockId h = sid)
    by (revert Hb; unfold buyer_holding; case_match; [done|]; intros [= <-]; exact Hh0).
  destruct Hh as [Ha Hs]. set (st2 := upsert_holding h st1).
  assert (F2 : footprint [buyer] sid st1 st2) by (rewrite <- Ha, <- Hs; apply fp_upsert_holding, F1).
  set (st3 := modify_account seller _ st2).
  assert (F3 : footprint [seller] sid st2 st3) by (apply fp_modify_account; [done|apply F2]).
  assert (F4 : footprint [seller] sid st3 (modify_holding seller sid (seller_holding filled) st3)).
  { apply fp_modify_holding; [|apply F3]. intros k. unfold seller_holding. by case_match. }
  eapply fp_trans; [eapply fp_trans; [exact F1|exact F2|done|done]|eapply fp_trans; [exact F3|exact F4|done|done]|set_solver..].
Qed.

(** The loop reports whom it touches, and emits events on trades and orders only. *)
Inductive order_event : outEvent -> Prop :=
  | oe_trade t : order_event (mkOutEvent PatternTradeExecuted (EvTrade t))
  | oe_open o : order_event (mkOutEvent PatternOrderOpen (EvOrder o))
  | oe_filled o : order_event (mkOutEvent PatternOrderFilled (EvOrder o))
  | oe_canceled o : order_event (mkOutEvent PatternOrderCanceled (EvOrder o)).

Record walked l l' : Prop := {
  wk_fp : footprint (l_accountIDs l') (o_StockId (l_order l)) (state (l_core l)) (state (l_core l'));
  wk_order : o_AccountId (l_order l') = o_AccountId (l_order l) /\ o_StockId (l_order l') = o_StockId (l_order l) /\
    o_OrderType (l_order l') = o_OrderType (l_order l);
  wk_ids : l_accountIDs l ⊆ l_accountIDs l';
  wk_events : Forall order_event (l_events l) -> Forall order_event (l_events l')
}.

Lemma walked_refl l : keyed (state (l_core l)) -> walked l l.
Proof. intros Hk. split; [by apply fp_refl|done..]. Qed.

Lemma walked_trans l1 l2 l3 : walked l1 l2 -> walked l2 l3 -> walked l1 l3.
Proof.
  intros [F1 (A1 & S1 & T1) I1 E1] [F2 (A2 & S2 & T2) I2 E2]. split.
  - rewrite S1 in F2. by eapply fp_trans.
  - by rewrite A2, S2, T2.
  - by etrans.
  - auto.
Qed.

Lemma takeTradeID_ledger c c' r : takeTradeID c = (c', r) -> state c' = state c.
Proof. unfold takeTradeID, nextTradeID. repeat case_match; intros; by simplify_eq/=. Qed.

Lemma maker_event_ok counter filled c c' ev :
  maker_event counter filled c = (c', ev) -> state c' = state c /\ order_event ev.
Proof. unfold maker_event, time_now. case_match; intros [= <- <-]; (split; [done|constructor]). Qed.

Definition step_locals (r : loop_step) : locals := match r with Break l | Continue l | Fail l _ => l end.

Lemma after_fill_walked l side p counter c filled r :
  o_AccountId (l_order l) ∈ l_accountIDs l -> footprint [] (o_StockId (l_order l)) (state (l_core l)) (state c) ->
  after_fill l side p counter c filled = Done r -> (forall l' e, r <> Fail l' e) -> walked l (step_locals r).
Proof.
  intros Hin F0. unfold after_fill. set (order := set_FilledQuantity _ _).
  match goal with |- (let '(b, s) := ?x in _) = _ -> _ => destruct x as [buyer seller] eqn:Hbs end.
  assert (Hids : forall i, i = buyer \/ i = seller -> i = o_AccountId (l_order l) \/ i = o_AccountId counter)
    by (intros i; cbn in Hbs; destruct (is_sell _); injection Hbs; intros; subst; tauto).
  destruct (settle buyer seller _ _ _ (state c)) as [s|] eqn:Hs; [|done]. cbn [obind].
  pose proof (settle_fp _ _ _ _ _ _ _ (fp_keyed _ _ _ _ F0) Hs) as F1.
  destruct (takeTradeID (set_state c s)) as [c1 [tid|e]] eqn:Ht; [|intros [= <-] Hf; by destruct (Hf _ _ eq_refl)].
  unfold trade_event, time_now. cbn [fst snd].
  match goal with |- context [maker_event counter filled ?x] => destruct (maker_event counter filled x) as [c2 mk] eqn:Hm end.
  destruct (maker_event_ok _ _ _ _ _ Hm) as [Hst2 Hmk]. intros [= <-] _. cbn [step_locals].
  split; cbn [l_order l_core l_accountIDs l_events].
  - rewrite Hst2. cbn [state]. rewrite (takeTradeID_ledger _ _ _ Ht). cbn [state set_state].
    eapply fp_trans; [exact F0|exact F1|apply list_subseteq_nil|].
    intros i Hi. unfold track. assert (i = o_AccountId (l_order l) \/ i = o_AccountId counter) as [->| ->]
      by (apply Hids; set_solver); case_decide; set_solver.
  - done.
  - unfold track. case_decide; set_solver.
  - intros Hev. apply Forall_app. split; [done|]. repeat constructor. done.
Qed.

Lemma match_step_walked l r :
  keyed (state (l_core l)) -> o_AccountId (l_order l) ∈ l_accountIDs l ->
  match_step l = Done r -> (forall l' e, r <> Fail l' e) -> walked l (step_locals r).
Proof.
  intros Hk Hin. unfold match_step. destruct (best_counter _ _) as [[p|] side]; [|by intros [= <-] _; apply walked_refl].
  destruct (price_rejected _ _); [by intros [= <-] _; apply walked_refl|].
  destruct (Front _ _ _) as [counter|]; [|by intros [= <-] _; apply walked_refl].
  destruct (Fill _ _ _) as [[b filled]|] eqn:Hf; [|done]. cbn [obind].
  assert (F0 : footprint [] (o_StockId (l_order l)) (state (l_core l)) (set_book (o_StockId (l_order l)) b (state (l_core l)))).
  { apply fp_set_book; [|done]. eapply shelf_Fill; [by apply shelf_book|exact Hf]. }
  destruct (Z.eqb filled 0).
  - intros [= <-] _. split; [|done..]. eapply fp_weaken; [exact F0|apply list_subseteq_nil].
  - by apply after_fill_walked.
Qed.

Lemma match_loop_walked fuel l l' :
  keyed (state (l_core l)) -> o_AccountId (l_order l) ∈ l_accountIDs l ->
  match_loop fuel l = Done (l', None) -> walked l l'.
Proof.
  revert l. induction fuel as [|fuel IH]; intros l Hk Hin; cbn [match_loop];
    (destruct (Z.ltb _ _); [|by intros [= <-]; apply walked_refl]); [done|].
  destruct (match_step l) as [r|] eqn:Hs; [|done]. cbn [obind]. destruct r as [l1|l1|l1 e]; [| |done].
  - intros [= <-]. by apply (match_step_walked l (Break l1)).
  - intros Hl. pose proof (match_step_walked l (Continue l1) Hk Hin Hs ltac:(done)) as W. cbn [step_locals] in W.
    eapply walked_trans; [exact W|]. apply IH; [apply W| |done].
    destruct (wk_order _ _ W) as [-> _]. by apply (wk_ids _ _ W).
Qed.
End matching.
