(* ===== verification/Dedup.v ===== *)
(** * Duplicate suppression ([internal/core/dedup.go])

    [recentIDs] remembers the last [window] distinct ids of one request kind in
    a ring buffer with a set beside it; [dedup] keeps one per kind. The ring is
    shown to implement a sliding window over the sequence of ids, with an
    exception for the id 0, which also marks the slots that were never written. *)

From S2P Require Import Prelude.

(** ** The ring *)

Record recentIDs := mkRecentIDs {
  seen : gset Z;
  ring : list Z;
  pos : nat
}.

Definition newRecentIDs (window : Z) : recentIDs :=
  let window := if Z.leb window 0 then 1 else window in
  mkRecentIDs ∅ (replicate (Z.to_nat window) 0) 0.

Definition recentIDs_has (r : recentIDs) (id : Z) : bool := bool_decide (id ∈ seen r).

Definition recentIDs_add (r : recentIDs) (id : Z) : outcome recentIDs :=
  if bool_decide (id ∈ seen r) then Done r
  else
    match ring r !! pos r with
    | None => Panicked IndexOutOfRange
    | Some old =>
        let seen' := if negb (Z.eqb old 0) then seen r ∖ {[old]} else seen r in
        let ring' := <[pos r := id]> (ring r) in
        let pos' := S (pos r) in
        let pos' := if Nat.eqb pos' (length ring') then 0%nat else pos' in
        Done (mkRecentIDs (seen' ∪ {[id]}) ring' pos')
    end.

(** ** One ring per request kind *)

Record dedup := mkDedup {
  window : Z;
  byKind : gmap string recentIDs
}.

Definition newDedup (window : Z) : dedup := mkDedup window ∅.

Definition dedup_has (d : dedup) (kind : string) (id : Z) : bool :=
  match byKind d !! kind with
  | None => false
  | Some r => recentIDs_has r id
  end.

Definition dedup_add (d : dedup) (kind : string) (id : Z) : outcome dedup :=
  let r := default (newRecentIDs (window d)) (byKind d !! kind) in
  r <~ recentIDs_add r id;
  Done (mkDedup (window d) (<[kind := r]> (byKind d))).

(** ** The sliding window *)

(** The window holds at most [w] distinct ids, oldest first; an id that is in it
    already leaves it unchanged, and a new one displaces the oldest. *)
Definition slide (w : nat) (q : list Z) (id : Z) : list Z :=
  if decide (id ∈ q) then q
  else (if decide (length q < w)%nat then q else tail q) ++ [id].

(** With the id 0: a slot that holds it looks like one that was never written, so
    the set keeps the id when it leaves the ring. [zq]: whether 0 was ever added,
    and the window. *)
Definition slide0 (w : nat) (zq : bool * list Z) (id : Z) : bool * list Z :=
  if decide (id = 0 /\ fst zq = true) then zq else (fst zq || Z.eqb id 0, slide w (snd zq) id).

(** The ring read from the next position to write is the window, after the
    positions that have never been written. *)
Record ring_rep (w : nat) (zq : bool * list Z) (r : recentIDs) : Prop := {
  rr_len : length (ring r) = w;
  rr_pos : (pos r < w)%nat;
  rr_bound : (length (snd zq) <= w)%nat;
  rr_order : drop (pos r) (ring r) ++ take (pos r) (ring r) = replicate (w - length (snd zq)) 0 ++ snd zq;
  rr_seen i : i ∈ seen r <-> i ∈ snd zq \/ (i = 0 /\ fst zq = true);
  rr_nodup : NoDup (snd zq);
  rr_zero : 0 ∈ snd zq -> fst zq = true
}.

(** The size of the ring for a configured window. *)
Definition ring_size (window : Z) : nat := if Z.leb window 0 then 1%nat else Z.to_nat window.

Section ring.
Implicit Types (r : recentIDs) (q : list Z) (zq : bool * list Z).

Lemma ring_size_pos w : (0 < ring_size w)%nat.
Proof. unfold ring_size. destruct (Z.leb_spec w 0); lia. Qed.

Lemma ring_rep_new w : ring_rep (ring_size w) (false, []) (newRecentIDs w).
Proof.
  assert (Hr : ring (newRecentIDs w) = replicate (ring_size w) 0).
  { unfold newRecentIDs, ring_size. by destruct (Z.leb_spec w 0). }
  pose proof (ring_size_pos w). split; rewrite ?Hr, ?length_replicate; simpl; try done.
  - lia.
  - by rewrite Nat.sub_0_r.
  - set_solver.
  - constructor.
  - set_solver.
Qed.

(** Overwriting the next position rotates the ring by one. *)
Lemma rotate_ring (l : list Z) p old id :
  l !! p = Some old ->
  let l' := <[p := id]> l in
  let p' := if Nat.eqb (S p) (length l') then 0%nat else S p in
  drop p l ++ take p l = old :: (drop (S p) l ++ take p l) /\
  drop p' l' ++ take p' l' = (drop (S p) l ++ take p l) ++ [id].
Proof.
  intros Hp. cbv zeta. rewrite length_insert. split; [by rewrite (drop_S _ _ _ Hp)|].
  pose proof (lookup_lt_Some _ _ _ Hp) as Hlt.
  assert (Htake : take (S p) (<[p := id]> l) = take p l ++ [id]).
  { rewrite (take_S_r _ _ id) by (by rewrite list_lookup_insert_eq). by rewrite take_insert_ge by lia. }
  assert (Hdrop : drop (S p) (<[p := id]> l) = drop (S p) l) by (apply drop_insert_lt; lia).
  destruct (Nat.eqb_spec (S p) (length l)) as [He|He].
  - rewrite drop_0, take_0, app_nil_r, (drop_ge l (S p)) by lia. cbn [app]. rewrite <- Htake, take_ge; [done|].
    rewrite length_insert. lia.
  - rewrite Htake, Hdrop. by rewrite app_assoc.
Qed.

Lemma ring_rep_has w zq r id : ring_rep w zq r -> recentIDs_has r id = bool_decide (id ∈ snd zq \/ (id = 0 /\ fst zq = true)).
Proof. intros Hr. unfold recentIDs_has. apply bool_decide_ext, Hr. Qed.

(** What is left in the ring and in the set when the next slot is overwritten. *)
Lemma ring_evict w z q r old rest :
  replicate (w - length q) 0 ++ q = old :: rest -> (length q <= w)%nat -> (0 < w)%nat -> NoDup q -> (0 ∈ q -> z = true) ->
  (forall i, i ∈ seen r <-> i ∈ q \/ (i = 0 /\ z = true)) ->
  let q' := if decide (length q < w)%nat then q else tail q in
  rest = replicate (w - S (length q')) 0 ++ q' /\ (S (length q') <= w)%nat /\ NoDup q' /\ (forall i, i ∈ q' -> i ∈ q) /\
  forall i, i ∈ (if negb (Z.eqb old 0) then seen r ∖ {[old]} else seen r) <-> i ∈ q' \/ (i = 0 /\ z = true).
Proof.
  intros Hq Hb Hw Hnd Hz Hseen. cbv zeta. destruct (decide (length q < w)%nat) as [Hlt|Hge].
  - replace (w - length q)%nat with (S (w - S (length q))) in Hq by lia. simpl in Hq.
    injection Hq as <- <-. split_and!; [done|lia|done..].
  - replace (w - length q)%nat with 0%nat in Hq by lia. destruct q as [|x q]; [simpl in *; lia|]. simpl in Hq.
    injection Hq as -> <-. simpl in *. apply NoDup_cons in Hnd as [Hx Hnd].
    replace (w - S (length q))%nat with 0%nat by lia. split_and!; [done|lia|done|set_solver|]. intros i.
    destruct (Z.eqb_spec old 0) as [->|Hne]; cbn [negb].
    + rewrite Hseen, elem_of_cons. specialize (Hz ltac:(left)). naive_solver.
    + rewrite elem_of_difference, Hseen, elem_of_cons, elem_of_singleton. split; [naive_solver|].
      intros [Hi|[-> ->]]; [split; [auto|by intros ->]|]. split; [auto|]. by intros <-.
Qed.

(** [add] slides the window, and its index is always in range. *)
Lemma ring_rep_add w zq r id :
  ring_rep w zq r -> exists r', recentIDs_add r id = Done r' /\ ring_rep w (slide0 w zq id) r'.
Proof.
  destruct zq as [z q]. intros Hrep. pose proof Hrep as [Hlen Hpos Hb Hord Hseen Hnd Hz]. cbn [fst snd] in *.
  unfold recentIDs_add, slide0, slide. cbn [fst snd].
  destruct (decide (id = 0 /\ z = true)) as [[-> ->]|Hnz].
  { rewrite bool_decide_eq_true_2 by (apply Hseen; auto). eauto. }
  destruct (decide (id ∈ q)) as [Hin|Hin].
  { rewrite bool_decide_eq_true_2 by (apply Hseen; auto). exists r. split; [done|].
    replace (z || Z.eqb id 0) with z; [done|]. destruct (Z.eqb_spec id 0) as [->|_]; [by rewrite Hz|by rewrite orb_false_r]. }
  rewrite bool_decide_eq_false_2 by (rewrite Hseen; tauto).
  destruct (lookup_lt_is_Some_2 (ring r) (pos r)) as [old Hold]; [lia|]. rewrite Hold.
  destruct (rotate_ring (ring r) (pos r) old id Hold) as [Hrot Hrot']. rewrite Hord in Hrot.
  eexists; split; [done|]. rewrite length_insert in *.
  destruct (ring_evict w z q r old _ Hrot Hb ltac:(lia) Hnd Hz Hseen) as (Hdt & Hle & Hnd' & Hsub & Hs').
  set (q' := (if decide (length q < w)%nat then q else tail q)) in *. clearbody q'.
  split; cbn [ring pos seen fst snd]; rewrite ?length_insert, ?length_app; cbn [length]; [done| |lia| | | |].
  - destruct (Nat.eqb_spec (S (pos r)) (length (ring r))); lia.
  - rewrite Hrot', Hdt, <- app_assoc. do 2 f_equal. lia.
  - intros i. rewrite elem_of_union, Hs', elem_of_app, list_elem_of_singleton, elem_of_singleton, orb_true_iff, Z.eqb_eq. naive_solver.
  - apply NoDup_app. split_and!; [done|set_solver|apply NoDup_singleton].
  - rewrite elem_of_app, list_elem_of_singleton. intros [Hi| <-]; [by rewrite Hz by auto|by rewrite orb_true_r].
Qed.
End ring.

(** ** The table *)

(** One window per kind. *)
Definition slide0_kind (w : nat) (m : gmap string (bool * list Z)) (kind : string) (id : Z) : gmap string (bool * list Z) :=
  <[kind := slide0 w (default (false, []) (m !! kind)) id]> m.

Definition dedup_rep0 (m : gmap string (bool * list Z)) (d : dedup) : Prop :=
  forall kind, match m !! kind, byKind d !! kind with
               | None, None => True
               | Some zq, Some r => ring_rep (ring_size (window d)) zq r
               | _, _ => False
               end.

(** While no id is 0. *)
Definition slide_kind (w : nat) (m : gmap string (list Z)) (kind : string) (id : Z) : gmap string (list Z) :=
  <[kind := slide w (default [] (m !! kind)) id]> m.

Definition dedup_rep (m : gmap string (list Z)) (d : dedup) : Prop := dedup_rep0 (pair false <$> m) d.

Section table.
Implicit Types (d : dedup) (m : gmap string (list Z)) (mz : gmap string (bool * list Z)).

Lemma dedup_rep0_new w : dedup_rep0 ∅ (newDedup w).
Proof. intros kind. simpl. by rewrite !lookup_empty. Qed.

Lemma dedup_rep_new w : dedup_rep ∅ (newDedup w).
Proof. unfold dedup_rep. rewrite fmap_empty. apply dedup_rep0_new. Qed.

Lemma dedup_rep0_has mz d kind id :
  dedup_rep0 mz d -> let zq := default (false, []) (mz !! kind) in
  dedup_has d kind id = bool_decide (id ∈ snd zq \/ (id = 0 /\ fst zq = true)).
Proof.
  intros Hd. specialize (Hd kind). unfold dedup_has.
  destruct (mz !! kind) as [zq|], (byKind d !! kind) as [r|]; try done; [by eapply ring_rep_has|].
  symmetry. apply bool_decide_eq_false. cbn. intros [Hi|[_ ?]]; [by apply elem_of_nil in Hi|done].
Qed.

Lemma default_pair m kind : default (false, []) ((pair false <$> m) !! kind) = (false, default [] (m !! kind)).
Proof. rewrite lookup_fmap. by destruct (m !! kind). Qed.

Lemma dedup_rep_has m d kind id :
  dedup_rep m d -> dedup_has d kind id = bool_decide (id ∈ default [] (m !! kind)).
Proof.
  intros Hd. rewrite (dedup_rep0_has _ _ kind id Hd), default_pair. apply bool_decide_ext. cbn. naive_solver.
Qed.

Lemma dedup_rep_bound m d kind : dedup_rep m d -> (length (default [] (m !! kind)) <= ring_size (window d))%nat.
Proof.
  intros Hd. specialize (Hd kind). rewrite lookup_fmap in Hd.
  destruct (m !! kind) as [q|]; cbn in *; [|lia]. destruct (byKind d !! kind); [apply (rr_bound _ _ _ Hd)|done].
Qed.

Lemma dedup_rep0_add mz d kind id :
  dedup_rep0 mz d ->
  exists d', dedup_add d kind id = Done d' /\ window d' = window d /\
    dedup_rep0 (slide0_kind (ring_size (window d)) mz kind id) d'.
Proof.
  intros Hd. pose proof (Hd kind) as Hk. unfold dedup_add.
  assert (Hr : ring_rep (ring_size (window d)) (default (false, []) (mz !! kind))
    (default (newRecentIDs (window d)) (byKind d !! kind))).
  { destruct (mz !! kind), (byKind d !! kind); simpl; try done. apply ring_rep_new. }
  destruct (ring_rep_add _ _ _ id Hr) as (r' & -> & Hr'). cbn [obind].
  eexists; split_and!; [done..|]. intros k. unfold slide0_kind. simpl.
  destruct (decide (kind = k)) as [<-|Hne].
  - by rewrite !lookup_insert_eq.
  - rewrite !lookup_insert_ne by done. apply Hd.
Qed.

Lemma slide0_nonzero w q id : id <> 0 -> slide0 w (false, q) id = (false, slide w q id).
Proof. intros Hid. unfold slide0. rewrite decide_False by tauto. cbn. by rewrite (proj2 (Z.eqb_neq _ _) Hid). Qed.

Lemma dedup_rep_add m d kind id :
  dedup_rep m d -> id <> 0 ->
  exists d', dedup_add d kind id = Done d' /\ window d' = window d /\
    dedup_rep (slide_kind (ring_size (window d)) m kind id) d'.
Proof.
  intros Hd Hid. destruct (dedup_rep0_add _ _ kind id Hd) as (d' & Ha & Hw & Hr). exists d'. split_and!; [done..|].
  unfold dedup_rep, slide_kind, slide0_kind in *. by rewrite default_pair, slide0_nonzero, <- fmap_insert in Hr.
Qed.
End table.

(** ** Runs *)

(** Recording a sequence of ids. *)
Fixpoint dedup_adds (d : dedup) (kis : list (string * Z)) : outcome dedup :=
  match kis with
  | [] => Done d
  | (kind, id) :: kis => d <~ dedup_add d kind id; dedup_adds d kis
  end.

Definition slide_all (w : nat) (ids : list Z) : list Z := foldl (slide w) [] ids.

(** The ids of one kind, in order. *)
Definition of_kind (kind : string) (kis : list (string * Z)) : list Z := (filter (fun ki => fst ki = kind) kis).*2.

Lemma of_kind_cons kind k id kis : of_kind kind ((k, id) :: kis) = if decide (k = kind) then id :: of_kind kind kis else of_kind kind kis.
Proof. unfold of_kind. rewrite filter_cons. simpl. by destruct (decide (k = kind)). Qed.

Lemma dedup_adds0_ok kis : forall d m,
  dedup_rep0 m d ->
  exists d' m', dedup_adds d kis = Done d' /\ window d' = window d /\ dedup_rep0 m' d' /\
    forall kind, default (false, []) (m' !! kind) =
      foldl (slide0 (ring_size (window d))) (default (false, []) (m !! kind)) (of_kind kind kis).
Proof.
  induction kis as [|[kind id] kis IH]; intros d m Hd; [by exists d, m|]. cbn [dedup_adds].
  destruct (dedup_rep0_add m d kind id Hd) as (d1 & -> & Hw1 & Hd1). cbn [obind].
  destruct (IH d1 _ Hd1) as (d2 & m2 & -> & Hw2 & Hd2 & Hm2). exists d2, m2.
  split_and!; [done|congruence|done|]. intros k. rewrite Hm2, Hw1, of_kind_cons. unfold slide0_kind.
  destruct (decide (kind = k)) as [<-|Hne]; [by rewrite lookup_insert_eq|by rewrite lookup_insert_ne].
Qed.

Lemma dedup_adds_ok kis : forall d m,
  dedup_rep m d -> Forall (fun ki => snd ki <> 0) kis ->
  exists d' m', dedup_adds d kis = Done d' /\ window d' = window d /\ dedup_rep m' d' /\
    forall kind, default [] (m' !! kind) =
      foldl (slide (ring_size (window d))) (default [] (m !! kind)) (of_kind kind kis).
Proof.
  induction kis as [|[kind id] kis IH]; intros d m Hd Hnz; [by exists d, m|].
  inversion_clear Hnz as [|?? Hid Hnz']. simpl in Hid. cbn [dedup_adds].
  destruct (dedup_rep_add m d kind id Hd Hid) as (d1 & -> & Hw1 & Hd1). cbn [obind].
  destruct (IH d1 _ Hd1 Hnz') as (d2 & m2 & -> & Hw2 & Hd2 & Hm2). exists d2, m2.
  split_and!; [done|congruence|done|]. intros k. rewrite Hm2, Hw1, of_kind_cons. unfold slide_kind.
  destruct (decide (kind = k)) as [<-|Hne]; [by rewrite lookup_insert_eq|by rewrite lookup_insert_ne].
Qed.

(** ** The window in terms of the ids themselves *)

(** The ids that go through the ring: of the zeros only the first does. *)
Fixpoint zero_once (ids : list Z) : list Z :=
  match ids with
  | [] => []
  | id :: ids => id :: (if Z.eqb id 0 then filter (fun i => i <> 0) ids else zero_once ids)
  end.

Lemma zero_once_snoc ids id :
  zero_once (ids ++ [id]) = zero_once ids ++ (if decide (id = 0 /\ 0 ∈ ids) then [] else [id]).
Proof.
  induction ids as [|i ids IH]; cbn [zero_once app].
  - rewrite decide_False by (intros [_ Hi]; by apply elem_of_nil in Hi). by destruct (Z.eqb id 0).
  - destruct (Z.eqb_spec i 0) as [->|Hne].
    + rewrite filter_app, filter_cons, filter_nil. destruct (decide (id = 0)) as [->|Hid].
      * rewrite decide_False by tauto. rewrite decide_True by (split; [done|left]). by rewrite !app_nil_r.
      * rewrite decide_True by done. rewrite decide_False by tauto. done.
    + rewrite IH. destruct (decide (id = 0 /\ 0 ∈ ids)) as [[H1 H2]|Hn].
      * rewrite decide_True by (split; [done|by right]). done.
      * rewrite decide_False; [done|]. intros [-> [Hi|Hi]%elem_of_cons]; [by destruct Hne|by apply Hn].
Qed.

(** Without a second zero these are all ids. *)
Lemma zero_once_nonzero ids : 0 ∉ ids -> zero_once ids = ids.
Proof.
  induction ids as [|i ids IH]; cbn [zero_once]; [done|]. intros [Hi Hr]%not_elem_of_cons.
  rewrite (proj2 (Z.eqb_neq _ _)) by done. by rewrite IH.
Qed.

Lemma zero_once_nodup ids : NoDup ids -> zero_once ids = ids.
Proof.
  induction 1 as [|i ids Hi Hnd IH]; cbn [zero_once]; [done|]. destruct (Z.eqb_spec i 0) as [->|_]; [|by rewrite IH].
  f_equal. apply filter_all. by intros j Hj ->.
Qed.

Lemma slide0_all w ids : foldl (slide0 w) (false, []) ids = (bool_decide (0 ∈ ids), slide_all w (zero_once ids)).
Proof.
  unfold slide_all. induction ids as [|id ids IH] using rev_ind; [done|]. rewrite foldl_app, IH, zero_once_snoc, foldl_app.
  cbn [foldl]. unfold slide0. cbn [fst snd]. destruct (decide (id = 0 /\ 0 ∈ ids)) as [[H1 H2]|Hn].
  - rewrite decide_True by (by rewrite bool_decide_eq_true). cbn [foldl]. f_equal. apply bool_decide_ext. set_solver.
  - rewrite decide_False by (by rewrite bool_decide_eq_true). cbn [foldl]. f_equal. apply eq_true_iff_eq.
    rewrite orb_true_iff, !bool_decide_eq_true, Z.eqb_eq, elem_of_app, list_elem_of_singleton. naive_solver.
Qed.

(** A window of distinct ids is their last [w]. *)
Lemma slide_all_nodup w ids :
  (0 < w)%nat -> NoDup ids -> slide_all w ids = drop (length ids - w) ids.
Proof.
  intros Hw. unfold slide_all. induction ids as [|i ids IH] using rev_ind; intros Hnd; [done|].
  apply NoDup_app in Hnd as (Hnd & Hdis & _). rewrite foldl_app, (IH Hnd). cbn [foldl]. unfold slide.
  rewrite decide_False.
  2: { intros Hin. apply (Hdis i); [|set_solver]. rewrite <- (take_drop (length ids - w) ids). set_solver. }
  rewrite length_drop, length_app. cbn [length]. destruct (decide (length ids < w)%nat) as [Hlt|Hge].
  - rewrite decide_True by lia. replace (length ids - w)%nat with 0%nat by lia.
    replace (length ids + 1 - w)%nat with 0%nat by lia. done.
  - rewrite decide_False by lia. rewrite drop_app_le by lia. f_equal.
    replace (length ids + 1 - w)%nat with (S (length ids - w)) by lia.
    destruct (lookup_lt_is_Some_2 ids (length ids - w)) as [x Hx]; [lia|].
    by rewrite (drop_S _ _ _ Hx).
Qed.

(** A window that has not overflowed remembers every id. *)
Lemma slide_all_short w ids i :
  (length ids <= w)%nat -> i ∈ slide_all w ids <-> i ∈ ids.
Proof.
  intros Hlen. enough ((i ∈ slide_all w ids <-> i ∈ ids) /\ (length (slide_all w ids) <= length ids)%nat) by tauto.
  unfold slide_all. induction ids as [|j ids IH] using rev_ind; [done|].
  rewrite length_app in *. cbn [length] in *. destruct IH as [Hm Hl]; [lia|]. rewrite foldl_app. cbn [foldl].
  unfold slide. set (q := foldl _ _ _) in *. destruct (decide (j ∈ q)) as [Hj|Hj].
  - split; [|lia]. rewrite elem_of_app, list_elem_of_singleton, <- Hm. naive_solver.
  - rewrite decide_True by lia. rewrite !elem_of_app, Hm. split; [done|]. rewrite length_app. cbn [length]. lia.
Qed.

(** ** Positions in range *)

(** Adding never panics, whatever the ids. *)
Definition dedup_ok (d : dedup) : Prop :=
  forall kind r, byKind d !! kind = Some r -> (pos r < length (ring r))%nat.

Lemma dedup_ok_new w : dedup_ok (newDedup w).
Proof. intros kind r. simpl. by rewrite lookup_empty. Qed.

Lemma dedup_add_safe d kind id :
  dedup_ok d -> exists d', dedup_add d kind id = Done d' /\ dedup_ok d' /\ window d' = window d.
Proof.
  intros Hd. unfold dedup_add. set (r := default _ _).
  assert (Hr : (pos r < length (ring r))%nat).
  { unfold r. destruct (byKind d !! kind) as [r0|] eqn:Hk; unfold default; [by apply (Hd kind)|].
    pose proof (rr_len _ _ _ (ring_rep_new (window d))). pose proof (rr_pos _ _ _ (ring_rep_new (window d))). lia. }
  assert (Ha : exists r', recentIDs_add r id = Done r' /\ (pos r' < length (ring r'))%nat).
  { unfold recentIDs_add. case_bool_decide; [eauto|].
    destruct (lookup_lt_is_Some_2 (ring r) (pos r) Hr) as [old ->]. eexists; split; [done|]. cbn [pos ring].
    rewrite length_insert. destruct (Nat.eqb_spec (S (pos r)) (length (ring r))); lia. }
  destruct Ha as (r' & -> & Hr'). cbn [obind]. eexists; split_and!; [done| |done].
  intros k r2. cbn [byKind]. rewrite lookup_insert. case_decide; [naive_solver|apply Hd].
Qed.
