(* ===== verification/Wal.v ===== *)
(** * The write-ahead log ([internal/wal/wal.go])

    The wrapper adds consecutive indexes and a lock to [github.com/tidwall/wal],
    which is a parameter: its operations are a class, and the documented
    behaviour the wrapper and the engine rely on is a second class of laws. The
    lock makes each operation atomic, so an operation is one function on the
    state of the log. [MemLog] is an implementation in memory that satisfies the
    laws. *)

From S2P Require Import Prelude.

Inductive wal_error :=
  | ErrNotFound
  | ErrOutOfRange
  | ErrOutOfOrder
  | ErrClosed
  | ErrBuild
  | ErrIO.

#[export] Instance wal_error_eq_dec : EqDecision wal_error.
Proof. solve_decision. Defined.

(** ** The third-party log *)

Class Twal (bytes log : Type) := {
  twal_FirstIndex : log -> Z + wal_error;
  twal_LastIndex : log -> Z + wal_error;
  twal_Read : log -> Z -> bytes + wal_error;
  twal_Write : log -> Z -> bytes -> log * option wal_error;
  twal_WriteBatch : log -> list (Z * bytes) -> log * option wal_error;
  twal_TruncateFront : log -> Z -> log * option wal_error;
  twal_Sync : log -> option wal_error;
  twal_Close : log -> log * option wal_error
}.

(** [holds l first ds]: the log's entries are [ds], at consecutive indexes from
    [first]; an empty log has first and last index zero. *)
Definition entry_at {bytes} (first : Z) (ds : list bytes) (i : Z) : option bytes :=
  if Z.leb first i then ds !! Z.to_nat (i - first) else None.

Record holds {bytes log} `{Twal bytes log} (l : log) (first : Z) (ds : list bytes) : Prop := {
  h_first : twal_FirstIndex l = inl (if decide (ds = []) then 0 else first);
  h_last : twal_LastIndex l = inl (if decide (ds = []) then 0 else first + Z.of_nat (length ds) - 1);
  h_read i : twal_Read l i = match entry_at first ds i with Some d => inl d | None => inr ErrNotFound end;
  h_pos : 1 <= first;
  h_range : first + Z.of_nat (length ds) < two64
}.

(** The documented behaviour of an open log: a write succeeds at the next index
    only and appends; a truncation to an index of the log keeps the entries from
    that index on; one to any other index, and no other, is refused as out of range
    and changes nothing. *)
Class TwalLaws (bytes log : Type) `{Twal bytes log} := {
  twal_write_first l first d l' :
    holds l first [] -> twal_Write l 1 d = (l', None) -> holds l' 1 [d];
  twal_write_next l first ds d l' :
    holds l first ds -> ds <> [] ->
    twal_Write l (first + Z.of_nat (length ds)) d = (l', None) ->
    first + Z.of_nat (length ds) + 1 < two64 -> holds l' first (ds ++ [d]);
  twal_truncate l first ds i l' :
    holds l first ds -> first <= i < first + Z.of_nat (length ds) ->
    twal_TruncateFront l i = (l', None) -> holds l' i (drop (Z.to_nat (i - first)) ds);
  twal_truncate_range l first ds i :
    holds l first ds -> ~ first <= i < first + Z.of_nat (length ds) ->
    twal_TruncateFront l i = (l, Some ErrOutOfRange);
  twal_truncate_refused l first ds i l' :
    holds l first ds -> twal_TruncateFront l i = (l', Some ErrOutOfRange) -> ~ first <= i < first + Z.of_nat (length ds)
}.

(** ** The wrapper *)

Section wal.
Context {bytes log : Type} `{!Twal bytes log}.

Definition AppendWithIndex (w : log) (builder : Z -> option bytes) : log * (Z + wal_error) :=
  match twal_LastIndex w with
  | inr e => (w, inr e)
  | inl last =>
      let index := last ⊕ 1 in
      match builder index with
      | None => (w, inr ErrBuild)
      | Some data =>
          match twal_Write w index data with
          | (w, Some e) => (w, inr e)
          | (w, None) => (w, inl index)
          end
      end
  end.

Definition Append (w : log) (data : bytes) : log * (Z + wal_error) :=
  AppendWithIndex w (fun _ => Some data).

Definition batch_entries (last : Z) (datas : list bytes) : list (Z * bytes) :=
  imap (fun i data => (last ⊕ 1 ⊕ Z.of_nat i, data)) datas.

Definition AppendBatch (w : log) (datas : list bytes) : log * (Z + wal_error) :=
  match datas with
  | [] => (w, inl 0)
  | _ =>
      match twal_LastIndex w with
      | inr e => (w, inr e)
      | inl last =>
          match twal_WriteBatch w (batch_entries last datas) with
          | (w, Some e) => (w, inr e)
          | (w, None) => (w, inl (last ⊕ 1))
          end
      end
  end.

Definition Read (w : log) (index : Z) : bytes + wal_error := twal_Read w index.
Definition FirstIndex (w : log) : Z + wal_error := twal_FirstIndex w.
Definition LastIndex (w : log) : Z + wal_error := twal_LastIndex w.
Definition TruncateFront (w : log) (index : Z) : log * option wal_error := twal_TruncateFront w index.
Definition Sync (w : log) : option wal_error := twal_Sync w.

(** Closing a log twice is not an error. *)
Definition Close (w : option log) : option log * option wal_error :=
  match w with
  | None => (None, None)
  | Some w =>
      let '(w, err) := twal_Close w in
      (Some w, match err with
               | Some ErrClosed => None
               | _ => err
               end)
  end.

(** *** Laws of the wrapper *)
Context `{!TwalLaws bytes log}.

(** A log that starts at index 1, or has been truncated and is not empty. *)
Definition started (first : Z) (ds : list bytes) : Prop := ds = [] -> first = 1.

Definition next_index (first : Z) (ds : list bytes) : Z := first + Z.of_nat (length ds).

Lemma append_holds w first ds builder w' i :
  holds w first ds -> started first ds -> next_index first ds + 1 < two64 ->
  AppendWithIndex w builder = (w', inl i) ->
  i = next_index first ds /\ exists d, builder i = Some d /\ holds w' first (ds ++ [d]) /\ started first (ds ++ [d]).
Proof.
  intros Hh Hs Hr. unfold AppendWithIndex. rewrite (h_last _ _ _ Hh).
  assert (Hi : (if decide (ds = []) then 0 else first + Z.of_nat (length ds) - 1) ⊕ 1 = next_index first ds).
  { pose proof (h_pos _ _ _ Hh). unfold next_index in *. case_decide as Hd.
    - rewrite (Hs Hd), Hd. done.
    - rewrite add64_exact; lia. }
  rewrite Hi. destruct (builder (next_index first ds)) as [d|] eqn:Hb; [|done].
  destruct (twal_Write w (next_index first ds) d) as [w1 [e|]] eqn:Hw; [done|]. intros [= -> <-].
  split; [done|]. exists d. assert (Hst : started first (ds ++ [d])) by (intros Hn; destruct ds; done).
  split_and!; [done| |done]. destruct (decide (ds = [])) as [Hd|Hd].
  - specialize (Hs Hd). subst. eapply twal_write_first; [done|]. exact Hw.
  - by eapply twal_write_next.
Qed.

Lemma entry_at_app first (ds : list bytes) d i :
  entry_at first (ds ++ [d]) i =
  if decide (i = next_index first ds) then Some d else entry_at first ds i.
Proof.
  unfold entry_at, next_index. case_decide as He.
  - subst. destruct (Z.leb_spec first (first + Z.of_nat (length ds))); [|lia].
    replace (Z.to_nat (first + Z.of_nat (length ds) - first)) with (length ds) by lia.
    by rewrite list_lookup_middle.
  - destruct (Z.leb_spec first i); [|done]. destruct (decide (Z.to_nat (i - first) < length ds)%nat).
    + by rewrite lookup_app_l.
    + rewrite !lookup_ge_None_2; [done|lia|rewrite length_app; simpl; lia].
Qed.

Lemma entry_at_drop first (ds : list bytes) i j :
  first <= i -> i <= j -> entry_at i (drop (Z.to_nat (i - first)) ds) j = entry_at first ds j.
Proof.
  intros Hi Hj. unfold entry_at. destruct (Z.leb_spec i j), (Z.leb_spec first j); try lia.
  rewrite lookup_drop. f_equal. lia.
Qed.
End wal.

(** ** A log in memory *)

Record MemLog (bytes : Type) := mkMemLog {
  m_first : Z;
  m_data : list bytes
}.
Arguments mkMemLog {bytes} _ _.
Arguments m_first {bytes} _.
Arguments m_data {bytes} _.

Section memory.
Context {bytes : Type}.
Implicit Types (l : MemLog bytes).

Definition mem_empty l : bool := match m_data l with [] => true | _ => false end.
Definition mem_last l : Z := if mem_empty l then 0 else m_first l + Z.of_nat (length (m_data l)) - 1.

(** The first entry of an empty log is at index 1. *)
Definition mem_write l (i : Z) (d : bytes) : MemLog bytes * option wal_error :=
  if Z.eqb i (mem_last l + 1)
  then (if mem_empty l then mkMemLog i [d] else mkMemLog (m_first l) (m_data l ++ [d]), None)
  else (l, Some ErrOutOfOrder).

Definition mem_write_batch l (b : list (Z * bytes)) : MemLog bytes * option wal_error :=
  foldl (fun '(l', e) '(i, d) => match e with Some _ => (l, e) | None => mem_write l' i d end) (l, None) b.

Definition mem_truncate l (i : Z) : MemLog bytes * option wal_error :=
  if bool_decide (m_first l <= i < m_first l + Z.of_nat (length (m_data l)))
  then (mkMemLog i (drop (Z.to_nat (i - m_first l)) (m_data l)), None)
  else (l, Some ErrOutOfRange).

#[export] Instance mem_twal : Twal bytes (MemLog bytes) := {
  twal_FirstIndex l := inl (if mem_empty l then 0 else m_first l);
  twal_LastIndex l := inl (mem_last l);
  twal_Read l i := match entry_at (m_first l) (m_data l) i with Some d => inl d | None => inr ErrNotFound end;
  twal_Write := mem_write;
  twal_WriteBatch := mem_write_batch;
  twal_TruncateFront := mem_truncate;
  twal_Sync l := None;
  twal_Close l := (l, None)
}.

Lemma mem_holds l :
  1 <= m_first l -> m_first l + Z.of_nat (length (m_data l)) < two64 -> holds l (m_first l) (m_data l).
Proof.
  intros H1 H2. split; simpl; try done; unfold mem_last, mem_empty; by destruct (m_data l).
Qed.

(** The log in memory is determined by what it holds. *)
Lemma mem_holds_inv l first ds :
  holds l first ds -> m_data l = ds /\ (ds <> [] -> m_first l = first).
Proof.
  intros Hh. pose proof (h_pos _ _ _ Hh) as Hpos.
  pose proof (h_first _ _ _ Hh) as Hf. pose proof (h_last _ _ _ Hh) as Hl. simpl in Hf, Hl.
  injection Hf as Hf. injection Hl as Hl.
  assert (Hr : forall i, entry_at (m_first l) (m_data l) i = entry_at first ds i).
  { intros i. pose proof (h_read _ _ _ Hh i) as Hr. simpl in Hr. repeat case_match; naive_solver. }
  unfold mem_last, mem_empty in *. destruct (m_data l) as [|d k] eqn:Hd.
  - destruct (decide (ds = [])) as [->|Hne]; [done|lia].
  - assert (Hne : ds <> []).
    { intros ->. specialize (Hr (m_first l)). unfold entry_at in Hr. rewrite Z.leb_refl, Z.sub_diag in Hr.
      simpl in Hr. by destruct (first <=? m_first l). }
    rewrite decide_False in Hf, Hl by done. split; [|done]. apply list_eq. intros n.
    specialize (Hr (first + Z.of_nat n)). unfold entry_at in Hr. rewrite Hf in Hr.
    destruct (Z.leb_spec first (first + Z.of_nat n)); [|lia].
    by replace (Z.to_nat (first + Z.of_nat n - first)) with n in Hr by lia.
Qed.

#[export] Instance mem_laws : TwalLaws bytes (MemLog bytes).
Proof.
  split; simpl.
  - intros l first d l' [Hd _]%mem_holds_inv. unfold mem_write, mem_last, mem_empty. rewrite Hd. simpl.
    intros [= <-]. by apply (mem_holds (mkMemLog 1 [d])).
  - intros l first ds d l' Hh Hne. pose proof (h_pos _ _ _ Hh). destruct (mem_holds_inv _ _ _ Hh) as [Hd Hf].
    specialize (Hf Hne). unfold mem_write, mem_last, mem_empty. rewrite Hd, Hf.
    destruct ds as [|x ds]; [done|]. replace (first + Z.of_nat (length (x :: ds)) - 1 + 1) with
      (first + Z.of_nat (length (x :: ds))) by lia. rewrite Z.eqb_refl. intros [= <-] Hr.
    apply (mem_holds (mkMemLog first ((x :: ds) ++ [d]))); [done|]. cbn [m_first m_data]. rewrite length_app.
    cbn [length] in *. lia.
  - intros l first ds i l' Hh Hi. pose proof (h_pos _ _ _ Hh). pose proof (h_range _ _ _ Hh).
    destruct (mem_holds_inv _ _ _ Hh) as [Hd Hf].
    assert (Hne : ds <> []) by (intros ->; simpl in *; lia). specialize (Hf Hne). unfold mem_truncate.
    rewrite Hd, Hf, bool_decide_eq_true_2 by done. intros [= <-].
    apply (mem_holds (mkMemLog i (drop (Z.to_nat (i - first)) ds))); cbn [m_first m_data]; [lia|].
    rewrite length_drop. lia.
  - intros l first ds i Hh Hi. destruct (mem_holds_inv _ _ _ Hh) as [Hd Hf]. unfold mem_truncate. rewrite Hd.
    destruct (decide (ds = [])) as [->|Hne].
    + rewrite bool_decide_eq_false_2; [done|]. simpl. lia.
    + by rewrite (Hf Hne), bool_decide_eq_false_2.
  - intros l first ds i l' Hh. destruct (mem_holds_inv _ _ _ Hh) as [Hd Hf]. unfold mem_truncate. rewrite Hd.
    case_bool_decide as Hi; [done|]. intros _ Hin. apply Hi. destruct (decide (ds = [])) as [->|Hne]; [simpl in Hin; lia|by rewrite (Hf Hne)].
Qed.
End memory.
