(* ===== verification/Metrics.v ===== *)
(** * Measurements of the two consumers ([internal/metrics])

    The counters of [PublisherReporter] and [DBProjectorReporter]: what a
    completed batch adds, and what a log window reports and resets. A duration is
    an [int64] number of nanoseconds, added with wrap-around and divided towards
    zero. The log line of a window is the record of the numbers it prints.

    Each reporter has a goroutine that logs a window at every tick of its timer,
    while the consumer records batches. The lock of the reporter makes a record
    and a window atomic, so a run is a sequence of both. [reporter_run] is the loop
    of [Run], for either reporter; every batch is reported in exactly one window. *)

From S2P Require Import Prelude Domain Wal.

Abbreviation Duration := Z (only parsing).

Definition dur_add (a b : Duration) : Duration := i64 (a + b).
(** Division of two durations panics on zero. *)
Definition dur_div (a b : Duration) : outcome Duration :=
  if Z.eqb b 0 then Panicked DivideByZero else Done (i64 (Z.quot a b)).
(** [if x > m { m = x }]. *)
Definition raise_max (x m : Duration) : Duration := if Z.gtb x m then x else m.

(** ** The event publisher *)

Record PublisherReporter := mkPublisherReporter {
  pr_completed : Z; pr_events : Z;
  pr_walWaitTotal : Duration; pr_walWaitMax : Duration;
  pr_mqTotal : Duration; pr_mqMax : Duration;
  pr_totalTotal : Duration; pr_totalMax : Duration }.

Record PublisherRecord := mkPublisherRecord {
  rec_EventCount : Z; rec_WALWait : Duration; rec_MQConfirm : Duration; rec_WALToMQ : Duration }.

Definition NewPublisherReporter : PublisherReporter := mkPublisherReporter 0 0 0 0 0 0 0 0.

Definition PublisherReporter_Record (record : PublisherRecord) (r : PublisherReporter) : PublisherReporter :=
  mkPublisherReporter (pr_completed r ⊕ 1) (pr_events r ⊕ u64 (rec_EventCount record))
    (dur_add (pr_walWaitTotal r) (rec_WALWait record)) (raise_max (rec_WALWait record) (pr_walWaitMax r))
    (dur_add (pr_mqTotal r) (rec_MQConfirm record)) (raise_max (rec_MQConfirm record) (pr_mqMax r))
    (dur_add (pr_totalTotal r) (rec_WALToMQ record)) (raise_max (rec_WALToMQ record) (pr_totalMax r)).

(** The counters are copied and set to zero. *)
Definition publisher_snapshotAndReset (r : PublisherReporter) : PublisherReporter * PublisherReporter :=
  (r, NewPublisherReporter).

(** The numbers of one log line; the averages are absent in an idle window. *)
Record window_line := mkWindowLine {
  wl_outputLast : Z; wl_done : Z; wl_backlog : Z; wl_produced : Z; wl_completed : Z; wl_events : Z;
  wl_durations : list (Duration * Duration) }.

Definition logPublisherWindow (outputLast published backlog produced : Z) (s : PublisherReporter) : outcome window_line :=
  if Z.eqb (pr_completed s) 0
  then Done (mkWindowLine outputLast published backlog produced 0 0 [])
  else
    let count := i64 (pr_completed s) in
    walWait <~ dur_div (pr_walWaitTotal s) count;
    mq <~ dur_div (pr_mqTotal s) count;
    total <~ dur_div (pr_totalTotal s) count;
    Done (mkWindowLine outputLast published backlog produced (pr_completed s) (pr_events s)
      [(walWait, pr_walWaitMax s); (mq, pr_mqMax s); (total, pr_totalMax s)]).

(** What was appended and not yet handled, and what was appended in the window. *)
Definition backlog_of (currentLast handled : Z) : Z := if Z.gtb currentLast handled then currentLast ⊖ handled else 0.
Definition produced_of (currentLast last : Z) : Z := if Z.geb currentLast last then currentLast ⊖ last else 0.

(** The reporter, the last index seen, and the line if one is printed. *)
Definition publisher_logWindow (outputLast : Z + wal_error) (published last : Z) (r : PublisherReporter) :
    outcome (PublisherReporter * Z * option window_line) :=
  match outputLast with
  | inr _ => Done (r, last, None)
  | inl currentLast =>
      let backlog := backlog_of currentLast published in
      let produced := produced_of currentLast last in
      let '(s, r) := publisher_snapshotAndReset r in
      if Z.eqb produced 0 && Z.eqb (pr_completed s) 0 && Z.eqb backlog 0
      then Done (r, currentLast, None)
      else line <~ logPublisherWindow currentLast published backlog produced s; Done (r, currentLast, Some line)
  end.

(** ** The database projector *)

Record DBProjectorReporter := mkDBProjectorReporter {
  dr_completed : Z; dr_events : Z;
  dr_waitTotal : Duration; dr_waitMax : Duration;
  dr_dbTotal : Duration; dr_dbMax : Duration }.

Record DBProjectorRecord := mkDBProjectorRecord {
  drec_EventCount : Z; drec_WALWait : Duration; drec_DBApply : Duration }.

Definition NewDBProjectorReporter : DBProjectorReporter := mkDBProjectorReporter 0 0 0 0 0 0.

Definition DBProjectorReporter_Record (record : DBProjectorRecord) (r : DBProjectorReporter) : DBProjectorReporter :=
  mkDBProjectorReporter (dr_completed r ⊕ 1) (dr_events r ⊕ u64 (drec_EventCount record))
    (dur_add (dr_waitTotal r) (drec_WALWait record)) (raise_max (drec_WALWait record) (dr_waitMax r))
    (dur_add (dr_dbTotal r) (drec_DBApply record)) (raise_max (drec_DBApply record) (dr_dbMax r)).

Definition projector_snapshotAndReset (r : DBProjectorReporter) : DBProjectorReporter * DBProjectorReporter :=
  (r, NewDBProjectorReporter).

Definition projector_logWindow (outputLast : Z + wal_error) (applied last : Z) (r : DBProjectorReporter) :
    outcome (DBProjectorReporter * Z * option window_line) :=
  match outputLast with
  | inr _ => Done (r, last, None)
  | inl currentLast =>
      let backlog := backlog_of currentLast applied in
      let produced := produced_of currentLast last in
      let '(s, r) := projector_snapshotAndReset r in
      if Z.eqb produced 0 && Z.eqb (dr_completed s) 0 && Z.eqb backlog 0 then Done (r, currentLast, None)
      else if Z.eqb (dr_completed s) 0
      then Done (r, currentLast, Some (mkWindowLine currentLast applied backlog produced 0 0 []))
      else
        let count := i64 (dr_completed s) in
        wait <~ dur_div (dr_waitTotal s) count;
        db <~ dur_div (dr_dbTotal s) count;
        Done (r, currentLast, Some (mkWindowLine currentLast applied backlog produced (dr_completed s) (dr_events s)
          [(wait, dr_waitMax s); (db, dr_dbMax s)]))
  end.

(** ** Totals, maxima and averages *)

(** Non-negative durations whose sum fits an [int64]. *)
Definition summable (ds : list Duration) : Prop := Forall (fun d => 0 <= d) ds /\ lsum id ds <= MaxInt64.

Definition total_of (ds : list Duration) : Duration := foldl dur_add 0 ds.
Definition max_of (ds : list Duration) : Duration := foldl (flip raise_max) 0 ds.

Lemma lsum_id_cons (d : Z) ds : lsum id (d :: ds) = d + lsum id ds.
Proof. done. Qed.

Lemma total_acc ds t : 0 <= t -> Forall (fun d => 0 <= d) ds -> t + lsum id ds <= MaxInt64 ->
  foldl dur_add t ds = t + lsum id ds.
Proof.
  revert t. induction ds as [|d ds IH]; intros t Ht Hd Hs; [simpl; lia|]. inversion_clear Hd as [|?? Hd0 Hd1].
  rewrite lsum_id_cons in *. simpl. unfold dur_add at 2.
  assert (0 <= lsum id ds) by (apply lsum_nonneg; by rewrite <- Forall_forall).
  rewrite i64_small by lia. rewrite IH; [lia|lia|done|lia].
Qed.

Lemma total_exact ds : summable ds -> total_of ds = lsum id ds.
Proof. intros [Hd Hs]. unfold total_of. rewrite total_acc; [lia|lia|done|lia]. Qed.

Lemma max_acc ds m : m <= foldl (flip raise_max) m ds /\ Forall (fun d => d <= foldl (flip raise_max) m ds) ds.
Proof.
  revert m. induction ds as [|d ds IH]; intros m; [split; [simpl; lia|constructor]|].
  destruct (IH (raise_max d m)) as [H1 H2]. cbn [foldl]. change (flip raise_max m d) with (raise_max d m).
  unfold raise_max in H1 at 1. rewrite Z.gtb_ltb in H1. split; [|constructor; [|done]]; destruct (Z.ltb_spec m d); lia.
Qed.

Lemma sum_le_max ds : Forall (fun d => 0 <= d) ds -> 0 <= lsum id ds <= Z.of_nat (length ds) * max_of ds.
Proof.
  intros Hd. split; [apply lsum_nonneg; by rewrite <- Forall_forall|].
  destruct (max_acc ds 0) as [_ Hm]. unfold max_of. revert Hm. generalize (foldl (flip raise_max) 0 ds) as m.
  intros m Hm. clear Hd. induction ds as [|d ds IH]; [simpl; lia|]. inversion_clear Hm as [|?? H1 H2].
  rewrite lsum_id_cons. cbn [length]. specialize (IH H2). lia.
Qed.

(** The average of the durations of a window is at most their maximum. *)
Lemma average_le_max ds :
  summable ds -> ds <> [] -> Z.of_nat (length ds) <= MaxInt64 ->
  exists avg, dur_div (total_of ds) (i64 (Z.of_nat (length ds))) = Done avg /\ 0 <= avg <= max_of ds.
Proof.
  intros Hs Hne Hl. assert (0 < length ds)%nat by (destruct ds; [done|simpl; lia]).
  rewrite (total_exact _ Hs). destruct Hs as [Hd Hs]. destruct (sum_le_max ds Hd) as [Hp Hm].
  rewrite (i64_small (Z.of_nat (length ds))) by (unfold MaxInt64 in *; lia). unfold dur_div.
  destruct (Z.eqb_spec (Z.of_nat (length ds)) 0); [lia|]. eexists. split; [done|].
  rewrite Z.quot_div_nonneg by lia.
  assert (0 <= lsum id ds / Z.of_nat (length ds)) by (apply Z.div_pos; lia).
  assert (lsum id ds / Z.of_nat (length ds) <= lsum id ds) by (apply Z.div_le_upper_bound; nia).
  rewrite i64_small by (unfold MaxInt64 in *; lia).
  split; [lia|]. apply Z.div_le_upper_bound; lia.
Qed.

(** The counters after a sequence of batches. *)
Lemma publisher_records rs :
  Z.of_nat (length rs) < two64 ->
  let r := foldl (flip PublisherReporter_Record) NewPublisherReporter rs in
  pr_completed r = Z.of_nat (length rs) /\
  pr_walWaitTotal r = total_of (rec_WALWait <$> rs) /\ pr_walWaitMax r = max_of (rec_WALWait <$> rs) /\
  pr_mqTotal r = total_of (rec_MQConfirm <$> rs) /\ pr_mqMax r = max_of (rec_MQConfirm <$> rs) /\
  pr_totalTotal r = total_of (rec_WALToMQ <$> rs) /\ pr_totalMax r = max_of (rec_WALToMQ <$> rs).
Proof.
  induction rs as [|x rs IH] using rev_ind; [done|]. rewrite length_app. cbn [length]. intros Hl.
  cbv zeta in *. destruct IH as (I1 & I2 & I3 & I4 & I5 & I6 & I7); [lia|].
  rewrite foldl_snoc, !fmap_app. unfold total_of, max_of in *. cbn [fmap list_fmap]. rewrite !foldl_snoc.
  cbn [flip PublisherReporter_Record pr_completed pr_walWaitTotal pr_walWaitMax pr_mqTotal
    pr_mqMax pr_totalTotal pr_totalMax]. rewrite <- I2, <- I3, <- I4, <- I5, <- I6, <- I7.
  split_and!; try done. rewrite I1, add64_exact; lia.
Qed.

Lemma projector_records rs :
  Z.of_nat (length rs) < two64 ->
  let r := foldl (flip DBProjectorReporter_Record) NewDBProjectorReporter rs in
  dr_completed r = Z.of_nat (length rs) /\
  dr_waitTotal r = total_of (drec_WALWait <$> rs) /\ dr_waitMax r = max_of (drec_WALWait <$> rs) /\
  dr_dbTotal r = total_of (drec_DBApply <$> rs) /\ dr_dbMax r = max_of (drec_DBApply <$> rs).
Proof.
  induction rs as [|x rs IH] using rev_ind; [done|]. rewrite length_app. cbn [length]. intros Hl.
  cbv zeta in *. destruct IH as (I1 & I2 & I3 & I4 & I5); [lia|].
  rewrite foldl_snoc, !fmap_app. unfold total_of, max_of in *. cbn [fmap list_fmap]. rewrite !foldl_snoc.
  cbn [flip DBProjectorReporter_Record dr_completed dr_waitTotal dr_waitMax dr_dbTotal dr_dbMax].
  rewrite <- I2, <- I3, <- I4, <- I5. split_and!; try done. rewrite I1, add64_exact; lia.
Qed.

(** ** A log window *)

(** The counters after some batches. *)
Definition recorded_batches (rs : list PublisherRecord) : PublisherReporter :=
  foldl (flip PublisherReporter_Record) NewPublisherReporter rs.
Definition applied_batches (rs : list DBProjectorRecord) : DBProjectorReporter :=
  foldl (flip DBProjectorReporter_Record) NewDBProjectorReporter rs.

(** Durations that a reporter can add up. *)
Definition publisher_durations (rs : list PublisherRecord) : Prop :=
  summable (rec_WALWait <$> rs) /\ summable (rec_MQConfirm <$> rs) /\ summable (rec_WALToMQ <$> rs).
Definition projector_durations (rs : list DBProjectorRecord) : Prop :=
  summable (drec_WALWait <$> rs) /\ summable (drec_DBApply <$> rs).

(** A line for [n] batches; without a line there were none. *)
Definition sound_line (n : nat) (line : option window_line) : Prop :=
  match line with
  | None => n = 0%nat
  | Some line => wl_completed line = Z.of_nat n /\ Forall (fun '(avg, mx) => 0 <= avg <= mx) (wl_durations line)
  end.

(** The average of one column of the records. *)
Lemma column_average {R} (f : R -> Duration) (rs : list R) :
  summable (f <$> rs) -> Z.of_nat (length rs) <> 0 -> Z.of_nat (length rs) <= MaxInt64 ->
  exists avg, dur_div (total_of (f <$> rs)) (i64 (Z.of_nat (length rs))) = Done avg /\ 0 <= avg <= max_of (f <$> rs).
Proof.
  intros Hs Hne Hl. destruct (average_le_max _ Hs) as (avg & He & Hb); [by destruct rs|by rewrite length_fmap|].
  rewrite length_fmap in He. eauto.
Qed.

Lemma publisher_window rs currentLast published last :
  publisher_durations rs -> Z.of_nat (length rs) <= MaxInt64 ->
  exists line, publisher_logWindow (inl currentLast) published last (recorded_batches rs) =
    Done (NewPublisherReporter, currentLast, line) /\ sound_line (length rs) line.
Proof.
  intros (S1 & S2 & S3) Hl. assert (Hl' : Z.of_nat (length rs) < two64) by (unfold MaxInt64, two64 in *; lia).
  destruct (publisher_records rs Hl') as (R1 & R2 & R3 & R4 & R5 & R6 & R7). cbv zeta in *.
  unfold publisher_logWindow, publisher_snapshotAndReset, logPublisherWindow, recorded_batches. rewrite R1, R2, R3, R4, R5, R6, R7.
  destruct (Z.eqb_spec (Z.of_nat (length rs)) 0) as [Hz|Hnz].
  { destruct rs; [|done]. destruct (Z.eqb _ 0 && true && Z.eqb _ 0); [by exists None|]. eexists (Some _). cbn. split; [done|].
    split; [done|constructor]. }
  rewrite andb_false_r. cbn [andb].
  destruct (column_average rec_WALWait rs S1 Hnz Hl) as (a1 & -> & B1). destruct (column_average rec_MQConfirm rs S2 Hnz Hl) as (a2 & -> & B2).
  destruct (column_average rec_WALToMQ rs S3 Hnz Hl) as (a3 & -> & B3). cbn [obind]. eexists (Some _). split; [done|].
  split; [done|]. cbn [wl_durations]. by rewrite !Forall_cons.
Qed.

Lemma projector_window rs currentLast applied last :
  projector_durations rs -> Z.of_nat (length rs) <= MaxInt64 ->
  exists line, projector_logWindow (inl currentLast) applied last (applied_batches rs) =
    Done (NewDBProjectorReporter, currentLast, line) /\ sound_line (length rs) line.
Proof.
  intros (S1 & S2) Hl. assert (Hl' : Z.of_nat (length rs) < two64) by (unfold MaxInt64, two64 in *; lia).
  destruct (projector_records rs Hl') as (R1 & R2 & R3 & R4 & R5). cbv zeta in *.
  unfold projector_logWindow, projector_snapshotAndReset, applied_batches. rewrite R1, R2, R3, R4, R5.
  destruct (Z.eqb_spec (Z.of_nat (length rs)) 0) as [Hz|Hnz].
  { destruct rs; [|done]. destruct (Z.eqb _ 0 && true && Z.eqb _ 0); [by exists None|]. eexists (Some _). cbn. split; [done|].
    split; [done|constructor]. }
  rewrite andb_false_r. cbn [andb].
  destruct (column_average drec_WALWait rs S1 Hnz Hl) as (a1 & -> & B1). destruct (column_average drec_DBApply rs S2 Hnz Hl) as (a2 & -> & B2).
  cbn [obind]. eexists (Some _). split; [done|]. split; [done|]. cbn [wl_durations]. by rewrite !Forall_cons.
Qed.

(** What happens to a reporter: the consumer records a batch, or the timer ticks;
    then the loop reads the last index of the output log and the consumer's
    position. *)
Inductive reporter_event (record : Type) :=
  | Recorded (r : record)
  | Ticked (outputLast : Z + wal_error) (handled : Z).
Arguments Recorded {record} r.
Arguments Ticked {record} outputLast handled.

Section reporter.
Context {R record : Type} (Record : record -> R -> R).
Context (logWindow : Z + wal_error -> Z -> Z -> R -> outcome (R * Z * option window_line)).

(** The index that the first window starts from. *)
Definition reporter_start (outputLast : Z + wal_error) : Z :=
  match outputLast with inl last => last | inr _ => 0 end.

(** The loop, with the lines that it logs. *)
Fixpoint reporter_loop (evs : list (reporter_event record)) (last : Z) (r : R) : outcome (R * Z * list window_line) :=
  match evs with
  | [] => Done (r, last, [])
  | Recorded rec :: evs => reporter_loop evs last (Record rec r)
  | Ticked outputLast handled :: evs =>
      '(r, last, line) <~ logWindow outputLast handled last r;
      '(r, last, lines) <~ reporter_loop evs last r;
      Done (r, last, option_list line ++ lines)
  end.

Definition reporter_run (first : Z + wal_error) (evs : list (reporter_event record)) (r : R) : outcome (R * Z * list window_line) :=
  reporter_loop evs (reporter_start first) r.
End reporter.

(** The reporters of the two consumers. *)
Definition PublisherReporter_Run := reporter_run PublisherReporter_Record publisher_logWindow.
Definition DBProjectorReporter_Run := reporter_run DBProjectorReporter_Record projector_logWindow.

(** ** Every batch is in one window *)

Definition recorded {record} (evs : list (reporter_event record)) : list record :=
  omap (fun ev => match ev with Recorded r => Some r | Ticked _ _ => None end) evs.

Section reported.
Context {R record : Type} (Record : record -> R -> R) (New : R).
Context (logWindow : Z + wal_error -> Z -> Z -> R -> outcome (R * Z * option window_line)).
Context (measurable : list record -> Prop).
Hypothesis (measurable_app : forall rs1 rs2, measurable (rs1 ++ rs2) -> measurable rs1 /\ measurable rs2).
Hypothesis (window_fails : forall err handled last r, logWindow (inr err) handled last r = Done (r, last, None)).
Hypothesis (window_logs : forall current handled last rs, measurable rs -> exists line,
  logWindow (inl current) handled last (foldl (flip Record) New rs) = Done (New, current, line) /\ sound_line (length rs) line).

Definition averages_ok (line : window_line) : Prop := Forall (fun '(avg, mx) => 0 <= avg <= mx) (wl_durations line).

(** [rs]: the batches recorded since the last window; [left]: those after the
    last window of the run. *)
Lemma reporter_loop_ok evs last rs :
  measurable (rs ++ recorded evs) ->
  exists left last' lines, reporter_loop Record logWindow evs last (foldl (flip Record) New rs) =
    Done (foldl (flip Record) New left, last', lines) /\
    lsum wl_completed lines + Z.of_nat (length left) = Z.of_nat (length rs) + Z.of_nat (length (recorded evs)) /\
    Forall averages_ok lines /\ measurable left.
Proof.
  revert last rs. induction evs as [|[rec|[current|err] handled] evs IH]; intros last rs Hm; cbn [reporter_loop].
  - exists rs, last, []. split_and!; [done|unfold recorded; csimpl; lia|done|by apply measurable_app in Hm as [? _]].
  - destruct (IH last (rs ++ [rec])) as (left & last' & lines & He & Hl & Ha & Hm').
    { revert Hm. unfold recorded. csimpl. by rewrite <- app_assoc. }
    exists left, last', lines. rewrite foldl_snoc in He. split_and!; [done| |done|done]. revert Hl. unfold recorded. csimpl. rewrite length_app. cbn. lia.
  - unfold recorded in *. csimpl in *. fold (recorded evs) in *. destruct (measurable_app _ _ Hm) as [Hrs Hevs].
    destruct (window_logs current handled last rs Hrs) as (line & -> & Hs). cbn [obind].
    destruct (IH current [] Hevs) as (left & last' & lines & He & Hl & Ha & Hm'). cbn [foldl] in He. rewrite He. cbn [obind].
    exists left, last', (option_list line ++ lines). split; [done|]. destruct line as [line|]; cbn [sound_line option_list app length] in *.
    + destruct Hs as [Hc Hd]. split_and!; [change (option_list (Some line) ++ lines) with (line :: lines); rewrite lsum_cons; cbn [length] in Hl; lia|by apply Forall_cons|done].
    + rewrite Hs. split_and!; [change (option_list None ++ lines) with lines; lia|done|done].
  - rewrite window_fails. cbn [obind]. unfold recorded in *. csimpl in *. fold (recorded evs) in *.
    destruct (IH last rs Hm) as (left & last' & lines & -> & Hl & Ha & Hm'). cbn [obind]. by exists left, last', lines.
Qed.
End reported.

(** ** Both reporters *)

Lemma summable_app ds1 ds2 : summable (ds1 ++ ds2) -> summable ds1 /\ summable ds2.
Proof.
  intros [[H1 H2]%Forall_app Hs]. rewrite lsum_app in Hs.
  assert (0 <= lsum id ds1) by (apply lsum_nonneg; by rewrite <- Forall_forall).
  assert (0 <= lsum id ds2) by (apply lsum_nonneg; by rewrite <- Forall_forall).
  split; (split; [done|lia]).
Qed.

Definition publisher_measurable rs : Prop := publisher_durations rs /\ Z.of_nat (length rs) <= MaxInt64.
Definition projector_measurable rs : Prop := projector_durations rs /\ Z.of_nat (length rs) <= MaxInt64.

Lemma publisher_measurable_app rs1 rs2 :
  publisher_measurable (rs1 ++ rs2) -> publisher_measurable rs1 /\ publisher_measurable rs2.
Proof.
  unfold publisher_measurable, publisher_durations. rewrite !fmap_app, length_app.
  intros ((?%summable_app & ?%summable_app & ?%summable_app) & Hl). naive_solver lia.
Qed.

Lemma projector_measurable_app rs1 rs2 :
  projector_measurable (rs1 ++ rs2) -> projector_measurable rs1 /\ projector_measurable rs2.
Proof.
  unfold projector_measurable, projector_durations. rewrite !fmap_app, length_app.
  intros ((?%summable_app & ?%summable_app) & Hl). naive_solver lia.
Qed.

Lemma PublisherReporter_Run_ok first evs :
  publisher_measurable (recorded evs) ->
  exists r last lines, PublisherReporter_Run first evs NewPublisherReporter = Done (r, last, lines) /\
    lsum wl_completed lines + pr_completed r = Z.of_nat (length (recorded evs)) /\ Forall averages_ok lines.
Proof.
  intros Hm. destruct (reporter_loop_ok PublisherReporter_Record NewPublisherReporter publisher_logWindow publisher_measurable publisher_measurable_app (fun _ _ _ _ => eq_refl)
    (fun c h l rs '(conj Hd Hl) => publisher_window rs c h l Hd Hl) evs (reporter_start first) [] Hm)
    as (left & last & lines & He & Hs & Ha & _ & Hlen).
  exists (recorded_batches left), last, lines. split_and!; [exact He| |done].
  destruct (publisher_records left) as [Hc _]; [unfold MaxInt64, two64 in *; lia|]. unfold recorded_batches. rewrite Hc. cbn in Hs. lia.
Qed.

Lemma DBProjectorReporter_Run_ok first evs :
  projector_measurable (recorded evs) ->
  exists r last lines, DBProjectorReporter_Run first evs NewDBProjectorReporter = Done (r, last, lines) /\
    lsum wl_completed lines + dr_completed r = Z.of_nat (length (recorded evs)) /\ Forall averages_ok lines.
Proof.
  intros Hm. destruct (reporter_loop_ok DBProjectorReporter_Record NewDBProjectorReporter projector_logWindow projector_measurable projector_measurable_app (fun _ _ _ _ => eq_refl)
    (fun c h l rs '(conj Hd Hl) => projector_window rs c h l Hd Hl) evs (reporter_start first) [] Hm)
    as (left & last & lines & He & Hs & Ha & _ & Hlen).
  exists (applied_batches left), last, lines. split_and!; [exact He| |done].
  destruct (projector_records left) as [Hc _]; [unfold MaxInt64, two64 in *; lia|]. unfold applied_batches. rewrite Hc. cbn in Hs. lia.
Qed.
