(* ===== verification/Engine.v ===== *)
(** * The engine ([engine.go], [handle.go], [handle_admin.go])

    The engine reads requests from a queue, logs each one in the input WAL before
    it acts on it, changes the ledger, and logs the events of the request as one
    record of the output WAL. After a crash it replays the input WAL; the last
    record of the output WAL says up to which input the output exists.

    JSON is an interface ([Codec]): what the engine decodes and encodes. The two
    logs are the wrapper of [Wal] over any implementation of the third-party log.
    A panic ends the process; an error that a handler returns ends [Run]. *)

From S2P Require Import Prelude Domain Slices OrderBook Ledger Events Matching Validation Orders Transfer Admin Dedup Wal.

Definition dedupWindow : Z := 8192.

(** ** JSON *)

(** An event with its payload encoded. *)
Record OutputEvent (bytes : Type) := mkOutputEvent {
  oev_Pattern : string;
  oev_Data : bytes
}.
Arguments mkOutputEvent {bytes} _ _.
Arguments oev_Pattern {bytes} _.
Arguments oev_Data {bytes} _.

(** The events of one input, with the input that caused them. *)
Record OutputEnvelope (bytes : Type) := mkOutputEnvelope {
  env_InputSeq : Z;
  env_OutputSeq : Z;
  env_CreatedAt : Time;
  env_Events : list (OutputEvent bytes)
}.
Arguments mkOutputEnvelope {bytes} _ _ _ _.
Arguments env_InputSeq {bytes} _.
Arguments env_OutputSeq {bytes} _.
Arguments env_CreatedAt {bytes} _.
Arguments env_Events {bytes} _.

Class Codec (bytes : Type) := {
  Unmarshal_envelope : bytes -> option (string * bytes);
  Unmarshal_Order : bytes -> option Order;
  Unmarshal_Account : bytes -> option Account;
  Unmarshal_Transfer : bytes -> option Transfer;
  Unmarshal_Stock : bytes -> option Stock;
  Unmarshal_BalanceAdjust : bytes -> option BalanceAdjust;
  Unmarshal_StockBalanceAdjust : bytes -> option StockBalanceAdjust;
  Unmarshal_Trade : bytes -> option Trade;
  Unmarshal_OutputEnvelope : bytes -> option (OutputEnvelope bytes);
  Marshal_data : event_data -> option bytes;
  Marshal_OutputEnvelope : OutputEnvelope bytes -> option bytes
}.

(** What is read back is what was written. *)
Class CodecLaws (bytes : Type) `{!Codec bytes} := {
  codec_envelope env data : Marshal_OutputEnvelope env = Some data -> Unmarshal_OutputEnvelope data = Some env;
  codec_trade t data : Marshal_data (EvTrade t) = Some data -> Unmarshal_Trade data = Some t
}.

(** ** State *)

Record snapshotData (bytes : Type) := mkSnapshotData {
  sd_state : bytes;
  sd_inputSeq : Z
}.
Arguments mkSnapshotData {bytes} _ _.
Arguments sd_state {bytes} _.
Arguments sd_inputSeq {bytes} _.

(** [snapshots] and [outputSignal] are channels of capacity one. *)
Record Engine (bytes log : Type) := mkEngine {
  core : Core;
  input : log;
  output : log;
  dups : dedup;
  snapshots : option (snapshotData bytes);
  outputSignal : bool
}.
Arguments mkEngine {bytes log} _ _ _ _ _ _.
Arguments core {bytes log} _.
Arguments input {bytes log} _.
Arguments output {bytes log} _.
Arguments dups {bytes log} _.
Arguments snapshots {bytes log} _.
Arguments outputSignal {bytes log} _.

Inductive run_error :=
  | ErrEngine (e : engine_error)
  | ErrWal (e : wal_error)
  | ErrMarshal
  | ErrUnmarshal (i : Z)
  | ErrLedger (e : ledger_error)
  | ErrStore
  | ErrTradeIDStore.

(** What a handler does with its delivery. *)
Inductive reply :=
  | Ack
  | Nack (requeue : bool)
  | Failed (e : run_error).

Section engine.
Context `{!Clock} {bytes log : Type} `{!Codec bytes, !Proto bytes, !Twal bytes log}.
Abbreviation engine := (Engine bytes log).
Implicit Types (e : engine).

Definition set_core e (c : Core) : engine := mkEngine c (input e) (output e) (dups e) (snapshots e) (outputSignal e).
Definition set_input e (w : log) : engine := mkEngine (core e) w (output e) (dups e) (snapshots e) (outputSignal e).
Definition set_output e (w : log) : engine := mkEngine (core e) (input e) w (dups e) (snapshots e) (outputSignal e).
Definition set_dups e (d : dedup) : engine := mkEngine (core e) (input e) (output e) d (snapshots e) (outputSignal e).
Definition set_seq e (i : Z) : engine := set_core e (set_inputSeq (core e) i).
Definition set_ledger e (s : State) : engine := set_core e (set_state (core e) s).

(** [errors.Join] of the errors of closing the two logs. *)
Definition Engine_Close e : engine * list wal_error :=
  let '(inp, err1) := Close (Some (input e)) in
  let '(out, err2) := Close (Some (output e)) in
  (set_output (set_input e (default (input e) inp)) (default (output e) out),
   option_list err1 ++ option_list err2).

(** ** Output *)

Definition notifyPublisher e : engine :=
  mkEngine (core e) (input e) (output e) (dups e) (snapshots e) true.

Fixpoint marshal_events (events : list outEvent) : option (list (OutputEvent bytes)) :=
  match events with
  | [] => Some []
  | ev :: events =>
      raw ← Marshal_data (data ev);
      out ← marshal_events events;
      Some (mkOutputEvent (pattern ev) raw :: out)
  end.

Definition appendOutput e (events : list outEvent) : engine * option run_error :=
  match events with
  | [] => (e, None)
  | _ =>
      if Z.gtb (outputAppliedSeq (core e)) 0 && Z.leb (inputSeq (core e)) (outputAppliedSeq (core e))
      then (e, None)
      else
        match marshal_events events with
        | None => (e, Some ErrMarshal)
        | Some out =>
            let '(createdAt, c) := time_now (core e) in
            let e := set_core e c in
            match AppendWithIndex (output e) (fun outputSeq =>
                    Marshal_OutputEnvelope (mkOutputEnvelope (inputSeq c) outputSeq createdAt out)) with
            | (w, inr err) => (set_output e w, Some (ErrWal err))
            | (w, inl _) => (notifyPublisher (set_output e w), None)
            end
        end
  end.

(** [if err := e.appendOutput(...); err != nil { panic(...) }]. *)
Definition mustAppend e (events : list outEvent) : outcome engine :=
  match appendOutput e events with
  | (e, None) => Done e
  | (_, Some _) => Panicked WalAppendFailed
  end.

Definition appendReject (order : Order) (r : RejectReason) e : engine * option run_error :=
  appendOutput e [reject_event order r].

(** ** Requests *)

(** [match], [edit] and [cancel]: the events, then the output record. *)
Definition append_result (r : outcome (Core * (list outEvent + engine_error))) e : outcome (engine * option run_error) :=
  '(c, r) <~ r;
  let e := set_core e c in
  match r with
  | inr err => Done (e, Some (ErrEngine err))
  | inl events => e <~ mustAppend e events; Done (e, None)
  end.

Definition match_order (order : Order) e := append_result (matchEvents order (core e)) e.
Definition edit (order : Order) e := append_result (editEvents order (core e)) e.
Definition cancel (order : Order) e := append_result (cancelEvents order (core e)) e.

Definition route (order : Order) e : outcome (engine * option run_error) :=
  match o_TradingType order with
  | TRADING_BUY | TRADING_SELL => match_order order e
  | TRADING_EDIT => edit order e
  | TRADING_CANCEL => cancel order e
  | TRADING_OTHER _ => Done (e, Some (ErrEngine UnknownTradingType))
  end.

Definition applyTransfer (transfer : Transfer) e : engine * option run_error :=
  let '(c, events) := transferEvents transfer (core e) in appendOutput (set_core e c) events.

Definition applyBalanceAdjust (req : BalanceAdjust) e : outcome engine :=
  let '(c, events) := balanceAdjustEvents req (core e) in mustAppend (set_core e c) events.

Definition applyStockBalanceAdjust (req : StockBalanceAdjust) e : outcome engine :=
  let '(c, events) := stockBalanceAdjustEvents req (core e) in mustAppend (set_core e c) events.

Definition activateAccount (acc : Account) e : outcome engine :=
  let '(c, events) := activateAccountEvents acc (core e) in mustAppend (set_core e c) events.

Definition setStockStatus (stock : Stock) (status : StockStatus) (p : string) e : outcome engine :=
  let '(c, events) := setStockStatusEvents stock status p (core e) in mustAppend (set_core e c) events.

(** ** Handlers *)

(** The request is in the input WAL and its id is recorded before it has any effect. *)
Definition logInput (payload : bytes) (kind : string) (id : Z) e : outcome engine :=
  match Append (input e) payload with
  | (_, inr _) => Panicked WalAppendFailed
  | (w, inl idx) =>
      let e := set_seq (set_input e w) idx in
      d <~ dedup_add (dups e) kind id;
      Done (set_dups e d)
  end.

Definition handleOrder (payload dat : bytes) e : outcome (engine * reply) :=
  match Unmarshal_Order dat with
  | None => Done (e, Nack false)
  | Some order =>
      if dedup_has (dups e) PatternOrderCreated (o_Id order) then Done (e, Ack)
      else
        e <~ logInput payload PatternOrderCreated (o_Id order) e;
        match validateOrder order (state (core e)) with
        | (s, Some r) =>
            match appendReject order r (set_ledger e s) with
            | (e, None) => Done (e, Ack)
            | (_, Some _) => Panicked WalAppendFailed
            end
        | (s, None) =>
            '(e, err) <~ route order (set_ledger e s);
            match err with
            | Some err => Done (e, Failed err)
            | None => Done (e, Ack)
            end
        end
  end.

Definition handleAccountCreated (payload dat : bytes) e : outcome (engine * reply) :=
  match Unmarshal_Account dat with
  | None => Done (e, Nack false)
  | Some acc =>
      if Z.leb (acc_Id acc) 0 then Done (e, Nack false)
      else if dedup_has (dups e) PatternAccountCreated (acc_Id acc) then Done (e, Ack)
      else
        e <~ logInput payload PatternAccountCreated (acc_Id acc) e;
        e <~ activateAccount acc e;
        Done (e, Ack)
  end.

Definition handleTransferCreated (payload dat : bytes) e : outcome (engine * reply) :=
  match Unmarshal_Transfer dat with
  | None => Done (e, Nack false)
  | Some transfer =>
      if dedup_has (dups e) PatternTransferCreated (tf_Id transfer) then Done (e, Ack)
      else
        e <~ logInput payload PatternTransferCreated (tf_Id transfer) e;
        match applyTransfer transfer e with
        | (e, Some err) => Done (e, Failed err)
        | (e, None) => Done (e, Ack)
        end
  end.

Definition handleStockListed (payload dat : bytes) e : outcome (engine * reply) :=
  match Unmarshal_Stock dat with
  | None => Done (e, Nack false)
  | Some stock =>
      if Z.leb (st_Id stock) 0 then Done (e, Nack false)
      else if dedup_has (dups e) PatternStockList (st_Id stock) then Done (e, Ack)
      else
        e <~ logInput payload PatternStockList (st_Id stock) e;
        e <~ setStockStatus stock LISTED PatternStockListed e;
        Done (e, Ack)
  end.

Definition handleAdminBalanceAdjust (payload dat : bytes) e : outcome (engine * reply) :=
  match Unmarshal_BalanceAdjust dat with
  | None => Done (e, Nack false)
  | Some req =>
      if dedup_has (dups e) PatternAdminBalanceAdjust (ba_Id req) then Done (e, Ack)
      else
        e <~ logInput payload PatternAdminBalanceAdjust (ba_Id req) e;
        e <~ applyBalanceAdjust req e;
        Done (e, Ack)
  end.

Definition handleAdminStockBalanceAdjust (payload dat : bytes) e : outcome (engine * reply) :=
  match Unmarshal_StockBalanceAdjust dat with
  | None => Done (e, Nack false)
  | Some req =>
      if dedup_has (dups e) PatternAdminStockBalanceAdjust (sba_Id req) then Done (e, Ack)
      else
        e <~ logInput payload PatternAdminStockBalanceAdjust (sba_Id req) e;
        e <~ applyStockBalanceAdjust req e;
        Done (e, Ack)
  end.

Definition handle (payload : bytes) e : outcome (engine * reply) :=
  match Unmarshal_envelope payload with
  | None => Done (e, Nack false)
  | Some (pat, dat) =>
      if String.eqb pat PatternOrderCreated then handleOrder payload dat e
      else if String.eqb pat PatternAccountCreated then handleAccountCreated payload dat e
      else if String.eqb pat PatternTransferCreated then handleTransferCreated payload dat e
      else if String.eqb pat PatternStockList then handleStockListed payload dat e
      else if String.eqb pat PatternAdminBalanceAdjust then handleAdminBalanceAdjust payload dat e
      else if String.eqb pat PatternAdminStockBalanceAdjust then handleAdminStockBalanceAdjust payload dat e
      else Done (e, Nack false)
  end.
End engine.
