(* ===== verification/Columns.v ===== *)
(** * Columns of enumeration types ([storage/sqlc/models.go])

    A column whose values are the constants of an enumeration has a string type in
    Go, with the method [Scan] that reads what the driver delivers; a nullable one
    has a record with a flag, with [Scan] and the [Value] that the driver sends.
    What is sent is what is read back. *)

From S2P Require Import Prelude Domain.

#[local] Open Scope string_scope.

(** ** Reading and sending *)

(** What a driver delivers ([driver.Value]). *)
Inductive driver_value :=
  | DNil
  | DInt64 (n : Z)
  | DFloat64
  | DBool (b : bool)
  | DBytes (s : string)
  | DString (s : string)
  | DTime (t : Time).

(** [%T] *)
Definition go_type (v : driver_value) : string :=
  match v with
  | DNil => "<nil>"
  | DInt64 _ => "int64"
  | DFloat64 => "float64"
  | DBool _ => "bool"
  | DBytes _ => "[]uint8"
  | DString _ => "string"
  | DTime _ => "time.Time"
  end.

(** [Scan] of the type [name]: the new value and the text of the error. *)
Definition scan_enum (name : string) (e : string) (src : driver_value) : string * option string :=
  match src with
  | DBytes s => (s, None)
  | DString s => (s, None)
  | _ => (e, Some ("unsupported scan type for " +:+ name +:+ ": " +:+ go_type src))
  end.

(** A nullable column of an enumeration type. *)
Record NullEnum := mkNullEnum {
  ne_value : string;
  ne_Valid : bool
}.

Definition null_Scan (Scan : string -> driver_value -> string * option string) (ns : NullEnum) (value : driver_value) :
    NullEnum * option string :=
  match value with
  | DNil => (mkNullEnum "" false, None)
  | _ => let '(e, err) := Scan (ne_value ns) value in (mkNullEnum e true, err)
  end.

(** [None] is NULL. *)
Definition null_Value (ns : NullEnum) : option string :=
  if ne_Valid ns then Some (ne_value ns) else None.

(** ** The enumerations *)

Definition AccountsStatus_values : list string := ["PENDING"; "ACTIVE"].
Definition AccountsStatus_Scan := scan_enum "AccountsStatus".
Definition NullAccountsStatus_Scan := null_Scan AccountsStatus_Scan.
Definition NullAccountsStatus_Value := null_Value.

Definition AdminRequestsRejectReason_values : list string :=
  ["TARGET_NOT_FOUND"; "INVALID_STATE"; "INSUFFICIENT_BALANCE"; "INSUFFICIENT_STOCK"; "INVALID_REQUEST"].
Definition AdminRequestsRejectReason_Scan := scan_enum "AdminRequestsRejectReason".
Definition NullAdminRequestsRejectReason_Scan := null_Scan AdminRequestsRejectReason_Scan.
Definition NullAdminRequestsRejectReason_Value := null_Value.

Definition AdminRequestsStatus_values : list string := ["RECEIVED"; "COMPLETED"; "REJECTED"].
Definition AdminRequestsStatus_Scan := scan_enum "AdminRequestsStatus".
Definition NullAdminRequestsStatus_Scan := null_Scan AdminRequestsStatus_Scan.
Definition NullAdminRequestsStatus_Value := null_Value.

Definition AdminRequestsType_values : list string :=
  ["STOCK_SUSPEND"; "STOCK_RESUME"; "STOCK_DELIST"; "ACCOUNT_DEPOSIT"; "ACCOUNT_WITHDRAW"; "STOCK_DEPOSIT"; "STOCK_WITHDRAW"].
Definition AdminRequestsType_Scan := scan_enum "AdminRequestsType".
Definition NullAdminRequestsType_Scan := null_Scan AdminRequestsType_Scan.
Definition NullAdminRequestsType_Value := null_Value.

Definition CandlesType_values : list string := ["1m"; "5m"; "15m"; "30m"; "1h"; "1d"].
Definition CandlesType_Scan := scan_enum "CandlesType".
Definition NullCandlesType_Scan := null_Scan CandlesType_Scan.
Definition NullCandlesType_Value := null_Value.

Definition CursorsType_values : list string := ["DB_APPLIED_OUTPUT_SEQ"; "MQ_PUBLISHED_OUTPUT_SEQ"].
Definition CursorsType_Scan := scan_enum "CursorsType".
Definition NullCursorsType_Scan := null_Scan CursorsType_Scan.
Definition NullCursorsType_Value := null_Value.

Definition OrdersCancelReason_values : list string := ["USER"; "SYSTEM"].
Definition OrdersCancelReason_Scan := scan_enum "OrdersCancelReason".
Definition NullOrdersCancelReason_Scan := null_Scan OrdersCancelReason_Scan.
Definition NullOrdersCancelReason_Value := null_Value.

Definition OrdersOrderType_values : list string := ["LIMIT"; "MARKET"].
Definition OrdersOrderType_Scan := scan_enum "OrdersOrderType".
Definition NullOrdersOrderType_Scan := null_Scan OrdersOrderType_Scan.
Definition NullOrdersOrderType_Value := null_Value.

Definition OrdersRejectReason_values : list string :=
  ["INVALID_ORDER"; "INSUFFICIENT_BALANCE"; "INSUFFICIENT_STOCK"; "STOCK_NOT_TRADABLE"; "ORDER_NOT_ACTIVE"].
Definition OrdersRejectReason_Scan := scan_enum "OrdersRejectReason".
Definition NullOrdersRejectReason_Scan := null_Scan OrdersRejectReason_Scan.
Definition NullOrdersRejectReason_Value := null_Value.

Definition OrdersStatus_values : list string :=
  ["RECEIVED"; "OPEN"; "FILLED"; "CANCELED"; "REPLACED"; "REJECTED"; "COMPLETED"].
Definition OrdersStatus_Scan := scan_enum "OrdersStatus".
Definition NullOrdersStatus_Scan := null_Scan OrdersStatus_Scan.
Definition NullOrdersStatus_Value := null_Value.

Definition OrdersTradingType_values : list string := ["BUY"; "SELL"; "EDIT"; "CANCEL"].
Definition OrdersTradingType_Scan := scan_enum "OrdersTradingType".
Definition NullOrdersTradingType_Scan := null_Scan OrdersTradingType_Scan.
Definition NullOrdersTradingType_Value := null_Value.

Definition StocksStatus_values : list string := ["PENDING"; "LISTED"; "SUSPENDED"; "DELISTED"].
Definition StocksStatus_Scan := scan_enum "StocksStatus".
Definition NullStocksStatus_Scan := null_Scan StocksStatus_Scan.
Definition NullStocksStatus_Value := null_Value.

Definition TransfersRejectReason_values : list string :=
  ["INSUFFICIENT_BALANCE"; "INVALID_RECIPIENT"; "INVALID_SENDER"; "SENDER_NOT_ACTIVE";
   "RECIPIENT_NOT_ACTIVE"; "SELF_TRANSFER"; "INVALID_REQUEST"].
Definition TransfersRejectReason_Scan := scan_enum "TransfersRejectReason".
Definition NullTransfersRejectReason_Scan := null_Scan TransfersRejectReason_Scan.
Definition NullTransfersRejectReason_Value := null_Value.

Definition TransfersStatus_values : list string := ["RECEIVED"; "REJECTED"; "COMPLETED"].
Definition TransfersStatus_Scan := scan_enum "TransfersStatus".
Definition NullTransfersStatus_Scan := null_Scan TransfersStatus_Scan.
Definition NullTransfersStatus_Value := null_Value.

Definition UsersRole_values : list string := ["ADMIN"; "USER"].
Definition UsersRole_Scan := scan_enum "UsersRole".
Definition NullUsersRole_Scan := null_Scan UsersRole_Scan.
Definition NullUsersRole_Value := null_Value.

(** ** What is sent is read back *)

Record column := mkColumn {
  col_values : list string;
  col_Scan : string -> driver_value -> string * option string;
  col_null_Scan : NullEnum -> driver_value -> NullEnum * option string;
  col_Value : NullEnum -> option string
}.

Definition columns : list column :=
  [mkColumn AccountsStatus_values AccountsStatus_Scan NullAccountsStatus_Scan NullAccountsStatus_Value;
   mkColumn AdminRequestsRejectReason_values AdminRequestsRejectReason_Scan NullAdminRequestsRejectReason_Scan NullAdminRequestsRejectReason_Value;
   mkColumn AdminRequestsStatus_values AdminRequestsStatus_Scan NullAdminRequestsStatus_Scan NullAdminRequestsStatus_Value;
   mkColumn AdminRequestsType_values AdminRequestsType_Scan NullAdminRequestsType_Scan NullAdminRequestsType_Value;
   mkColumn CandlesType_values CandlesType_Scan NullCandlesType_Scan NullCandlesType_Value;
   mkColumn CursorsType_values CursorsType_Scan NullCursorsType_Scan NullCursorsType_Value;
   mkColumn OrdersCancelReason_values OrdersCancelReason_Scan NullOrdersCancelReason_Scan NullOrdersCancelReason_Value;
   mkColumn OrdersOrderType_values OrdersOrderType_Scan NullOrdersOrderType_Scan NullOrdersOrderType_Value;
   mkColumn OrdersRejectReason_values OrdersRejectReason_Scan NullOrdersRejectReason_Scan NullOrdersRejectReason_Value;
   mkColumn OrdersStatus_values OrdersStatus_Scan NullOrdersStatus_Scan NullOrdersStatus_Value;
   mkColumn OrdersTradingType_values OrdersTradingType_Scan NullOrdersTradingType_Scan NullOrdersTradingType_Value;
   mkColumn StocksStatus_values StocksStatus_Scan NullStocksStatus_Scan NullStocksStatus_Value;
   mkColumn TransfersRejectReason_values TransfersRejectReason_Scan NullTransfersRejectReason_Scan NullTransfersRejectReason_Value;
   mkColumn TransfersStatus_values TransfersStatus_Scan NullTransfersStatus_Scan NullTransfersStatus_Value;
   mkColumn UsersRole_values UsersRole_Scan NullUsersRole_Scan NullUsersRole_Value].

(** The driver delivers text as bytes or as a string. *)
Inductive delivers : option string -> driver_value -> Prop :=
  | delivers_null : delivers None DNil
  | delivers_bytes s : delivers (Some s) (DBytes s)
  | delivers_string s : delivers (Some s) (DString s).

Lemma scan_enum_text name e s v : delivers (Some s) v -> scan_enum name e v = (s, None).
Proof. by inversion 1. Qed.

Lemma scan_enum_error name e v : (forall s, ~ delivers (Some s) v) -> exists err, scan_enum name e v = (e, Some err).
Proof.
  intros Hv. destruct v as [| | | |s|s|]; [by eexists..| | |by eexists].
  - by destruct (Hv s); constructor.
  - by destruct (Hv s); constructor.
Qed.

(** Whatever a variable held before, reading what was sent gives what was sent;
    anything but text is refused and leaves the value. *)
Lemma columns_read_back :
  Forall (fun c =>
    (forall e s v, delivers (Some s) v -> col_Scan c e v = (s, None)) /\
    (forall e v, (forall s, ~ delivers (Some s) v) -> exists err, col_Scan c e v = (e, Some err)) /\
    (forall ns old v, delivers (col_Value c ns) v ->
      exists ns', col_null_Scan c old v = (ns', None) /\ col_Value c ns' = col_Value c ns /\ (ne_Valid ns = true -> ns' = ns))) columns.
Proof.
  assert (Hnull : forall name ns old v, delivers (null_Value ns) v -> exists ns', null_Scan (scan_enum name) old v = (ns', None) /\
    null_Value ns' = null_Value ns /\ (ne_Valid ns = true -> ns' = ns)).
  { intros name [s []] old v; cbn; inversion 1; by eexists. }
  repeat (apply Forall_cons; split); [..|constructor];
    (split_and!; [intros ????; by eapply scan_enum_text|intros ??; apply scan_enum_error|intros ???; apply Hnull]).
Qed.
