(* ===== verification/Database.v ===== *)
(** * The database ([db/migrations/schema.sql], [internal/storage/sqlc])

    The tables that the engine's stores read and write, as finite maps from the
    primary key to the row, and the generated queries as functions on them. A
    query that breaks a constraint of the schema (a primary key, a foreign key,
    a column of an enumeration type in strict mode) fails and changes nothing. An
    [UPDATE] of a missing row changes nothing and succeeds.

    The server is a parameter: how it stores an instant in a [DATETIME(3)]
    column, its clock, the ids it generates, and whether a call is executed and
    answered. *)

From S2P Require Import Prelude Domain Columns.

#[local] Open Scope string_scope.

(** ** The type of a cursor *)

Inductive CursorsType :=
  | DB_APPLIED_OUTPUT_SEQ
  | MQ_PUBLISHED_OUTPUT_SEQ.

#[export] Instance CursorsType_eq_dec : EqDecision CursorsType.
Proof. solve_decision. Defined.
#[export] Instance CursorsType_countable : Countable CursorsType.
Proof.
  refine (inj_countable' (fun t => match t with DB_APPLIED_OUTPUT_SEQ => true | MQ_PUBLISHED_OUTPUT_SEQ => false end)
    (fun b : bool => if b then DB_APPLIED_OUTPUT_SEQ else MQ_PUBLISHED_OUTPUT_SEQ) _).
  by intros [].
Defined.

(** ** Rows *)

Record AccountRow := mkAccountRow {
  ac_ID : Z; ac_UserID : Z; ac_AccountNumber : Z; ac_Balance : Z; ac_AvailableBalance : Z;
  ac_Status : string; ac_PublishedAt : option Time; ac_CreatedAt : Time }.

Record AdminRequestRow := mkAdminRequestRow {
  ar_ID : Z; ar_Type : string; ar_Payload : string; ar_Status : string; ar_RejectReason : option string;
  ar_RequestedBy : Z; ar_PublishedAt : option Time; ar_CompletedAt : option Time; ar_CreatedAt : Time }.

Record OrderRow := mkOrderRow {
  or_ID : Z; or_TargetID : option Z; or_AccountID : Z; or_StockID : Z; or_Price : Z; or_Quantity : Z;
  or_FilledQuantity : Z; or_OrderType : string; or_Status : string; or_RejectReason : option string;
  or_TradingType : string; or_CancelReason : option string; or_PublishedAt : option Time;
  or_FullyFilledAt : option Time; or_CreatedAt : Time }.

Record SnapshotRow (bytes : Type) := mkSnapshotRow {
  sn_ID : Z; sn_State : bytes; sn_InputWalIndex : Z; sn_CreatedAt : Time }.
Arguments mkSnapshotRow {bytes} _ _ _ _.
Arguments sn_ID {bytes} _.
Arguments sn_State {bytes} _.
Arguments sn_InputWalIndex {bytes} _.
Arguments sn_CreatedAt {bytes} _.

Record StockRow := mkStockRow {
  sk_ID : Z; sk_Name : string; sk_Price : Z; sk_ListingPrice : Z; sk_Status : string;
  sk_PublishedAt : option Time; sk_CreatedAt : Time; sk_UpdatedAt : option Time }.

Record TradeRow := mkTradeRow {
  td_ID : Z; td_StockID : Z; td_Price : Z; td_Quantity : Z; td_MakerOrderID : Z; td_TakerOrderID : Z;
  td_MatchedAt : Time }.

Record TransferRow := mkTransferRow {
  tx_ID : Z; tx_SenderAccountID : Z; tx_RecipientAccountID : Z; tx_SenderAlias : option string; tx_Amount : Z;
  tx_Status : string; tx_RejectReason : option string; tx_PublishedAt : option Time;
  tx_CompletedAt : option Time; tx_CreatedAt : Time }.

Record UserStockRow := mkUserStockRow {
  us_AccountID : Z; us_StockID : Z; us_Quantity : Z; us_AvailableQuantity : Z; us_Average : Z;
  us_TotalBuyAmount : Z }.

#[export] Instance StockRow_eq_dec : EqDecision StockRow.
Proof. solve_decision. Defined.

(** ** Tables *)

Record DB (bytes : Type) := mkDB {
  accounts : gmap Z AccountRow;
  transfers : gmap Z TransferRow;
  admin_requests : gmap Z AdminRequestRow;
  stocks : gmap Z StockRow;
  user_stocks : gmap (Z * Z) UserStockRow;
  orders_tbl : gmap Z OrderRow;
  trades : gmap Z TradeRow;
  snapshots_tbl : gmap Z (SnapshotRow bytes);
  cursors : gmap CursorsType Z
}.
Arguments mkDB {bytes} _ _ _ _ _ _ _ _ _.
Arguments accounts {bytes} _.
Arguments transfers {bytes} _.
Arguments admin_requests {bytes} _.
Arguments stocks {bytes} _.
Arguments user_stocks {bytes} _.
Arguments orders_tbl {bytes} _.
Arguments trades {bytes} _.
Arguments snapshots_tbl {bytes} _.
Arguments cursors {bytes} _.

(** What happens to a call: executed and answered, not executed, or executed
    with the answer lost. *)
Inductive answer :=
  | Answered
  | NotExecuted
  | AnswerLost.

(** The server and the driver: the fate of the [n]-th call, the server's clock,
    the stored form of an instant, and the next [AUTO_INCREMENT] value of a table
    with the given keys. *)
Class Server := {
  answer_at : nat -> answer;
  server_now : nat -> Time;
  datetime3 : Time -> Time;
  auto_id : list Z -> Z
}.

(** Documented behaviour of [AUTO_INCREMENT]: the value is positive and greater
    than those in the column. *)
Class ServerLaws `{!Server} := {
  auto_id_fresh ids : Forall (fun i => i < auto_id ids) ids /\ 0 < auto_id ids
}.

Section queries.
Context {bytes : Type} `{!Server}.
Abbreviation db := (DB bytes).
Implicit Types (d : db).

Definition set_accounts d m : db := mkDB m (transfers d) (admin_requests d) (stocks d) (user_stocks d) (orders_tbl d) (trades d) (snapshots_tbl d) (cursors d).
Definition set_transfers d m : db := mkDB (accounts d) m (admin_requests d) (stocks d) (user_stocks d) (orders_tbl d) (trades d) (snapshots_tbl d) (cursors d).
Definition set_admin_requests d m : db := mkDB (accounts d) (transfers d) m (stocks d) (user_stocks d) (orders_tbl d) (trades d) (snapshots_tbl d) (cursors d).
Definition set_stocks d m : db := mkDB (accounts d) (transfers d) (admin_requests d) m (user_stocks d) (orders_tbl d) (trades d) (snapshots_tbl d) (cursors d).
Definition set_user_stocks d m : db := mkDB (accounts d) (transfers d) (admin_requests d) (stocks d) m (orders_tbl d) (trades d) (snapshots_tbl d) (cursors d).
Definition set_orders d m : db := mkDB (accounts d) (transfers d) (admin_requests d) (stocks d) (user_stocks d) m (trades d) (snapshots_tbl d) (cursors d).
Definition set_trades d m : db := mkDB (accounts d) (transfers d) (admin_requests d) (stocks d) (user_stocks d) (orders_tbl d) m (snapshots_tbl d) (cursors d).
Definition set_snapshots d m : db := mkDB (accounts d) (transfers d) (admin_requests d) (stocks d) (user_stocks d) (orders_tbl d) (trades d) m (cursors d).
Definition set_cursors d m : db := mkDB (accounts d) (transfers d) (admin_requests d) (stocks d) (user_stocks d) (orders_tbl d) (trades d) (snapshots_tbl d) m.

Definition in_enum (values : list string) (s : string) : bool := bool_decide (s ∈ values).
(** A nullable column: NULL or a value of the enumeration. *)
Definition in_null_enum (values : list string) (s : option string) : bool :=
  match s with None => true | Some s => in_enum values s end.

(** [UPDATE ... WHERE id = ?]: [f] computes the new row or fails. *)
Definition update_row {R} (m : gmap Z R) (id : Z) (f : R -> option R) : option (gmap Z R) :=
  match m !! id with
  | None => Some m
  | Some row => row' ← f row; Some (<[id := row']> m)
  end.

(** ** Accounts *)

Definition q_ActivateAccount (id : Z) d : option db :=
  m ← update_row (accounts d) id (fun r =>
    Some (mkAccountRow (ac_ID r) (ac_UserID r) (ac_AccountNumber r) (ac_Balance r) (ac_AvailableBalance r)
            "ACTIVE" (ac_PublishedAt r) (ac_CreatedAt r)));
  Some (set_accounts d m).

Definition q_UpdateAccountBalance (balance availableBalance id : Z) d : option db :=
  m ← update_row (accounts d) id (fun r =>
    Some (mkAccountRow (ac_ID r) (ac_UserID r) (ac_AccountNumber r) balance availableBalance
            (ac_Status r) (ac_PublishedAt r) (ac_CreatedAt r)));
  Some (set_accounts d m).

(** ** Stocks *)

(** [updated_at] is set when another column of the row changes. *)
Definition touch_stock (now : Time) (old new : StockRow) : StockRow :=
  if decide (new = old) then old
  else mkStockRow (sk_ID new) (sk_Name new) (sk_Price new) (sk_ListingPrice new) (sk_Status new)
         (sk_PublishedAt new) (sk_CreatedAt new) (Some now).

Definition q_UpdateStockPrice (price id : Z) (now : Time) d : option db :=
  m ← update_row (stocks d) id (fun r =>
    Some (touch_stock now r (mkStockRow (sk_ID r) (sk_Name r) price (sk_ListingPrice r) (sk_Status r)
            (sk_PublishedAt r) (sk_CreatedAt r) (sk_UpdatedAt r))));
  Some (set_stocks d m).

Definition q_UpdateStockStatus (status : string) (id : Z) (now : Time) d : option db :=
  m ← update_row (stocks d) id (fun r =>
    if in_enum StocksStatus_values status then
      Some (touch_stock now r (mkStockRow (sk_ID r) (sk_Name r) (sk_Price r) (sk_ListingPrice r) status
              (sk_PublishedAt r) (sk_CreatedAt r) (sk_UpdatedAt r)))
    else None);
  Some (set_stocks d m).

(** ** Holdings *)

Definition q_DeleteHolding (accountID stockID : Z) d : option db :=
  Some (set_user_stocks d (delete (accountID, stockID) (user_stocks d))).

(** An existing row is updated; a new one needs its account and its stock. *)
Definition q_UpsertHolding (accountID stockID quantity availableQuantity average totalBuyAmount : Z) d : option db :=
  let row := mkUserStockRow accountID stockID quantity availableQuantity average totalBuyAmount in
  match user_stocks d !! (accountID, stockID), accounts d !! accountID, stocks d !! stockID with
  | Some _, _, _ | None, Some _, Some _ =>
      Some (set_user_stocks d (<[(accountID, stockID) := row]> (user_stocks d)))
  | _, _, _ => None
  end.

(** ** Orders *)

Definition q_UpdateOrderState (status : string) (quantity filledQuantity : Z) (fullyFilledAt : option Time)
    (id : Z) d : option db :=
  m ← update_row (orders_tbl d) id (fun r =>
    if in_enum OrdersStatus_values status then
      Some (mkOrderRow (or_ID r) (or_TargetID r) (or_AccountID r) (or_StockID r) (or_Price r) quantity
              filledQuantity (or_OrderType r) status (or_RejectReason r) (or_TradingType r) (or_CancelReason r)
              (or_PublishedAt r) (datetime3 <$> fullyFilledAt) (or_CreatedAt r))
    else None);
  Some (set_orders d m).

Definition q_RejectOrder (rejectReason : NullEnum) (id : Z) d : option db :=
  let reason := NullOrdersRejectReason_Value rejectReason in
  m ← update_row (orders_tbl d) id (fun r =>
    if in_null_enum OrdersRejectReason_values reason then
      Some (mkOrderRow (or_ID r) (or_TargetID r) (or_AccountID r) (or_StockID r) (or_Price r) (or_Quantity r)
              (or_FilledQuantity r) (or_OrderType r) "REJECTED" reason (or_TradingType r) (or_CancelReason r)
              (or_PublishedAt r) (or_FullyFilledAt r) (or_CreatedAt r))
    else None);
  Some (set_orders d m).

(** ** Trades *)

(** The id 0 asks for a generated one; a duplicate id, an unknown stock and an
    unknown order are refused. *)
Definition q_SaveTrade (id stockID price quantity makerOrderID takerOrderID : Z) (matchedAt : Time) d : option db :=
  let id := if Z.eqb id 0 then auto_id (map_to_list (trades d)).*1 else id in
  match trades d !! id, stocks d !! stockID, orders_tbl d !! makerOrderID, orders_tbl d !! takerOrderID with
  | None, Some _, Some _, Some _ =>
      Some (set_trades d (<[id := mkTradeRow id stockID price quantity makerOrderID takerOrderID
                                    (datetime3 matchedAt)]> (trades d)))
  | _, _, _, _ => None
  end.

(** [SELECT COALESCE(MAX(id), 0) FROM trades]. *)
Definition q_LastTradeID d : Z :=
  match (map_to_list (trades d)).*1 with
  | [] => 0
  | i :: ids => foldr Z.max i ids
  end.

(** ** Transfers and admin requests *)

Definition q_CompleteTransfer (completedAt : option Time) (id : Z) d : option db :=
  m ← update_row (transfers d) id (fun r =>
    Some (mkTransferRow (tx_ID r) (tx_SenderAccountID r) (tx_RecipientAccountID r) (tx_SenderAlias r) (tx_Amount r)
            "COMPLETED" (tx_RejectReason r) (tx_PublishedAt r) (datetime3 <$> completedAt) (tx_CreatedAt r)));
  Some (set_transfers d m).

Definition q_RejectTransfer (rejectReason : NullEnum) (completedAt : option Time) (id : Z) d : option db :=
  let reason := NullTransfersRejectReason_Value rejectReason in
  m ← update_row (transfers d) id (fun r =>
    if in_null_enum TransfersRejectReason_values reason then
      Some (mkTransferRow (tx_ID r) (tx_SenderAccountID r) (tx_RecipientAccountID r) (tx_SenderAlias r) (tx_Amount r)
              "REJECTED" reason (tx_PublishedAt r) (datetime3 <$> completedAt) (tx_CreatedAt r))
    else None);
  Some (set_transfers d m).

Definition q_CompleteAdminRequest (completedAt : option Time) (id : Z) d : option db :=
  m ← update_row (admin_requests d) id (fun r =>
    Some (mkAdminRequestRow (ar_ID r) (ar_Type r) (ar_Payload r) "COMPLETED" (ar_RejectReason r)
            (ar_RequestedBy r) (ar_PublishedAt r) (datetime3 <$> completedAt) (ar_CreatedAt r)));
  Some (set_admin_requests d m).

Definition q_RejectAdminRequest (rejectReason : NullEnum) (completedAt : option Time) (id : Z) d : option db :=
  let reason := NullAdminRequestsRejectReason_Value rejectReason in
  m ← update_row (admin_requests d) id (fun r =>
    if in_null_enum AdminRequestsRejectReason_values reason then
      Some (mkAdminRequestRow (ar_ID r) (ar_Type r) (ar_Payload r) "REJECTED" reason
              (ar_RequestedBy r) (ar_PublishedAt r) (datetime3 <$> completedAt) (ar_CreatedAt r))
    else None);
  Some (set_admin_requests d m).

(** ** Cursors *)

Definition q_LoadDBAppliedCursor d : option Z := cursors d !! DB_APPLIED_OUTPUT_SEQ.
Definition q_LoadMQPublishedCursor d : option Z := cursors d !! MQ_PUBLISHED_OUTPUT_SEQ.
Definition q_SaveDBAppliedCursor (index : Z) d : option db :=
  Some (set_cursors d (<[DB_APPLIED_OUTPUT_SEQ := index]> (cursors d))).
Definition q_SaveMQPublishedCursor (index : Z) d : option db :=
  Some (set_cursors d (<[MQ_PUBLISHED_OUTPUT_SEQ := index]> (cursors d))).

(** ** Snapshots *)

Definition snapshot_ids d : list Z := merge_sort Z.le (map_to_list (snapshots_tbl d)).*1.

Definition q_SaveSnapshot (state : bytes) (inputWalIndex : Z) (now : Time) d : option db :=
  let id := auto_id (map_to_list (snapshots_tbl d)).*1 in
  Some (set_snapshots d (<[id := mkSnapshotRow id state inputWalIndex now]> (snapshots_tbl d))).

Definition q_LatestSnapshot d : option (bytes * Z) :=
  id ← last (snapshot_ids d);
  row ← snapshots_tbl d !! id;
  Some (sn_State row, sn_InputWalIndex row).

(** The [limit] greatest ids stay; a negative [LIMIT] is an error. *)
Definition q_PruneSnapshots (limit : Z) d : option db :=
  if Z.ltb limit 0 then None
  else
    let keep := take (Z.to_nat limit) (rev (snapshot_ids d)) in
    Some (set_snapshots d (filter (fun '(id, _) => id ∈ keep) (snapshots_tbl d))).

Definition q_OldestSnapshotWalIndex d : option Z :=
  id ← head (snapshot_ids d);
  row ← snapshots_tbl d !! id;
  Some (sn_InputWalIndex row).
End queries.

(** The cases of a statement on rows that succeeded, in hypothesis [Hs]. *)
Ltac query_cases Hs :=
  unfold q_SaveTrade, q_UpdateOrderState, q_RejectOrder, q_ActivateAccount, q_UpdateAccountBalance, q_DeleteHolding,
    q_UpsertHolding, q_UpdateStockStatus, q_UpdateStockPrice, q_CompleteTransfer, q_RejectTransfer,
    q_CompleteAdminRequest, q_RejectAdminRequest in Hs; cbv zeta in Hs;
  repeat match type of Hs with
    | Some _ = Some _ => injection Hs as <-
    | None = Some _ => discriminate Hs
    | (_ ≫= _) = Some _ => apply bind_Some in Hs as (? & ? & Hs)
    | context [match ?x with _ => _ end] => destruct x
    end.
