(* ===== verification/Queries.v ===== *)
(** * Where a query runs ([storage/sqlc/db.go])

    The generated code keeps, next to the database or transaction that it uses, a
    prepared statement for each query, or none. A query whose statement was
    prepared runs that statement, within the transaction if there is one, and any
    other sends its text. The stores use the code unprepared and, for a batch, within
    a transaction. What a query does to the tables is in [Database]; this file shows
    that it does so where it is meant to: every query of [WithTx] in its transaction.

    A statement keeps the database or transaction that it was prepared on and its
    text, as those of [database/sql] do; which texts the server accepts and which
    statements close without an error are parameters. *)

From S2P Require Import Prelude.

#[local] Open Scope string_scope.

(** ** The queries *)

Inductive Query :=
  | ActivateAccount
  | CompleteAdminRequest
  | CompleteTransfer
  | DeleteHolding
  | LatestSnapshot
  | LoadDBAppliedCursor
  | LoadMQPublishedCursor
  | OldestSnapshotWalIndex
  | PruneSnapshots
  | RejectAdminRequest
  | RejectOrder
  | RejectTransfer
  | SaveDBAppliedCursor
  | SaveMQPublishedCursor
  | SaveSnapshot
  | SaveTrade
  | UpdateAccountBalance
  | UpdateOrderState
  | UpdateStockPrice
  | UpdateStockStatus
  | UpsertHolding.

#[export] Instance Query_eq_dec : EqDecision Query.
Proof. solve_decision. Defined.

(** In the order in which [Prepare] prepares and [Close] closes. *)
Definition all_queries : list Query :=
  [ActivateAccount; CompleteAdminRequest; CompleteTransfer; DeleteHolding; LatestSnapshot; LoadDBAppliedCursor;
   LoadMQPublishedCursor; OldestSnapshotWalIndex; PruneSnapshots; RejectAdminRequest; RejectOrder; RejectTransfer;
   SaveDBAppliedCursor; SaveMQPublishedCursor; SaveSnapshot; SaveTrade; UpdateAccountBalance; UpdateOrderState;
   UpdateStockPrice; UpdateStockStatus; UpsertHolding].

Definition activateAccount : string := "-- name: ActivateAccount :exec
UPDATE accounts
SET status = 'ACTIVE'
WHERE id = ?
".

Definition completeAdminRequest : string := "-- name: CompleteAdminRequest :exec
UPDATE admin_requests
SET status = 'COMPLETED', completed_at = ?
WHERE id = ?
".

Definition completeTransfer : string := "-- name: CompleteTransfer :exec
UPDATE transfers
SET status = 'COMPLETED', completed_at = ?
WHERE id = ?
".

Definition deleteHolding : string := "-- name: DeleteHolding :exec
DELETE FROM user_stocks
WHERE account_id = ?
  AND stock_id = ?
".

Definition latestSnapshot : string := "-- name: LatestSnapshot :one
SELECT state, input_wal_index
FROM snapshots
ORDER BY id DESC
LIMIT 1
".

Definition loadDBAppliedCursor : string := "-- name: LoadDBAppliedCursor :one
SELECT `index`
FROM `cursors`
WHERE `type` = 'DB_APPLIED_OUTPUT_SEQ'
".

Definition loadMQPublishedCursor : string := "-- name: LoadMQPublishedCursor :one
SELECT `index`
FROM `cursors`
WHERE `type` = 'MQ_PUBLISHED_OUTPUT_SEQ'
".

Definition oldestSnapshotWalIndex : string := "-- name: OldestSnapshotWalIndex :one
SELECT input_wal_index
FROM snapshots
ORDER BY id ASC
LIMIT 1
".

Definition pruneSnapshots : string := "-- name: PruneSnapshots :exec
DELETE FROM snapshots
WHERE id NOT IN (
  SELECT id FROM (
    SELECT id FROM snapshots ORDER BY id DESC LIMIT ?
  ) AS keep
)
".

Definition rejectAdminRequest : string := "-- name: RejectAdminRequest :exec
UPDATE admin_requests
SET status = 'REJECTED', reject_reason = ?, completed_at = ?
WHERE id = ?
".

Definition rejectOrder : string := "-- name: RejectOrder :exec
UPDATE orders
SET status = 'REJECTED', reject_reason = ?
WHERE id = ?
".

Definition rejectTransfer : string := "-- name: RejectTransfer :exec
UPDATE transfers
SET status = 'REJECTED', reject_reason = ?, completed_at = ?
WHERE id = ?
".

Definition saveDBAppliedCursor : string := "-- name: SaveDBAppliedCursor :exec
INSERT INTO `cursors` (`type`, `index`)
VALUES ('DB_APPLIED_OUTPUT_SEQ', ?)
ON DUPLICATE KEY UPDATE `index` = VALUES(`index`)
".

Definition saveMQPublishedCursor : string := "-- name: SaveMQPublishedCursor :exec
INSERT INTO `cursors` (`type`, `index`)
VALUES ('MQ_PUBLISHED_OUTPUT_SEQ', ?)
ON DUPLICATE KEY UPDATE `index` = VALUES(`index`)
".

Definition saveSnapshot : string := "-- name: SaveSnapshot :exec
INSERT INTO snapshots (state, input_wal_index)
VALUES (?, ?)
".

Definition saveTrade : string := "-- name: SaveTrade :exec
INSERT INTO trades (id, stock_id, price, quantity, maker_order_id, taker_order_id, matched_at)
VALUES (?, ?, ?, ?, ?, ?, ?)
".

Definition updateAccountBalance : string := "-- name: UpdateAccountBalance :exec
UPDATE accounts
SET balance = ?, available_balance = ?
WHERE id = ?
".

Definition updateOrderState : string := "-- name: UpdateOrderState :exec
UPDATE orders
SET status = ?, quantity = ?, filled_quantity = ?, fully_filled_at = ?
WHERE id = ?
".

Definition updateStockPrice : string := "-- name: UpdateStockPrice :exec
UPDATE stocks
SET price = ?
WHERE id = ?
".

Definition updateStockStatus : string := "-- name: UpdateStockStatus :exec
UPDATE stocks
SET status = ?
WHERE id = ?
".

Definition upsertHolding : string := "-- name: UpsertHolding :exec
INSERT INTO user_stocks (account_id, stock_id, quantity, available_quantity, average, total_buy_amount)
VALUES (?, ?, ?, ?, ?, ?)
ON DUPLICATE KEY UPDATE
  quantity = VALUES(quantity),
  available_quantity = VALUES(available_quantity),
  average = VALUES(average),
  total_buy_amount = VALUES(total_buy_amount)
".

Definition sql_text (k : Query) : string :=
  match k with
  | ActivateAccount => activateAccount
  | CompleteAdminRequest => completeAdminRequest
  | CompleteTransfer => completeTransfer
  | DeleteHolding => deleteHolding
  | LatestSnapshot => latestSnapshot
  | LoadDBAppliedCursor => loadDBAppliedCursor
  | LoadMQPublishedCursor => loadMQPublishedCursor
  | OldestSnapshotWalIndex => oldestSnapshotWalIndex
  | PruneSnapshots => pruneSnapshots
  | RejectAdminRequest => rejectAdminRequest
  | RejectOrder => rejectOrder
  | RejectTransfer => rejectTransfer
  | SaveDBAppliedCursor => saveDBAppliedCursor
  | SaveMQPublishedCursor => saveMQPublishedCursor
  | SaveSnapshot => saveSnapshot
  | SaveTrade => saveTrade
  | UpdateAccountBalance => updateAccountBalance
  | UpdateOrderState => updateOrderState
  | UpdateStockPrice => updateStockPrice
  | UpdateStockStatus => updateStockStatus
  | UpsertHolding => upsertHolding
  end.

(** ** What [database/sql] does *)

Inductive DBTX :=
  | OnDB
  | OnTx (tx : Z).

Record Stmt := mkStmt {
  stmt_on : DBTX;
  stmt_query : string
}.

(** [tx.StmtContext]: the statement, within a transaction. *)
Definition StmtContext (tx : Z) (st : Stmt) : Stmt := mkStmt (OnTx tx) (stmt_query st).

Inductive method :=
  | ExecContext
  | QueryContext
  | QueryRowContext.

(** What the server is asked to do. *)
Record Call (arg : Type) := mkCall {
  call_on : DBTX;
  call_method : method;
  call_query : string;
  call_args : list arg
}.
Arguments mkCall {arg} _ _ _ _.
Arguments call_on {arg} _.
Arguments call_method {arg} _.
Arguments call_query {arg} _.
Arguments call_args {arg} _.

(** ** The generated code *)

(** [qs_stmt]: the statement fields, by the query they belong to. *)
Record Queries := mkQueries {
  qs_db : DBTX;
  qs_tx : option Z;
  qs_stmt : Query -> option Stmt
}.

Definition New (db : DBTX) : Queries := mkQueries db None (fun _ => None).

Definition WithTx (q : Queries) (tx : Z) : Queries := mkQueries (OnTx tx) (Some tx) (qs_stmt q).

Section queries.
Context {arg : Type}.
Implicit Types (q : Queries) (k : Query) (args : list arg).

Definition run_query (m : method) q (stmt : option Stmt) (query : string) args : Call arg :=
  match stmt, qs_tx q with
  | Some stmt, Some tx => let st := StmtContext tx stmt in mkCall (stmt_on st) m (stmt_query st) args
  | Some stmt, None => mkCall (stmt_on stmt) m (stmt_query stmt) args
  | None, _ => mkCall (qs_db q) m query args
  end.

Definition exec := run_query ExecContext.
Definition query := run_query QueryContext.
Definition queryRow := run_query QueryRowContext.

(** The method of each query: one row is asked for, or none. *)
Definition Querier_call q k args : Call arg :=
  match k with
  | LatestSnapshot | LoadDBAppliedCursor | LoadMQPublishedCursor | OldestSnapshotWalIndex =>
      queryRow q (qs_stmt q k) (sql_text k) args
  | _ => exec q (qs_stmt q k) (sql_text k) args
  end.

(** *** Preparing and closing *)

Variable accepts : DBTX -> string -> bool.
Variable closes : Stmt -> bool.

Definition PrepareContext (db : DBTX) (text : string) : option Stmt :=
  if accepts db text then Some (mkStmt db text) else None.

Definition set_stmt q k (st : Stmt) : Queries :=
  mkQueries (qs_db q) (qs_tx q) (fun k' => if decide (k' = k) then Some st else qs_stmt q k').

Fixpoint prepare_all (ks : list Query) q : Queries + Query :=
  match ks with
  | [] => inl q
  | k :: ks =>
      match PrepareContext (qs_db q) (sql_text k) with
      | None => inr k
      | Some st => prepare_all ks (set_stmt q k st)
      end
  end.

(** The query whose preparation failed is the error. *)
Definition Prepare (db : DBTX) : Queries + Query := prepare_all all_queries (New db).

(** The statements closed, and the query of the last one that failed to. *)
Fixpoint close_all (ks : list Query) q (closed : list Stmt) (err : option Query) : list Stmt * option Query :=
  match ks with
  | [] => (closed, err)
  | k :: ks =>
      match qs_stmt q k with
      | None => close_all ks q closed err
      | Some st => close_all ks q (closed ++ [st])%list (if closes st then err else Some k)
      end
  end.

Definition Close_queries q : list Stmt * option Query := close_all all_queries q [] None.

(** ** Every query runs where it is meant to *)

(** The ways to obtain the generated code's value. *)
Inductive made : Queries -> Prop :=
  | made_new db : made (New db)
  | made_prepared db q : Prepare db = inl q -> made q
  | made_in_tx q tx : made q -> made (WithTx q tx).

(** A statement has the text of its query, and was prepared on the database unless
    a transaction is named when it runs. *)
Definition prepared_ok q : Prop :=
  forall k st, qs_stmt q k = Some st -> stmt_query st = sql_text k /\ (qs_tx q = None -> stmt_on st = qs_db q).

Lemma prepare_all_ok ks q q' :
  prepare_all ks q = inl q' -> prepared_ok q ->
  prepared_ok q' /\ qs_db q' = qs_db q /\ qs_tx q' = qs_tx q /\
  (forall k, is_Some (qs_stmt q' k) <-> k ∈ ks \/ is_Some (qs_stmt q k)).
Proof.
  revert q. induction ks as [|k ks IH]; intros q; cbn [prepare_all].
  - intros [= ->] Hq. split_and!; [done..|]. intros k. split; [by right|]. intros [Hk|?]; [by apply elem_of_nil in Hk|done].
  - unfold PrepareContext. destruct (accepts _ _); [|done]. intros Hp Hq.
    destruct (IH _ Hp) as (H1 & H2 & H3 & H4).
    + intros k' st. cbn. destruct (decide (k' = k)) as [->|_]; [by intros [= <-]|]. apply Hq.
    + split_and!; [done..|]. intros k'. rewrite H4. cbn. rewrite elem_of_cons. destruct (decide (k' = k)) as [->|]; [|tauto].
      split; [intros _; by left; left|intros _; right; by eexists].
Qed.

Lemma made_ok q : made q -> prepared_ok q.
Proof.
  induction 1 as [db|db q Hp|q tx _ IH].
  - by intros k st.
  - eapply prepare_all_ok; [exact Hp|]. by intros k st.
  - intros k st Hk. split; [by eapply IH|done].
Qed.

Lemma Querier_call_run q k args : exists m, Querier_call q k args = run_query m q (qs_stmt q k) (sql_text k) args.
Proof. destruct k; by eexists. Qed.

Lemma run_query_scope m q k args :
  prepared_ok q ->
  run_query m q (qs_stmt q k) (sql_text k) args =
    mkCall (match qs_tx q with Some tx => if qs_stmt q k is Some _ then OnTx tx else qs_db q | None => qs_db q end) m (sql_text k) args.
Proof.
  intros Hq. unfold run_query. destruct (qs_stmt q k) as [st|] eqn:Hk; [|by destruct (qs_tx q)].
  destruct (Hq _ _ Hk) as [Ht Hdb]. destruct (qs_tx q) as [tx|]; cbn; by rewrite Ht, ?Hdb.
Qed.

Lemma all_queries_complete k : k ∈ all_queries.
Proof. apply (bool_decide_unpack _). by destruct k; vm_compute. Qed.

(** *** The first refusal ends the preparation *)

Lemma prepare_all_error ks q k :
  prepare_all ks q = inr k -> exists ks1 ks2, ks = (ks1 ++ k :: ks2)%list /\ accepts (qs_db q) (sql_text k) = false /\
    Forall (fun k' => accepts (qs_db q) (sql_text k') = true) ks1.
Proof.
  revert q. induction ks as [|k' ks IH]; intros q; cbn [prepare_all]; [done|]. unfold PrepareContext.
  destruct (accepts (qs_db q) (sql_text k')) eqn:Ha.
  - intros Hp. destruct (IH _ Hp) as (ks1 & ks2 & -> & Hk & H1). exists (k' :: ks1), ks2. split_and!; [done|done|by constructor].
  - intros [= ->]. by exists [], ks.
Qed.

(** *** Closing reaches every statement *)

Lemma close_all_ok ks q closed err :
  fst (close_all ks q closed err) = (closed ++ omap (qs_stmt q) ks)%list /\
  (snd (close_all ks q closed err) = None <-> err = None /\ Forall (fun st => closes st = true) (omap (qs_stmt q) ks)).
Proof.
  revert closed err. induction ks as [|k ks IH]; intros closed err; cbn [close_all].
  { cbn. rewrite app_nil_r. split; [done|]. split; [intros ->; by split|tauto]. }
  csimpl. destruct (qs_stmt q k) as [st|]; [|apply IH].
  destruct (IH (closed ++ [st])%list (if closes st then err else Some k)) as [-> ->]. rewrite <- app_assoc. split; [done|].
  rewrite Forall_cons. destruct (closes st); naive_solver.
Qed.
End queries.
