(* ===== verification/Storage.v ===== *)
(** * The stores ([internal/storage/event.go], [internal/storage/snapshot.go])

    The methods of [EventStore], of its transaction and of [SnapshotStore] on the
    database of [Database]. A [Store] is the committed database, the view of the
    open transaction if there is one, and the number of calls made to the server
    so far, which selects their fate. The statements of a transaction work on its
    view; [Commit] makes the view the database. A transaction runs here without
    another writer between its [Begin] and its end, which is what the isolation
    of the server provides. *)

From S2P Require Import Prelude Domain Columns Database.

Record Store (bytes : Type) := mkStore {
  st_db : DB bytes;
  st_tx : option (DB bytes);
  st_calls : nat
}.
Arguments mkStore {bytes} _ _ _.
Arguments st_db {bytes} _.
Arguments st_tx {bytes} _.
Arguments st_calls {bytes} _.

Inductive store_error :=
  | ErrConstraint
  | ErrDriver
  | ErrTxDone
  | ErrNoRows.

Section storage.
Context {bytes : Type} `{!Server}.
Abbreviation db := (DB bytes).
Abbreviation store := (Store bytes).
Implicit Types (s : store).

(** ** Calls *)

(** A statement outside a transaction. *)
Definition exec_db (stmt : Time -> db -> option db) s : store * option store_error :=
  let n := st_calls s in
  match answer_at n, stmt (server_now n) (st_db s) with
  | NotExecuted, _ => (mkStore (st_db s) (st_tx s) (S n), Some ErrDriver)
  | _, None => (mkStore (st_db s) (st_tx s) (S n), Some ErrConstraint)
  | Answered, Some d => (mkStore d (st_tx s) (S n), None)
  | AnswerLost, Some d => (mkStore d (st_tx s) (S n), Some ErrDriver)
  end.

(** A statement of the open transaction. *)
Definition exec_tx (stmt : Time -> db -> option db) s : store * option store_error :=
  let n := st_calls s in
  match st_tx s with
  | None => (s, Some ErrTxDone)
  | Some view =>
      match answer_at n, stmt (server_now n) view with
      | NotExecuted, _ => (mkStore (st_db s) (Some view) (S n), Some ErrDriver)
      | _, None => (mkStore (st_db s) (Some view) (S n), Some ErrConstraint)
      | Answered, Some d => (mkStore (st_db s) (Some d) (S n), None)
      | AnswerLost, Some d => (mkStore (st_db s) (Some d) (S n), Some ErrDriver)
      end
  end.

(** A query. *)
Definition query {A} (q : db -> A) (view : db) s : store * (A + store_error) :=
  let n := st_calls s in
  (mkStore (st_db s) (st_tx s) (S n),
   match answer_at n with Answered => inl (q view) | _ => inr ErrDriver end).

(** ** Transactions *)

Definition Begin s : store * option store_error :=
  let n := st_calls s in
  match answer_at n with
  | Answered => (mkStore (st_db s) (Some (st_db s)) (S n), None)
  | _ => (mkStore (st_db s) None (S n), Some ErrDriver)
  end.

(** The transaction is over whatever the answer is. *)
Definition Commit s : store * option store_error :=
  let n := st_calls s in
  match st_tx s with
  | None => (s, Some ErrTxDone)
  | Some view =>
      match answer_at n with
      | Answered => (mkStore view None (S n), None)
      | NotExecuted => (mkStore (st_db s) None (S n), Some ErrDriver)
      | AnswerLost => (mkStore view None (S n), Some ErrDriver)
      end
  end.

(** Rolling back a finished transaction is not an error. *)
Definition Rollback s : store * option store_error :=
  let n := st_calls s in
  match st_tx s with
  | None => (s, None)
  | Some _ =>
      (mkStore (st_db s) None (S n), match answer_at n with Answered => None | _ => Some ErrDriver end)
  end.

(** ** [EventStore] *)

Definition EventStore_LastTradeID s : store * (Z + store_error) := query q_LastTradeID (st_db s) s.

(** No row means that nothing has been applied yet. *)
Definition LoadDBAppliedCursor s : store * (Z + store_error) :=
  let '(s', r) := query q_LoadDBAppliedCursor (st_db s) s in
  (s', match r with
       | inr err => inr err
       | inl None => inl 0
       | inl (Some idx) => inl (u64 idx)
       end).

Definition LoadMQPublishedCursor s : store * (Z + store_error) :=
  let '(s', r) := query q_LoadMQPublishedCursor (st_db s) s in
  (s', match r with
       | inr err => inr err
       | inl None => inl 0
       | inl (Some idx) => inl (u64 idx)
       end).

Definition SaveMQPublishedCursor (index : Z) s : store * option store_error :=
  exec_db (fun _ => q_SaveMQPublishedCursor (i64 index)) s.

(** ** [eventTx] *)

Definition SaveDBAppliedCursor (index : Z) s : store * option store_error :=
  exec_tx (fun _ => q_SaveDBAppliedCursor (i64 index)) s.

Definition SaveTrade (tr : Trade) s : store * option store_error :=
  exec_tx (fun _ => q_SaveTrade (tr_Id tr) (tr_StockId tr) (tr_Price tr) (tr_Quantity tr)
    (tr_MakerOrderId tr) (tr_TakerOrderId tr) (tr_ExecutedAt tr)) s.

Definition UpdateOrderState (orderID : Z) (status : string) (quantity filledQty : Z) (fullyFilledAt : option Time)
    s : store * option store_error :=
  exec_tx (fun _ => q_UpdateOrderState status quantity filledQty fullyFilledAt orderID) s.

Definition RejectOrder (orderID : Z) (reason : string) s : store * option store_error :=
  exec_tx (fun _ => q_RejectOrder (mkNullEnum reason true) orderID) s.

Definition UpdateAccountBalance (accountID balance availableBalance : Z) s : store * option store_error :=
  exec_tx (fun _ => q_UpdateAccountBalance balance availableBalance accountID) s.

Definition ActivateAccount (accountID : Z) s : store * option store_error :=
  exec_tx (fun _ => q_ActivateAccount accountID) s.

Definition UpdateStockPrice (stockID price : Z) s : store * option store_error :=
  exec_tx (q_UpdateStockPrice price stockID) s.

Definition UpdateStockStatus (stockID : Z) (status : string) s : store * option store_error :=
  exec_tx (q_UpdateStockStatus status stockID) s.

Definition UpsertHolding (h : StockBalance) s : store * option store_error :=
  exec_tx (fun _ => q_UpsertHolding (sb_AccountId h) (sb_StockId h) (sb_Quantity h) (sb_AvailableQuantity h)
    (sb_Average h) (sb_TotalBuyAmount h)) s.

Definition DeleteHolding (accountID stockID : Z) s : store * option store_error :=
  exec_tx (fun _ => q_DeleteHolding accountID stockID) s.

Definition CompleteTransfer (transferID : Z) (completedAt : Time) s : store * option store_error :=
  exec_tx (fun _ => q_CompleteTransfer (Some completedAt) transferID) s.

Definition RejectTransfer (transferID : Z) (reason : string) (completedAt : Time) s : store * option store_error :=
  exec_tx (fun _ => q_RejectTransfer (mkNullEnum reason true) (Some completedAt) transferID) s.

Definition CompleteAdminRequest (requestID : Z) (completedAt : Time) s : store * option store_error :=
  exec_tx (fun _ => q_CompleteAdminRequest (Some completedAt) requestID) s.

Definition RejectAdminRequest (requestID : Z) (reason : string) (completedAt : Time) s : store * option store_error :=
  exec_tx (fun _ => q_RejectAdminRequest (mkNullEnum reason true) (Some completedAt) requestID) s.

(** ** [SnapshotStore] *)

(** The body between [BeginTx] and [Commit]; an error rolls back. *)
Definition save_and_prune (state : bytes) (inputWalIndex keep : Z) s : store * (Z + store_error) :=
  match exec_tx (q_SaveSnapshot state inputWalIndex) s with
  | (s, Some err) => (s, inr err)
  | (s, None) =>
      match exec_tx (fun _ => q_PruneSnapshots (i32 keep)) s with
      | (s, Some err) => (s, inr err)
      | (s, None) =>
          match query q_OldestSnapshotWalIndex (default (st_db s) (st_tx s)) s with
          | (s, inr err) => (s, inr err)
          | (s, inl None) => (s, inr ErrNoRows)
          | (s, inl (Some floor)) =>
              match Commit s with
              | (s, Some err) => (s, inr err)
              | (s, None) => (s, inl floor)
              end
          end
      end
  end.

Definition SaveSnapshotAndPrune (state : bytes) (inputWalIndex keep : Z) s : store * (Z + store_error) :=
  match Begin s with
  | (s, Some err) => (s, inr err)
  | (s, None) =>
      match save_and_prune state inputWalIndex keep s with
      | (s, inl floor) => (s, inl floor)
      | (s, inr err) => (fst (Rollback s), inr err)
      end
  end.

(** The oldest index kept, if there is a snapshot. *)
Definition PruneSnapshots (keep : Z) s : store * (option Z + store_error) :=
  match exec_db (fun _ => q_PruneSnapshots (i32 keep)) s with
  | (s, Some err) => (s, inr err)
  | (s, None) => query q_OldestSnapshotWalIndex (st_db s) s
  end.

Definition LatestSnapshot s : store * (option (bytes * Z) + store_error) :=
  query q_LatestSnapshot (st_db s) s.

(** ** What a call can do *)

(** A transaction starts from the committed database, and ends without it. *)
Lemma Begin_cases s s' err :
  Begin s = (s', err) -> st_db s' = st_db s /\ st_tx s' = match err with Some _ => None | None => Some (st_db s) end.
Proof. unfold Begin. destruct (answer_at _); by intros [= <- <-]. Qed.

Lemma Rollback_ends s : st_db (fst (Rollback s)) = st_db s /\ st_tx (fst (Rollback s)) = None.
Proof. unfold Rollback. by destruct (st_tx s) eqn:?. Qed.

(** A statement of a transaction leaves the database alone. *)
Lemma exec_tx_cases stmt s s' err :
  exec_tx stmt s = (s', err) ->
  st_db s' = st_db s /\
  (err = None -> exists view now d, st_tx s = Some view /\ stmt now view = Some d /\ st_tx s' = Some d).
Proof.
  unfold exec_tx. destruct (st_tx s) as [view|]; [|by intros [= <- <-]].
  destruct (answer_at (st_calls s)), (stmt (server_now (st_calls s)) view) as [d|] eqn:Hs; intros [= <- <-]; split; try done; intros _;
    by exists view, (server_now (st_calls s)), d.
Qed.

(** A statement outside a transaction was executed or had no effect. *)
Lemma exec_db_cases stmt s s' err :
  exec_db stmt s = (s', err) ->
  st_tx s' = st_tx s /\
  ((st_db s' = st_db s /\ err <> None) \/ exists now, stmt now (st_db s) = Some (st_db s')).
Proof.
  unfold exec_db. destruct (answer_at (st_calls s)), (stmt (server_now (st_calls s)) (st_db s)) as [d|] eqn:Hs; intros [= <- <-]; eauto.
Qed.

(** From the [n]-th call on, the database answers. *)
Definition answered_from (n : nat) : Prop := forall m, (n <= m)%nat -> answer_at m = Answered.

(** ** The cursors *)

(** The stored position of a consumer. *)
Definition cursor_at (t : CursorsType) (d : db) : Z := u64 (default 0 (cursors d !! t)).

Lemma LoadDBAppliedCursor_ok s s' c :
  LoadDBAppliedCursor s = (s', inl c) -> c = cursor_at DB_APPLIED_OUTPUT_SEQ (st_db s) /\ st_db s' = st_db s.
Proof.
  unfold LoadDBAppliedCursor, query, q_LoadDBAppliedCursor, cursor_at.
  destruct (answer_at _); [|done..]. destruct (cursors _ !! _); by intros [= <- <-].
Qed.

Lemma LoadMQPublishedCursor_ok s s' c :
  LoadMQPublishedCursor s = (s', inl c) -> c = cursor_at MQ_PUBLISHED_OUTPUT_SEQ (st_db s) /\ st_db s' = st_db s.
Proof.
  unfold LoadMQPublishedCursor, query, q_LoadMQPublishedCursor, cursor_at.
  destruct (answer_at _); [|done..]. destruct (cursors _ !! _); by intros [= <- <-].
Qed.

Lemma u64_i64 z : is_u64 z -> u64 (i64 z) = z.
Proof.
  intros Hz. unfold u64, i64. rewrite Zminus_mod_idemp_l. replace (z + _ - _) with z by lia. by apply Z.mod_small.
Qed.

(** A position that is written is read back, although the column is signed. *)
Lemma cursor_at_save t z d : is_u64 z -> cursor_at t (set_cursors d (<[t := i64 z]> (cursors d))) = z.
Proof. intros Hz. unfold cursor_at. cbn. rewrite lookup_insert_eq. by apply u64_i64. Qed.
End storage.
