(* ===== verification/SnapshotStore.v ===== *)
(** * What the snapshot store keeps ([internal/storage/snapshot.go])

    The table of snapshots, seen as the list of its ids in order. Saving adds the
    greatest id, pruning keeps the last ones, so the latest snapshot is the one
    saved last and the oldest index kept bounds what a restart can ask for. *)

From S2P Require Import Prelude Domain Columns Database Storage.

Section snapshots.
Context {bytes : Type} `{!Server, !ServerLaws}.
Abbreviation db := (DB bytes).
Implicit Types (d : db) (s : Store bytes).

(** ** The ids in order *)

(** The ids of the table are [ids], from the oldest to the newest. *)
Definition ids_are (ids : list Z) d : Prop :=
  StronglySorted Z.lt ids /\ forall i, is_Some (snapshots_tbl d !! i) <-> i ∈ ids.

Lemma sorted_lt_le ids : StronglySorted Z.lt ids -> StronglySorted Z.le ids.
Proof. induction 1 as [|i ids _ IH Hi]; constructor; [done|]. eapply Forall_impl; [exact Hi|]. cbn. lia. Qed.

Lemma sorted_lt_nodup ids : StronglySorted Z.lt ids -> NoDup ids.
Proof.
  induction 1 as [|i ids _ IH Hi]; constructor; [|done]. intros Hin. rewrite Forall_forall in Hi. specialize (Hi _ Hin). lia.
Qed.

Lemma sorted_le_lt ids : StronglySorted Z.le ids -> NoDup ids -> StronglySorted Z.lt ids.
Proof.
  induction 1 as [|i ids _ IH Hi]; intros Hn; [constructor|]. inversion_clear Hn as [|?? Hni Hn'].
  constructor; [by apply IH|]. rewrite Forall_forall in *. intros j Hj. specialize (Hi _ Hj). assert (j <> i) by (by intros ->). lia.
Qed.

Lemma key_in d i : i ∈ (map_to_list (snapshots_tbl d)).*1 <-> is_Some (snapshots_tbl d !! i).
Proof.
  rewrite list_elem_of_fmap. split.
  - intros ([j r] & -> & Hj%elem_of_map_to_list). eauto.
  - intros [r Hr]. exists (i, r). by rewrite elem_of_map_to_list.
Qed.

Lemma snapshot_ids_perm d : snapshot_ids d ≡ₚ (map_to_list (snapshots_tbl d)).*1.
Proof. apply merge_sort_Permutation. Qed.

Lemma snapshot_ids_are d : ids_are (snapshot_ids d) d.
Proof.
  split.
  - apply sorted_le_lt; [apply (StronglySorted_merge_sort Z.le)|]. rewrite snapshot_ids_perm. apply NoDup_fst_map_to_list.
  - intros i. by rewrite snapshot_ids_perm, key_in.
Qed.

Lemma ids_unique ids d : ids_are ids d -> snapshot_ids d = ids.
Proof.
  intros [Hs Hi]. destruct (snapshot_ids_are d) as [Hs' Hi'].
  apply (StronglySorted_unique Z.le); [by apply sorted_lt_le..|].
  apply NoDup_Permutation; [by apply sorted_lt_nodup..|]. intros i. by rewrite <- Hi, Hi'.
Qed.

(** ** The statements *)

Lemma q_SaveSnapshot_ids state idx now d ids :
  ids_are ids d ->
  exists id d', q_SaveSnapshot state idx now d = Some d' /\ ids_are (ids ++ [id]) d' /\
    snapshots_tbl d' = <[id := mkSnapshotRow id state idx now]> (snapshots_tbl d) /\ snapshots_tbl d !! id = None.
Proof.
  intros [Hs Hi]. unfold q_SaveSnapshot. set (keys := (map_to_list (snapshots_tbl d)).*1).
  destruct (auto_id_fresh keys) as [Hf _]. rewrite Forall_forall in Hf.
  assert (Hlt : Forall (fun i => i < auto_id keys) ids).
  { apply Forall_forall. intros i Hin. apply Hf, key_in. by apply Hi. }
  exists (auto_id keys). eexists. split; [done|]. cbn. split_and!; [|done|].
  - split; cbn.
    + clear Hi Hf. induction Hs as [|i ids Hs' IH Hall]; cbn; [repeat constructor|]. inversion_clear Hlt.
      constructor; [auto|]. apply Forall_app. split; [done|by repeat constructor].
    + intros i. rewrite lookup_insert_is_Some', elem_of_app, list_elem_of_singleton, Hi. intuition congruence.
  - destruct (snapshots_tbl d !! auto_id keys) eqn:Hk; [|done]. assert (Hin : auto_id keys ∈ keys) by (apply key_in; rewrite Hk; eauto).
    specialize (Hf _ Hin). cbn in Hf. lia.
Qed.

Lemma sorted_drop n ids : StronglySorted Z.lt ids -> StronglySorted Z.lt (drop n ids).
Proof. revert n. induction ids as [|i ids IH]; intros [|n] Hs; [done..|]. inversion_clear Hs. cbn. auto. Qed.

(** Pruning keeps the newest [keep] rows as they are. *)
Lemma q_PruneSnapshots_ids keep d ids :
  0 <= keep -> ids_are ids d ->
  let kept := drop (length ids - Z.to_nat keep) ids in
  exists d', q_PruneSnapshots keep d = Some d' /\ ids_are kept d' /\
    forall i, i ∈ kept -> snapshots_tbl d' !! i = snapshots_tbl d !! i.
Proof.
  intros Hk Hi kept. unfold q_PruneSnapshots. destruct (Z.ltb_spec keep 0); [lia|].
  rewrite (ids_unique _ _ Hi). destruct Hi as [Hs Hi].
  assert (Hin : forall i, i ∈ take (Z.to_nat keep) (rev ids) <-> i ∈ kept).
  { intros i. rewrite firstn_rev, !list_elem_of_In, <- in_rev. done. }
  eexists. split; [done|]. cbn. split.
  - split; cbn; [by apply sorted_drop|]. intros i. rewrite <- Hin. split.
    + by intros [r Hr%map_lookup_filter_Some_1_2].
    + intros Hkept. assert (i ∈ ids) as Hids by (apply Hin in Hkept; unfold kept in Hkept; by eapply subseteq_drop).
      apply Hi in Hids as [r Hr]. exists r. by apply map_lookup_filter_Some_2.
  - intros i Hkept%Hin. destruct (snapshots_tbl d !! i) as [r|] eqn:Hr.
    + by apply map_lookup_filter_Some_2.
    + apply map_lookup_filter_None_2. by left.
Qed.

(** ** The store as a list *)

Definition entry d (id : Z) : option (bytes * Z) :=
  (fun r => (sn_State r, sn_InputWalIndex r)) <$> snapshots_tbl d !! id.

(** The snapshots with their indices, from the oldest to the newest. *)
Definition stored d : list (bytes * Z) := omap (entry d) (snapshot_ids d).

Lemma stored_entries d : Forall2 (fun id p => entry d id = Some p) (snapshot_ids d) (stored d).
Proof.
  unfold stored. assert (Hall : Forall (fun id => is_Some (entry d id)) (snapshot_ids d)).
  { apply Forall_forall. intros i Hi. unfold entry. apply fmap_is_Some. by apply (snapshot_ids_are d). }
  induction Hall as [|i ids [p Hp] _ IH]; cbn; [constructor|]. rewrite Hp. by constructor.
Qed.

Lemma stored_unique d ids ps : ids_are ids d -> Forall2 (fun id p => entry d id = Some p) ids ps -> stored d = ps.
Proof.
  intros Hi. unfold stored. rewrite (ids_unique _ _ Hi). clear Hi.
  induction 1 as [|i p ids ps Hp _ IH]; cbn; [done|]. rewrite Hp. by f_equal.
Qed.

Lemma q_LatestSnapshot_stored d : q_LatestSnapshot d = last (stored d).
Proof.
  unfold q_LatestSnapshot. pose proof (stored_entries d) as Hs. revert Hs. generalize (stored d) as ps.
  induction (snapshot_ids d) as [|i ids _] using rev_ind; intros ps Hs.
  { by apply Forall2_nil_inv_l in Hs as ->. }
  apply Forall2_app_inv_l in Hs as (ps1 & ps2 & _ & Hs & ->).
  apply Forall2_cons_inv_l in Hs as (p & ps' & Hp & Hn & ->). apply Forall2_nil_inv_l in Hn as ->.
  rewrite !last_snoc. cbn. unfold entry in Hp. by destruct (snapshots_tbl d !! i).
Qed.

Lemma q_OldestSnapshotWalIndex_stored d : q_OldestSnapshotWalIndex d = snd <$> head (stored d).
Proof.
  unfold q_OldestSnapshotWalIndex. destruct (stored_entries d) as [|i p ids ps Hp _]; [done|].
  cbn. unfold entry in Hp. by destruct (snapshots_tbl d !! i); simplify_eq/=.
Qed.

Lemma q_SaveSnapshot_stored state idx now d :
  exists d', q_SaveSnapshot state idx now d = Some d' /\ stored d' = stored d ++ [(state, idx)].
Proof.
  destruct (q_SaveSnapshot_ids state idx now d _ (snapshot_ids_are d)) as (id & d' & Hq & Hids & Htbl & Hnew).
  exists d'. split; [done|]. eapply stored_unique; [exact Hids|]. apply Forall2_app.
  - eapply Forall2_impl; [apply stored_entries|]. intros i p Hp. unfold entry in *. rewrite Htbl.
    rewrite lookup_insert_ne; [done|]. intros ->. by rewrite Hnew in Hp.
  - constructor; [|constructor]. unfold entry. by rewrite Htbl, lookup_insert_eq.
Qed.

Lemma q_PruneSnapshots_stored keep d :
  0 <= keep -> exists d', q_PruneSnapshots keep d = Some d' /\
    stored d' = drop (length (stored d) - Z.to_nat keep) (stored d).
Proof.
  intros Hk. destruct (q_PruneSnapshots_ids keep d _ Hk (snapshot_ids_are d)) as (d' & Hq & Hids & Hsame).
  exists d'. split; [done|]. eapply stored_unique; [exact Hids|].
  rewrite <- (Forall2_length _ _ _ (stored_entries d)).
  pose proof (Forall2_drop _ _ _ (length (snapshot_ids d) - Z.to_nat keep) (stored_entries d)) as Hdrop.
  revert Hdrop Hsame. generalize (drop (length (snapshot_ids d) - Z.to_nat keep) (snapshot_ids d)) as ids.
  intros ids Hd Hsame. induction Hd as [|i p ids0 ps Hp _ IH]; constructor.
  - unfold entry in *. by rewrite Hsame by set_solver.
  - apply IH. set_solver.
Qed.

(** ** The operations *)

(** Saving is adding at the end and keeping the last [keep]; the floor is the
    index of the oldest one kept. *)
Lemma SaveSnapshotAndPrune_stored state idx keep s :
  answered_from (st_calls s) -> 0 < keep <= MaxInt32 ->
  exists s' floor, SaveSnapshotAndPrune state idx keep s = (s', inl floor) /\ (st_calls s <= st_calls s')%nat /\
    let all := stored (st_db s) ++ [(state, idx)] in
    stored (st_db s') = drop (length all - Z.to_nat keep) all /\
    snd <$> head (stored (st_db s')) = Some floor.
Proof.
  intros Ha Hk. unfold SaveSnapshotAndPrune, Begin, save_and_prune, exec_tx, query, Commit.
  rewrite !Ha by lia. cbn [st_tx st_db st_calls]. rewrite ?Ha by lia.
  destruct (q_SaveSnapshot_stored state idx (server_now (S (st_calls s))) (st_db s)) as (d1 & -> & H1).
  cbn [st_tx st_db st_calls]. rewrite i32_small by lia. rewrite !Ha by lia.
  destruct (q_PruneSnapshots_stored keep d1 ltac:(lia)) as (d2 & -> & H2).
  cbn [st_tx st_db st_calls from_option]. unfold id. rewrite !Ha by lia; rewrite q_OldestSnapshotWalIndex_stored, H2, H1.
  set (all := stored (st_db s) ++ [(state, idx)]).
  assert (Hne : exists p ps, drop (length all - Z.to_nat keep) all = p :: ps).
  { destruct (drop (length all - Z.to_nat keep) all) as [|p ps] eqn:Hd; [|eauto].
    apply (f_equal length) in Hd. rewrite length_drop in Hd. unfold all in Hd. rewrite length_app in Hd. cbn in Hd. lia. }
  destruct Hne as (p & ps & Hd). rewrite Hd. cbn. rewrite ?Ha by lia. eexists _, _. split; [done|].
  cbn. rewrite H2, H1. fold all. rewrite Hd. split; [lia|done].
Qed.

Lemma PruneSnapshots_stored keep s :
  answered_from (st_calls s) -> 0 <= keep <= MaxInt32 ->
  exists s', PruneSnapshots keep s = (s', inl (snd <$> head (stored (st_db s')))) /\
    stored (st_db s') = drop (length (stored (st_db s)) - Z.to_nat keep) (stored (st_db s)).
Proof.
  intros Ha Hk. unfold PruneSnapshots, exec_db, query. rewrite i32_small by lia. rewrite !Ha by lia.
  destruct (q_PruneSnapshots_stored keep (st_db s) ltac:(lia)) as (d2 & -> & H2). cbn [st_db st_calls]. rewrite !Ha by lia.
  rewrite q_OldestSnapshotWalIndex_stored. exists (mkStore d2 (st_tx s) (S (S (st_calls s)))). done.
Qed.

(** Whatever the fate of the calls, a save leaves the database as it was, or saves
    and prunes; a lost answer to the commit is an error although it happened. *)
Lemma SaveSnapshotAndPrune_effect state idx keep s s' r :
  SaveSnapshotAndPrune state idx keep s = (s', r) ->
  (st_db s' = st_db s /\ exists err, r = inr err) \/
  (exists now d1, q_SaveSnapshot state idx now (st_db s) = Some d1 /\ q_PruneSnapshots (i32 keep) d1 = Some (st_db s') /\
    forall floor, r = inl floor -> q_OldestSnapshotWalIndex (st_db s') = Some floor).
Proof.
  unfold SaveSnapshotAndPrune. destruct (Begin s) as [s1 [e|]] eqn:Hb; destruct (Begin_cases _ _ _ Hb) as [Hd1 Ht1]; clear Hb.
  { intros [= <- <-]. eauto. }
  assert (Hundo : forall s2 : Store bytes, st_db s2 = st_db s -> forall e, (fst (Rollback s2), inr e) = (s', r) ->
    st_db s' = st_db s /\ exists err, r = inr err).
  { intros s2 H2 e [= <- <-]. destruct (Rollback_ends s2) as [-> _]. eauto. }
  unfold save_and_prune.
  destruct (exec_tx (q_SaveSnapshot state idx) s1) as [s2 [e|]] eqn:H2; destruct (exec_tx_cases _ _ _ _ H2) as [Hd2 Hok2].
  { intros He. left. eapply Hundo, He. congruence. }
  destruct (Hok2 eq_refl) as (v & now & d1 & Hv & Hq & Ht2). clear Hok2. rewrite Ht1 in Hv. injection Hv as <-.
  destruct (exec_tx (fun _ => q_PruneSnapshots (i32 keep)) s2) as [s3 [e|]] eqn:H3; destruct (exec_tx_cases _ _ _ _ H3) as [Hd3 Hok3].
  { intros He. left. eapply Hundo, He. congruence. }
  destruct (Hok3 eq_refl) as (v & now' & d2 & Hv & Hq' & Ht3). clear Hok3. rewrite Ht2 in Hv. injection Hv as <-.
  unfold query. destruct (answer_at (st_calls s3)) eqn:Hans.
  2,3: intros He; left; eapply Hundo, He; cbn; congruence.
  rewrite Ht3. destruct (q_OldestSnapshotWalIndex (default (st_db s3) (Some d2))) as [floor|] eqn:Hfl.
  2: { intros He. left. eapply Hundo, He. cbn. congruence. }
  unfold Commit. cbn [st_tx st_calls st_db]. destruct (answer_at (S (st_calls s3))); intros [= <- <-]; cbn [st_db].
  - right. exists now, d1. split_and!; [done|done|]. by intros ? [= <-].
  - left. split; [cbn; congruence|eauto].
  - right. exists now, d1. by split_and!.
Qed.

(** The table is as before or has the snapshot at its end and is pruned; a floor is
    the index of the oldest one kept. *)
Lemma SaveSnapshotAndPrune_cases state idx keep s s' r :
  0 <= keep <= MaxInt32 -> SaveSnapshotAndPrune state idx keep s = (s', r) ->
  let all := stored (st_db s) ++ [(state, idx)] in
  (stored (st_db s') = stored (st_db s) /\ exists err, r = inr err) \/
  (stored (st_db s') = drop (length all - Z.to_nat keep) all /\
   forall floor, r = inl floor -> snd <$> head (stored (st_db s')) = Some floor).
Proof.
  intros Hk Hsave all. rewrite <- q_OldestSnapshotWalIndex_stored.
  destruct (SaveSnapshotAndPrune_effect _ _ _ _ _ _ Hsave) as [[-> ?]|(now & d1 & H1 & H2 & Hfl)]; [by left|right].
  split; [|done]. rewrite i32_small in H2 by (unfold MaxInt32 in *; lia).
  destruct (q_SaveSnapshot_stored state idx now (st_db s)) as (d1' & H1' & Hst1). rewrite H1' in H1. injection H1 as <-.
  destruct (q_PruneSnapshots_stored keep d1' ltac:(lia)) as (d2' & H2' & Hst2). rewrite H2' in H2. injection H2 as H2.
  by rewrite <- H2, Hst2, Hst1.
Qed.

Lemma PruneSnapshots_cases keep s s' r :
  0 <= keep <= MaxInt32 -> PruneSnapshots keep s = (s', r) ->
  (stored (st_db s') = stored (st_db s) \/
   stored (st_db s') = drop (length (stored (st_db s)) - Z.to_nat keep) (stored (st_db s))) /\
  forall floor, r = inl floor -> snd <$> head (stored (st_db s')) = floor.
Proof.
  intros Hk. unfold PruneSnapshots. rewrite i32_small by (unfold MaxInt32 in *; lia).
  destruct (exec_db _ s) as [s1 err] eqn:He. destruct (exec_db_cases _ _ _ _ He) as [_ Hc].
  destruct (q_PruneSnapshots_stored keep (st_db s) ltac:(lia)) as (d & Hd & Hst).
  assert (H1 : stored (st_db s1) = stored (st_db s) \/
    stored (st_db s1) = drop (length (stored (st_db s)) - Z.to_nat keep) (stored (st_db s))).
  { destruct Hc as [[-> _]|(now & Hq)]; [by left|right]. rewrite Hd in Hq. by injection Hq as <-. }
  destruct err; [by intros [= <- <-]|]. unfold query. intros [= <- <-]. cbn [st_db]. split; [done|].
  destruct (answer_at _); [|done..]. intros ? [= <-]. by rewrite q_OldestSnapshotWalIndex_stored.
Qed.
End snapshots.
