(* ===== verification/Signals.v ===== *)
(** * Waking the consumers ([internal/publisher/handler.go])

    The engine signals every record it appends on a channel of capacity one
    ([notifyPublisher]); [fanOutSignals] passes a signal on to the channels of the
    projector and of the publisher, also of capacity one, without ever blocking
    ([notify]); each consumer drains the log and then waits for its channel or for
    a timer. The four goroutines run interleaved, one step at a time. Proved here:
    although signals are dropped when a channel is full, no record is overlooked. *)

From S2P Require Import Prelude.

(** A channel of capacity one that carries no data: whether it is full. *)
Abbreviation channel := bool (only parsing).

(** A send that gives up when the channel is full. *)
Definition notify (signal : channel) : channel := if signal then signal else true.

Inductive consumer := DBConsumer | EventConsumer.

#[export] Instance consumer_eq_dec : EqDecision consumer.
Proof. solve_decision. Defined.

(** Where [Run] of a consumer is: before [drain], in [drain] after it has read the
    last index, or at the [select]. *)
Inductive run_pc :=
  | AtDrain
  | Draining (last : nat)
  | AtSelect (last : nat).

(** The loop of a consumer: its cursor, and whether its last drain failed. *)
Record run_loop := mkRunLoop {
  rl_pc : run_pc;
  rl_cursor : nat;
  rl_failed : bool
}.

(** Where [fanOutSignals] is. *)
Inductive fan_pc :=
  | FanWait
  | FanDB
  | FanEvent.

Record signals := mkSignals {
  sg_records : nat;
  sg_appended : bool;
  sg_output : channel;
  sg_fan : fan_pc;
  sg_db : channel;
  sg_event : channel;
  sg_projector : run_loop;
  sg_publisher : run_loop
}.

Implicit Types (s : signals) (w : consumer).

Definition signal_of w s : channel := match w with DBConsumer => sg_db s | EventConsumer => sg_event s end.
Definition loop_of w s : run_loop := match w with DBConsumer => sg_projector s | EventConsumer => sg_publisher s end.

Definition set_loop w (l : run_loop) s : signals :=
  mkSignals (sg_records s) (sg_appended s) (sg_output s) (sg_fan s) (sg_db s) (sg_event s)
    (match w with DBConsumer => l | EventConsumer => sg_projector s end)
    (match w with DBConsumer => sg_publisher s | EventConsumer => l end).
Definition set_signal w (c : channel) s : signals :=
  mkSignals (sg_records s) (sg_appended s) (sg_output s) (sg_fan s)
    (match w with DBConsumer => c | EventConsumer => sg_db s end)
    (match w with DBConsumer => sg_event s | EventConsumer => c end) (sg_projector s) (sg_publisher s).
Definition set_fan (f : fan_pc) s : signals :=
  mkSignals (sg_records s) (sg_appended s) (sg_output s) f (sg_db s) (sg_event s) (sg_projector s) (sg_publisher s).

(** [appendOutput] of the engine: the record, then the signal. *)
Definition engine_appends s : signals :=
  mkSignals (S (sg_records s)) true (sg_output s) (sg_fan s) (sg_db s) (sg_event s) (sg_projector s) (sg_publisher s).
Definition notifyPublisher s : signals :=
  mkSignals (sg_records s) false (notify (sg_output s)) (sg_fan s) (sg_db s) (sg_event s) (sg_projector s) (sg_publisher s).

(** [fanOutSignals]: receive, notify the projector, notify the publisher. *)
Inductive fanOutSignals : signals -> signals -> Prop :=
  | fan_receives s :
      sg_fan s = FanWait -> sg_output s = true ->
      fanOutSignals s (mkSignals (sg_records s) (sg_appended s) false FanDB (sg_db s) (sg_event s) (sg_projector s) (sg_publisher s))
  | fan_db s : sg_fan s = FanDB -> fanOutSignals s (set_signal DBConsumer (notify (sg_db s)) (set_fan FanEvent s))
  | fan_event s : sg_fan s = FanEvent -> fanOutSignals s (set_signal EventConsumer (notify (sg_event s)) (set_fan FanWait s)).

(** The loop of [Run]: a drain reads the last index and then advances the cursor
    to it, or fails somewhere on the way. *)
Inductive loop_step w : signals -> signals -> Prop :=
  | run_reads s l :
      loop_of w s = l -> rl_pc l = AtDrain ->
      loop_step w s (set_loop w (mkRunLoop (Draining (sg_records s)) (rl_cursor l) (rl_failed l)) s)
  | run_drained s l last :
      loop_of w s = l -> rl_pc l = Draining last ->
      loop_step w s (set_loop w (mkRunLoop (AtSelect last) (rl_cursor l `max` last) false) s)
  | run_fails s l last c :
      loop_of w s = l -> rl_pc l = Draining last -> (rl_cursor l <= c)%nat -> (c <= rl_cursor l `max` last)%nat ->
      loop_step w s (set_loop w (mkRunLoop (AtSelect last) c true) s)
  | run_signal s l last :
      loop_of w s = l -> rl_pc l = AtSelect last -> signal_of w s = true ->
      loop_step w s (set_signal w false (set_loop w (mkRunLoop AtDrain (rl_cursor l) (rl_failed l)) s))
  | run_backstop s l last :
      loop_of w s = l -> rl_pc l = AtSelect last ->
      loop_step w s (set_loop w (mkRunLoop AtDrain (rl_cursor l) (rl_failed l)) s).

Inductive signals_step : signals -> signals -> Prop :=
  | ss_append s : sg_appended s = false -> signals_step s (engine_appends s)
  | ss_notify s : sg_appended s = true -> signals_step s (notifyPublisher s)
  | ss_fan s s' : fanOutSignals s s' -> signals_step s s'
  | ss_run w s s' : loop_step w s s' -> signals_step s s'.

(** [NewEngine] and [Handler.Run]: empty channels, consumers about to drain. *)
Definition signals_start (n c1 c2 : nat) : signals :=
  mkSignals n false false FanWait false false (mkRunLoop AtDrain c1 false) (mkRunLoop AtDrain c2 false).

(** ** No signal is lost *)

(** A signal for the consumer is on its way. *)
Definition in_flight w s : Prop :=
  sg_appended s = true \/ sg_output s = true \/ sg_fan s = FanDB \/ (w = EventConsumer /\ sg_fan s = FanEvent) \/
  signal_of w s = true.

(** The last index that a consumer has read. *)
Definition seen (pc : run_pc) : option nat :=
  match pc with AtDrain => None | Draining last | AtSelect last => Some last end.

(** Records that a consumer has not seen are signalled; a drain that did not fail
    reached what it had seen. *)
Definition awake w s : Prop :=
  let l := loop_of w s in
  (rl_cursor l <= sg_records s)%nat /\
  (forall last, seen (rl_pc l) = Some last -> (last <= sg_records s)%nat /\ ((last < sg_records s)%nat -> in_flight w s)) /\
  (forall last, rl_pc l = AtSelect last -> rl_failed l = false -> (last <= rl_cursor l)%nat).

Lemma notify_full c : notify c = true.
Proof. by destruct c. Qed.

Lemma awake_append w s : awake w s -> awake w (engine_appends s).
Proof.
  intros (Hc & Hs & Hd). destruct w; (split; [cbn in *; lia|split; [|exact Hd]]);
    intros last Hl; destruct (Hs last Hl) as [Hle _]; cbn in *; (split; [lia|]); intros _; by left.
Qed.

(** A step that keeps the records and the loop keeps what is in flight. *)
Lemma awake_passes w s s' :
  loop_of w s' = loop_of w s -> sg_records s' = sg_records s -> (in_flight w s -> in_flight w s') ->
  awake w s -> awake w s'.
Proof. unfold awake. intros -> -> Hf (Hc & Hs & Hd). split_and!; [done| |done]. intros last Hl. destruct (Hs last Hl). auto. Qed.

Lemma awake_notify w s : awake w s -> awake w (notifyPublisher s).
Proof. apply awake_passes; [by destruct w..|]. intros _. right. left. apply notify_full. Qed.

Lemma awake_fan w s s' : fanOutSignals s s' -> awake w s -> awake w s'.
Proof.
  intros Hf. apply awake_passes; [by destruct Hf, w..|]. unfold in_flight.
  destruct Hf as [s Hpc Ho|s Hpc|s Hpc], w; cbn; rewrite ?notify_full, ?Hpc; naive_solver.
Qed.

(** A step of one consumer concerns only that consumer. *)
Lemma loop_step_other w w' s s' : loop_step w' s s' -> w <> w' -> awake w s -> awake w s'.
Proof.
  intros Hr Hne. apply awake_passes; [by destruct Hr, w, w'..|]. unfold in_flight.
  by destruct Hr, w, w'.
Qed.

Lemma loop_step_own w s s' : loop_step w s s' -> awake w s -> awake w s'.
Proof.
  intros [s0 l Hl Hpc|s0 l last Hl Hpc|s0 l last c Hl Hpc Hc1 Hc2|s0 l last Hl Hpc Hsig|s0 l last Hl Hpc] (Hc & Hs & Hd);
    rewrite Hl in *; unfold awake.
  - replace (loop_of w _) with (mkRunLoop (Draining (sg_records s0)) (rl_cursor l) (rl_failed l)) by (by destruct w).
    split_and!; [done| |done]. intros last [= <-]. cbn. split; [lia|]. lia.
  - replace (loop_of w _) with (mkRunLoop (AtSelect last) (rl_cursor l `max` last) false) by (by destruct w).
    destruct (Hs last) as [Hle Hf]; [by rewrite Hpc|]. cbn. split_and!; [lia| |].
    + intros last' [= <-]. split; [done|]. intros Hlt. specialize (Hf Hlt). by destruct w.
    + intros last' [= <-] _. lia.
  - replace (loop_of w _) with (mkRunLoop (AtSelect last) c true) by (by destruct w).
    destruct (Hs last) as [Hle Hf]; [by rewrite Hpc|]. cbn. split_and!; [lia| |done].
    intros last' [= <-]. split; [done|]. intros Hlt. specialize (Hf Hlt). by destruct w.
  - replace (loop_of w _) with (mkRunLoop AtDrain (rl_cursor l) (rl_failed l)) by (by destruct w).
    split_and!; [destruct w; done|done|done].
  - replace (loop_of w _) with (mkRunLoop AtDrain (rl_cursor l) (rl_failed l)) by (by destruct w).
    split_and!; [done|done|done].
Qed.

Lemma signals_step_awake s s' : signals_step s s' -> (forall w, awake w s) -> forall w, awake w s'.
Proof.
  intros [s0 _|s0 _|s0 s1 Hf|w0 s0 s1 Hr] Ha w.
  - by apply awake_append.
  - by apply awake_notify.
  - by eapply awake_fan.
  - destruct (decide (w = w0)) as [->|Hne]; [by eapply loop_step_own|by eapply loop_step_other].
Qed.

Lemma signals_awake n c1 c2 s w :
  (c1 <= n)%nat -> (c2 <= n)%nat -> rtc signals_step (signals_start n c1 c2) s -> awake w s.
Proof.
  intros H1 H2 Hr. revert w. assert (Hstart : forall w, awake w (signals_start n c1 c2)) by (by intros []).
  induction Hr as [|s1 s2 s3 Hs _ IH]; [done|]. apply IH. by eapply signals_step_awake.
Qed.
