(* ===== verification/Connections.v ===== *)
(** * Configuration and connections ([internal/config], [Open] and [Close] of [internal/messaging], [OpenMySQL])

    The settings come from the environment, with defaults; a port must be a
    decimal integer. Opening a connection takes several calls to the client
    library, each of which can fail: what was opened before a failure is closed
    again. The environment is a parameter, and so is the outcome of each call. *)

From Stdlib Require Import Ascii.
From S2P Require Import Prelude.

#[local] Open Scope string_scope.

(** ** Settings *)

Record MySQL := mkMySQL {
  my_Host : string; my_Port : Z; my_User : string; my_Password : string; my_Database : string }.

Record RabbitMQ := mkRabbitMQ {
  rq_Host : string; rq_Port : Z; rq_User : string; rq_Password : string; rq_PrefetchCount : Z;
  rq_DataQueue : string; rq_EventQueue : string }.

Record WALConfig := mkWALConfig { wc_Dir : string }.

Record Config := mkConfig { cf_MySQL : MySQL; cf_RabbitMQ : RabbitMQ; cf_WAL : WALConfig }.

Definition rabbitMQPrefetchCount : Z := 256.

(** *** [strconv.Atoi] *)

Definition digit (c : ascii) : option Z :=
  let n := Z.of_nat (Ascii.nat_of_ascii c) - 48 in
  if Z.leb 0 n && Z.leb n 9 then Some n else None.

Fixpoint digits (acc : Z) (s : string) : option Z :=
  match s with
  | EmptyString => Some acc
  | String c s => d ← digit c; digits (acc * 10 + d) s
  end.

(** At least one digit. *)
Definition unsigned (s : string) : option Z := if String.eqb s "" then None else digits 0 s.

Definition in_int (n : Z) : option Z := if Z.leb (- (MaxInt64 + 1)) n && Z.leb n MaxInt64 then Some n else None.

Definition Atoi (s : string) : option Z :=
  match s with
  | String c rest =>
      if Ascii.eqb c "-" then n ← unsigned rest; in_int (- n)
      else if Ascii.eqb c "+" then n ← unsigned rest; in_int n
      else n ← unsigned s; in_int n
  | EmptyString => None
  end.

Section config.
(** [os.LookupEnv]. *)
Context (LookupEnv : string -> option string).

Definition env (key fallback : string) : string :=
  match LookupEnv key with
  | Some v => if negb (String.eqb v "") then v else fallback
  | None => fallback
  end.

(** The error names the variable. *)
Definition envInt (key : string) (fallback : Z) : Z + string :=
  match LookupEnv key with
  | None => inl fallback
  | Some v =>
      if String.eqb v "" then inl fallback
      else match Atoi v with
           | None => inr key
           | Some n => inl n
           end
  end.

Definition Load : Config + string :=
  match envInt "MYSQL_PORT" 3306 with
  | inr err => inr err
  | inl mysqlPort =>
      match envInt "RABBITMQ_PORT" 5672 with
      | inr err => inr err
      | inl rabbitPort =>
          inl (mkConfig
            (mkMySQL (env "MYSQL_HOST" "127.0.0.1") mysqlPort (env "MYSQL_USER" "root")
               (env "MYSQL_PASSWORD" "1234") (env "MYSQL_DATABASE" "stock"))
            (mkRabbitMQ (env "RABBITMQ_HOST" "127.0.0.1") rabbitPort (env "RABBITMQ_USER" "guest")
               (env "RABBITMQ_PASSWORD" "guest") rabbitMQPrefetchCount "data_queue" "event_queue")
            (mkWALConfig (env "WAL_DIR" "./data/wal")))
      end
  end.
End config.

(** The ports of a loaded configuration fit an [int]. *)
Lemma Atoi_range s n : Atoi s = Some n -> - (MaxInt64 + 1) <= n <= MaxInt64.
Proof.
  assert (Hin : forall m, in_int m = Some n -> - (MaxInt64 + 1) <= n <= MaxInt64).
  { intros m. unfold in_int. destruct (Z.leb_spec (- (MaxInt64 + 1)) m); [|done]. destruct (Z.leb_spec m MaxInt64); [|done].
    intros [= <-]. lia. }
  unfold Atoi. destruct s as [|c rest]; [done|]. repeat case_match; intros (m & _ & Hm)%bind_Some; eauto.
Qed.

(** ** Connections *)

Inductive resource :=
  | RConn
  | RConsumeCh
  | RPublishCh
  | RPool.

(** What is open, and how many calls have been made to the client library. *)
Record net := mkNet {
  net_open : list resource;
  net_calls : nat
}.

(** [amqp.Channel], [sql.DB] and the like: whether the [n]-th call succeeds. *)
Class Remote := { call_ok : nat -> bool }.

Inductive open_error :=
  | ErrDial
  | ErrConsumeChannel
  | ErrQos
  | ErrPublishChannel
  | ErrConfirm
  | ErrPing.

(** [*Connection]: the fields that are not nil. *)
Record Connection := mkConnection {
  cn_conn : bool;
  cn_consumeCh : bool;
  cn_publishCh : bool
}.

Section connections.
Context `{!Remote}.
Implicit Types (w : net).

Definition acquire (r : resource) w : bool * net :=
  if call_ok (net_calls w) then (true, mkNet (r :: net_open w) (S (net_calls w)))
  else (false, mkNet (net_open w) (S (net_calls w))).
Definition request w : bool * net := (call_ok (net_calls w), mkNet (net_open w) (S (net_calls w))).

(** Closing ends the resource, whatever it returns. *)
Fixpoint remove_first (r : resource) (l : list resource) : list resource :=
  match l with
  | [] => []
  | x :: l =>
      match r, x with
      | RConn, RConn | RConsumeCh, RConsumeCh | RPublishCh, RPublishCh | RPool, RPool => l
      | _, _ => x :: remove_first r l
      end
  end.
Definition close_res (r : resource) w : bool * net :=
  (call_ok (net_calls w), mkNet (remove_first r (net_open w)) (S (net_calls w))).
Definition close_quietly (r : resource) w : net := snd (close_res r w).

Definition Open (cfg : RabbitMQ) w : net * (Connection + open_error) :=
  let '(ok, w) := acquire RConn w in
  if negb ok then (w, inr ErrDial)
  else
    let '(ok, w) := acquire RConsumeCh w in
    if negb ok then (close_quietly RConn w, inr ErrConsumeChannel)
    else
      let '(ok, w) := if Z.gtb (rq_PrefetchCount cfg) 0 then request w else (true, w) in
      if negb ok then (close_quietly RConn (close_quietly RConsumeCh w), inr ErrQos)
      else
        let '(ok, w) := acquire RPublishCh w in
        if negb ok then (close_quietly RConn (close_quietly RConsumeCh w), inr ErrPublishChannel)
        else
          let '(ok, w) := request w in
          if negb ok
          then (close_quietly RConn (close_quietly RConsumeCh (close_quietly RPublishCh w)), inr ErrConfirm)
          else (w, inl (mkConnection true true true)).

(** [Close]: every field that is set, whatever the others return; the errors. *)
Definition close_field (set : bool) (r : resource) (w : net) (errs : list resource) : net * list resource :=
  if set then
    let '(ok, w) := close_res r w in (w, if negb ok then (errs ++ [r])%list else errs)
  else (w, errs).

Definition Close (c : Connection) w : net * list resource :=
  let '(w, errs) := close_field (cn_publishCh c) RPublishCh w [] in
  let '(w, errs) := close_field (cn_consumeCh c) RConsumeCh w errs in
  close_field (cn_conn c) RConn w errs.

Definition OpenMySQL (cfg : MySQL) w : net * (unit + open_error) :=
  let '(ok, w) := acquire RPool w in
  if negb ok then (w, inr ErrDial)
  else
    let '(ok, w) := request w in
    if negb ok then (close_quietly RPool w, inr ErrPing) else (w, inl tt).

(** Everything that a failed opening opened is closed again. *)
Lemma Open_cases cfg w w' r :
  Open cfg w = (w', r) ->
  match r with
  | inr _ => net_open w' = net_open w
  | inl c => c = mkConnection true true true /\ net_open w' = ([RPublishCh; RConsumeCh; RConn] ++ net_open w)%list
  end.
Proof.
  unfold Open, acquire, request, close_quietly, close_res.
  destruct (call_ok (net_calls w)); cbn; [|by intros [= <- <-]].
  destruct (call_ok (S (net_calls w))); cbn; [|by intros [= <- <-]].
  destruct (Z.gtb (rq_PrefetchCount cfg) 0); cbn; repeat (destruct (call_ok _); cbn; [|by intros [= <- <-]]); by intros [= <- <-].
Qed.

Lemma Close_all c w w' errs rest :
  c = mkConnection true true true -> net_open w = ([RPublishCh; RConsumeCh; RConn] ++ rest)%list ->
  Close c w = (w', errs) -> net_open w' = rest.
Proof. intros -> Hw. unfold Close, close_field, close_res. cbn. rewrite Hw. cbn. by intros [= <- <-]. Qed.

Lemma OpenMySQL_cases cfg w w' r :
  OpenMySQL cfg w = (w', r) -> net_open w' = match r with inr _ => net_open w | inl _ => RPool :: net_open w end.
Proof. unfold OpenMySQL, acquire, request. repeat (destruct (call_ok _); cbn); by intros [= <- <-]. Qed.
End connections.
