(* ===== verification/Process.v ===== *)
(** * The process ([cmd/engine/main.go], [publisher/handler.go], [Run] of the engine)

    [main] loads the settings, opens the connections and the engine, starts the
    consumers in goroutines and runs the engine; when the engine returns it
    cancels the context, waits for the consumers, and its deferred calls close the
    logs and the connections. A panic of the engine runs the deferred calls
    without the waiting. [start] and [stop] are the sequential parts over the
    connections of [Connections]; [process_step] interleaves the goroutines, each
    at the points where it waits for another. What they do in between is the
    matter of the other files. *)

From S2P Require Import Prelude Connections.

(** ** Starting and stopping *)

Inductive start_error :=
  | ErrConfig (key : string)
  | ErrMySQL (e : open_error)
  | ErrRabbitMQ (e : open_error)
  | ErrCreateEngine.

Section main.
Context `{!Remote} (LookupEnv : string -> option string).
Implicit Types (w : net).

(** [log.Fatalf] ends the process at once; deferred calls do not run. [created]:
    whether [core.NewEngine] returned an engine. *)
Definition start (created : bool) w : net * (Connection + start_error) :=
  match Load LookupEnv with
  | inr key => (w, inr (ErrConfig key))
  | inl cfg =>
      match OpenMySQL (cf_MySQL cfg) w with
      | (w, inr err) => (w, inr (ErrMySQL err))
      | (w, inl _) =>
          match Open (cf_RabbitMQ cfg) w with
          | (w, inr err) => (w, inr (ErrRabbitMQ err))
          | (w, inl mq) => if created then (w, inl mq) else (w, inr ErrCreateEngine)
          end
      end
  end.

(** The deferred [mq.Close] and [db.Close]. *)
Definition stop (mq : Connection) w : net := close_quietly RPool (fst (Close mq w)).

(** What is open when [start] ends: nothing more than what was opened before the
    failing call, which nobody closes. *)
Lemma start_cases created w w' r :
  start created w = (w', r) ->
  net_open w' = match r with
                | inl _ | inr ErrCreateEngine => [RPublishCh; RConsumeCh; RConn; RPool] ++ net_open w
                | inr (ErrRabbitMQ _) => RPool :: net_open w
                | _ => net_open w
                end.
Proof.
  unfold start. destruct (Load LookupEnv) as [cfg|key]; [|by intros [= <- <-]].
  destruct (OpenMySQL (cf_MySQL cfg) w) as [w1 [[]|err]] eqn:Hdb; apply OpenMySQL_cases in Hdb; [|by intros [= <- <-]].
  destruct (Open (cf_RabbitMQ cfg) w1) as [w2 [mq|err]] eqn:Hmq; apply Open_cases in Hmq.
  - destruct Hmq as [_ Hw]. rewrite Hdb in Hw. by destruct created; intros [= <- <-].
  - intros [= <- <-]. by rewrite Hmq.
Qed.

(** A process that started and stops has closed everything. *)
Lemma start_stop created w w' mq : start created w = (w', inl mq) -> net_open (stop mq w') = net_open w.
Proof.
  intros Hs. pose proof (start_cases _ _ _ _ Hs) as Ho. cbn in Ho.
  assert (Hmq : mq = mkConnection true true true).
  { revert Hs. unfold start. destruct (Load LookupEnv) as [cfg|key]; [|done].
    destruct (OpenMySQL _ w) as [w1 [[]|err]]; [|done]. destruct (Open _ w1) as [w2 [mq'|err]] eqn:Hmq; [|done].
    apply Open_cases in Hmq as [-> _]. by destruct created; intros [= _ <-]. }
  unfold stop. destruct (Close mq w') as [w1 errs] eqn:Hc. cbn [fst].
  pose proof (Close_all mq w' w1 errs (RPool :: net_open w) Hmq Ho Hc) as H1. unfold close_quietly, close_res. cbn. by rewrite H1.
Qed.
End main.

(** ** The goroutines *)

(** [main] itself: in [Run] of the engine, after it, waiting for the consumers,
    in the deferred calls, or exited. *)
Inductive main_pc :=
  | MBooting
  | MServing
  | MCancelling
  | MJoining
  | MClosingLogs
  | MClosingMQ
  | MClosingDB
  | MExited.

(** [Run] of the handler. *)
Inductive handler_pc :=
  | HStarting
  | HWaiting
  | HJoining
  | HReturned.

(** [Run] of a consumer: not started, loading its position, in a drain, at its
    [select], or returned. *)
Inductive worker_pc :=
  | WNone
  | WStarting
  | WDraining
  | WSelecting
  | WReturned.

#[export] Instance main_pc_eq_dec : EqDecision main_pc.
Proof. solve_decision. Defined.

#[export] Instance worker_pc_eq_dec : EqDecision worker_pc.
Proof. solve_decision. Defined.

Inductive fan_state := FNone | FRunning | FReturned.
Inductive saver_state := SNone | SIdle | SSaving | SReturned.

Record process := mkProcess {
  pr_main : main_pc;
  pr_handler : handler_pc;
  pr_fan : fan_state;
  pr_projector : worker_pc;
  pr_publisher : worker_pc;
  pr_saver : saver_state;
  pr_cancelled : bool;
  pr_panicked : bool;
  pr_logs : bool;
  pr_mq : bool;
  pr_db : bool
}.

Implicit Types (s : process).

Definition set_main (m : main_pc) s : process :=
  mkProcess m (pr_handler s) (pr_fan s) (pr_projector s) (pr_publisher s) (pr_saver s) (pr_cancelled s) (pr_panicked s) (pr_logs s) (pr_mq s) (pr_db s).
Definition set_handler (h : handler_pc) s : process :=
  mkProcess (pr_main s) h (pr_fan s) (pr_projector s) (pr_publisher s) (pr_saver s) (pr_cancelled s) (pr_panicked s) (pr_logs s) (pr_mq s) (pr_db s).
Definition set_fan_state (f : fan_state) s : process :=
  mkProcess (pr_main s) (pr_handler s) f (pr_projector s) (pr_publisher s) (pr_saver s) (pr_cancelled s) (pr_panicked s) (pr_logs s) (pr_mq s) (pr_db s).
Definition set_saver (v : saver_state) s : process :=
  mkProcess (pr_main s) (pr_handler s) (pr_fan s) (pr_projector s) (pr_publisher s) v (pr_cancelled s) (pr_panicked s) (pr_logs s) (pr_mq s) (pr_db s).
Definition cancel_context s : process :=
  mkProcess (pr_main s) (pr_handler s) (pr_fan s) (pr_projector s) (pr_publisher s) (pr_saver s) true (pr_panicked s) (pr_logs s) (pr_mq s) (pr_db s).
Definition panic_main s : process :=
  mkProcess (pr_main s) (pr_handler s) (pr_fan s) (pr_projector s) (pr_publisher s) (pr_saver s) (pr_cancelled s) true (pr_logs s) (pr_mq s) (pr_db s).
Definition set_open (logs mq db : bool) s : process :=
  mkProcess (pr_main s) (pr_handler s) (pr_fan s) (pr_projector s) (pr_publisher s) (pr_saver s) (pr_cancelled s) (pr_panicked s) logs mq db.

Inductive worker := Projector | EventPub.

Definition worker_of (k : worker) s : worker_pc := match k with Projector => pr_projector s | EventPub => pr_publisher s end.
Definition set_worker (k : worker) (p : worker_pc) s : process :=
  mkProcess (pr_main s) (pr_handler s) (pr_fan s)
    (match k with Projector => p | EventPub => pr_projector s end)
    (match k with Projector => pr_publisher s | EventPub => p end)
    (pr_saver s) (pr_cancelled s) (pr_panicked s) (pr_logs s) (pr_mq s) (pr_db s).

(** [main] and [Run] of the engine: start-up succeeds or fails, the loop returns or
    panics, and what follows. *)
Inductive main_step : process -> process -> Prop :=
  | m_booted s : pr_main s = MBooting -> main_step s (set_saver SIdle (set_main MServing s))
  | m_boot_fails s : pr_main s = MBooting -> main_step s (set_main MCancelling s)
  | m_returns s : pr_main s = MServing -> main_step s (set_main MCancelling s)
  | m_panics s :
      pr_main s = MBooting \/ pr_main s = MServing ->
      main_step s (panic_main (cancel_context (set_main MClosingLogs s)))
  | m_cancels s : pr_main s = MCancelling -> main_step s (cancel_context (set_main MJoining s))
  | m_joined s : pr_main s = MJoining -> pr_handler s = HReturned -> main_step s (set_main MClosingLogs s)
  | m_closes_logs s : pr_main s = MClosingLogs -> main_step s (set_open false (pr_mq s) (pr_db s) (set_main MClosingMQ s))
  | m_closes_mq s : pr_main s = MClosingMQ -> main_step s (set_open (pr_logs s) false (pr_db s) (set_main MClosingDB s))
  | m_closes_db s : pr_main s = MClosingDB -> main_step s (set_open (pr_logs s) (pr_mq s) false (set_main MExited s)).

(** [Handler.Run]: it starts three goroutines, waits for the context, and for them. *)
Inductive handler_step : process -> process -> Prop :=
  | h_spawns s : pr_handler s = HStarting ->
      handler_step s (set_handler HWaiting (set_fan_state FRunning (set_worker Projector WStarting (set_worker EventPub WStarting s))))
  | h_done s : pr_handler s = HWaiting -> pr_cancelled s = true -> handler_step s (set_handler HJoining s)
  | h_joined s : pr_handler s = HJoining -> pr_fan s = FReturned -> pr_projector s = WReturned -> pr_publisher s = WReturned ->
      handler_step s (set_handler HReturned s)
  | h_fan_stops s : pr_fan s = FRunning -> pr_cancelled s = true -> handler_step s (set_fan_state FReturned s).

(** [Run] of a consumer. Its first read can fail, and then it returns. *)
Inductive worker_step (k : worker) : process -> process -> Prop :=
  | w_loaded s : worker_of k s = WStarting -> worker_step k s (set_worker k WDraining s)
  | w_load_fails s : worker_of k s = WStarting -> worker_step k s (set_worker k WReturned s)
  | w_drained s : worker_of k s = WDraining -> worker_step k s (set_worker k WSelecting s)
  | w_stops s : worker_of k s = WSelecting -> pr_cancelled s = true -> worker_step k s (set_worker k WReturned s).

(** Steps that take the process nearer to its end; a drain ends ([drains_end]). *)
Inductive winding_step : process -> process -> Prop :=
  | wd_main s s' : main_step s s' -> winding_step s s'
  | wd_handler s s' : pr_main s <> MExited -> handler_step s s' -> winding_step s s'
  | wd_worker k s s' : pr_main s <> MExited -> worker_step k s s' -> winding_step s s'.

(** With the rest: an interrupt, a signal or the timer at the [select] of a
    consumer, which may be taken although the context is done, and the saver. *)
Inductive process_step : process -> process -> Prop :=
  | ps_winding s s' : winding_step s s' -> process_step s s'
  | ps_interrupt s : pr_main s <> MExited -> process_step s (cancel_context s)
  | ps_wakes k s : pr_main s <> MExited -> worker_of k s = WSelecting -> process_step s (set_worker k WDraining s)
  | ps_saver_takes s : pr_main s <> MExited -> pr_saver s = SIdle -> process_step s (set_saver SSaving s)
  | ps_saver_done s : pr_main s <> MExited -> pr_saver s = SSaving -> process_step s (set_saver SIdle s)
  | ps_saver_stops s : pr_main s <> MExited -> pr_saver s = SIdle -> pr_cancelled s = true -> process_step s (set_saver SReturned s).

(** After [start]: [go pub.Run] and [engine.Run]. *)
Definition process_start : process := mkProcess MBooting HStarting FNone WNone WNone SNone false false true true true.

(** ** The order of the shutdown *)

Definition closing (m : main_pc) : bool :=
  match m with MClosingLogs | MClosingMQ | MClosingDB | MExited => true | _ => false end.

(** A consumer that reads its position or drains uses the log and the connections. *)
Definition busy (k : worker) s : Prop := worker_of k s = WStarting \/ worker_of k s = WDraining.

(** The goroutines of the handler. *)
Definition goroutines_ok (h : handler_pc) (f : fan_state) (a b : worker_pc) : bool :=
  match h, f, a, b with
  | HStarting, FNone, WNone, WNone => true
  | HStarting, _, _, _ => false
  | HReturned, FReturned, WReturned, WReturned => true
  | HReturned, _, _, _ => false
  | _, FNone, _, _ | _, _, WNone, _ | _, _, _, WNone => false
  | _, _, _, _ => true
  end.

(** What has happened when [main] waits and when it closes. *)
Definition shutdown_ok (m : main_pc) (c p : bool) (h : handler_pc) : bool :=
  match m with
  | MJoining => c
  | MClosingLogs | MClosingMQ | MClosingDB | MExited => c && (p || match h with HReturned => true | _ => false end)
  | _ => true
  end.

Definition open_ok (m : main_pc) (logs mq db : bool) : bool :=
  match m with
  | MClosingMQ => negb logs && mq && db
  | MClosingDB => negb logs && negb mq && db
  | MExited => negb logs && negb mq && negb db
  | _ => logs && mq && db
  end.

Record process_ok s : Prop := {
  pk_goroutines : goroutines_ok (pr_handler s) (pr_fan s) (pr_projector s) (pr_publisher s) = true;
  pk_shutdown : shutdown_ok (pr_main s) (pr_cancelled s) (pr_panicked s) (pr_handler s) = true;
  pk_open : open_ok (pr_main s) (pr_logs s) (pr_mq s) (pr_db s) = true
}.

Lemma process_start_ok : process_ok process_start.
Proof. done. Qed.

(** Case analysis on what is matched on. *)
Ltac enum :=
  unfold goroutines_ok, shutdown_ok, open_ok in *; cbn in *; try done;
  match goal with
  | |- context [match ?x with _ => _ end] => is_var x; destruct x; enum
  | H : context [match ?x with _ => _ end] |- _ => is_var x; destruct x; enum
  | x : bool |- _ => destruct x; enum
  end.

Lemma main_step_ok s s' : main_step s s' -> process_ok s -> process_ok s'.
Proof.
  destruct s as [m h f a b v c p l q d]. intros Hst [P1 P2 P3]. inversion Hst; subst; cbn in *; subst;
    try match goal with H : _ \/ _ |- _ => destruct H as [-> | ->] end; (split; cbn; [exact P1|clear P1 P3; enum|clear P1 P2; enum]).
Qed.

Lemma handler_step_ok s s' : handler_step s s' -> process_ok s -> process_ok s'.
Proof.
  destruct s as [m h f a b v c p l q d]. intros Hst [P1 P2 P3]. inversion Hst; subst; cbn in *; subst;
    (split; cbn; [clear P2 P3; enum|clear P1 P3; enum|exact P3]).
Qed.

Lemma worker_step_ok k s s' : worker_step k s s' \/ (worker_of k s = WSelecting /\ s' = set_worker k WDraining s) ->
  process_ok s -> process_ok s'.
Proof.
  destruct s as [m h f a b v c p l q d]. intros Hst [P1 P2 P3].
  destruct Hst as [Hst|[Hw ->]]; [inversion Hst; subst|]; destruct k; cbn in *; subst; (split; cbn; [clear P2 P3; enum|done|done]).
Qed.

Lemma winding_step_ok s s' : winding_step s s' -> process_ok s -> process_ok s'.
Proof. intros []; [by eapply main_step_ok|by eapply handler_step_ok|]. eapply worker_step_ok. by left. Qed.

Lemma process_step_ok s s' : process_step s s' -> process_ok s -> process_ok s'.
Proof.
  intros [s0 s1 Hw|s0 _|k s0 _ Hw|s0 _ _|s0 _ _|s0 _ _ _]; [by apply winding_step_ok| |by apply (worker_step_ok k); right|by intros []..].
  destruct s0 as [m h f a b v c p l q d]. intros [P1 P2 P3]. split; cbn in *; [done| |done]. by destruct m, c.
Qed.

Lemma process_reachable_ok s : rtc process_step process_start s -> process_ok s.
Proof.
  intros Hr. remember process_start as s0 eqn:Hs0. assert (Hok : process_ok s0) by (by subst). clear Hs0.
  induction Hr as [|s1 s2 s3 Hs _ IH]; [done|]. by apply IH, (process_step_ok _ _ Hs).
Qed.

(** Until it panics, [main] closes nothing that a consumer still uses. *)
Lemma closed_unused s k :
  process_ok s -> pr_panicked s = false -> busy k s -> pr_logs s = true /\ pr_mq s = true /\ pr_db s = true.
Proof.
  destruct s as [m h f a b v c p l q d]. intros [P1 P2 P3]. unfold busy. cbn in *. intros -> Hb.
  assert (Hh : h <> HReturned) by (intros ->; destruct f, a, b; try done; destruct k, Hb; done).
  assert (Hm : closing m = false) by (destruct m, c, h; done).
  by destruct m, l, q, d.
Qed.

(** ** A consumer that returned stays away *)

Lemma returned_forever s s' k : rtc process_step s s' -> process_ok s -> worker_of k s = WReturned -> worker_of k s' = WReturned.
Proof.
  intros Hr. induction Hr as [|s1 s2 s3 Hs _ IH]; [done|]. intros Hok Hw. apply IH; [by eapply process_step_ok|].
  destruct Hs as [s1 s2 [s s' Hm|s s' _ Hh|k' s s' _ Hk]|s _|k' s _ Hk|s _ _|s _ _|s _ _ _]; try done.
  - by destruct Hm, k.
  - destruct Hh as [s Hs| | |]; [|by destruct k..]. exfalso. destruct Hok as [P1 _ _]. rewrite Hs in P1.
    destruct k; cbn in Hw; rewrite Hw in P1; by destruct (pr_fan s), (pr_projector s), (pr_publisher s).
  - destruct Hk, k, k'; cbn in *; congruence.
  - destruct k, k'; cbn in *; congruence.
Qed.

(** A consumer at work stays at work until the context is cancelled, whatever
    becomes of the other one. *)
Definition working (k : worker) s : Prop := worker_of k s = WDraining \/ worker_of k s = WSelecting.

Lemma step_cancelled s s' : process_step s s' -> pr_cancelled s' = false -> pr_cancelled s = false.
Proof. intros [s1 s2 [s0 s3 Hm|s0 s3 _ Hh|k s0 s3 _ Hk]|s1 _|k s1 _ _|s1 _ _|s1 _ _|s1 _ _ _]; try done; [by destruct Hm|by destruct Hh|by destruct Hk]. Qed.

Lemma steps_cancelled s s' : rtc process_step s s' -> pr_cancelled s' = false -> pr_cancelled s = false.
Proof. induction 1 as [|s1 s2 s3 Hs _ IH]; [done|]. intros Hc. eapply step_cancelled; eauto. Qed.

Lemma working_on s s' k :
  rtc process_step s s' -> process_ok s -> pr_cancelled s' = false -> working k s -> working k s'.
Proof.
  intros Hr. induction Hr as [|s1 s2 s3 Hs Hr IH]; [done|]. intros Hok Hc Hw. apply IH; [by eapply process_step_ok|done|].
  pose proof (steps_cancelled _ _ Hr Hc) as Hc2. unfold working in *. clear IH Hr Hc.
  destruct Hs as [s1 s2 [s s' Hm|s s' _ Hh|k' s s' _ Hk]|s _|k' s _ Hk|s _ _|s _ _|s _ _ _]; try done.
  - by destruct Hm, k.
  - destruct Hh as [s Hs| | |]; [|by destruct k..]. exfalso. destruct Hok as [P1 _ _]. rewrite Hs in P1.
    destruct k; cbn in Hw; destruct Hw as [Hw|Hw]; rewrite Hw in P1; by destruct (pr_fan s), (pr_projector s), (pr_publisher s).
  - destruct Hk, k, k'; cbn in *; try (destruct Hw; congruence); auto; congruence.
  - destruct k, k'; cbn in *; auto.
Qed.

(** It can always reach a drain again, with [main] where it is. *)
Lemma working_drains s k :
  pr_main s <> MExited -> working k s ->
  exists s', rtc process_step s s' /\ worker_of k s' = WDraining /\ pr_main s' = pr_main s /\ pr_cancelled s' = pr_cancelled s.
Proof.
  intros Hm [Hw|Hw]; [by exists s|]. exists (set_worker k WDraining s).
  split; [by apply rtc_once, ps_wakes|]. by destruct k.
Qed.

(** A first read that fails changes nothing but its consumer. *)
Lemma load_failed k s s' :
  worker_of k s = WStarting -> worker_step k s s' -> worker_of k s' = WReturned -> s' = set_worker k WReturned s.
Proof. intros Hs Hst. destruct Hst; [|done|congruence..]. by destruct k. Qed.

(** ** The shutdown ends *)

Definition main_rank (m : main_pc) : nat :=
  match m with
  | MBooting => 7 | MServing => 6 | MCancelling => 5 | MJoining => 4
  | MClosingLogs => 3 | MClosingMQ => 2 | MClosingDB => 1 | MExited => 0
  end.
Definition handler_rank (h : handler_pc) : nat :=
  match h with HStarting => 10 | HWaiting => 2 | HJoining => 1 | HReturned => 0 end.
Definition fan_rank (f : fan_state) : nat := match f with FNone => 0 | FRunning => 1 | FReturned => 0 end.
Definition worker_rank (p : worker_pc) : nat :=
  match p with WNone => 0 | WStarting => 3 | WDraining => 2 | WSelecting => 1 | WReturned => 0 end.

Definition rank s : nat :=
  (main_rank (pr_main s) + handler_rank (pr_handler s) + fan_rank (pr_fan s) +
   worker_rank (pr_projector s) + worker_rank (pr_publisher s))%nat.

Lemma winding_rank s s' : process_ok s -> winding_step s s' -> (rank s' < rank s)%nat.
Proof.
  destruct s as [m h f a b v c p l q d]. intros [P1 _ _] Hst. cbn in P1. unfold rank.
  inversion Hst as [? ? Hx|? ? _ Hx|k ? ? _ Hx]; subst; inversion Hx; subst; cbn in *; subst; cbn; try lia;
    try match goal with H : _ \/ _ |- _ => destruct H as [-> | ->]; cbn; lia end.
  all: try (destruct k; cbn in *; subst; cbn; lia).
  all: destruct f, a, b; try done; cbn; lia.
Qed.

(** It never waits for something that does not come. *)
Lemma winding_next s : process_ok s -> pr_main s <> MExited -> exists s', winding_step s s'.
Proof.
  intros Hok Hm. destruct (pr_main s) eqn:Em; [| | | | | | |done]; try (eexists; apply wd_main; by constructor).
  destruct (pr_handler s) eqn:Eh; [| | |eexists; apply wd_main; by constructor].
  - eexists. apply wd_handler; [by rewrite Em|]. by constructor.
  - eexists. apply wd_handler; [by rewrite Em|]. apply h_done; [done|]. destruct Hok as [_ P2 _]. by rewrite Em in P2.
  - assert (Hc : pr_cancelled s = true) by (destruct Hok as [_ P2 _]; by rewrite Em in P2).
    destruct Hok as [P1 _ _]. rewrite Eh in P1. cbn in P1.
    assert (Hw : forall k, worker_of k s <> WReturned -> worker_of k s <> WNone -> exists s', winding_step s s').
    { intros k H1 H2. destruct (worker_of k s) eqn:Ew; [done| | | |done]; eexists; (apply (wd_worker k); [by rewrite Em|]).
      - by apply w_loaded.
      - by apply w_drained.
      - by apply w_stops. }
    destruct (pr_fan s) eqn:Ef; [done| |].
    + eexists. apply wd_handler; [by rewrite Em|]. by apply h_fan_stops.
    + destruct (decide (pr_projector s = WReturned)) as [Ea|Ea]; [destruct (decide (pr_publisher s = WReturned)) as [Eb|Eb]|].
      * eexists. apply wd_handler; [by rewrite Em|]. by apply h_joined.
      * apply (Hw EventPub); cbn; [done|]. intros Eb'. rewrite Eb' in P1. by destruct (pr_projector s).
      * apply (Hw Projector); cbn; [done|]. intros Ea'. by rewrite Ea' in P1.
Qed.

Lemma winding_ends s : process_ok s -> sn winding_step s.
Proof.
  intros Hok. remember (rank s) as n eqn:Hn. revert s Hok Hn. induction n as [n IH] using lt_wf_ind. intros s Hok ->.
  constructor. intros s' Hs. apply (IH (rank s')); [by apply winding_rank|by eapply winding_step_ok|done].
Qed.

Lemma winding_run_ok s s' : rtc winding_step s s' -> process_ok s -> process_ok s'.
Proof. induction 1 as [|s1 s2 s3 Hs _ IH]; [done|]. intros Hok. by apply IH, (winding_step_ok _ _ Hs). Qed.

(** ** Two states that the process reaches *)

(** Serving, with both consumers in a drain. *)
Lemma serving_state :
  exists s, rtc process_step process_start s /\
    s = mkProcess MServing HWaiting FRunning WDraining WDraining SIdle false false true true true.
Proof.
  eexists. split; [|reflexivity].
  eapply rtc_l; [apply ps_winding, wd_main, m_booted; reflexivity|].
  eapply rtc_l; [apply ps_winding, wd_handler; [done|apply h_spawns; reflexivity]|].
  eapply rtc_l; [apply ps_winding, (wd_worker Projector); [done|apply w_loaded; reflexivity]|].
  eapply rtc_l; [apply ps_winding, (wd_worker EventPub); [done|apply w_loaded; reflexivity]|]. apply rtc_refl.
Qed.

(** Serving, with one consumer about to read its position and the other in a drain. *)
Definition starting_state (k : worker) : process :=
  set_worker k WStarting (mkProcess MServing HWaiting FRunning WDraining WDraining SIdle false false true true true).

Lemma starting_reachable k : rtc process_step process_start (starting_state k).
Proof.
  eapply rtc_l; [apply ps_winding, wd_main, m_booted; reflexivity|].
  eapply rtc_l; [apply ps_winding, wd_handler; [done|apply h_spawns; reflexivity]|].
  destruct k.
  - eapply rtc_l; [apply ps_winding, (wd_worker EventPub); [done|apply w_loaded; reflexivity]|]. apply rtc_refl.
  - eapply rtc_l; [apply ps_winding, (wd_worker Projector); [done|apply w_loaded; reflexivity]|]. apply rtc_refl.
Qed.
