(* ===== verification/Messaging.v ===== *)
(** * Publishing to the message queue ([internal/messaging/rabbitmq.go])

    [Publish] and [PublishBatch] of [Connection], on the publishing channel of
    [github.com/rabbitmq/amqp091-go], which is a parameter: an operation that
    sends a message and returns a deferred confirmation, and one that waits for
    it. [AmqpSpec] states the documented behaviour of a channel in confirm mode
    with ghost state: the messages sent, in order, and which of them the broker
    has taken; a positive confirmation means that its message was taken. (The
    code publishes without the mandatory flag, so this needs the queue of the
    routing key to exist: a broker also confirms a message that it cannot route.) *)

From S2P Require Import Prelude.

Record Message (bytes : Type) := mkMessage {
  msg_RoutingKey : string;
  msg_Payload : bytes
}.
Arguments mkMessage {bytes} _ _.
Arguments msg_RoutingKey {bytes} _.
Arguments msg_Payload {bytes} _.

(** The third-party channel: [None] is an error. *)
Class Amqp (bytes chan conf : Type) := {
  PublishWithDeferredConfirm : chan -> string -> bytes -> chan * option conf;
  WaitContext : chan -> conf -> chan * option bool
}.

(** The elements whose position, counted from [n], is selected. *)
Fixpoint selected {A} (t : nat -> bool) (n : nat) (l : list A) : list A :=
  match l with
  | [] => []
  | x :: l => if t n then x :: selected t (S n) l else selected t (S n) l
  end.

Class AmqpSpec (bytes chan conf : Type) `{!Amqp bytes chan conf} := {
  sent : chan -> list (Message bytes);
  taken : chan -> nat -> bool;
  delivery_tag : conf -> nat;
  publish_sent ch key body ch' conf :
    PublishWithDeferredConfirm ch key body = (ch', Some conf) ->
    sent ch' = sent ch ++ [mkMessage key body] /\ delivery_tag conf = length (sent ch);
  publish_grows ch key body ch' r :
    PublishWithDeferredConfirm ch key body = (ch', r) ->
    sent ch `prefix_of` sent ch' /\ forall n, taken ch n = true -> taken ch' n = true;
  wait_keeps ch conf ch' r :
    WaitContext ch conf = (ch', r) ->
    sent ch' = sent ch /\ forall n, taken ch n = true -> taken ch' n = true;
  wait_acked ch conf ch' :
    WaitContext ch conf = (ch', Some true) -> taken ch' (delivery_tag conf) = true
}.

Inductive publish_error :=
  | PublishFailed
  | ConfirmFailed
  | Nacked.

Section messaging.
Context {bytes chan conf : Type} `{!Amqp bytes chan conf}.
Implicit Types (ch : chan) (msgs : list (Message bytes)).

Definition Publish (msg : Message bytes) ch : chan * option publish_error :=
  match PublishWithDeferredConfirm ch (msg_RoutingKey msg) (msg_Payload msg) with
  | (ch, None) => (ch, Some PublishFailed)
  | (ch, Some c) =>
      match WaitContext ch c with
      | (ch, None) => (ch, Some ConfirmFailed)
      | (ch, Some acked) => (ch, if negb acked then Some Nacked else None)
      end
  end.

(** The first loop: send everything, keep the confirmations. *)
Fixpoint publish_all msgs ch : chan * (list conf + publish_error) :=
  match msgs with
  | [] => (ch, inl [])
  | msg :: msgs =>
      match PublishWithDeferredConfirm ch (msg_RoutingKey msg) (msg_Payload msg) with
      | (ch, None) => (ch, inr PublishFailed)
      | (ch, Some c) =>
          match publish_all msgs ch with
          | (ch, inr err) => (ch, inr err)
          | (ch, inl cs) => (ch, inl (c :: cs))
          end
      end
  end.

(** The second loop: wait for each confirmation. *)
Fixpoint wait_all (confirms : list conf) ch : chan * option publish_error :=
  match confirms with
  | [] => (ch, None)
  | c :: confirms =>
      match WaitContext ch c with
      | (ch, None) => (ch, Some ConfirmFailed)
      | (ch, Some acked) => if negb acked then (ch, Some Nacked) else wait_all confirms ch
      end
  end.

Definition PublishBatch msgs ch : chan * option publish_error :=
  match msgs with
  | [] => (ch, None)
  | _ =>
      match publish_all msgs ch with
      | (ch, inr err) => (ch, Some err)
      | (ch, inl confirms) => wait_all confirms ch
      end
  end.

(** ** What reaches the queue *)

Context `{!AmqpSpec bytes chan conf}.

(** The messages the broker has taken, in the order in which they were sent. *)
Definition queue ch : list (Message bytes) := selected (taken ch) 0 (sent ch).

Lemma selected_app {A} t n (l k : list A) :
  selected t n (l ++ k) = selected t n l ++ selected t (n + length l) k.
Proof.
  revert n. induction l as [|x l IH]; intros n; simpl; [by rewrite Nat.add_0_r|].
  rewrite IH, Nat.add_succ_r. by destruct (t n).
Qed.

Lemma selected_all {A} t n (l : list A) : (forall i, n <= i < n + length l -> t i = true)%nat -> selected t n l = l.
Proof.
  revert n. induction l as [|x l IH]; intros n Ht; simpl in *; [done|]. rewrite Ht by lia. f_equal.
  apply IH. intros. apply Ht. lia.
Qed.

Lemma selected_mono {A} t t' n (l : list A) :
  (forall i, t i = true -> t' i = true) -> sublist (selected t n l) (selected t' n l).
Proof.
  intros Ht. revert n. induction l as [|x l IH]; intros n; simpl; [constructor|].
  destruct (t n) eqn:Hn.
  - rewrite (Ht _ Hn). by apply sublist_skip.
  - destruct (t' n); [by apply sublist_cons|done].
Qed.

(** Nothing that was sent or taken is forgotten. *)
Definition extends ch ch' : Prop :=
  sent ch `prefix_of` sent ch' /\ forall n, taken ch n = true -> taken ch' n = true.

#[export] Instance extends_preorder : PreOrder extends.
Proof.
  split; [by intros ch|]. intros c1 c2 c3 [P1 T1] [P2 T2]. split; [by etrans|auto].
Qed.

Lemma extends_queue ch ch' : extends ch ch' -> sublist (queue ch) (queue ch').
Proof.
  intros [[k Hk] Ht]. unfold queue. rewrite Hk, selected_app.
  etrans; [by apply selected_mono|]. by apply sublist_inserts_r.
Qed.

Lemma publish_all_ok msgs ch ch' r :
  publish_all msgs ch = (ch', r) ->
  extends ch ch' /\
  forall cs, r = inl cs -> sent ch' = sent ch ++ msgs /\
    delivery_tag <$> cs = seq (length (sent ch)) (length msgs).
Proof.
  revert ch r. induction msgs as [|[key body] msgs IH]; intros ch r; cbn [publish_all msg_RoutingKey msg_Payload].
  { intros [= <- <-]. split; [done|]. intros cs [= <-]. by rewrite app_nil_r. }
  destruct (PublishWithDeferredConfirm ch key body) as [c1 [c|]] eqn:Hp; pose proof (publish_grows _ _ _ _ _ Hp) as Hg.
  2: { by intros [= <- <-]. }
  destruct (publish_sent _ _ _ _ _ Hp) as [Hs Ht].
  destruct (publish_all msgs c1) as [c2 [cs|err]] eqn:Ha; intros [= <- <-];
    destruct (IH _ _ Ha) as [He Hok]; (split; [by etrans|]); [|done].
  intros cs' [= <-]. destruct (Hok cs eq_refl) as [Hs2 Ht2]. rewrite Hs2, Hs, <- app_assoc. split; [done|].
  cbn [fmap list_fmap length seq]. rewrite Ht, Ht2, Hs, length_app. simpl. do 2 f_equal. lia.
Qed.

Lemma wait_all_ok cs ch ch' err :
  wait_all cs ch = (ch', err) ->
  extends ch ch' /\ sent ch' = sent ch /\
  (err = None -> Forall (fun c => taken ch' (delivery_tag c) = true) cs).
Proof.
  revert ch. induction cs as [|c cs IH]; intros ch; cbn [wait_all].
  { intros [= <- <-]. split_and!; [done|done|by constructor]. }
  destruct (WaitContext ch c) as [c1 acked] eqn:Hw. destruct (wait_keeps _ _ _ _ Hw) as [Hs Ht].
  assert (He : extends ch c1) by (split; [by rewrite Hs|done]).
  destruct acked as [[|]|]; cbn [negb].
  - intros Hr. destruct (IH _ Hr) as ([P2 T2] & Hs2 & Hok). split_and!; [by etrans|by rewrite Hs2|].
    intros ->. constructor; [|auto]. apply T2. by apply (wait_acked ch).
  - by intros [= <- <-].
  - by intros [= <- <-].
Qed.

(** A batch that succeeds is in the queue, in order, after what was there. *)
Lemma PublishBatch_ok msgs ch ch' err :
  PublishBatch msgs ch = (ch', err) ->
  extends ch ch' /\ (err = None -> sent ch' = sent ch ++ msgs /\ sublist (queue ch ++ msgs) (queue ch')).
Proof.
  unfold PublishBatch. destruct msgs as [|m msgs].
  { intros [= <- <-]. split; [done|]. intros _. by rewrite !app_nil_r. }
  destruct (publish_all (m :: msgs) ch) as [c1 [cs|e]] eqn:Hp; destruct (publish_all_ok _ _ _ _ Hp) as [He Hok].
  2: { by intros [= <- <-]. }
  intros Hw. destruct (wait_all_ok _ _ _ _ Hw) as (He2 & Hs2 & Hall). destruct (Hok cs eq_refl) as [Hs Ht].
  split; [by etrans|]. intros ->. specialize (Hall eq_refl). rewrite Hs2, Hs. split; [done|].
  unfold queue. rewrite Hs2, Hs, selected_app. apply sublist_app.
  - apply selected_mono. intros n Hn. by apply He2, He.
  - rewrite (selected_all _ _ (m :: msgs)); [done|]. intros i Hi. simpl in Hi.
    assert (Hin : i ∈ delivery_tag <$> cs) by (rewrite Ht; apply elem_of_seq; simpl; lia).
    apply list_elem_of_fmap in Hin as (c & -> & Hc). rewrite Forall_forall in Hall. by apply Hall.
Qed.

(** ** A healthy broker *)

(** From now on every message is accepted and confirmed. *)
Definition healthy ch : Prop :=
  exists P : chan -> Prop, P ch /\
    (forall ch key body, P ch -> exists ch' c, PublishWithDeferredConfirm ch key body = (ch', Some c) /\ P ch') /\
    (forall ch c, P ch -> exists ch', WaitContext ch c = (ch', Some true) /\ P ch').

Lemma PublishBatch_healthy msgs ch : healthy ch -> exists ch', PublishBatch msgs ch = (ch', None) /\ healthy ch'.
Proof.
  intros (P & HP & Hp & Hw).
  assert (Hall : exists ch' cs, publish_all msgs ch = (ch', inl cs) /\ P ch').
  { revert ch HP. induction msgs as [|m msgs IH]; intros ch HP; cbn [publish_all]; [by exists ch, []|].
    destruct (Hp ch (msg_RoutingKey m) (msg_Payload m) HP) as (c1 & c & -> & HP1).
    destruct (IH c1 HP1) as (c2 & cs & -> & HP2). by exists c2, (c :: cs). }
  destruct Hall as (c1 & cs & Ha & HP1). unfold PublishBatch. destruct msgs as [|m msgs]; [exists ch; split; [done|by exists P]|].
  rewrite Ha. clear Ha. revert c1 HP1. induction cs as [|c cs IH]; intros c1 HP1; cbn [wait_all]; [exists c1; split; [done|by exists P]|].
  destruct (Hw c1 c HP1) as (c2 & -> & HP2). by apply IH.
Qed.
End messaging.
