(* ===== verification/Publisher.v ===== *)
(** * The event publisher ([internal/publisher/event_publisher.go])

    It follows the output WAL with a cursor: it reads up to a hundred records,
    publishes them to the event queue as one batch, stores the position of the
    last one, and only then moves its cursor. A failure leaves the cursor, so the
    batch is published again. [Run] loads the stored position when it starts.

    Proved here: whatever fails and however often the publisher restarts, the
    records up to the stored position are in the queue, in order; when nothing
    fails, a drain terminates with every record published once. *)

From S2P Require Import Prelude Domain Events Matching Wal Metrics Engine Columns Database Storage Messaging.

Definition eventPublisherBatchSize : Z := 100.

(** [Time.Sub] saturates at the bounds of a duration. *)
Definition time_sub (a b : Time) : Duration := Z.max (- (MaxInt64 + 1)) (Z.min MaxInt64 (a - b)).

(** The fields of the struct; [ep_ticks] counts its readings of the clock. *)
Record EventPublisher (bytes log chan : Type) := mkEventPublisher {
  ep_output : log;
  ep_store : Store bytes;
  ep_mq : chan;
  ep_eventQueue : string;
  ep_cursor : Z;
  ep_eventPublishedSeq : Z;
  ep_metrics : PublisherReporter;
  ep_ticks : nat
}.
Arguments mkEventPublisher {bytes log chan} _ _ _ _ _ _ _ _.
Arguments ep_output {bytes log chan} _.
Arguments ep_store {bytes log chan} _.
Arguments ep_mq {bytes log chan} _.
Arguments ep_eventQueue {bytes log chan} _.
Arguments ep_cursor {bytes log chan} _.
Arguments ep_eventPublishedSeq {bytes log chan} _.
Arguments ep_metrics {bytes log chan} _.
Arguments ep_ticks {bytes log chan} _.

(** Errors of a drain. [DrainOutOfFuel] is not one of the code: it marks a loop
    cut short by the model's bound. *)
Inductive drain_error :=
  | ErrLastIndex (e : wal_error)
  | ErrReadOutput (i : Z) (e : wal_error)
  | ErrUnmarshalOutput (i : Z)
  | ErrMarshalOutput (i : Z)
  | ErrPublishBatch (e : publish_error)
  | ErrSaveCursor (e : store_error)
  | ErrApplyBatch
  | DrainOutOfFuel.

Section publisher.
Context {bytes log chan conf : Type} `{!Clock, !Codec bytes, !Twal bytes log, !Server, !Amqp bytes chan conf}.
Abbreviation publisher := (EventPublisher bytes log chan).
Abbreviation message := (Message bytes).
Implicit Types (p : publisher).

Definition NewEventPublisher (out : log) (s : Store bytes) (mq : chan) (eventQueue : string) : publisher :=
  mkEventPublisher out s mq eventQueue 0 0 NewPublisherReporter 0.

Definition ep_set_mq p (mq : chan) : publisher :=
  mkEventPublisher (ep_output p) (ep_store p) mq (ep_eventQueue p) (ep_cursor p) (ep_eventPublishedSeq p) (ep_metrics p) (ep_ticks p).
Definition ep_set_store p (s : Store bytes) : publisher :=
  mkEventPublisher (ep_output p) s (ep_mq p) (ep_eventQueue p) (ep_cursor p) (ep_eventPublishedSeq p) (ep_metrics p) (ep_ticks p).
Definition ep_set_cursor p (c : Z) : publisher :=
  mkEventPublisher (ep_output p) (ep_store p) (ep_mq p) (ep_eventQueue p) c c (ep_metrics p) (ep_ticks p).
Definition ep_now p : Time * publisher :=
  (clock_at (ep_ticks p),
   mkEventPublisher (ep_output p) (ep_store p) (ep_mq p) (ep_eventQueue p) (ep_cursor p) (ep_eventPublishedSeq p) (ep_metrics p) (S (ep_ticks p))).
Definition ep_record p (r : PublisherRecord) : publisher :=
  mkEventPublisher (ep_output p) (ep_store p) (ep_mq p) (ep_eventQueue p) (ep_cursor p) (ep_eventPublishedSeq p)
    (PublisherReporter_Record r (ep_metrics p)) (ep_ticks p).

(** ** Reading a batch *)

(** [n] records from index [next], decoded and encoded again. *)
Fixpoint read_batch (n : nat) (next : Z) (eventQueue : string) (w : log) :
    list (message * OutputEnvelope bytes) + drain_error :=
  match n with
  | O => inl []
  | S n =>
      match Read w next with
      | inr err => inr (ErrReadOutput next err)
      | inl raw =>
          match Unmarshal_OutputEnvelope raw with
          | None => inr (ErrUnmarshalOutput next)
          | Some env =>
              match Marshal_OutputEnvelope env with
              | None => inr (ErrMarshalOutput next)
              | Some payload =>
                  match read_batch n (next ⊕ 1) eventQueue w with
                  | inr err => inr err
                  | inl rest => inl ((mkMessage eventQueue payload, env) :: rest)
                  end
              end
          end
      end
  end.

(** ** Measurements *)

Definition count_events (envs : list (OutputEnvelope bytes)) : Z :=
  lsum (fun env => Z.of_nat (length (env_Events env))) envs.

(** The oldest envelope of the batch gives the waiting times. *)
Definition ep_recordBatch (envs : list (OutputEnvelope bytes)) (started : Time) (mqConfirm : Duration) p : publisher :=
  let '(walWait, walToMQ, p) :=
    match envs with
    | env :: _ =>
        if negb (IsZero (env_CreatedAt env)) then
          let '(now, p) := ep_now p in
          (Z.max (time_sub started (env_CreatedAt env)) 0, Z.max (time_sub now (env_CreatedAt env)) 0, p)
        else (0, 0, p)
    | [] => (0, 0, p)
    end in
  ep_record p (mkPublisherRecord (count_events envs) walWait mqConfirm walToMQ).

(** ** Draining *)

(** One iteration of the loop of [drain]. *)
Definition publish_step (last : Z) p : publisher * option drain_error :=
  let batchEnd := Z.min (ep_cursor p ⊕ eventPublisherBatchSize) last in
  match read_batch (Z.to_nat (batchEnd - ep_cursor p)) (ep_cursor p ⊕ 1) (ep_eventQueue p) (ep_output p) with
  | inr err => (p, Some err)
  | inl batch =>
      let '(started, p) := ep_now p in
      match PublishBatch batch.*1 (ep_mq p) with
      | (mq, Some err) => (ep_set_mq p mq, Some (ErrPublishBatch err))
      | (mq, None) =>
          let '(now, p) := ep_now (ep_set_mq p mq) in
          let mqConfirm := time_sub now started in
          match SaveMQPublishedCursor batchEnd (ep_store p) with
          | (s, Some err) => (ep_set_store p s, Some (ErrSaveCursor err))
          | (s, None) =>
              (ep_recordBatch batch.*2 started mqConfirm (ep_set_cursor (ep_set_store p s) batchEnd), None)
          end
      end
  end.

Fixpoint publish_loop (fuel : nat) (last : Z) p : publisher * option drain_error :=
  if Z.ltb (ep_cursor p) last then
    match fuel with
    | O => (p, Some DrainOutOfFuel)
    | S fuel =>
        match publish_step last p with
        | (p, Some err) => (p, Some err)
        | (p, None) => publish_loop fuel last p
        end
    end
  else (p, None).

(** An iteration advances the cursor, so the backlog bounds the iterations. *)
Definition ep_drain p : publisher * option drain_error :=
  match LastIndex (ep_output p) with
  | inr err => (p, Some (ErrLastIndex err))
  | inl last => publish_loop (Z.to_nat (last - ep_cursor p)) last p
  end.

(** [Run] before its loop: the stored position. *)
Definition ep_start p : publisher * option store_error :=
  match LoadMQPublishedCursor (ep_store p) with
  | (s, inr err) => (ep_set_store p s, Some err)
  | (s, inl cursor) => (ep_set_cursor (ep_set_store p s) cursor, None)
  end.

(** *** A drain ends *)

Lemma read_batch_error n next q w : read_batch n next q w <> inr DrainOutOfFuel.
Proof. revert next. induction n as [|n IH]; intros next; cbn [read_batch]; repeat case_match; naive_solver. Qed.

Lemma publish_step_advances last p p' err :
  0 <= ep_cursor p < last -> last + eventPublisherBatchSize < two64 -> publish_step last p = (p', err) ->
  err <> Some DrainOutOfFuel /\ (err = None -> ep_cursor p < ep_cursor p' <= last).
Proof.
  unfold publish_step, eventPublisherBatchSize. intros Hc Hl. rewrite (add64_exact (ep_cursor p) 100) by lia.
  destruct (read_batch _ _ _ _) as [batch|e] eqn:Hrb.
  2: { intros [= <- <-]. split; [|done]. intros [= ->]. by apply read_batch_error in Hrb. }
  unfold ep_now. destruct (PublishBatch _ _) as [mq [e|]]; [by intros [= <- <-]|].
  cbn [ep_set_mq ep_store]. destruct (SaveMQPublishedCursor _ _) as [s [e|]]; [by intros [= <- <-]|].
  intros [= <- <-]. split; [done|]. intros _. unfold ep_recordBatch.
  destruct batch.*2 as [|env envs]; [cbn; lia|]. destruct (negb _); cbn; lia.
Qed.

(** The cursor moves with every batch, so the backlog is fuel enough. *)
Lemma publish_loop_fuel fuel last p p' err :
  0 <= ep_cursor p -> last + eventPublisherBatchSize < two64 -> last - ep_cursor p <= Z.of_nat fuel ->
  publish_loop fuel last p = (p', err) -> err <> Some DrainOutOfFuel.
Proof.
  revert p. induction fuel as [|fuel IH]; intros p Hc Hl Hf; cbn [publish_loop];
    (destruct (Z.ltb_spec (ep_cursor p) last) as [Hlt|]; [|by intros [= <- <-]]); [lia|].
  destruct (publish_step last p) as [p1 err1] eqn:Hs. destruct (publish_step_advances _ _ _ _ (conj Hc Hlt) Hl Hs) as [Hne Hadv].
  destruct err1 as [e|]; [by intros [= <- <-]|]. specialize (Hadv eq_refl). apply IH; lia.
Qed.

Lemma ep_drain_fuel p p' err :
  0 <= ep_cursor p -> (forall last, LastIndex (ep_output p) = inl last -> last + eventPublisherBatchSize < two64) ->
  ep_drain p = (p', err) -> err <> Some DrainOutOfFuel.
Proof.
  intros Hc Hl. unfold ep_drain. destruct (LastIndex _) as [last|e] eqn:Hla; [|by intros [= <- <-]].
  apply publish_loop_fuel; [done|by apply Hl|lia].
Qed.

(** ** The log that both consumers read *)

(** Of the records [rs] written so far, the log still holds those after the
    first [k]; a truncation leaves at least one. *)
Definition retains (w : log) (k : nat) (rs : list bytes) : Prop :=
  holds w (Z.of_nat k + 1) (drop k rs) /\ (k < length rs \/ k = 0)%nat.

Lemma retains_last w k rs : retains w k rs -> LastIndex w = inl (Z.of_nat (length rs)).
Proof.
  intros [Hh Hk]. unfold LastIndex. rewrite (h_last _ _ _ Hh), length_drop. case_decide as Hd.
  - apply (f_equal length) in Hd. rewrite length_drop in Hd. simpl in Hd. f_equal. lia.
  - f_equal. assert (length (drop k rs) <> 0%nat) by (by destruct (drop k rs)). rewrite length_drop in *. lia.
Qed.

Lemma retains_bound w k rs : retains w k rs -> Z.of_nat (length rs) + 1 < two64.
Proof. intros [Hh Hk]. pose proof (h_range _ _ _ Hh) as Hr. rewrite length_drop in Hr. lia. Qed.

Lemma retains_read w k rs i :
  retains w k rs -> Read w (Z.of_nat i + 1) =
    match (if decide (k <= i)%nat then rs !! i else None) with Some r => inl r | None => inr ErrNotFound end.
Proof.
  intros [Hh Hk]. unfold Read. rewrite (h_read _ _ _ Hh). unfold entry_at. case_decide.
  - destruct (Z.leb_spec (Z.of_nat k + 1) (Z.of_nat i + 1)); [|lia]. rewrite lookup_drop.
    by replace (k + Z.to_nat (Z.of_nat i + 1 - (Z.of_nat k + 1)))%nat with i by lia.
  - by destruct (Z.leb_spec (Z.of_nat k + 1) (Z.of_nat i + 1)); [lia|].
Qed.

(** A record that the engine wrote. *)
Definition written (r : bytes) : Prop := exists env, Marshal_OutputEnvelope env = Some r.

Context `{!CodecLaws bytes}.

(** Decoding and encoding a written record gives the record. *)
Lemma written_again r env : written r -> Unmarshal_OutputEnvelope r = Some env -> Marshal_OutputEnvelope env = Some r.
Proof. intros (env0 & Hm) Hu. rewrite (codec_envelope _ _ Hm) in Hu. by simplify_eq. Qed.

(** A batch that is read is the stretch of the records at the cursor. *)
Lemma read_batch_sound n c q w k rs batch :
  retains w k rs -> Forall written rs ->
  read_batch n (Z.of_nat c + 1) q w = inl batch ->
  batch.*1 = mkMessage q <$> take n (drop c rs) /\ (c + n <= length rs \/ n = 0)%nat.
Proof.
  intros Hr Hw. revert c batch. induction n as [|n IH]; intros c batch; cbn [read_batch].
  { intros [= <-]. split; [done|lia]. }
  rewrite (retains_read _ _ _ _ Hr). case_decide; [|done]. destruct (rs !! c) as [r|] eqn:Hc; [|done].
  assert (Hwr : written r) by (by eapply Forall_lookup_1).
  destruct (Unmarshal_OutputEnvelope r) as [env|] eqn:Hu; [|done]. rewrite (written_again _ _ Hwr Hu).
  pose proof (retains_bound _ _ _ Hr). apply lookup_lt_Some in Hc as Hlt. rewrite add64_exact by lia.
  replace (Z.of_nat c + 1 + 1) with (Z.of_nat (S c) + 1) by lia.
  destruct (read_batch n _ q w) as [rest|] eqn:Hb; [|done]. intros [= <-].
  destruct (IH _ _ Hb) as [Hrest Hlen]. rewrite (drop_S _ r _ Hc). cbn [fmap list_fmap take]. csimpl.
  split; [by f_equal|lia].
Qed.

(** A batch within the retained records is read. *)
Lemma read_batch_total n c q w k rs :
  retains w k rs -> Forall written rs -> (k <= c)%nat -> (c + n <= length rs)%nat ->
  exists batch, read_batch n (Z.of_nat c + 1) q w = inl batch.
Proof.
  intros Hr Hw. revert c. induction n as [|n IH]; intros c Hk Hn; cbn [read_batch]; [eauto|].
  rewrite (retains_read _ _ _ _ Hr), decide_True by done.
  destruct (lookup_lt_is_Some_2 rs c) as [r Hc]; [lia|]. rewrite Hc.
  destruct (Forall_lookup_1 _ _ _ _ Hw Hc) as (env & Hm). rewrite (codec_envelope _ _ Hm), Hm.
  pose proof (retains_bound _ _ _ Hr). rewrite add64_exact by lia.
  replace (Z.of_nat c + 1 + 1) with (Z.of_nat (S c) + 1) by lia.
  destruct (IH (S c)) as (rest & ->); [lia|lia|]. eauto.
Qed.

(** ** Nothing is lost *)

Context `{!AmqpSpec bytes chan conf}.

(** The first [c] records are in the queue, in order. *)
Definition published q (rs : list bytes) (mq : chan) (c : Z) : Prop :=
  0 <= c <= Z.of_nat (length rs) /\ sublist (mkMessage q <$> take (Z.to_nat c) rs) (queue mq).

Definition saved p : Z := cursor_at MQ_PUBLISHED_OUTPUT_SEQ (st_db (ep_store p)).

Record pub_ok (rs : list bytes) p : Prop := {
  po_log : exists k, retains (ep_output p) k rs;
  po_written : Forall written rs;
  po_cursor : published (ep_eventQueue p) rs (ep_mq p) (ep_cursor p);
  po_saved : published (ep_eventQueue p) rs (ep_mq p) (saved p)
}.

Lemma published_extends q rs mq mq' c : extends mq mq' -> published q rs mq c -> published q rs mq' c.
Proof. intros He [Hc Hs]. split; [done|]. etrans; [done|]. by apply extends_queue. Qed.

Lemma published_more q rs r mq c : published q rs mq c -> published q (rs ++ [r]) mq c.
Proof.
  intros [Hc Hs]. split; [rewrite length_app; simpl; lia|]. by rewrite take_app_le by lia.
Qed.

Lemma published_batch q rs mq mq' c n :
  published q rs mq c -> (Z.to_nat c + n <= length rs)%nat ->
  sublist (queue mq ++ (mkMessage q <$> take n (drop (Z.to_nat c) rs))) (queue mq') ->
  published q rs mq' (c + Z.of_nat n).
Proof.
  intros [Hc Hs] Hn Hq. split; [lia|].
  replace (Z.to_nat (c + Z.of_nat n)) with (Z.to_nat c + n)%nat by lia.
  rewrite <- take_take_drop, fmap_app. etrans; [|exact Hq]. by apply sublist_app.
Qed.

Lemma published_le q rs mq c b : 0 <= b <= c -> published q rs mq c -> published q rs mq b.
Proof.
  intros Hb [Hc Hs]. split; [lia|]. etrans; [|exact Hs]. apply fmap_sublist.
  replace (Z.to_nat b) with (Z.to_nat b `min` Z.to_nat c)%nat by lia. rewrite <- take_take. apply sublist_take.
Qed.

(** What [recordBatch] leaves alone. *)
Lemma ep_recordBatch_frame envs t d p :
  let p' := ep_recordBatch envs t d p in
  ep_output p' = ep_output p /\ ep_store p' = ep_store p /\ ep_mq p' = ep_mq p /\
  ep_eventQueue p' = ep_eventQueue p /\ ep_cursor p' = ep_cursor p.
Proof. unfold ep_recordBatch. destruct envs as [|env envs]; [done|]. by destruct (negb _). Qed.

Lemma save_cursor_cases b (s s' : Store bytes) err :
  is_u64 b -> SaveMQPublishedCursor b s = (s', err) ->
  cursor_at MQ_PUBLISHED_OUTPUT_SEQ (st_db s') = cursor_at MQ_PUBLISHED_OUTPUT_SEQ (st_db s) \/
  cursor_at MQ_PUBLISHED_OUTPUT_SEQ (st_db s') = b.
Proof.
  intros Hb Hs. destruct (exec_db_cases _ _ _ _ Hs) as [_ [[-> _]|[now Hq]]]; [by left|right].
  injection Hq as <-. by apply cursor_at_save.
Qed.

(** After a batch the records up to its end are published. *)
Lemma batch_published q rs mq mq' c b :
  published q rs mq c -> is_u64 b ->
  let n := Z.to_nat (b - c) in (Z.to_nat c + n <= length rs \/ n = 0)%nat ->
  sublist (queue mq ++ (mkMessage q <$> take n (drop (Z.to_nat c) rs))) (queue mq') -> extends mq mq' ->
  published q rs mq' b.
Proof.
  intros Hp Hb n Hn Hq He. unfold is_u64 in Hb. destruct (decide (b <= c)).
  - eapply published_le; [|by eapply published_extends]. lia.
  - replace b with (c + Z.of_nat n) by (destruct Hp; lia). eapply published_batch; [done|destruct Hp; lia|done].
Qed.

Lemma publish_step_ok rs p p' err :
  pub_ok rs p -> ep_cursor p < Z.of_nat (length rs) ->
  publish_step (Z.of_nat (length rs)) p = (p', err) ->
  pub_ok rs p' /\ ep_output p' = ep_output p /\ ep_eventQueue p' = ep_eventQueue p.
Proof.
  intros [[k Hr] Hw Hpub Hsv] Hlt. unfold publish_step.
  pose proof (retains_bound _ _ _ Hr) as Hbd. pose proof (proj1 Hpub) as Hc.
  set (b := Z.min _ _). set (n := Z.to_nat (b - ep_cursor p)).
  assert (Hub : is_u64 b).
  { unfold b. pose proof (u64_range (ep_cursor p + eventPublisherBatchSize)). unfold is_u64, add64 in *. lia. }
  rewrite (add64_exact (ep_cursor p) 1) by lia.
  replace (ep_cursor p + 1) with (Z.of_nat (Z.to_nat (ep_cursor p)) + 1) by lia.
  destruct (read_batch n _ _ _) as [batch|e] eqn:Hrb.
  2: { intros [= <- <-]. split; [|done]. by split; eauto. }
  destruct (read_batch_sound _ _ _ _ _ _ _ Hr Hw Hrb) as [Hmsgs Hn]. rewrite Hmsgs. clear Hmsgs.
  unfold ep_now. cbn [ep_mq ep_output ep_store ep_cursor ep_eventQueue].
  destruct (PublishBatch _ (ep_mq p)) as [mq [e|]] eqn:Hpb; destruct (PublishBatch_ok _ _ _ _ Hpb) as [He Hok].
  { intros [= <- <-]. split; [|done]. split; cbn; eauto using published_extends. }
  destruct (Hok eq_refl) as [_ Hsub].
  pose proof (batch_published _ _ _ mq _ b Hpub Hub Hn Hsub He) as Hnew.
  pose proof (published_extends _ _ _ _ _ He Hpub) as Hold. pose proof (published_extends _ _ _ _ _ He Hsv) as Hsv'.
  cbn [ep_set_mq ep_store ep_mq ep_output ep_cursor ep_eventQueue].
  destruct (SaveMQPublishedCursor b (ep_store p)) as [s e] eqn:Hsave.
  assert (Hcur : published (ep_eventQueue p) rs mq (cursor_at MQ_PUBLISHED_OUTPUT_SEQ (st_db s))).
  { destruct (save_cursor_cases _ _ _ _ Hub Hsave) as [->| ->]; done. }
  destruct e as [e|].
  { intros [= <- <-]. split; [|done]. by split; cbn; eauto. }
  intros [= <- <-]. match goal with |- pub_ok _ (ep_recordBatch ?x ?t ?d ?p0) /\ _ =>
    destruct (ep_recordBatch_frame x t d p0) as (F1 & F2 & F3 & F4 & F5) end.
  split; [|by rewrite F1, F4]. split; unfold saved; rewrite ?F1, ?F2, ?F3, ?F4, ?F5; cbn; eauto.
Qed.

Lemma publish_loop_ok fuel rs p p' err :
  pub_ok rs p -> publish_loop fuel (Z.of_nat (length rs)) p = (p', err) ->
  pub_ok rs p' /\ ep_output p' = ep_output p /\ ep_eventQueue p' = ep_eventQueue p.
Proof.
  revert p. induction fuel as [|fuel IH]; intros p Hp; cbn [publish_loop];
    (destruct (Z.ltb_spec (ep_cursor p) (Z.of_nat (length rs))) as [Hlt|]; [|by intros [= <- <-]]).
  { by intros [= <- <-]. }
  destruct (publish_step _ p) as [p1 [e|]] eqn:Hs; destruct (publish_step_ok _ _ _ _ Hp Hlt Hs) as (H1 & H2 & H3).
  - by intros [= <- <-].
  - intros Hl. destruct (IH _ H1 Hl) as (? & -> & ->). done.
Qed.

Lemma ep_drain_ok rs p p' err :
  pub_ok rs p -> ep_drain p = (p', err) ->
  pub_ok rs p' /\ ep_output p' = ep_output p /\ ep_eventQueue p' = ep_eventQueue p.
Proof.
  intros Hp. unfold ep_drain. destruct (po_log _ _ Hp) as [k Hr]. rewrite (retains_last _ _ _ Hr).
  by apply publish_loop_ok.
Qed.

(** ** The publisher among the other parts *)

(** What can happen, with the records written so far: a drain, with or without
    an error; a record that the engine appends; a truncation of the log; a change
    of the database by another part, which leaves the publisher's position; a
    restart of the process, which keeps the log, the database and the broker. *)
Inductive pub_step : list bytes * publisher -> list bytes * publisher -> Prop :=
  | pub_drain rs p p' err : ep_drain p = (p', err) -> pub_step (rs, p) (rs, p')
  | pub_append rs p k r w :
      written r -> retains w k (rs ++ [r]) ->
      pub_step (rs, p) (rs ++ [r], mkEventPublisher w (ep_store p) (ep_mq p) (ep_eventQueue p) (ep_cursor p)
        (ep_eventPublishedSeq p) (ep_metrics p) (ep_ticks p))
  | pub_truncate rs p k w :
      retains w k rs ->
      pub_step (rs, p) (rs, mkEventPublisher w (ep_store p) (ep_mq p) (ep_eventQueue p) (ep_cursor p)
        (ep_eventPublishedSeq p) (ep_metrics p) (ep_ticks p))
  | pub_other rs p s :
      cursors (st_db s) !! MQ_PUBLISHED_OUTPUT_SEQ = cursors (st_db (ep_store p)) !! MQ_PUBLISHED_OUTPUT_SEQ ->
      pub_step (rs, p) (rs, ep_set_store p s)
  | pub_restart rs p mq p' :
      extends (ep_mq p) mq ->
      ep_start (NewEventPublisher (ep_output p) (ep_store p) mq (ep_eventQueue p)) = (p', None) ->
      pub_step (rs, p) (rs, p').

Lemma ep_start_ok rs p p' :
  pub_ok rs p -> ep_start p = (p', None) -> pub_ok rs p' /\ ep_eventQueue p' = ep_eventQueue p.
Proof.
  intros [Hl Hw Hc Hs]. unfold ep_start. destruct (LoadMQPublishedCursor (ep_store p)) as [s [c|e]] eqn:Hload; [|done].
  destruct (LoadMQPublishedCursor_ok _ _ _ Hload) as [-> Hdb]. intros [= <-]. split; [|done].
  split; cbn; [done|done|exact Hs|]. unfold saved. cbn. by rewrite Hdb.
Qed.

Lemma pub_step_ok x y :
  pub_step x y -> pub_ok x.1 x.2 -> pub_ok y.1 y.2 /\ ep_eventQueue y.2 = ep_eventQueue x.2.
Proof.
  intros [rs p p' err Hd|rs p k r w Hwr Hr|rs p k w Hr|rs p s Hcur|rs p mq p' He Hst] Hp; simpl in *.
  - destruct (ep_drain_ok _ _ _ _ Hp Hd) as (? & _ & ?). done.
  - destruct Hp as [Hl Hw Hc Hs]. split; [|done].
    split; cbn; [eauto|by apply Forall_app; split; [|constructor]|by apply published_more..].
  - destruct Hp as [Hl Hw Hc Hs]. split; [|done]. by split; cbn; eauto.
  - destruct Hp as [Hl Hw Hc Hs]. split; [|done]. split; cbn; eauto. unfold saved, cursor_at in *. cbn. by rewrite Hcur.
  - destruct Hp as [Hl Hw Hc Hs]. apply (ep_start_ok rs) in Hst; [done|].
    split; cbn; [done|done| |by eapply published_extends]. split; [lia|]. apply sublist_nil_l.
Qed.

Lemma pub_steps_ok x y :
  rtc pub_step x y -> pub_ok x.1 x.2 -> pub_ok y.1 y.2 /\ ep_eventQueue y.2 = ep_eventQueue x.2.
Proof.
  induction 1 as [|x y z Hxy Hyz IH]; [done|]. intros Hp.
  destruct (pub_step_ok _ _ Hxy Hp) as [Hp1 Hq1]. destruct (IH Hp1) as [Hp2 Hq2]. split; [done|]. congruence.
Qed.

(** ** When nothing fails any more, everything is published *)

(** From now on nothing fails. *)
Definition undisturbed p : Prop := answered_from (st_calls (ep_store p)) /\ healthy (ep_mq p).

Lemma SaveMQPublishedCursor_answered b (s : Store bytes) :
  answered_from (st_calls s) -> is_u64 b ->
  exists s', SaveMQPublishedCursor b s = (s', None) /\ cursor_at MQ_PUBLISHED_OUTPUT_SEQ (st_db s') = b /\
    answered_from (st_calls s').
Proof.
  intros Ha Hb. unfold SaveMQPublishedCursor, exec_db. rewrite (Ha (st_calls s)) by done. cbn. eexists.
  split_and!; [done|by apply cursor_at_save|]. intros m Hm. cbn in Hm. apply Ha. lia.
Qed.

Lemma publish_step_live rs p k :
  undisturbed p -> pub_ok rs p -> retains (ep_output p) k rs -> (k <= Z.to_nat (ep_cursor p))%nat ->
  Z.of_nat (length rs) + eventPublisherBatchSize < two64 -> ep_cursor p < Z.of_nat (length rs) ->
  exists p', publish_step (Z.of_nat (length rs)) p = (p', None) /\ undisturbed p' /\
    ep_cursor p' = Z.min (ep_cursor p + eventPublisherBatchSize) (Z.of_nat (length rs)) /\
    saved p' = ep_cursor p' /\
    sent (ep_mq p') = sent (ep_mq p) ++
      (mkMessage (ep_eventQueue p) <$> take (Z.to_nat (ep_cursor p' - ep_cursor p)) (drop (Z.to_nat (ep_cursor p)) rs)).
Proof.
  intros [Ha Hh] Hp Hr Hk Hbd Hlt. pose proof (proj1 (po_cursor _ _ Hp)) as Hc.
  unfold publish_step. unfold eventPublisherBatchSize in *. rewrite !(add64_exact (ep_cursor p)) by lia.
  set (b := Z.min _ _). replace (ep_cursor p + 1) with (Z.of_nat (Z.to_nat (ep_cursor p)) + 1) by lia.
  destruct (read_batch_total (Z.to_nat (b - ep_cursor p)) (Z.to_nat (ep_cursor p)) (ep_eventQueue p) _ _ _ Hr
    (po_written _ _ Hp) Hk) as (batch & Hb); [lia|].
  destruct (read_batch_sound _ _ _ _ _ _ _ Hr (po_written _ _ Hp) Hb) as [Hmsgs _]. rewrite Hb, Hmsgs.
  unfold ep_now. cbn [ep_mq ep_output ep_store ep_cursor ep_eventQueue].
  destruct (PublishBatch_healthy (mkMessage (ep_eventQueue p) <$> take (Z.to_nat (b - ep_cursor p)) (drop (Z.to_nat (ep_cursor p)) rs))
    (ep_mq p) Hh) as (mq & Hpb & Hh'). rewrite Hpb.
  destruct (PublishBatch_ok _ _ _ _ Hpb) as [_ Hok]. destruct (Hok eq_refl) as [Hsent _].
  cbn [ep_set_mq ep_store ep_mq ep_output ep_cursor ep_eventQueue].
  destruct (SaveMQPublishedCursor_answered b (ep_store p) Ha) as (s & -> & Hs & Ha'); [unfold is_u64; lia|].
  eexists. split; [done|]. match goal with |- context [ep_recordBatch ?x ?t ?d ?p0] =>
    destruct (ep_recordBatch_frame x t d p0) as (F1 & F2 & F3 & F4 & F5) end.
  unfold saved, undisturbed. rewrite F2, F3, F5. cbn. by rewrite Hs, Hsent.
Qed.

(** The loop ends with the cursor at the end of the log, and sends each record
    after the cursor once. *)
Lemma publish_loop_live fuel rs p k :
  undisturbed p -> pub_ok rs p -> retains (ep_output p) k rs -> (k <= Z.to_nat (ep_cursor p))%nat ->
  Z.of_nat (length rs) + eventPublisherBatchSize < two64 ->
  (Z.to_nat (Z.of_nat (length rs) - ep_cursor p) <= fuel)%nat ->
  exists p', publish_loop fuel (Z.of_nat (length rs)) p = (p', None) /\
    ep_cursor p' = Z.of_nat (length rs) /\ (ep_cursor p < Z.of_nat (length rs) -> saved p' = ep_cursor p') /\
    sent (ep_mq p') = sent (ep_mq p) ++ (mkMessage (ep_eventQueue p) <$> drop (Z.to_nat (ep_cursor p)) rs).
Proof.
  revert p. induction fuel as [|fuel IH]; intros p Hu Hp Hr Hk Hbd Hf; cbn [publish_loop];
    pose proof (proj1 (po_cursor _ _ Hp)) as Hc;
    (destruct (Z.ltb_spec (ep_cursor p) (Z.of_nat (length rs))) as [Hlt|]; [|
      exists p; split_and!; [done|lia|lia|by rewrite drop_ge, app_nil_r by lia]]); [lia|].
  destruct (publish_step_live rs p k Hu Hp Hr Hk Hbd Hlt) as (p1 & Hst & Hu1 & Hc1 & Hs1 & Hm1). rewrite Hst.
  destruct (publish_step_ok _ _ _ _ Hp Hlt Hst) as (Hp1 & Ho1 & Hq1).
  unfold eventPublisherBatchSize in *.
  destruct (IH p1) as (p2 & Hl & Hc2 & Hs2 & Hm2); [done|done|by rewrite Ho1|lia|done|lia|].
  exists p2. split_and!; [done|done| |].
  - intros _. destruct (decide (ep_cursor p1 < Z.of_nat (length rs))); [auto|].
    destruct fuel; cbn [publish_loop] in Hl; destruct (Z.ltb_spec (ep_cursor p1) (Z.of_nat (length rs))); try lia; by simplify_eq.
  - rewrite Hm2, Hm1, Hq1, <- app_assoc, <- fmap_app. do 2 f_equal.
    rewrite <- (take_drop (Z.to_nat (ep_cursor p1 - ep_cursor p)) (drop (Z.to_nat (ep_cursor p)) rs)) at 2.
    f_equal. rewrite drop_drop. f_equal. lia.
Qed.

Lemma ep_drain_live rs p k :
  undisturbed p -> pub_ok rs p -> retains (ep_output p) k rs -> (k <= Z.to_nat (ep_cursor p))%nat ->
  Z.of_nat (length rs) + eventPublisherBatchSize < two64 ->
  exists p', ep_drain p = (p', None) /\
    ep_cursor p' = Z.of_nat (length rs) /\ (ep_cursor p < Z.of_nat (length rs) -> saved p' = ep_cursor p') /\
    sent (ep_mq p') = sent (ep_mq p) ++ (mkMessage (ep_eventQueue p) <$> drop (Z.to_nat (ep_cursor p)) rs).
Proof.
  intros Hu Hp Hr Hk Hbd. unfold ep_drain. rewrite (retains_last _ _ _ Hr). by apply (publish_loop_live _ rs p k).
Qed.
End publisher.
