(* ===== verification/Projector.v ===== *)
(** * The database projector ([internal/publisher/db_projector.go])

    It follows the output WAL like the event publisher, but writes the events to
    the database: the events of up to a hundred records and the new position are
    one transaction. [applyEvent] decodes an event and calls the method of the
    transaction that its pattern selects.

    Proved here: the committed database is always the result of applying the
    events of the records up to the stored position once each, in order, with
    nothing in between but what other parts of the system do to their own
    columns ([ideal]), whatever fails and however often the projector restarts,
    provided no answer to a call is lost. *)

From S2P Require Import Prelude Domain Events Matching Wal Metrics Engine Columns Database Storage Messaging Publisher.

Definition dbProjectorBatchSize : Z := 100.

(** ** Decoding events *)

Class EventCodec (bytes : Type) := {
  Unmarshal_OrderEvent : bytes -> option OrderEvent;
  Unmarshal_OrderRejected : bytes -> option OrderRejected;
  Unmarshal_StockBalance : bytes -> option StockBalance;
  Unmarshal_TransferCompleted : bytes -> option TransferCompleted;
  Unmarshal_TransferRejected : bytes -> option TransferRejected;
  Unmarshal_AdminRequestCompleted : bytes -> option AdminRequestCompleted;
  Unmarshal_AdminRequestRejected : bytes -> option AdminRequestRejected
}.

(** What is read back is what was written. *)
Class EventCodecLaws (bytes : Type) `{!Codec bytes, !EventCodec bytes} := {
  codec_order_event x b : Marshal_data (EvOrder x) = Some b -> Unmarshal_OrderEvent b = Some x;
  codec_order_rejected x b : Marshal_data (EvOrderRejected x) = Some b -> Unmarshal_OrderRejected b = Some x;
  codec_account x b : Marshal_data (EvAccount x) = Some b -> Unmarshal_Account b = Some x;
  codec_holding x b : Marshal_data (EvHolding x) = Some b -> Unmarshal_StockBalance b = Some x;
  codec_stock x b : Marshal_data (EvStock x) = Some b -> Unmarshal_Stock b = Some (json_stock x);
  codec_transfer_completed x b : Marshal_data (EvTransferCompleted x) = Some b -> Unmarshal_TransferCompleted b = Some x;
  codec_transfer_rejected x b : Marshal_data (EvTransferRejected x) = Some b -> Unmarshal_TransferRejected b = Some x;
  codec_admin_completed x b : Marshal_data (EvAdminCompleted x) = Some b -> Unmarshal_AdminRequestCompleted b = Some x;
  codec_admin_rejected x b : Marshal_data (EvAdminRejected x) = Some b -> Unmarshal_AdminRequestRejected b = Some x
}.

(** ** State *)

Record DBProjector (bytes log : Type) := mkDBProjector {
  dp_output : log;
  dp_store : Store bytes;
  dp_cursor : Z;
  dp_appliedSeq : Z;
  dp_metrics : DBProjectorReporter;
  dp_ticks : nat
}.
Arguments mkDBProjector {bytes log} _ _ _ _ _ _.
Arguments dp_output {bytes log} _.
Arguments dp_store {bytes log} _.
Arguments dp_cursor {bytes log} _.
Arguments dp_appliedSeq {bytes log} _.
Arguments dp_metrics {bytes log} _.
Arguments dp_ticks {bytes log} _.

Inductive apply_error :=
  | ErrUnmarshalEvent
  | ErrTx (e : store_error).

Definition orderStatus (p : string) : string :=
  if String.eqb p PatternOrderFilled then "FILLED"
  else if String.eqb p PatternOrderCanceled then "CANCELED"
  else if String.eqb p PatternOrderReplaced then "REPLACED"
  else if String.eqb p PatternOrderCompleted then "COMPLETED"
  else "OPEN".

Section projector.
Context {bytes log : Type} `{!Clock, !Codec bytes, !EventCodec bytes, !Twal bytes log, !Server}.
Abbreviation projector := (DBProjector bytes log).
Abbreviation store := (Store bytes).
Abbreviation db := (DB bytes).
Implicit Types (p : projector) (s : store) (d : db).

(** ** Applying an event *)

Definition tx_call (r : store * option store_error) : store * option apply_error := (fst r, ErrTx <$> snd r).

(** Decode, then call a method of the transaction. *)
Definition decoded {A} (x : option A) (f : A -> store -> store * option store_error) s : store * option apply_error :=
  match x with
  | None => (s, Some ErrUnmarshalEvent)
  | Some x => tx_call (f x s)
  end.

Definition order_pattern (p : string) : bool :=
  String.eqb p PatternOrderOpen || String.eqb p PatternOrderFilled || String.eqb p PatternOrderCanceled ||
  String.eqb p PatternOrderReplaced || String.eqb p PatternOrderCompleted.

(** A holding with nothing left is deleted. *)
Definition project_holding (holding : StockBalance) s : store * option store_error :=
  if Z.eqb (sb_Quantity holding) 0 && Z.eqb (sb_AvailableQuantity holding) 0
  then DeleteHolding (sb_AccountId holding) (sb_StockId holding) s
  else UpsertHolding holding s.

Definition applyEvent (ev : OutputEvent bytes) s : store * option apply_error :=
  let p := oev_Pattern ev in
  let dat := oev_Data ev in
  if String.eqb p PatternTradeExecuted then decoded (Unmarshal_Trade dat) SaveTrade s
  else if order_pattern p then
    decoded (Unmarshal_OrderEvent dat) (fun order =>
      UpdateOrderState (oe_Id order) (orderStatus p) (oe_Quantity order) (oe_FilledQuantity order) (oe_FullyFilledAt order)) s
  else if String.eqb p PatternOrderRejected then
    decoded (Unmarshal_OrderRejected dat) (fun r => RejectOrder (orj_OrderId r) (orj_Reason r)) s
  else if String.eqb p PatternAccountUpdated then
    decoded (Unmarshal_Account dat) (fun a => UpdateAccountBalance (acc_Id a) (acc_Balance a) (acc_AvailableBalance a)) s
  else if String.eqb p PatternAccountActivated then
    decoded (Unmarshal_Account dat) (fun a => ActivateAccount (acc_Id a)) s
  else if String.eqb p PatternHoldingUpdated then
    decoded (Unmarshal_StockBalance dat) project_holding s
  else if String.eqb p PatternStockListed then
    decoded (Unmarshal_Stock dat) (fun st => UpdateStockStatus (st_Id st) (StockStatus_String (st_Status st))) s
  else if String.eqb p PatternStockUpdated then
    decoded (Unmarshal_Stock dat) (fun st => UpdateStockPrice (st_Id st) (st_Price st)) s
  else if String.eqb p PatternTransferCompleted then
    decoded (Unmarshal_TransferCompleted dat) (fun t => CompleteTransfer (tc_Id t) (tc_CompletedAt t)) s
  else if String.eqb p PatternTransferRejected then
    decoded (Unmarshal_TransferRejected dat) (fun t => RejectTransfer (trj_Id t) (trj_Reason t) (trj_CompletedAt t)) s
  else if String.eqb p PatternAdminRequestCompleted then
    decoded (Unmarshal_AdminRequestCompleted dat) (fun r => CompleteAdminRequest (arc_Id r) (arc_CompletedAt r)) s
  else if String.eqb p PatternAdminRequestRejected then
    decoded (Unmarshal_AdminRequestRejected dat) (fun r => RejectAdminRequest (arr_Id r) (arr_Reason r) (arr_CompletedAt r)) s
  else (s, None).

Fixpoint apply_events (evs : list (OutputEvent bytes)) s : store * option apply_error :=
  match evs with
  | [] => (s, None)
  | ev :: evs =>
      match applyEvent ev s with
      | (s, Some err) => (s, Some err)
      | (s, None) => apply_events evs s
      end
  end.

(** The body of [applyBatch] after [Begin]. *)
Definition apply_and_commit (index : Z) (envs : list (OutputEnvelope bytes)) s : store * option apply_error :=
  match apply_events (concat (env_Events <$> envs)) s with
  | (s, Some err) => (s, Some err)
  | (s, None) =>
      match SaveDBAppliedCursor index s with
      | (s, Some err) => (s, Some (ErrTx err))
      | (s, None) => tx_call (Commit s)
      end
  end.

(** The deferred [Rollback] runs on every return. *)
Definition applyBatch (index : Z) (envs : list (OutputEnvelope bytes)) s : store * option apply_error :=
  match Begin s with
  | (s, Some err) => (s, Some (ErrTx err))
  | (s, None) => let '(s, err) := apply_and_commit index envs s in (fst (Rollback s), err)
  end.

(** ** Draining *)

Definition dp_set_store p s : projector :=
  mkDBProjector (dp_output p) s (dp_cursor p) (dp_appliedSeq p) (dp_metrics p) (dp_ticks p).
Definition dp_set_cursor p (c : Z) : projector :=
  mkDBProjector (dp_output p) (dp_store p) c c (dp_metrics p) (dp_ticks p).
Definition dp_now p : Time * projector :=
  (clock_at (dp_ticks p), mkDBProjector (dp_output p) (dp_store p) (dp_cursor p) (dp_appliedSeq p) (dp_metrics p) (S (dp_ticks p))).

Definition NewDBProjector (out : log) s : projector := mkDBProjector out s 0 0 NewDBProjectorReporter 0.

(** [n] records from index [next], decoded. *)
Fixpoint read_envelopes (n : nat) (next : Z) (w : log) : list (OutputEnvelope bytes) + drain_error :=
  match n with
  | O => inl []
  | S n =>
      match Read w next with
      | inr err => inr (ErrReadOutput next err)
      | inl raw =>
          match Unmarshal_OutputEnvelope raw with
          | None => inr (ErrUnmarshalOutput next)
          | Some env =>
              match read_envelopes n (next ⊕ 1) w with
              | inr err => inr err
              | inl rest => inl (env :: rest)
              end
          end
      end
  end.

Definition dp_recordBatch (envs : list (OutputEnvelope bytes)) (started : Time) (dbApply : Duration) p : projector :=
  let walWait :=
    match envs with
    | env :: _ =>
        if negb (IsZero (env_CreatedAt env)) then Z.max (time_sub started (env_CreatedAt env)) 0 else 0
    | [] => 0
    end in
  mkDBProjector (dp_output p) (dp_store p) (dp_cursor p) (dp_appliedSeq p)
    (DBProjectorReporter_Record (mkDBProjectorRecord (count_events envs) walWait dbApply) (dp_metrics p)) (dp_ticks p).

(** One iteration of the loop of [drain]. *)
Definition project_step (last : Z) p : projector * option drain_error :=
  let batchEnd := Z.min (dp_cursor p ⊕ dbProjectorBatchSize) last in
  match read_envelopes (Z.to_nat (batchEnd - dp_cursor p)) (dp_cursor p ⊕ 1) (dp_output p) with
  | inr err => (p, Some err)
  | inl envs =>
      let '(started, p) := dp_now p in
      match applyBatch batchEnd envs (dp_store p) with
      | (s, Some _) => (dp_set_store p s, Some ErrApplyBatch)
      | (s, None) =>
          let '(now, p) := dp_now (dp_set_store p s) in
          (dp_recordBatch envs started (time_sub now started) (dp_set_cursor p batchEnd), None)
      end
  end.

Fixpoint project_loop (fuel : nat) (last : Z) p : projector * option drain_error :=
  if Z.ltb (dp_cursor p) last then
    match fuel with
    | O => (p, Some DrainOutOfFuel)
    | S fuel =>
        match project_step last p with
        | (p, Some err) => (p, Some err)
        | (p, None) => project_loop fuel last p
        end
    end
  else (p, None).

Definition dp_drain p : projector * option drain_error :=
  match LastIndex (dp_output p) with
  | inr err => (p, Some (ErrLastIndex err))
  | inl last => project_loop (Z.to_nat (last - dp_cursor p)) last p
  end.

(** [Run] before its loop: the stored position. *)
Definition dp_start p : projector * option store_error :=
  match LoadDBAppliedCursor (dp_store p) with
  | (s, inr err) => (dp_set_store p s, Some err)
  | (s, inl cursor) => (dp_set_cursor (dp_set_store p s) cursor, None)
  end.

(** *** A drain ends *)

Lemma read_envelopes_error n next w : read_envelopes n next w <> inr DrainOutOfFuel.
Proof. revert next. induction n as [|n IH]; intros next; cbn [read_envelopes]; repeat case_match; naive_solver. Qed.

Lemma project_step_advances last p p' err :
  0 <= dp_cursor p < last -> last + dbProjectorBatchSize < two64 -> project_step last p = (p', err) ->
  err <> Some DrainOutOfFuel /\ (err = None -> dp_cursor p < dp_cursor p' <= last).
Proof.
  unfold project_step, dbProjectorBatchSize. intros Hc Hl. rewrite (add64_exact (dp_cursor p) 100) by lia.
  destruct (read_envelopes _ _ _) as [envs|e] eqn:Hrd.
  2: { intros [= <- <-]. split; [|done]. intros [= ->]. by apply read_envelopes_error in Hrd. }
  unfold dp_now. destruct (applyBatch _ _ _) as [s [e|]]; [by intros [= <- <-]|].
  intros [= <- <-]. split; [done|]. intros _. cbn. lia.
Qed.

(** The cursor moves with every batch, so the backlog is fuel enough. *)
Lemma project_loop_fuel fuel last p p' err :
  0 <= dp_cursor p -> last + dbProjectorBatchSize < two64 -> last - dp_cursor p <= Z.of_nat fuel ->
  project_loop fuel last p = (p', err) -> err <> Some DrainOutOfFuel.
Proof.
  revert p. induction fuel as [|fuel IH]; intros p Hc Hl Hf; cbn [project_loop];
    (destruct (Z.ltb_spec (dp_cursor p) last) as [Hlt|]; [|by intros [= <- <-]]); [lia|].
  destruct (project_step last p) as [p1 err1] eqn:Hs. destruct (project_step_advances _ _ _ _ (conj Hc Hlt) Hl Hs) as [Hne Hadv].
  destruct err1 as [e|]; [by intros [= <- <-]|]. specialize (Hadv eq_refl). apply IH; lia.
Qed.

Lemma dp_drain_fuel p p' err :
  0 <= dp_cursor p -> (forall last, LastIndex (dp_output p) = inl last -> last + dbProjectorBatchSize < two64) ->
  dp_drain p = (p', err) -> err <> Some DrainOutOfFuel.
Proof.
  intros Hc Hl. unfold dp_drain. destruct (LastIndex _) as [last|e] eqn:Hla; [|by intros [= <- <-]].
  apply project_loop_fuel; [done|by apply Hl|lia].
Qed.

(** ** What one event does to the database *)

(** Event [ev] takes the view of a transaction from [d] to [d']. *)
Definition applied1 (ev : OutputEvent bytes) d d' : Prop :=
  exists s s', st_tx s = Some d /\ applyEvent ev s = (s', None) /\ st_tx s' = Some d'.

Inductive applied : list (OutputEvent bytes) -> db -> db -> Prop :=
  | applied_nil d : applied [] d d
  | applied_cons ev evs d d1 d2 : applied1 ev d d1 -> applied evs d1 d2 -> applied (ev :: evs) d d2.

(** A decoded call leaves the committed database alone and needs the transaction. *)
Lemma decoded_frame {A} (x : option A) f s s' err :
  (forall y s s' e, f y s = (s', e) -> st_db s' = st_db s) ->
  (forall y s s', f y s = (s', None) -> is_Some (st_tx s) -> is_Some (st_tx s')) ->
  decoded x f s = (s', err) ->
  st_db s' = st_db s /\ (err = None -> is_Some (st_tx s) -> is_Some (st_tx s')).
Proof.
  intros Hf Ht. unfold decoded, tx_call. destruct x as [x|]; [|by intros [= <- <-]].
  destruct (f x s) as [s1 [e|]] eqn:Hx; intros [= <- <-]; simpl; [by split; [eauto|]|]. split; [eauto|]. intros _. eauto.
Qed.

Lemma exec_tx_db stmt s s' e : exec_tx stmt s = (s', e) -> st_db s' = st_db s.
Proof. intros Hx. apply (exec_tx_cases _ _ _ _ Hx). Qed.

Lemma exec_tx_view stmt s s' : exec_tx stmt s = (s', None) -> is_Some (st_tx s) -> is_Some (st_tx s').
Proof. intros Hx _. destruct (exec_tx_cases _ _ _ _ Hx) as [_ Hc]. destruct (Hc eq_refl) as (? & ? & ? & _ & _ & ->). eauto. Qed.

Lemma project_holding_frame h s s' e :
  project_holding h s = (s', e) -> st_db s' = st_db s /\ (e = None -> is_Some (st_tx s) -> is_Some (st_tx s')).
Proof.
  unfold project_holding. case_match; intros Hx; (split; [by eapply exec_tx_db|intros ->; by eapply exec_tx_view]).
Qed.

Lemma applyEvent_frame ev s s' err :
  applyEvent ev s = (s', err) -> st_db s' = st_db s /\ (err = None -> is_Some (st_tx s) -> is_Some (st_tx s')).
Proof.
  unfold applyEvent. repeat case_match; try (by intros [= <- <-]); apply decoded_frame;
    try (by intros; eapply exec_tx_db); try (by intros; eapply exec_tx_view);
    intros; try (by eapply project_holding_frame).
Qed.

Lemma apply_events_ok evs s s' err :
  apply_events evs s = (s', err) ->
  st_db s' = st_db s /\
  (err = None -> forall d, st_tx s = Some d -> exists d', st_tx s' = Some d' /\ applied evs d d').
Proof.
  revert s. induction evs as [|ev evs IH]; intros s; cbn [apply_events].
  { intros [= <- <-]. split; [done|]. intros _ d Hd. exists d. split; [done|constructor]. }
  destruct (applyEvent ev s) as [s1 [e|]] eqn:He; destruct (applyEvent_frame _ _ _ _ He) as [Hdb Htx].
  { by intros [= <- <-]. }
  intros Hr. destruct (IH _ Hr) as [Hdb1 Hok]. split; [congruence|]. intros -> d Hd.
  destruct (Htx eq_refl) as [d1 Hd1]; [eauto|]. destruct (Hok eq_refl d1 Hd1) as (d2 & Hd2 & Ha).
  exists d2. split; [done|]. econstructor; [|done]. by exists s, s1.
Qed.

(** The database after the events of a batch with the position stored. *)
Definition with_cursor (i : Z) d : db := set_cursors d (<[DB_APPLIED_OUTPUT_SEQ := i64 i]> (cursors d)).

(** No answer is lost: a call that reports an error was not executed. *)
Definition no_lost_answer : Prop := forall n, answer_at n <> AnswerLost.

(** A batch is applied as a whole or not at all; without lost answers it is
    applied exactly when it reports success. *)
Lemma applyBatch_ok index envs s s' err :
  applyBatch index envs s = (s', err) ->
  st_tx s' = None /\
  ((st_db s' = st_db s /\ err <> None) \/
   ((no_lost_answer -> err = None) /\
    exists d, applied (concat (env_Events <$> envs)) (st_db s) d /\ st_db s' = with_cursor index d)).
Proof.
  unfold applyBatch. destruct (Begin s) as [s1 [e|]] eqn:Hb; destruct (Begin_cases _ _ _ Hb) as [Hd1 Ht1]; clear Hb.
  { intros [= <- <-]. eauto. }
  unfold apply_and_commit.
  destruct (apply_events _ s1) as [s2 [e|]] eqn:Ha; destruct (apply_events_ok _ _ _ _ Ha) as [Hd2 Hok].
  { intros [= <- <-]. destruct (Rollback_ends s2) as [-> ->]. split; [done|]. left. split; [congruence|done]. }
  destruct (Hok eq_refl _ Ht1) as (d & Ht2 & Happ). clear Hok.
  destruct (SaveDBAppliedCursor index s2) as [s3 [e|]] eqn:Hs; destruct (exec_tx_cases _ _ _ _ Hs) as [Hd3 Hok].
  { intros [= <- <-]. destruct (Rollback_ends s3) as [-> ->]. split; [done|]. left. split; [congruence|done]. }
  destruct (Hok eq_refl) as (v & now & d' & Hv & Hq & Ht3). rewrite Ht2 in Hv. injection Hv as <-. injection Hq as <-.
  unfold tx_call, Commit. rewrite Ht3. destruct (answer_at (st_calls s3)) eqn:Hans; cbn [fst snd fmap option_fmap option_map];
    intros [= <- <-]; (split; [done|]).
  - right. split; [done|]. by exists d.
  - left. split; [cbn; congruence|done].
  - right. split; [intros Hn; by destruct (Hn (st_calls s3))|]. by exists d.
Qed.

(** ** Every record once *)

(** What other parts of the system may do to the database: insert rows, and
    change columns that the engine does not own. *)
Record foreign d d' : Prop := {
  fo_accounts i r : accounts d !! i = Some r -> exists r', accounts d' !! i = Some r' /\
    ac_Balance r' = ac_Balance r /\ ac_AvailableBalance r' = ac_AvailableBalance r /\ ac_Status r' = ac_Status r;
  fo_stocks i r : stocks d !! i = Some r -> exists r', stocks d' !! i = Some r' /\
    sk_Price r' = sk_Price r /\ sk_Status r' = sk_Status r;
  fo_holdings : user_stocks d' = user_stocks d;
  fo_orders i : is_Some (orders_tbl d !! i) -> is_Some (orders_tbl d' !! i);
  fo_trades : trades d' = trades d;
  fo_cursor : cursors d' !! DB_APPLIED_OUTPUT_SEQ = cursors d !! DB_APPLIED_OUTPUT_SEQ
}.

(** The specification: a database to which the first [c] records have been
    applied, each once, in order, a stretch of records at a time together with
    the new position. *)
Inductive ideal (rs : list bytes) : nat -> db -> Prop :=
  | ideal_start d : cursor_at DB_APPLIED_OUTPUT_SEQ d = 0 -> ideal rs 0 d
  | ideal_foreign c d d' : ideal rs c d -> foreign d d' -> ideal rs c d'
  | ideal_batch c n envs d d' :
      ideal rs c d -> (c + n <= length rs)%nat ->
      mapM Unmarshal_OutputEnvelope (take n (drop c rs)) = Some envs ->
      applied (concat (env_Events <$> envs)) d d' ->
      ideal rs (c + n) (with_cursor (Z.of_nat (c + n)) d').

Lemma ideal_le rs c d : ideal rs c d -> (c <= length rs)%nat.
Proof. induction 1; lia. Qed.

Lemma ideal_more rs r c d : ideal rs c d -> ideal (rs ++ [r]) c d.
Proof.
  induction 1 as [d Hd|c d d' _ IH Hf|c n envs d d' Hi IH Hn Henv Ha].
  - by constructor.
  - by eapply ideal_foreign.
  - eapply ideal_batch; [done|rewrite length_app; lia| |done].
    by rewrite drop_app_le, take_app_le by (rewrite ?length_drop; lia).
Qed.

(** The stored position is the number of records applied. *)
Lemma ideal_cursor rs c d :
  Z.of_nat (length rs) < two64 -> ideal rs c d -> cursor_at DB_APPLIED_OUTPUT_SEQ d = Z.of_nat c.
Proof.
  intros Hb. induction 1 as [d Hd|c d d' _ IH Hf|c n envs d d' Hi IH Hn Henv Ha]; [done| |].
  - rewrite <- IH. unfold cursor_at. by rewrite (fo_cursor _ _ Hf).
  - apply cursor_at_save. unfold is_u64. lia.
Qed.

Lemma read_envelopes_sound n c w k rs envs :
  retains w k rs -> read_envelopes n (Z.of_nat c + 1) w = inl envs ->
  mapM Unmarshal_OutputEnvelope (take n (drop c rs)) = Some envs /\ (c + n <= length rs \/ n = 0)%nat.
Proof.
  intros Hr. revert c envs. induction n as [|n IH]; intros c envs; cbn [read_envelopes].
  { intros [= <-]. split; [done|lia]. }
  rewrite (retains_read _ _ _ _ Hr). case_decide; [|done]. destruct (rs !! c) as [r|] eqn:Hc; [|done].
  destruct (Unmarshal_OutputEnvelope r) as [env|] eqn:Hu; [|done].
  pose proof (retains_bound _ _ _ Hr). apply lookup_lt_Some in Hc as Hlt. rewrite add64_exact by lia.
  replace (Z.of_nat c + 1 + 1) with (Z.of_nat (S c) + 1) by lia.
  destruct (read_envelopes n _ w) as [rest|] eqn:Hb; [|done]. intros [= <-].
  destruct (IH _ _ Hb) as [Hrest Hlen]. rewrite (drop_S _ r _ Hc). cbn [take mapM]. rewrite Hu. cbn [mbind option_bind].
  rewrite Hrest. split; [done|lia].
Qed.

(** *** Invariants of the projector

    What a batch, a change by another part and a new record keep of the database
    is kept by everything the projector does. *)

Record keeps (I : list bytes -> nat -> db -> Prop) : Prop := {
  kp_cursor rs c d : Z.of_nat (length rs) < two64 -> I rs c d -> cursor_at DB_APPLIED_OUTPUT_SEQ d = Z.of_nat c;
  kp_foreign rs c d d' : I rs c d -> foreign d d' -> I rs c d';
  kp_batch rs c n envs d d' :
    I rs c d -> (c + n <= length rs)%nat -> mapM Unmarshal_OutputEnvelope (take n (drop c rs)) = Some envs ->
    applied (concat (env_Events <$> envs)) d d' -> I rs (c + n)%nat (with_cursor (Z.of_nat (c + n)) d')
}.

Lemma ideal_keeps : keeps ideal.
Proof. split; [apply ideal_cursor|intros; by eapply ideal_foreign|intros; by eapply ideal_batch]. Qed.

Section invariant.
Context (I : list bytes -> nat -> db -> Prop) (HI : keeps I) (Hnl : no_lost_answer).

Record proj_inv (rs : list bytes) p : Prop := {
  pj_log : exists k, retains (dp_output p) k rs;
  pj_room : Z.of_nat (length rs) + dbProjectorBatchSize < two64;
  pj_cursor : 0 <= dp_cursor p;
  pj_inv : I rs (Z.to_nat (dp_cursor p)) (st_db (dp_store p))
}.

Lemma project_step_ok rs p p' err :
  proj_inv rs p -> dp_cursor p < Z.of_nat (length rs) ->
  project_step (Z.of_nat (length rs)) p = (p', err) -> proj_inv rs p' /\ dp_output p' = dp_output p.
Proof.
  intros [[k Hr] Hroom Hc Hi] Hlt. unfold project_step, dbProjectorBatchSize in *.
  rewrite !(add64_exact (dp_cursor p)) by lia. set (b := Z.min _ _).
  replace (dp_cursor p + 1) with (Z.of_nat (Z.to_nat (dp_cursor p)) + 1) by lia.
  destruct (read_envelopes _ _ _) as [envs|e] eqn:Hrd.
  2: { intros [= <- <-]. split; [|done]. by split; eauto. }
  destruct (read_envelopes_sound _ _ _ _ _ _ Hr Hrd) as [Henvs _].
  unfold dp_now. cbn [dp_store dp_output dp_cursor].
  destruct (applyBatch b envs (dp_store p)) as [s err0] eqn:Hab.
  destruct (applyBatch_ok _ _ _ _ _ Hab) as [_ [[Hdb Herr]|[Herr (d & Happ & Hdb)]]].
  - destruct err0; [|done]. intros [= <- <-]. split; [|done]. split; cbn; [eauto|exact Hroom|done|by rewrite Hdb].
  - rewrite (Herr Hnl). intros [= <- <-]. split; [|done].
    split; cbn; [eauto|exact Hroom|lia|]. rewrite Hdb.
    pose proof (kp_batch _ HI rs (Z.to_nat (dp_cursor p)) (Z.to_nat (b - dp_cursor p)) envs _ d Hi) as Hnew.
    replace (Z.to_nat b) with (Z.to_nat (dp_cursor p) + Z.to_nat (b - dp_cursor p))%nat by lia.
    replace b with (Z.of_nat (Z.to_nat (dp_cursor p) + Z.to_nat (b - dp_cursor p))) at 2 by lia.
    apply Hnew; [lia|done|done].
Qed.

Lemma project_loop_ok fuel rs p p' err :
  proj_inv rs p -> project_loop fuel (Z.of_nat (length rs)) p = (p', err) ->
  proj_inv rs p' /\ dp_output p' = dp_output p.
Proof.
  revert p. induction fuel as [|fuel IH]; intros p Hp; cbn [project_loop];
    (destruct (Z.ltb_spec (dp_cursor p) (Z.of_nat (length rs))) as [Hlt|]; [|by intros [= <- <-]]).
  { by intros [= <- <-]. }
  destruct (project_step _ p) as [p1 [e|]] eqn:Hs; destruct (project_step_ok _ _ _ _ Hp Hlt Hs) as [H1 H2].
  - by intros [= <- <-].
  - intros Hl. destruct (IH _ H1 Hl) as [? ->]. done.
Qed.

Lemma dp_drain_ok rs p p' err :
  proj_inv rs p -> dp_drain p = (p', err) -> proj_inv rs p' /\ dp_output p' = dp_output p.
Proof.
  intros Hp. unfold dp_drain. destruct (pj_log _ _ Hp) as [k Hr]. rewrite (retains_last _ _ _ Hr).
  by apply project_loop_ok.
Qed.

Lemma dp_start_ok rs p p' :
  proj_inv rs p -> dp_start (NewDBProjector (dp_output p) (dp_store p)) = (p', None) -> proj_inv rs p'.
Proof.
  intros [Hl Hroom Hc Hi]. unfold dp_start. cbn [dp_store NewDBProjector].
  destruct (LoadDBAppliedCursor (dp_store p)) as [s [c|e]] eqn:Hload; [|done].
  destruct (LoadDBAppliedCursor_ok _ _ _ Hload) as [-> Hdb]. intros [= <-].
  unfold dbProjectorBatchSize in *. rewrite (kp_cursor _ HI rs _ _ ltac:(lia) Hi).
  split; cbn; [done|exact Hroom|lia|]. by rewrite Hdb, Nat2Z.id.
Qed.

Definition dp_set_output p (w : log) : projector :=
  mkDBProjector w (dp_store p) (dp_cursor p) (dp_appliedSeq p) (dp_metrics p) (dp_ticks p).

(** What happens without a new record: a drain, with or without an error; a
    truncation of the log; a change of the database by another part; a restart. *)
Inductive proj_move (rs : list bytes) : projector -> projector -> Prop :=
  | proj_drain p p' err : dp_drain p = (p', err) -> proj_move rs p p'
  | proj_truncate p k w : retains w k rs -> proj_move rs p (dp_set_output p w)
  | proj_other p s : foreign (st_db (dp_store p)) (st_db s) -> proj_move rs p (dp_set_store p s)
  | proj_restart p p' :
      dp_start (NewDBProjector (dp_output p) (dp_store p)) = (p', None) -> proj_move rs p p'.

Lemma proj_move_ok rs p p' : proj_move rs p p' -> proj_inv rs p -> proj_inv rs p'.
Proof.
  intros [p1 p2 err Hd|p1 k w Hr|p1 s Hf|p1 p2 Hst] Hp.
  - by eapply dp_drain_ok.
  - destruct Hp as [Hl Hroom Hc Hi]. by split; cbn; eauto.
  - destruct Hp as [Hl Hroom Hc Hi]. split; cbn; [done|done|done|by eapply kp_foreign].
  - by eapply dp_start_ok.
Qed.
End invariant.

(** ** The projector among the other parts *)

Abbreviation proj_ok := (proj_inv ideal).

(** The engine appends a record, or something else happens. *)
Inductive proj_step : list bytes * projector -> list bytes * projector -> Prop :=
  | proj_append rs p k r w :
      retains w k (rs ++ [r]) -> Z.of_nat (length (rs ++ [r])) + dbProjectorBatchSize < two64 ->
      proj_step (rs, p) (rs ++ [r], dp_set_output p w)
  | proj_moves rs p p' : proj_move rs p p' -> proj_step (rs, p) (rs, p').

Lemma proj_step_ok x y : no_lost_answer -> proj_step x y -> proj_ok x.1 x.2 -> proj_ok y.1 y.2.
Proof.
  intros Hnl [rs p k r w Hr Hroom|rs p p' Hm] Hp; simpl in *.
  - destruct Hp as [Hl _ Hc Hi]. split; cbn; [eauto|done|done|by apply ideal_more].
  - by eapply proj_move_ok; [apply ideal_keeps|..].
Qed.

Lemma proj_steps_ok x y : no_lost_answer -> rtc proj_step x y -> proj_ok x.1 x.2 -> proj_ok y.1 y.2.
Proof. intros Hnl. induction 1 as [|x y z Hxy Hyz IH]; [done|]. intros Hp. by eapply IH, proj_step_ok. Qed.
End projector.
