(* ===== verification/Frames.v ===== *)
(** * What each part leaves alone in the shared database

    The engine writes snapshots, the publisher its position, and the projector
    everything that mirrors the ledger, with its own position. So each part sees
    the others as foreign writers. *)

From S2P Require Import Prelude Domain Columns Database Storage SnapshotStore Events Matching Wal Metrics Engine Messaging Publisher Projector.

Section frames.
Context {bytes log chan conf : Type} `{!Clock, !Codec bytes, !CodecLaws bytes, !EventCodec bytes, !Twal bytes log, !Server}.
Context `{!Amqp bytes chan conf}.
Abbreviation db := (DB bytes).
Implicit Types (d : db) (s : Store bytes).

(** Only the snapshots and the publisher's position may differ. *)
Record beside d d' : Prop := {
  bs_accounts : accounts d' = accounts d;
  bs_stocks : stocks d' = stocks d;
  bs_holdings : user_stocks d' = user_stocks d;
  bs_orders : orders_tbl d' = orders_tbl d;
  bs_trades : trades d' = trades d;
  bs_cursor : cursors d' !! DB_APPLIED_OUTPUT_SEQ = cursors d !! DB_APPLIED_OUTPUT_SEQ
}.

#[export] Instance beside_preorder : PreOrder beside.
Proof. split; [by split|]. intros d1 d2 d3 [] []. split; congruence. Qed.

Lemma beside_foreign d d' : beside d d' -> foreign d d'.
Proof.
  intros [Ha Hs Hh Ho Ht Hc]. split; rewrite ?Ha, ?Hs, ?Ho; try done.
  - intros i r Hr. by exists r.
  - intros i r Hr. by exists r.
Qed.

(** The publisher's position and the stored snapshots. *)
Definition same_position_and_snapshots d d' : Prop :=
  cursors d' !! MQ_PUBLISHED_OUTPUT_SEQ = cursors d !! MQ_PUBLISHED_OUTPUT_SEQ /\ snapshots_tbl d' = snapshots_tbl d.

Lemma stored_same d d' : snapshots_tbl d' = snapshots_tbl d -> stored d' = stored d.
Proof. intros Ht. unfold stored, entry, snapshot_ids. by rewrite Ht. Qed.

(** ** The engine *)

Lemma q_SaveSnapshot_beside dat idx now d d' :
  q_SaveSnapshot dat idx now d = Some d' -> beside d d' /\ cursors d' = cursors d.
Proof. intros [= <-]. by split. Qed.

Lemma q_PruneSnapshots_beside n d d' : q_PruneSnapshots n d = Some d' -> beside d d' /\ cursors d' = cursors d.
Proof. unfold q_PruneSnapshots. destruct (Z.ltb _ _); [done|]. intros [= <-]. by split. Qed.

Lemma SaveSnapshotAndPrune_beside dat idx keep s s' r :
  SaveSnapshotAndPrune dat idx keep s = (s', r) -> beside (st_db s) (st_db s') /\ cursors (st_db s') = cursors (st_db s).
Proof.
  intros [[-> _]|(now & d1 & H1 & H2 & _)]%SaveSnapshotAndPrune_effect; [done|].
  apply q_SaveSnapshot_beside in H1 as [B1 C1]. apply q_PruneSnapshots_beside in H2 as [B2 C2].
  split; [by etrans|congruence].
Qed.

Lemma PruneSnapshots_beside keep s s' r :
  PruneSnapshots keep s = (s', r) -> beside (st_db s) (st_db s') /\ cursors (st_db s') = cursors (st_db s).
Proof.
  unfold PruneSnapshots. destruct (exec_db _ s) as [s1 err] eqn:He. destruct (exec_db_cases _ _ _ _ He) as [_ Hc].
  assert (H1 : beside (st_db s) (st_db s1) /\ cursors (st_db s1) = cursors (st_db s)).
  { destruct Hc as [[-> _]|[_ Hq]]; [done|]. by apply q_PruneSnapshots_beside in Hq. }
  destruct err; [by intros [= <- <-]|]. unfold query. by intros [= <- <-].
Qed.

(** ** The publisher *)

Lemma SaveMQPublishedCursor_beside i s s' err :
  SaveMQPublishedCursor i s = (s', err) ->
  beside (st_db s) (st_db s') /\ snapshots_tbl (st_db s') = snapshots_tbl (st_db s).
Proof.
  intros He. destruct (exec_db_cases _ _ _ _ He) as [_ [[-> _]|[now Hq]]]; [done|].
  injection Hq as <-. split; [|done]. split; try done. cbn. by rewrite lookup_insert_ne.
Qed.

Lemma publish_step_beside last (p p' : EventPublisher bytes log chan) err :
  publish_step last p = (p', err) ->
  beside (st_db (ep_store p)) (st_db (ep_store p')) /\
  snapshots_tbl (st_db (ep_store p')) = snapshots_tbl (st_db (ep_store p)).
Proof.
  unfold publish_step. destruct (read_batch _ _ _ _) as [batch|e]; [|by intros [= <- _]].
  unfold ep_now. cbn [ep_mq ep_store]. destruct (PublishBatch _ _) as [mq [e|]]; [by intros [= <- _]|].
  cbn [ep_set_mq ep_store]. destruct (SaveMQPublishedCursor _ _) as [s [e|]] eqn:Hs;
    apply SaveMQPublishedCursor_beside in Hs; [by intros [= <- _]|].
  intros [= <- _]. match goal with |- context [ep_recordBatch ?x ?t ?d ?p0] =>
    destruct (ep_recordBatch_frame x t d p0) as (_ & -> & _) end. exact Hs.
Qed.

Lemma ep_drain_beside (p p' : EventPublisher bytes log chan) err :
  ep_drain p = (p', err) ->
  beside (st_db (ep_store p)) (st_db (ep_store p')) /\
  snapshots_tbl (st_db (ep_store p')) = snapshots_tbl (st_db (ep_store p)).
Proof.
  unfold ep_drain. destruct (LastIndex _) as [last|e]; [|by intros [= <- _]].
  generalize (Z.to_nat (last - ep_cursor p)). intros fuel. revert p.
  induction fuel as [|fuel IH]; intros p; cbn [publish_loop]; (destruct (Z.ltb _ _); [|by intros [= <- _]]).
  { by intros [= <- _]. }
  destruct (publish_step last p) as [p1 [e|]] eqn:Hs; apply publish_step_beside in Hs as [B1 S1]; [by intros [= <- _]|].
  intros Hl. destruct (IH _ Hl) as [B2 S2]. split; [by etrans|congruence].
Qed.

(** ** The projector *)

(** Statements on rows leave the positions and the snapshots alone. *)
Definition row_stmt (stmt : Time -> db -> option db) : Prop :=
  forall now d d', stmt now d = Some d' -> cursors d' = cursors d /\ snapshots_tbl d' = snapshots_tbl d.

Lemma row_exec stmt s s' err :
  row_stmt stmt -> exec_tx stmt s = (s', err) -> err = None -> forall d, st_tx s = Some d ->
  exists d', st_tx s' = Some d' /\ cursors d' = cursors d /\ snapshots_tbl d' = snapshots_tbl d.
Proof.
  intros Hr He -> d Hd. destruct (exec_tx_cases _ _ _ _ He) as [_ Hok].
  destruct (Hok eq_refl) as (v & now & d' & Hv & Hs & Ht). rewrite Hd in Hv. injection Hv as <-.
  exists d'. split; [done|]. by eapply Hr.
Qed.

Definition keeps_positions s s' : Prop :=
  forall d, st_tx s = Some d ->
  exists d', st_tx s' = Some d' /\ cursors d' = cursors d /\ snapshots_tbl d' = snapshots_tbl d.

Lemma decoded_rows {A} (x : option A) f s s' :
  (forall y s s', f y s = (s', None) -> keeps_positions s s') -> decoded x f s = (s', None) -> keeps_positions s s'.
Proof.
  intros Hf. unfold decoded, tx_call. destruct x as [x|]; [|done].
  destruct (f x s) as [s1 [e|]] eqn:Hx; [done|]. intros [= <-]. by eapply Hf.
Qed.

Lemma applyEvent_rows ev s s' : applyEvent ev s = (s', None) -> keeps_positions s s'.
Proof.
  unfold applyEvent.
  repeat match goal with |- context [if ?b then _ else _] => destruct b end;
    try (intros [= <-] d Hd; by exists d); apply decoded_rows; intros y s1 s2; intros He d Hd;
    unfold project_holding in He; repeat match type of He with context [if ?b then _ else _] => destruct b end;
    (eapply (row_exec _ s1 s2 None); [|exact He|done|exact Hd]);
    intros ? ? ? Hs; by query_cases Hs.
Qed.

Lemma applied_positions evs d d' : applied evs d d' -> cursors d' = cursors d /\ snapshots_tbl d' = snapshots_tbl d.
Proof.
  induction 1 as [d|ev evs d d1 d2 (s & s' & Hs & He & Hs') _ [IHc IHs]]; [done|].
  destruct (applyEvent_rows _ _ _ He d Hs) as (d1' & Hd1 & C1 & S1). rewrite Hs' in Hd1. injection Hd1 as <-.
  split; congruence.
Qed.

Lemma same_position_with_cursor i d d' :
  cursors d' = cursors d /\ snapshots_tbl d' = snapshots_tbl d -> same_position_and_snapshots d (with_cursor i d').
Proof. intros [Hc Hs]. split; [|done]. cbn. rewrite lookup_insert_ne by done. by rewrite Hc. Qed.

Lemma same_position_trans d1 d2 d3 :
  same_position_and_snapshots d1 d2 -> same_position_and_snapshots d2 d3 -> same_position_and_snapshots d1 d3.
Proof. intros [H1 H2] [H3 H4]. split; congruence. Qed.

Lemma project_step_positions last (p p' : DBProjector bytes log) err :
  project_step last p = (p', err) -> same_position_and_snapshots (st_db (dp_store p)) (st_db (dp_store p')).
Proof.
  unfold project_step. destruct (read_envelopes _ _ _) as [envs|e]; [|by intros [= <- _]].
  unfold dp_now. cbn [dp_store]. destruct (applyBatch _ envs (dp_store p)) as [s err0] eqn:Hb.
  assert (Hs : same_position_and_snapshots (st_db (dp_store p)) (st_db s)).
  { destruct (applyBatch_ok _ _ _ _ _ Hb) as [_ [[-> _]|[_ (d & Ha & ->)]]]; [done|].
    by apply same_position_with_cursor, (applied_positions (concat (env_Events <$> envs))). }
  destruct err0; by intros [= <- _].
Qed.

Lemma dp_drain_positions (p p' : DBProjector bytes log) err :
  dp_drain p = (p', err) -> same_position_and_snapshots (st_db (dp_store p)) (st_db (dp_store p')).
Proof.
  unfold dp_drain. destruct (LastIndex _) as [last|e]; [|by intros [= <- _]].
  generalize (Z.to_nat (last - dp_cursor p)). intros fuel. revert p.
  induction fuel as [|fuel IH]; intros p; cbn [project_loop]; (destruct (Z.ltb _ _); [|by intros [= <- _]]).
  { by intros [= <- _]. }
  destruct (project_step last p) as [p1 [e|]] eqn:Hs; apply project_step_positions in Hs; [by intros [= <- _]|].
  intros Hl. eapply same_position_trans; [exact Hs|]. by apply IH.
Qed.
End frames.
