(* ===== verification/Recovery.v ===== *)
(** * Start-up, recovery, snapshots and log cleanup ([internal/core/engine.go])

    [NewEngine] loads the recovery watermark and the duplicate windows from the
    logs; [Run] finds the last trade id, replays the input WAL over the latest
    snapshot, trims the logs, and then serves deliveries. The snapshot and cursor
    stores (a database) are arguments: each operation takes their answer. *)

From S2P Require Import Prelude Domain Slices OrderBook Ledger Events Matching Validation Orders Transfer Admin Dedup Wal Engine.

Section recovery.
Context `{!Clock} {bytes log : Type} `{!Codec bytes, !Proto bytes, !Twal bytes log}.
Abbreviation engine := (Engine bytes log).
Implicit Types (e : engine).

(** ** Loading what the logs say *)

Definition set_applied e (i : Z) : engine :=
  set_core e (mkCore (state (core e)) (inputSeq (core e)) i (lastTradeID (core e)) (ticks (core e))).

Definition loadOutputWatermark e : engine * option run_error :=
  match LastIndex (output e) with
  | inr err => (e, Some (ErrWal err))
  | inl last =>
      if Z.eqb last 0 then (set_applied e 0, None)
      else
        match Read (output e) last with
        | inr err => (e, Some (ErrWal err))
        | inl dat =>
            match Unmarshal_OutputEnvelope dat with
            | None => (e, Some (ErrUnmarshal last))
            | Some env => (set_applied e (env_InputSeq env), None)
            end
        end
  end.

(** The id a request of each kind is recorded under, or nothing for other
    patterns; [None] when its payload does not decode. *)
Definition request_id (pat : string) (dat : bytes) : option (option Z) :=
  if String.eqb pat PatternOrderCreated then Some ∘ o_Id <$> Unmarshal_Order dat
  else if String.eqb pat PatternAccountCreated then Some ∘ acc_Id <$> Unmarshal_Account dat
  else if String.eqb pat PatternTransferCreated then Some ∘ tf_Id <$> Unmarshal_Transfer dat
  else if String.eqb pat PatternStockList then Some ∘ st_Id <$> Unmarshal_Stock dat
  else if String.eqb pat PatternAdminBalanceAdjust then Some ∘ ba_Id <$> Unmarshal_BalanceAdjust dat
  else if String.eqb pat PatternAdminStockBalanceAdjust then Some ∘ sba_Id <$> Unmarshal_StockBalanceAdjust dat
  else Some None.

(** [n] records from index [i]. *)
Fixpoint loadDedup_from (n : nat) (i : Z) e : outcome (engine * option run_error) :=
  match n with
  | O => Done (e, None)
  | S n =>
      match Read (input e) i with
      | inr err => Done (e, Some (ErrWal err))
      | inl dat =>
          match Unmarshal_envelope dat with
          | None => Done (e, Some (ErrUnmarshal i))
          | Some (pat, dat) =>
              match request_id pat dat with
              | None => Done (e, Some (ErrUnmarshal i))
              | Some None => loadDedup_from n (i ⊕ 1) e
              | Some (Some id) =>
                  d <~ dedup_add (dups e) pat id;
                  loadDedup_from n (i ⊕ 1) (set_dups e d)
              end
          end
      end
  end.

(** The first record to read: with last 10 and window 3, record 8. *)
Definition dedup_start (w last : Z) : Z := if Z.gtb last (u64 w) then last ⊖ u64 w ⊕ 1 else 1.

Definition loadDedup e : outcome (engine * option run_error) :=
  match LastIndex (input e) with
  | inr err => Done (e, Some (ErrWal err))
  | inl last =>
      if Z.eqb last 0 then Done (e, None)
      else
        let start := dedup_start (window (dups e)) last in
        loadDedup_from (Z.to_nat (last - start + 1)) start e
  end.

Definition NewEngine (inp out : log) : outcome (engine + run_error) :=
  let e := mkEngine (mkCore NewState 0 0 0 0) inp out (newDedup dedupWindow) None false in
  match loadOutputWatermark e with
  | (_, Some err) => Done (inr err)
  | (e, None) =>
      '(e, err) <~ loadDedup e;
      Done (match err with Some err => inr err | None => inl e end)
  end.

(** ** Trade ids *)

(** The last positive trade id among the events, from the back. *)
Fixpoint last_trade_rev (evs : list (OutputEvent bytes)) : option (option Z) :=
  match evs with
  | [] => Some None
  | ev :: evs =>
      if negb (String.eqb (oev_Pattern ev) PatternTradeExecuted) then last_trade_rev evs
      else
        match Unmarshal_Trade (oev_Data ev) with
        | None => None
        | Some trade => if Z.gtb (tr_Id trade) 0 then Some (Some (tr_Id trade)) else last_trade_rev evs
        end
  end.

(** The search from record [i] back, over [n] records. *)
Fixpoint find_trade (n : nat) (i : Z) (w : log) : option Z + run_error :=
  match n with
  | O => inl None
  | S n =>
      match Read w i with
      | inr err => inr (ErrWal err)
      | inl raw =>
          match Unmarshal_OutputEnvelope raw with
          | None => inr (ErrUnmarshal i)
          | Some env =>
              match last_trade_rev (rev (env_Events env)) with
              | None => inr (ErrUnmarshal i)
              | Some (Some id) => inl (Some id)
              | Some None => find_trade n (i ⊖ 1) w
              end
          end
      end
  end.

(** [for i := last; i >= first && i > 0; i--] runs this often. *)
Definition search_length (first last : Z) : nat := Z.to_nat (last - Z.max first 1 + 1).

(** [legacy] is the answer of [LastTradeID], absent when there is no store. *)
Definition initializeTradeID (legacy : option (option Z)) e : engine * option run_error :=
  match LastIndex (output e), FirstIndex (output e) with
  | inr err, _ | inl _, inr err => (e, Some (ErrWal err))
  | inl last, inl first =>
      match find_trade (search_length first last) last (output e) with
      | inr err => (e, Some err)
      | inl (Some id) => (set_core e (set_lastTradeID (core e) id), None)
      | inl None =>
          match legacy with
          | None | Some None => (e, Some ErrTradeIDStore)
          | Some (Some id) =>
              if Z.ltb id 0 then (e, Some ErrTradeIDStore)
              else (set_core e (set_lastTradeID (core e) id), None)
          end
      end
  end.

(** ** Replay *)

(** One record: the same validation and the same effects as when it arrived. *)
Definition replay_order (order : Order) e : outcome (engine * option run_error) :=
  match validateOrder order (state (core e)) with
  | (s, Some r) => Done (appendReject order r (set_ledger e s))
  | (s, None) => route order (set_ledger e s)
  end.

Definition no_error (m : outcome engine) : outcome (engine * option run_error) := e <~ m; Done (e, None).

Definition replay_record (i : Z) (pat : string) (dat : bytes) e : outcome (engine * option run_error) :=
  let fail := Done (e, Some (ErrUnmarshal i)) in
  if String.eqb pat PatternOrderCreated then
    match Unmarshal_Order dat with None => fail | Some order => replay_order order (set_seq e i) end
  else if String.eqb pat PatternAccountCreated then
    match Unmarshal_Account dat with None => fail | Some acc => no_error (activateAccount acc (set_seq e i)) end
  else if String.eqb pat PatternTransferCreated then
    match Unmarshal_Transfer dat with None => fail | Some transfer => Done (applyTransfer transfer (set_seq e i)) end
  else if String.eqb pat PatternStockList then
    match Unmarshal_Stock dat with
    | None => fail
    | Some stock => no_error (setStockStatus stock LISTED PatternStockListed (set_seq e i))
    end
  else if String.eqb pat PatternAdminBalanceAdjust then
    match Unmarshal_BalanceAdjust dat with
    | None => fail
    | Some req => no_error (applyBalanceAdjust req (set_seq e i))
    end
  else if String.eqb pat PatternAdminStockBalanceAdjust then
    match Unmarshal_StockBalanceAdjust dat with
    | None => fail
    | Some req => no_error (applyStockBalanceAdjust req (set_seq e i))
    end
  else Done (e, None).

Fixpoint replay_from (n : nat) (i : Z) e : outcome (engine * option run_error) :=
  match n with
  | O => Done (e, None)
  | S n =>
      match Read (input e) i with
      | inr err => Done (e, Some (ErrWal err))
      | inl dat =>
          match Unmarshal_envelope dat with
          | None => Done (e, Some (ErrUnmarshal i))
          | Some (pat, dat) =>
              '(e, err) <~ replay_record i pat dat e;
              match err with
              | Some err => Done (e, Some err)
              | None => replay_from n (i ⊕ 1) e
              end
          end
      end
  end.

(** The answer of [LatestSnapshot]: no store, an error, none found, or a snapshot. *)
Inductive latest :=
  | NoStore
  | StoreFailed
  | NotFound
  | Found (snap : bytes) (index : Z).

Definition restore_latest (snap : latest) e : engine * (Z + run_error) :=
  match snap with
  | NoStore | NotFound => (e, inl 0)
  | StoreFailed => (e, inr ErrStore)
  | Found dat idx =>
      match Restore (state (core e)) dat with
      | (_, Some err) => (e, inr (ErrLedger err))
      | (s, None) => (set_seq (set_ledger e s) idx, inl idx)
      end
  end.

Definition Replay (snap : latest) e : outcome (engine * option run_error) :=
  match restore_latest snap e with
  | (e, inr err) => Done (e, Some err)
  | (e, inl lastSnapshotIdx) =>
      match LastIndex (input e) with
      | inr err => Done (e, Some (ErrWal err))
      | inl lastIdx => replay_from (Z.to_nat (lastIdx - lastSnapshotIdx)) (lastSnapshotIdx ⊕ 1) e
      end
  end.

(** ** Snapshots *)

(** The serialised state is handed to the saver, unless one is still waiting. *)
Definition snapshot e : outcome (engine * option run_error) :=
  dat <~ Serialize (state (core e));
  match dat with
  | inr err => Done (e, Some (ErrLedger err))
  | inl dat =>
      let snap := mkSnapshotData dat (inputSeq (core e)) in
      Done (mkEngine (core e) (input e) (output e) (dups e)
              (match snapshots e with None => Some snap | Some waiting => Some waiting end)
              (outputSignal e), None)
  end.

(** ** Cleanup *)

Definition input_target (floor : Z) : Z :=
  if Z.gtb (floor ⊕ 1) dedupWindow then floor ⊖ dedupWindow ⊕ 1 else 1.

(** An index outside the log is not an error. *)
Definition truncate_to (w : log) (target : Z) : log * option run_error :=
  match TruncateFront w target with
  | (w, None) => (w, None)
  | (w, Some err) => (w, if decide (err = ErrOutOfRange) then None else Some (ErrWal err))
  end.

Definition cleanupInputWAL (floor : Z) e : engine * option run_error :=
  let '(w, err) := truncate_to (input e) (input_target floor) in (set_input e w, err).

(** [cursors]: no store, an error, or the published and the applied position. *)
Definition cleanupOutputWAL (cursors : option (option (Z * Z))) e : engine * option run_error :=
  match cursors with
  | None => (e, None)
  | Some None => (e, Some ErrStore)
  | Some (Some (mqCursor, dbCursor)) =>
      let floor := Z.min mqCursor dbCursor in
      if Z.eqb floor 0 then (e, None)
      else let '(w, err) := truncate_to (output e) floor in (set_output e w, err)
  end.

Definition cleanupWAL (floor : Z) (cursors : option (option (Z * Z))) e : engine :=
  fst (cleanupOutputWAL cursors (fst (cleanupInputWAL floor e))).

(** One round of [runSnapshotSaver]: the waiting snapshot is taken from the
    channel and saved; [saved] is the answer of [SaveSnapshotAndPrune]. *)
Definition saver_step (saved : option Z) (cursors : option (option (Z * Z))) e : engine :=
  match snapshots e with
  | None => e
  | Some _ =>
      let e := mkEngine (core e) (input e) (output e) (dups e) None (outputSignal e) in
      match saved with
      | None => e
      | Some floor => cleanupWAL floor cursors e
      end
  end.

(** ** [Run] *)

(** The answers of the stores during start-up. *)
Record boot_answers := {
  ba_legacy : option (option Z);
  ba_latest : latest;
  ba_prune : option (option (option Z));
  ba_cursors : option (option (Z * Z))
}.

(** Start-up, before the first delivery. [ba_prune]: no store, an error, no
    snapshot, or the oldest index kept. *)
Definition boot (a : boot_answers) e : outcome (engine * option run_error) :=
  match initializeTradeID (ba_legacy a) e with
  | (e, Some err) => Done (e, Some err)
  | (e, None) =>
      '(e, err) <~ Replay (ba_latest a) e;
      match err with
      | Some err => Done (e, Some err)
      | None =>
          let e := match ba_prune a with
                   | Some (Some (Some floor)) => fst (cleanupInputWAL floor e)
                   | _ => e
                   end in
          Done (fst (cleanupOutputWAL (ba_cursors a) e), None)
      end
  end.

(** What wakes the loop of [Run] and the saver. *)
Inductive run_event :=
  | Deliver (payload : bytes)
  | SnapshotTick
  | Saver (saved : option Z) (cursors : option (option (Z * Z))).

Inductive run_result :=
  | Running (e : engine)
  | Stopped (e : engine) (err : run_error).

Definition run_step (ev : run_event) e : outcome run_result :=
  match ev with
  | Deliver payload =>
      '(e, r) <~ handle payload e;
      Done (match r with Failed err => Stopped e err | _ => Running e end)
  | SnapshotTick => '(e, _) <~ snapshot e; Done (Running e)
  | Saver saved cursors => Done (Running (saver_step saved cursors e))
  end.
End recovery.
