(* ===== verification/TradeIds.v ===== *)
(** * Trade ids

    Every trade that is processed live takes the next trade id: the ids of the
    trades among a request's events are consecutive, from the one after the
    engine's counter up to the counter it leaves. *)

From S2P Require Import Prelude Domain Slices OrderBook Ledger Events Matching Validation Orders Transfer Admin MatchLoop.

(** The trades among the events, in order. *)
Definition trades_of (evs : list outEvent) : list Trade :=
  omap (fun ev => match data ev with EvTrade t => Some t | _ => None end) evs.

Lemma trades_of_app evs1 evs2 : trades_of (evs1 ++ evs2) = trades_of evs1 ++ trades_of evs2.
Proof. apply omap_app. Qed.

Lemma trades_of_none evs : (forall ev t, ev ∈ evs -> data ev <> EvTrade t) -> trades_of evs = [].
Proof.
  unfold trades_of. induction evs as [|ev evs IH]; intros Hn; [done|]. csimpl.
  assert (Hev : forall t, data ev <> EvTrade t) by (intros t; apply Hn; left).
  destruct (data ev); try (apply IH; set_solver). by destruct (Hev t).
Qed.

(** Only trades carry the pattern of trades. *)
Definition tagged (ev : outEvent) : Prop :=
  match data ev with
  | EvTrade _ => pattern ev = PatternTradeExecuted
  | _ => pattern ev <> PatternTradeExecuted
  end.

(** The trades of [evs] use up the ids between the counters of [c] and [c']. *)
Record issued (c c' : Core) (evs : list outEvent) : Prop := {
  is_tagged : Forall tagged evs;
  is_ids : live c = true -> lastTradeID c <= lastTradeID c' /\
    tr_Id <$> trades_of evs = seqZ (lastTradeID c + 1) (lastTradeID c' - lastTradeID c)
}.

(** Events that are no trades. *)
Definition plain (evs : list outEvent) : Prop :=
  Forall (fun ev => tagged ev /\ forall t, data ev <> EvTrade t) evs.

Section issued.
Context `{!Clock}.
Implicit Types (l : locals) (c : Core) (order : Order) (evs : list outEvent).

Lemma issued_plain c c' evs : plain evs -> lastTradeID c' = lastTradeID c -> issued c c' evs.
Proof.
  intros Hp Hl. split.
  - eapply Forall_impl; [exact Hp|]. by intros ev [? _].
  - intros _. rewrite Hl, Z.sub_diag. split; [lia|]. rewrite trades_of_none; [done|].
    intros ev t Hin. by apply (proj1 (Forall_forall _ _) Hp ev Hin).
Qed.

Lemma issued_app c1 c2 c3 evs1 evs2 :
  issued c1 c2 evs1 -> live c2 = live c1 -> issued c2 c3 evs2 -> issued c1 c3 (evs1 ++ evs2).
Proof.
  intros [T1 I1] Hl [T2 I2]. split; [by apply Forall_app|]. intros Hlive.
  destruct (I1 Hlive) as [L1 E1]. rewrite <- Hl in Hlive. destruct (I2 Hlive) as [L2 E2].
  split; [lia|]. rewrite trades_of_app, fmap_app, E1, E2.
  replace (lastTradeID c3 - lastTradeID c1) with
    ((lastTradeID c2 - lastTradeID c1) + (lastTradeID c3 - lastTradeID c2)) by lia.
  rewrite seqZ_app by lia. do 2 f_equal. lia.
Qed.

Lemma issued_ext c1 c1' c2 c2' evs :
  live c1 = live c2 -> lastTradeID c1 = lastTradeID c2 -> lastTradeID c1' = lastTradeID c2' ->
  issued c1 c1' evs -> issued c2 c2' evs.
Proof. intros Hl H1 H2 [T I]. split; [done|]. by rewrite <- Hl, <- H1, <- H2. Qed.

(** One trade. *)
Lemma trade_issued order o p q c c1 tid c2 t c3 m :
  takeTradeID c = (c1, inl tid) -> trade_event order o tid p q c1 = (c2, t) -> maker_event o q c2 = (c3, m) ->
  issued c c3 [t; m] /\ live c3 = live c.
Proof.
  unfold takeTradeID, nextTradeID, trade_event, maker_event, time_now. fold (live c).
  destruct (live c) eqn:Hlive; [destruct (Z.eqb _ MaxInt64); [done|]|];
    intros [= <- <-] [= <- <-]; destruct (Z.eqb _ (o_Quantity o)); intros [= <- <-]; (split; [|exact Hlive]);
    (split; [by repeat constructor|]); rewrite Hlive; intros Hl; try done; cbn [lastTradeID set_lastTradeID];
    (split; [lia|]); replace (lastTradeID c + 1 - lastTradeID c) with 1 by lia; reflexivity.
Qed.

Lemma after_fill_issued c0 l side p o c q l' :
  issued c0 c (l_events l) -> live c = live c0 ->
  after_fill l side p o c q = Done (Continue l') -> issued c0 (l_core l') (l_events l') /\ live (l_core l') = live c0.
Proof.
  intros Hi Hl. unfold after_fill. cbv zeta. destruct (if is_sell _ then _ else _) as [buyer seller].
  destruct (settle _ _ _ _ _ _) as [s|]; [|done]. cbn [obind].
  destruct (takeTradeID (set_state c s)) as [c1 [tid|err]] eqn:Ht; [|done].
  destruct (trade_event _ o tid p q c1) as [c2 t] eqn:E1. destruct (maker_event o q c2) as [c3 m] eqn:E2.
  intros [= <-]. cbn [l_core l_events]. destruct (trade_issued _ _ _ _ _ _ _ _ _ _ _ Ht E1 E2) as [Hi2 Hl2].
  split; [|by rewrite Hl2]. eapply issued_app; [exact Hi|exact Hl|]. destruct Hi2 as [T I]. by split.
Qed.

Lemma after_fill_no_break l side p o c q l' : after_fill l side p o c q <> Done (Break l').
Proof.
  unfold after_fill. cbv zeta. destruct (if is_sell _ then _ else _) as [buyer seller].
  destruct (settle _ _ _ _ _ _) as [s|]; [|done]. cbn [obind].
  destruct (takeTradeID _) as [c1 [tid|err]]; [|done].
  destruct (trade_event _ o tid p q c1) as [c2 t]. by destruct (maker_event o q c2) as [c3 m].
Qed.

Lemma match_step_issued c0 l r l' :
  issued c0 (l_core l) (l_events l) -> live (l_core l) = live c0 ->
  match_step l = Done r -> (r = Continue l' \/ r = Break l') ->
  issued c0 (l_core l') (l_events l') /\ live (l_core l') = live c0.
Proof.
  intros Hi Hl. unfold match_step. cbv zeta.
  assert (Hbreak : forall r, Done (Break l) = Done r -> r = Continue l' \/ r = Break l' ->
    issued c0 (l_core l') (l_events l') /\ live (l_core l') = live c0) by (intros ? [= <-] [?|[= <-]]; done).
  destruct (best_counter _ _) as [[best|] side]; [|apply Hbreak].
  destruct (price_rejected _ _); [apply Hbreak|]. destruct (Front _ _ _) as [o|]; [|apply Hbreak].
  destruct (Fill _ _ _) as [[ob filled]|]; [|done]. cbn [obind]. destruct (Z.eqb filled 0).
  - intros [= <-] [?|[= <-]]; [done|]. cbn [l_core l_events]. split; [|done]. by destruct Hi as [T I].
  - intros Ha [->| ->].
    + revert Ha. apply after_fill_issued; [by destruct Hi as [T I]|done].
    + by apply after_fill_no_break in Ha.
Qed.

Lemma match_loop_issued c0 fuel l l' :
  issued c0 (l_core l) (l_events l) -> live (l_core l) = live c0 ->
  match_loop fuel l = Done (l', None) -> issued c0 (l_core l') (l_events l') /\ live (l_core l') = live c0.
Proof.
  revert l. induction fuel as [|fuel IH]; intros l Hi Hl; cbn [match_loop]; destruct (Z.ltb _ _).
  - done.
  - by intros [= <-].
  - destruct (match_step l) as [r|] eqn:Hs; [|done]. cbn [obind].
    pose proof (fun l' => match_step_issued c0 l r l' Hi Hl Hs) as Hr. destruct r as [k|k|k e]; [| |done].
    + intros [= <-]. auto.
    + apply IH; apply Hr; auto.
  - by intros [= <-].
Qed.

Lemma plain_app evs1 evs2 : plain evs1 -> plain evs2 -> plain (evs1 ++ evs2).
Proof. apply Forall_app_2. Qed.

Lemma account_events_plain sid s ids : plain (account_events sid s ids).
Proof.
  unfold account_events, plain. induction ids as [|i ids IH]; csimpl; [constructor|]. apply Forall_app. split; [|exact IH].
  apply Forall_app. split; repeat case_match; by repeat constructor.
Qed.

Lemma finish_match_issued c0 F0 l c evs :
  issued c0 (l_core l) (l_events l) -> live (l_core l) = live c0 ->
  finish_match F0 l = (c, evs) -> issued c0 c evs.
Proof.
  intros Hi Hl. unfold finish_match. cbv zeta.
  assert (Hp : l_events (place_remainder l) = l_events l /\
    lastTradeID (l_core (place_remainder l)) = lastTradeID (l_core l)).
  { unfold place_remainder. repeat case_match; done. }
  destruct Hp as [-> Hid]. destruct (update_stock_price _ _) as [s upd].
  destruct (taker_event _ _) as [c1 t] eqn:Ht. intros [= <- <-].
  apply (issued_app c0 (l_core l)); [done|done|]. apply issued_plain.
  - apply (plain_app [t]); [|apply plain_app; [|apply plain_app; [apply account_events_plain|]]].
    + revert Ht. unfold taker_event, orderStatusPattern, time_now. repeat case_match; intros; simplify_eq/=; by repeat constructor.
    + unfold book_events. case_match; by repeat constructor.
    + unfold stock_events. case_match; by repeat constructor.
  - rewrite <- Hid. revert Ht. unfold taker_event, time_now. case_match; by intros [= <- <-].
Qed.

Lemma matchEvents_issued order c c' evs : matchEvents order c = Done (c', inl evs) -> issued c c' evs.
Proof.
  unfold matchEvents. cbv zeta. destruct (match_loop _ _) as [[l [err|]]|] eqn:Hl; [done| |done]. cbn [obind].
  destruct (finish_match _ l) as [c1 evs1] eqn:Hf. intros [= -> ->].
  destruct (match_loop_issued c _ _ _ (issued_plain c (l_core (start_match order c)) [] (Forall_nil_2 _) eq_refl) eq_refl Hl)
    as [Hi Hlv].
  by eapply finish_match_issued.
Qed.

Lemma merge_issued c c' evs level sid : issued c c' evs -> issued c c' (mergeOrderBookLevel evs level sid).
Proof.
  intros [T I]. assert (Hm : Forall tagged (mergeOrderBookLevel evs level sid) /\
    trades_of (mergeOrderBookLevel evs level sid) = trades_of evs).
  { clear I. induction T as [|ev evs Hev T [IH1 IH2]]; [split; [by repeat constructor|done]|]. cbn [mergeOrderBookLevel].
    assert (Hskip : Forall tagged (ev :: mergeOrderBookLevel evs level sid) /\
      trades_of (ev :: mergeOrderBookLevel evs level sid) = trades_of (ev :: evs)).
    { split; [by constructor|]. unfold trades_of in *. csimpl. by rewrite IH2. }
    destruct ev as [pat d]. cbn [data] in *. destruct d; try exact Hskip.
    case_match; [|exact Hskip]. split; [by constructor|done]. }
  destruct Hm as [Ht He]. split; [done|]. by rewrite He.
Qed.

Lemma editEvents_issued order c c' evs : editEvents order c = Done (c', inl evs) -> issued c c' evs.
Proof.
  unfold editEvents. cbv zeta. destruct (removeAndRelease _ _) as [[s ok]|]; [|done]. cbn [obind].
  destruct ok; [|done]. cbn [negb]. destruct (matchEvents _ _) as [[c1 [evs1|err]]|] eqn:Hm; [|done|done].
  cbn [obind]. intros [= <- <-]. apply matchEvents_issued in Hm.
  apply (issued_app c (set_state c s) _ [_]); [by apply issued_plain; [repeat constructor|]|done|].
  by apply merge_issued.
Qed.

Lemma cancelEvents_issued order c c' evs : cancelEvents order c = Done (c', inl evs) -> issued c c' evs.
Proof.
  unfold cancelEvents. cbv zeta. destruct (Get _ _) as [target|]; [|done].
  destruct (removeAndRelease _ _) as [[s ok]|]; [|done]. cbn [obind]. destruct ok; [|done]. cbn [negb].
  intros [= <- <-]. apply issued_plain; [|done]. apply (plain_app [_; _; _]); [by repeat constructor|].
  repeat case_match; by repeat constructor.
Qed.

(** A request that can fail issues its ids when it succeeds. *)
Definition numbered (f : Core -> outcome (Core * (list outEvent + engine_error))) : Prop :=
  forall c c' evs, f c = Done (c', inl evs) -> issued c c' evs.

(** The requests that trade nothing. *)
Definition tradeless (f : Core -> Core * list outEvent) : Prop :=
  forall c, plain (snd (f c)) /\ lastTradeID (fst (f c)) = lastTradeID c.

Lemma transferEvents_tradeless t : tradeless (transferEvents t).
Proof. intros c. unfold transferEvents, time_now. repeat case_match; simplify_eq/=; split; try done; by repeat constructor. Qed.

Lemma balanceAdjustEvents_tradeless req : tradeless (balanceAdjustEvents req).
Proof.
  intros c. unfold balanceAdjustEvents, adminRequestRejected, adminRequestCompleted, time_now.
  repeat case_match; simplify_eq/=; split; try done; by repeat constructor.
Qed.

Lemma stockBalanceAdjustEvents_tradeless req : tradeless (stockBalanceAdjustEvents req).
Proof.
  intros c. unfold stockBalanceAdjustEvents, adminRequestRejected, adminRequestCompleted, time_now.
  repeat case_match; simplify_eq/=; split; try done; by repeat constructor.
Qed.

Lemma activateAccountEvents_tradeless acc : tradeless (activateAccountEvents acc).
Proof. intros c. split; [by repeat constructor|done]. Qed.

Lemma setStockStatusEvents_tradeless stock st p :
  p <> PatternTradeExecuted -> tradeless (setStockStatusEvents stock st p).
Proof. intros Hp c. split; [by repeat constructor|done]. Qed.
End issued.
