(* ===== verification/Determinism.v ===== *)
(** * The ledger does not depend on clocks, trade ids or sequence numbers

    A request changes the ledger in the same way whether it is processed live or
    replayed: the two runs differ only in the times and trade ids of the events,
    which a replay does not emit. *)

From S2P Require Import Prelude Domain Slices OrderBook Ledger Events Matching Validation Orders Transfer Admin MatchLoop.

(** Nothing but the state and the clock changes in a replay. *)
Definition same_position (c c' : Core) : Prop :=
  inputSeq c' = inputSeq c /\ outputAppliedSeq c' = outputAppliedSeq c /\ lastTradeID c' = lastTradeID c.

(** The sequence numbers do not change, trade ids may. *)
Definition same_seq (c c' : Core) : Prop :=
  inputSeq c' = inputSeq c /\ outputAppliedSeq c' = outputAppliedSeq c.

#[export] Instance same_seq_equiv : Equivalence same_seq.
Proof.
  unfold same_seq. split; [done| |].
  - intros ?? (-> & ->). done.
  - intros ??? (-> & ->) (-> & ->). done.
Qed.

#[export] Instance same_position_equiv : Equivalence same_position.
Proof.
  unfold same_position. split; [done| |].
  - intros ?? (-> & -> & ->). done.
  - intros ??? (-> & -> & ->) (-> & -> & ->). done.
Qed.

Section determinism.
Context `{!Clock}.
Implicit Types (l : locals) (c : Core) (order : Order).

(** Equal up to the clock, the ids and the text of the events. *)
Record similar l1 l2 : Prop := {
  sm_state : state (l_core l1) = state (l_core l2);
  sm_order : l_order l1 = l_order l2;
  sm_cash : l_filledCash l1 = l_filledCash l2;
  sm_price : l_lastTradePrice l1 = l_lastTradePrice l2;
  sm_accounts : l_accountIDs l1 = l_accountIDs l2;
  sm_levels : l_levels l1 = l_levels l2
}.

Definition similar_step (c1 c2 : Core) (r1 r2 : loop_step) : Prop :=
  match r1 with
  | Break l1 => exists l2, r2 = Break l2 /\ similar l1 l2 /\ same_seq c1 (l_core l1) /\ same_position c2 (l_core l2)
  | Continue l1 => exists l2, r2 = Continue l2 /\ similar l1 l2 /\ same_seq c1 (l_core l1) /\ same_position c2 (l_core l2)
  | Fail _ _ => True
  end.

Lemma live_position c c' : same_position c c' -> live c' = live c.
Proof. intros (Hi & Ho & _). unfold live. by rewrite Hi, Ho. Qed.

Lemma takeTradeID_replay c : live c = false -> takeTradeID c = (c, inl 0).
Proof. unfold takeTradeID. fold (live c). by intros ->. Qed.

Lemma takeTradeID_state c c' r : takeTradeID c = (c', r) -> state c' = state c /\ same_seq c c'.
Proof. unfold takeTradeID, nextTradeID. repeat case_match; by intros [= <- <-]. Qed.

Lemma events_state order o tid p q c c1 t c2 m :
  trade_event order o tid p q c = (c1, t) -> maker_event o q c1 = (c2, m) ->
  state c2 = state c /\ same_position c c2.
Proof. unfold trade_event, maker_event, time_now. intros [= <- <-]. by case_match; intros [= <- <-]. Qed.

Lemma after_fill_similar l1 l2 side p o c1 c2 q r1 :
  similar l1 l2 -> state c1 = state c2 -> same_seq (l_core l1) c1 -> same_position (l_core l2) c2 ->
  live (l_core l2) = false ->
  after_fill l1 side p o c1 q = Done r1 ->
  exists r2, after_fill l2 side p o c2 q = Done r2 /\ similar_step (l_core l1) (l_core l2) r1 r2.
Proof.
  intros [Hs Ho Hc Hp Ha Hl] Hst Hseq Hpos Hlive. unfold after_fill. cbv zeta. rewrite Ho, Hc, Ha, Hl, Hst.
  destruct (if is_sell _ then _ else _) as [buyer seller].
  destruct (settle _ _ _ _ _ (state c2)) as [s|]; [|done]. cbn [obind].
  assert (Hl2 : live (set_state c2 s) = false) by (rewrite <- Hlive; by apply live_position).
  rewrite (takeTradeID_replay _ Hl2).
  destruct (takeTradeID (set_state c1 s)) as [c1' [tid|err]] eqn:Ht.
  - apply takeTradeID_state in Ht as [Ht Hts]. cbn in Ht.
    destruct (trade_event _ o tid p q c1') as [d1 t1] eqn:E1. destruct (maker_event o q d1) as [d1' m1] eqn:E2.
    destruct (trade_event _ o 0 p q (set_state c2 s)) as [d2 t2] eqn:E3. destruct (maker_event o q d2) as [d2' m2] eqn:E4.
    destruct (events_state _ _ _ _ _ _ _ _ _ _ E1 E2) as [Hs1 (Hp1 & Hp1' & _)].
    destruct (events_state _ _ _ _ _ _ _ _ _ _ E3 E4) as [Hs2 Hp2]. cbn in Hs2.
    intros [= <-]. eexists; split; [done|]. eexists; split_and!; [done| | |].
    + split; cbn; congruence.
    + cbn. transitivity c1; [done|]. transitivity c1'; [exact Hts|by split].
    + cbn. transitivity c2; [done|]. exact Hp2.
  - intros [= <-]. destruct (trade_event _ o 0 p q (set_state c2 s)) as [d2 t2].
    destruct (maker_event o q d2) as [d2' m2]. by eexists.
Qed.

Lemma match_step_similar l1 l2 r1 :
  similar l1 l2 -> live (l_core l2) = false -> match_step l1 = Done r1 ->
  exists r2, match_step l2 = Done r2 /\ similar_step (l_core l1) (l_core l2) r1 r2.
Proof.
  intros Hsim Hlive. pose proof Hsim as [Hs Ho Hc Hp Ha Hl]. unfold match_step. cbv zeta. rewrite Hs, Ho.
  assert (Hbreak : exists r2, Done (Break l2) = Done r2 /\ similar_step (l_core l1) (l_core l2) (Break l1) r2).
  { eexists; split; [done|]. by exists l2. }
  destruct (best_counter _ _) as [[best|] side]; [|by intros [= <-]].
  destruct (price_rejected _ _); [by intros [= <-]|].
  destruct (Front _ _ _) as [o|]; [|by intros [= <-]].
  destruct (Fill _ _ _) as [[ob filled]|]; [|done]. cbn [obind].
  destruct (Z.eqb filled 0).
  - intros [= <-]. eexists; split; [done|]. eexists; split_and!; [done| |done|done].
    split; cbn; congruence.
  - apply after_fill_similar; [done|done|done|done|done].
Qed.

Lemma match_loop_similar fuel l1 l2 l1' :
  similar l1 l2 -> live (l_core l2) = false -> match_loop fuel l1 = Done (l1', None) ->
  exists l2', match_loop fuel l2 = Done (l2', None) /\ similar l1' l2' /\
    same_seq (l_core l1) (l_core l1') /\ same_position (l_core l2) (l_core l2').
Proof.
  revert l1 l2. induction fuel as [|fuel IH]; intros l1 l2 Hsim Hlive; cbn [match_loop];
    rewrite (sm_order _ _ Hsim); destruct (Z.ltb _ _).
  - done.
  - intros [= <-]. by exists l2.
  - destruct (match_step l1) as [r1|] eqn:Hs; [|done]. cbn [obind].
    destruct (match_step_similar _ _ _ Hsim Hlive Hs) as (r2 & -> & Hr). cbn [obind].
    destruct r1 as [k1|k1|k1 err]; [| |done]; destruct Hr as (k2 & -> & Hk & Hseq & Hpos).
    + intros [= <-]. eauto.
    + intros He. destruct (IH k1 k2 Hk) as (l2' & -> & Hs2 & Hq2 & Hp2); [|done|].
      { rewrite <- Hlive. by apply live_position. }
      exists l2'. split_and!; [done|done|by transitivity (l_core k1)|by transitivity (l_core k2)].
  - intros [= <-]. by exists l2.
Qed.

Lemma finish_match_similar F0 l1 l2 c1 evs1 :
  similar l1 l2 -> finish_match F0 l1 = (c1, evs1) ->
  exists c2 evs2, finish_match F0 l2 = (c2, evs2) /\ state c2 = state c1 /\ same_seq (l_core l1) c1 /\
    same_position (l_core l2) c2 /\ evs1 <> [].
Proof.
  intros [Hs Ho Hc Hp Ha Hl]. unfold finish_match. cbv zeta.
  assert (Hpl : similar (place_remainder l1) (place_remainder l2) /\
    same_seq (l_core l1) (l_core (place_remainder l1)) /\ same_position (l_core l2) (l_core (place_remainder l2))).
  { unfold place_remainder. rewrite Ho. split_and!; repeat case_match; try done; split; cbn; congruence. }
  destruct Hpl as ([Hs' Ho' Hc' Hp' Ha' Hl'] & Hseq & Hpos). rewrite Ho'.
  assert (Hr : forall s, refund_buyer F0 (place_remainder l1) s = refund_buyer F0 (place_remainder l2) s).
  { intros s. unfold refund_buyer. by rewrite Ho', Hc'. }
  assert (Hu : forall s, update_stock_price (place_remainder l1) s = update_stock_price (place_remainder l2) s).
  { intros s. unfold update_stock_price. by rewrite Ho', Hp'. }
  rewrite Hr, Hu, Hs'. destruct (update_stock_price _ _) as [s upd].
  unfold taker_event, time_now. destruct (String.eqb _ _); intros [= <- <-]; do 2 eexists;
    (split_and!; [done|done|exact Hseq|exact Hpos|]); intros Hnil; by apply app_eq_nil in Hnil as [_ ?].
Qed.

(** Matching: the replay of a request that succeeded succeeds with the same ledger. *)
Lemma matchEvents_similar order c1 c2 c1' evs1 :
  state c1 = state c2 -> live c2 = false -> matchEvents order c1 = Done (c1', inl evs1) ->
  evs1 <> [] /\ same_seq c1 c1' /\
  exists c2' evs2, matchEvents order c2 = Done (c2', inl evs2) /\ state c2' = state c1' /\ same_position c2 c2'.
Proof.
  intros Hs Hlive. unfold matchEvents. cbv zeta.
  assert (Hsim : similar (start_match order c1) (start_match order c2)).
  { split; try done. unfold start_match. cbn. by rewrite Hs. }
  assert (Hfuel : match_fuel (start_match order c1) = match_fuel (start_match order c2)).
  { unfold match_fuel. by rewrite (sm_state _ _ Hsim). }
  rewrite Hfuel. destruct (match_loop _ (start_match order c1)) as [[l1 [err|]]|] eqn:Hl; [done| |done].
  cbn [obind].
  destruct (match_loop_similar _ _ _ _ Hsim Hlive Hl) as (l2 & -> & Hsim2 & Hseq & Hpos). cbn [obind].
  destruct (finish_match (o_FilledQuantity order) l1) as [d1 ev1] eqn:Hf. intros [= -> ->].
  destruct (finish_match_similar _ _ _ _ _ Hsim2 Hf) as (c2' & evs2 & -> & Hst & Hq2 & Hp2 & Hne).
  split_and!; [done|by transitivity (l_core l1)|]. do 2 eexists. split_and!; [done|done|]. by transitivity (l_core l2).
Qed.

(** The same for a whole request: [f] is its function on the core. *)
Definition replayable (f : Core -> outcome (Core * (list outEvent + engine_error))) : Prop :=
  forall c1 c2 c1' evs1, state c1 = state c2 -> live c2 = false -> f c1 = Done (c1', inl evs1) ->
    evs1 <> [] /\ same_seq c1 c1' /\
    exists c2' evs2, f c2 = Done (c2', inl evs2) /\ state c2' = state c1' /\ same_position c2 c2'.

Lemma matchEvents_replayable order : replayable (matchEvents order).
Proof. intros c1 c2 c1' evs1. apply matchEvents_similar. Qed.

Lemma editEvents_replayable order : replayable (editEvents order).
Proof.
  intros c1 c2 c1' evs1 Hs Hlive. unfold editEvents. cbv zeta. rewrite Hs.
  set (target := default zero_Order _).
  destruct (removeAndRelease target _) as [[s ok]|]; [|done]. cbn [obind]. destruct ok; [|done]. cbn [negb].
  destruct (matchEvents (replacement_of order target) (set_state c1 s)) as [[d1 [ev1|err]]|] eqn:Hm; [|done|done].
  cbn [obind]. intros [= <- <-].
  destruct (matchEvents_similar _ (set_state c1 s) (set_state c2 s) _ _ eq_refl Hlive Hm)
    as (_ & Hseq & d2 & ev2 & -> & Hst & Hpos).
  cbn [obind]. split_and!; [done|done|]. do 2 eexists. done.
Qed.

Lemma cancelEvents_replayable order : replayable (cancelEvents order).
Proof.
  intros c1 c2 c1' evs1 Hs Hlive. unfold cancelEvents. cbv zeta. rewrite Hs.
  destruct (Get _ _) as [target|]; [|done].
  destruct (removeAndRelease target _) as [[s ok]|]; [|done]. cbn [obind]. destruct ok; [|done]. cbn [negb].
  intros [= <- <-]. split_and!; [done|done|]. do 2 eexists. done.
Qed.

(** The requests that cannot fail. *)
Definition replayable_total (f : Core -> Core * list outEvent) : Prop :=
  forall c1 c2, state c1 = state c2 ->
    snd (f c1) <> [] /\ state (fst (f c2)) = state (fst (f c1)) /\ same_position c2 (fst (f c2)) /\
    same_position c1 (fst (f c1)).

Lemma transferEvents_replayable t : replayable_total (transferEvents t).
Proof.
  intros c1 c2 Hs. unfold transferEvents, time_now. cbn [state]. rewrite Hs.
  destruct (validateTransfer t _) as [[sender recipient]|]; by cbn; rewrite ?Hs.
Qed.

Lemma balanceAdjustEvents_replayable req : replayable_total (balanceAdjustEvents req).
Proof.
  intros c1 c2 Hs. unfold balanceAdjustEvents. rewrite Hs.
  destruct (validateBalanceAdjust req _); unfold adminRequestRejected, adminRequestCompleted, time_now; by cbn.
Qed.

Lemma stockBalanceAdjustEvents_replayable req : replayable_total (stockBalanceAdjustEvents req).
Proof.
  intros c1 c2 Hs. unfold stockBalanceAdjustEvents. rewrite Hs.
  destruct (validateStockBalanceAdjust req _); unfold adminRequestRejected, adminRequestCompleted, time_now; by cbn.
Qed.

Lemma activateAccountEvents_replayable acc : replayable_total (activateAccountEvents acc).
Proof. intros c1 c2 Hs. unfold activateAccountEvents. by rewrite Hs. Qed.

Lemma setStockStatusEvents_replayable stock st p : replayable_total (setStockStatusEvents stock st p).
Proof. intros c1 c2 Hs. unfold setStockStatusEvents. by rewrite Hs. Qed.
End determinism.
