(* ===== verification/Replays.v ===== *)
(** * Recovery reproduces the state

    Every request that is logged in the input WAL has the same effect on the
    ledger when it is handled and when it is replayed, and leaves exactly one
    record in the output WAL, stamped with its input index. So a restart from the
    two logs rebuilds the ledger and writes no output twice. *)

From S2P Require Import Prelude Domain Slices OrderBook Ledger Events Matching Validation Orders Transfer Admin MatchLoop TradeIds Dedup Wal Engine Recovery Determinism.

Section replays.
Context `{!Clock} {bytes log : Type} `{!Codec bytes, !Proto bytes, !Twal bytes log}.
Abbreviation engine := (Engine bytes log).
Implicit Types (e : engine).

(** Input [i] has its output already. *)
Definition covered e (i : Z) : Prop := 0 < outputAppliedSeq (core e) /\ i <= outputAppliedSeq (core e).

(** Only the ledger and the clock changed. *)
Record quiet e e' : Prop := {
  q_input : input e' = input e;
  q_output : output e' = output e;
  q_dups : dups e' = dups e;
  q_applied : outputAppliedSeq (core e') = outputAppliedSeq (core e);
  q_lastID : lastTradeID (core e') = lastTradeID (core e)
}.

(** One output record for input [i], whose trades took the next trade ids, and
    nothing else but the ledger changed. *)
Record wrote (i : Z) e e' : Prop := {
  w_input : input e' = input e;
  w_dups : dups e' = dups e;
  w_applied : outputAppliedSeq (core e') = outputAppliedSeq (core e);
  w_seq : inputSeq (core e') = i;
  w_output : exists t evs out idx, marshal_events evs = Some out /\ issued (core (set_seq e i)) (core e') evs /\
    AppendWithIndex (output e) (fun outputSeq => Marshal_OutputEnvelope (mkOutputEnvelope i outputSeq t out)) =
      (output e', inl idx)
}.

Lemma set_seq_id e : set_seq e (inputSeq (core e)) = e.
Proof. by destruct e as [[] ????]. Qed.

Lemma covered_not_live e i : covered e i -> live (core (set_seq e i)) = false.
Proof.
  intros [H1 H2]. unfold live. cbn. destruct (Z.eqb_spec (outputAppliedSeq (core e)) 0); [lia|].
  rewrite Z.gtb_ltb. destruct (Z.ltb_spec (outputAppliedSeq (core e)) i); [lia|done].
Qed.

Lemma appendOutput_covered e evs :
  covered e (inputSeq (core e)) -> appendOutput e evs = (e, None).
Proof.
  intros [H1 H2]. unfold appendOutput. destruct evs; [done|].
  destruct (Z.gtb_spec (outputAppliedSeq (core e)) 0); [|lia].
  destruct (Z.leb_spec (inputSeq (core e)) (outputAppliedSeq (core e))); [done|lia].
Qed.

Lemma appendOutput_live e0 c evs e' i :
  appendOutput (set_core e0 c) evs = (e', None) -> evs <> [] ->
  live (core (set_seq e0 i)) = true -> 0 <= outputAppliedSeq (core e0) ->
  inputSeq c = i -> outputAppliedSeq c = outputAppliedSeq (core e0) -> issued (core (set_seq e0 i)) c evs ->
  wrote i e0 e'.
Proof.
  unfold appendOutput, live. cbn [core set_core set_seq inputSeq outputAppliedSeq set_inputSeq].
  intros Ha Hne Hlive H0 Hi Ho His. destruct evs as [|ev evs]; [done|]. rewrite Hi, Ho in Ha.
  assert (Hskip : Z.gtb (outputAppliedSeq (core e0)) 0 && Z.leb i (outputAppliedSeq (core e0)) = false).
  { apply orb_true_iff in Hlive as [Hz|Hg].
    - apply Z.eqb_eq in Hz. by rewrite Hz.
    - rewrite Z.gtb_ltb, Z.ltb_lt in Hg. destruct (Z.leb_spec i (outputAppliedSeq (core e0))); [lia|].
      by rewrite andb_false_r. }
  rewrite Hskip in Ha. destruct (marshal_events (ev :: evs)) as [out|] eqn:Hm; [|done].
  unfold time_now in Ha. cbn [inputSeq] in Ha. rewrite Hi in Ha.
  destruct (AppendWithIndex _ _) as [w [idx|err]] eqn:Hw; [|done]. injection Ha as <-.
  split; try done. exists (clock_at (ticks c)), (ev :: evs), out, idx. split_and!; [done| |exact Hw].
  by eapply issued_ext; [..|exact His].
Qed.

(** A request whose effect is [f] on the core, then its output. *)
Lemma total_replay (f : Core -> Core * list outEvent) i e1 e1' e2 :
  replayable_total f -> tradeless f -> state (core e1) = state (core e2) ->
  appendOutput (set_core e1 (fst (f (core (set_seq e1 i))))) (snd (f (core (set_seq e1 i)))) = (e1', None) ->
  (covered e2 i -> exists e2',
     appendOutput (set_core e2 (fst (f (core (set_seq e2 i))))) (snd (f (core (set_seq e2 i)))) = (e2', None) /\
     state (core e2') = state (core e1') /\ quiet e2 e2' /\ inputSeq (core e2') = i) /\
  (live (core (set_seq e1 i)) = true -> 0 <= outputAppliedSeq (core e1) -> wrote i e1 e1').
Proof.
  intros Hf Hn Hs Ha. set (c1 := core (set_seq e1 i)) in *. set (c2 := core (set_seq e2 i)).
  destruct (Hf c1 c2 Hs) as (Hne & Hst & (P1 & P2 & P3) & (Q1 & Q2 & Q3)).
  assert (Hstate : state (core e1') = state (fst (f c1))).
  { revert Ha. unfold appendOutput. repeat case_match; intros; simplify_eq/=; try done.
    unfold time_now in *. by simplify_eq/=. }
  split.
  - intros Hcov. eexists. split; [apply appendOutput_covered|].
    + unfold covered in *. cbn [core set_core]. rewrite P1, P2. exact Hcov.
    + split_and!; [cbn [core set_core]; congruence| |exact P1]. split; try done; cbn [core set_core].
  - intros Hlive H0. apply (appendOutput_live e1 (fst (f c1)) _ e1' i Ha Hne Hlive H0 Q1 Q2).
    destruct (Hn c1) as [Hp Hid]. by apply issued_plain.
Qed.

Lemma live_seq e i : inputSeq (core e) = i -> covered e i -> live (core e) = false.
Proof.
  intros <- Hc. rewrite <- (covered_not_live _ _ Hc). apply live_position. by split.
Qed.

Lemma mustAppend_Done e evs e' : mustAppend e evs = Done e' <-> appendOutput e evs = (e', None).
Proof. unfold mustAppend. destruct (appendOutput e evs) as [? [?|]]; naive_solver. Qed.

Lemma appendOutput_state e evs e' err : appendOutput e evs = (e', err) -> state (core e') = state (core e).
Proof.
  unfold appendOutput. repeat case_match; intros; simplify_eq/=; try done; unfold time_now in *; by simplify_eq/=.
Qed.

(** A request that can fail: its function on the core, then its output. *)
Lemma partial_replay f i e1 e1' e2 :
  replayable f -> numbered f -> state (core e1) = state (core e2) ->
  inputSeq (core e1) = i -> inputSeq (core e2) = i ->
  append_result (f (core e1)) e1 = Done (e1', None) ->
  (covered e2 i -> exists e2', append_result (f (core e2)) e2 = Done (e2', None) /\
     state (core e2') = state (core e1') /\ quiet e2 e2' /\ inputSeq (core e2') = i) /\
  (live (core e1) = true -> 0 <= outputAppliedSeq (core e1) -> wrote i e1 e1').
Proof.
  intros Hf Hn Hs Hi1 Hi2. unfold append_result.
  destruct (f (core e1)) as [[c1 [evs1|err]]|] eqn:Hf1; [|done|done]. cbn [obind].
  destruct (mustAppend _ _) as [e1''|] eqn:Ha; [|done]. cbn [obind]. intros [= ->].
  apply mustAppend_Done in Ha. pose proof (appendOutput_state _ _ _ _ Ha) as Hst1. cbn in Hst1. split.
  - intros Hcov. destruct (Hf _ _ _ _ Hs (live_seq _ _ Hi2 Hcov) Hf1) as (_ & _ & c2 & evs2 & -> & Hst2 & (P1 & P2 & P3)).
    cbn [obind]. assert (Hc2 : covered (set_core e2 c2) (inputSeq (core (set_core e2 c2)))).
    { unfold covered in *. cbn. rewrite P1, P2, Hi2. exact Hcov. }
    rewrite (proj2 (mustAppend_Done _ _ _) (appendOutput_covered _ evs2 Hc2)). cbn [obind]. eexists; split; [done|].
    split_and!; [cbn; congruence| |cbn; congruence]. by split.
  - intros Hlive H0.
    destruct (Hf (core e1) (mkCore (state (core e1)) 0 1 0 0) _ _ eq_refl eq_refl Hf1) as (Hne & [Q1 Q2] & _).
    apply (appendOutput_live e1 c1 evs1 e1' i Ha Hne); rewrite <- ?Hi1, ?set_seq_id; try done. by apply Hn.
Qed.

Lemma route_replay order i e1 e1' e2 :
  state (core e1) = state (core e2) -> inputSeq (core e1) = i -> inputSeq (core e2) = i ->
  route order e1 = Done (e1', None) ->
  (covered e2 i -> exists e2', route order e2 = Done (e2', None) /\
     state (core e2') = state (core e1') /\ quiet e2 e2' /\ inputSeq (core e2') = i) /\
  (live (core e1) = true -> 0 <= outputAppliedSeq (core e1) -> wrote i e1 e1').
Proof.
  intros Hs H1 H2. unfold route, match_order, edit, cancel. destruct (o_TradingType order); [..|done].
  1-2: apply partial_replay; [apply matchEvents_replayable|exact (matchEvents_issued order)|done..].
  - apply partial_replay; [apply editEvents_replayable|exact (editEvents_issued order)|done..].
  - apply partial_replay; [apply cancelEvents_replayable|exact (cancelEvents_issued order)|done..].
Qed.

(** The patterns the engine knows. *)
Definition known (pat : string) : bool :=
  bool_decide (pat ∈ [PatternOrderCreated; PatternAccountCreated; PatternTransferCreated; PatternStockList;
                      PatternAdminBalanceAdjust; PatternAdminStockBalanceAdjust]).

Lemma order_replay order i e1 e1' e2 :
  state (core e1) = state (core e2) ->
  replay_order order (set_seq e1 i) = Done (e1', None) ->
  (covered e2 i -> exists e2', replay_order order (set_seq e2 i) = Done (e2', None) /\
     state (core e2') = state (core e1') /\ quiet e2 e2' /\ inputSeq (core e2') = i) /\
  (live (core (set_seq e1 i)) = true -> 0 <= outputAppliedSeq (core e1) -> wrote i e1 e1').
Proof.
  intros Hs. unfold replay_order. cbn [core set_seq set_core state set_inputSeq]. rewrite Hs.
  destruct (validateOrder order (state (core e2))) as [s [r|]].
  - unfold appendReject. intros Ha%Done_inj. pose proof (appendOutput_state _ _ _ _ Ha) as Hst. cbn in Hst. split.
    + intros Hcov. eexists. split; [f_equal; by apply appendOutput_covered|]. cbn. split_and!; [done|by split|done].
    + intros Hlive H0. apply (appendOutput_live e1 _ _ e1' i Ha); try done. by apply issued_plain; [repeat constructor|].
  - intros Hr. destruct (route_replay order i (set_ledger (set_seq e1 i) s) _ (set_ledger (set_seq e2 i) s) eq_refl eq_refl eq_refl Hr) as [H1 H2].
    split.
    + intros Hcov. destruct (H1 Hcov) as (e2' & -> & Hst & [Q1 Q2 Q3 Q4 Q5] & Hi). exists e2'. by split_and!.
    + intros Hlive H0. destruct (H2 Hlive H0) as [W1 W2 W3 W4 (t & evs & out & idx & Hm & His & Hw)]. split; try done.
      exists t, evs, out, idx. split_and!; [done| |done]. by eapply issued_ext; [..|exact His].
Qed.

Lemma no_error_Done (m : outcome engine) e : no_error m = Done (e, None) <-> m = Done e.
Proof. unfold no_error. destruct m; cbn; naive_solver. Qed.

Lemma must_total (f : Core -> Core * list outEvent) i e1 e1' e2 :
  replayable_total f -> tradeless f -> state (core e1) = state (core e2) ->
  (let '(c, evs) := f (core (set_seq e1 i)) in mustAppend (set_core (set_seq e1 i) c) evs) = Done e1' ->
  (covered e2 i -> exists e2',
     (let '(c, evs) := f (core (set_seq e2 i)) in mustAppend (set_core (set_seq e2 i) c) evs) = Done e2' /\
     state (core e2') = state (core e1') /\ quiet e2 e2' /\ inputSeq (core e2') = i) /\
  (live (core (set_seq e1 i)) = true -> 0 <= outputAppliedSeq (core e1) -> wrote i e1 e1').
Proof.
  intros Hf Hn Hs Ha. pose proof (total_replay f i e1 e1' e2 Hf Hn Hs) as Ht.
  destruct (f (core (set_seq e1 i))) as [c1 evs1]. destruct (f (core (set_seq e2 i))) as [c2 evs2].
  apply mustAppend_Done in Ha. destruct (Ht Ha) as [H1 H2]. split; [|done].
  intros Hcov. destruct (H1 Hcov) as (e2' & Ha2 & ?). exists e2'. split; [|done]. by apply mustAppend_Done.
Qed.

(** One record, live or replayed. *)
Lemma record_replay i pat dat e1 e1' e2 :
  known pat = true -> state (core e1) = state (core e2) ->
  replay_record i pat dat e1 = Done (e1', None) ->
  (covered e2 i -> exists e2', replay_record i pat dat e2 = Done (e2', None) /\
     state (core e2') = state (core e1') /\ quiet e2 e2' /\ inputSeq (core e2') = i) /\
  (live (core (set_seq e1 i)) = true -> 0 <= outputAppliedSeq (core e1) -> wrote i e1 e1').
Proof.
  intros Hk Hs. unfold replay_record.
  destruct (String.eqb_spec pat PatternOrderCreated) as [_|N1].
  { destruct (Unmarshal_Order dat); [|done]. by apply order_replay. }
  destruct (String.eqb_spec pat PatternAccountCreated) as [_|N2].
  { destruct (Unmarshal_Account dat); [|done]. rewrite no_error_Done. intros Ha.
    setoid_rewrite no_error_Done. revert Ha. apply must_total; auto using activateAccountEvents_replayable, activateAccountEvents_tradeless. }
  destruct (String.eqb_spec pat PatternTransferCreated) as [_|N3].
  { destruct (Unmarshal_Transfer dat) as [t|]; [|done]. intros Ha%Done_inj. revert Ha. unfold applyTransfer.
    pose proof (total_replay (transferEvents t) i e1 e1' e2 (transferEvents_replayable t) (transferEvents_tradeless t) Hs) as Ht.
    destruct (transferEvents t (core (set_seq e1 i))). destruct (transferEvents t (core (set_seq e2 i))).
    intros Ha. destruct (Ht Ha) as [H1 H2]. split; [|done]. intros Hcov.
    destruct (H1 Hcov) as (e2' & Ha2 & ?). exists e2'. split; [f_equal; exact Ha2|done]. }
  destruct (String.eqb_spec pat PatternStockList) as [_|N4].
  { destruct (Unmarshal_Stock dat); [|done]. rewrite no_error_Done. intros Ha.
    setoid_rewrite no_error_Done. revert Ha. apply must_total; auto using setStockStatusEvents_replayable, setStockStatusEvents_tradeless. }
  destruct (String.eqb_spec pat PatternAdminBalanceAdjust) as [_|N5].
  { destruct (Unmarshal_BalanceAdjust dat); [|done]. rewrite no_error_Done. intros Ha.
    setoid_rewrite no_error_Done. revert Ha. apply must_total; auto using balanceAdjustEvents_replayable, balanceAdjustEvents_tradeless. }
  destruct (String.eqb_spec pat PatternAdminStockBalanceAdjust) as [_|N6].
  { destruct (Unmarshal_StockBalanceAdjust dat); [|done]. rewrite no_error_Done. intros Ha.
    setoid_rewrite no_error_Done. revert Ha. apply must_total; auto using stockBalanceAdjustEvents_replayable, stockBalanceAdjustEvents_tradeless. }
  unfold known in Hk. rewrite bool_decide_eq_true in Hk. set_solver.
Qed.

(** ** Handling is logging, then the effect that a replay has *)

(** A handled request was logged, or left the engine as it was. *)
Record accepted payload e e' : Prop := {
  ac_request : exists pat dat id e1,
    Unmarshal_envelope payload = Some (pat, dat) /\ known pat = true /\
    request_id pat dat = Some (Some id) /\ dedup_has (dups e) pat id = false /\
    logInput payload pat id e = Done e1 /\
    replay_record (inputSeq (core e1)) pat dat e1 = Done (e', None)
}.

Lemma handle_order_cases payload dat e e' r :
  handleOrder payload dat e = Done (e', r) -> (forall err, r <> Failed err) ->
  (e' = e /\ r <> Ack) \/
  exists order, Unmarshal_Order dat = Some order /\ r = Ack /\
    ((e' = e /\ dedup_has (dups e) PatternOrderCreated (o_Id order) = true) \/
     (dedup_has (dups e) PatternOrderCreated (o_Id order) = false /\
      exists e1, logInput payload PatternOrderCreated (o_Id order) e = Done e1 /\
        replay_order order (set_seq e1 (inputSeq (core e1))) = Done (e', None))).
Proof.
  unfold handleOrder, replay_order. intros Hh Hr. destruct (Unmarshal_Order dat) as [order|]; [|naive_solver].
  right. exists order. destruct (dedup_has _ _ _) eqn:Hd; [naive_solver|].
  destruct (logInput _ _ _ _) as [e1|]; [|done]. cbn [obind] in Hh.
  destruct (validateOrder order _) as [s [rej|]] eqn:Hv.
  - destruct (appendReject _ _ _) as [e2 [err|]] eqn:Ha; [done|]. injection Hh as <- <-.
    split_and!; [done|done|]. right. split; [done|]. exists e1. by rewrite set_seq_id, Hv, Ha.
  - destruct (route _ _) as [[e2 [err|]]|] eqn:Ho; cbn [obind] in Hh; [naive_solver| |done].
    injection Hh as <- <-. split_and!; [done|done|]. right. split; [done|]. exists e1. by rewrite set_seq_id, Hv.
Qed.

Lemma handle_transfer_cases payload dat e e' r :
  handleTransferCreated payload dat e = Done (e', r) -> (forall err, r <> Failed err) ->
  (e' = e /\ r <> Ack) \/
  exists t, Unmarshal_Transfer dat = Some t /\ r = Ack /\
    ((e' = e /\ dedup_has (dups e) PatternTransferCreated (tf_Id t) = true) \/
     (dedup_has (dups e) PatternTransferCreated (tf_Id t) = false /\
      exists e1, logInput payload PatternTransferCreated (tf_Id t) e = Done e1 /\
        applyTransfer t (set_seq e1 (inputSeq (core e1))) = (e', None))).
Proof.
  unfold handleTransferCreated. intros Hh Hr. destruct (Unmarshal_Transfer dat) as [t|]; [|naive_solver].
  right. exists t. destruct (dedup_has _ _ _) eqn:Hd; [naive_solver|].
  destruct (logInput _ _ _ _) as [e1|]; [|done]. cbn [obind] in Hh.
  destruct (applyTransfer t e1) as [e2 [err|]] eqn:Ha; [naive_solver|]. injection Hh as <- <-.
  split_and!; [done|done|]. right. split; [done|]. exists e1. by rewrite set_seq_id.
Qed.

(** The handlers that cannot fail share their shape. *)
Definition simple_handler {A} (dec : option A) (bad : A -> bool) (kind : string) (id : A -> Z)
    (act : A -> engine -> outcome engine) (payload : bytes) e : outcome (engine * reply) :=
  match dec with
  | None => Done (e, Nack false)
  | Some a =>
      if bad a then Done (e, Nack false)
      else if dedup_has (dups e) kind (id a) then Done (e, Ack)
      else e <~ logInput payload kind (id a) e; e <~ act a e; Done (e, Ack)
  end.

Lemma simple_cases {A} (dec : option A) bad kind id act payload e e' r :
  simple_handler dec bad kind id act payload e = Done (e', r) ->
  (e' = e /\ r <> Ack) \/
  exists a, dec = Some a /\ r = Ack /\
    ((e' = e /\ dedup_has (dups e) kind (id a) = true) \/
     (dedup_has (dups e) kind (id a) = false /\
      exists e1, logInput payload kind (id a) e = Done e1 /\ act a (set_seq e1 (inputSeq (core e1))) = Done e')).
Proof.
  unfold simple_handler. intros Hh. destruct dec as [a|]; [|naive_solver].
  destruct (bad a); [naive_solver|]. right. exists a. destruct (dedup_has _ _ _) eqn:Hd; [naive_solver|].
  destruct (logInput _ _ _ _) as [e1|]; [|done]. cbn [obind] in Hh.
  destruct (act a e1) as [e2|] eqn:Ha; [|done]. injection Hh as <- <-.
  split_and!; [done|done|]. right. split; [done|]. exists e1. by rewrite set_seq_id.
Qed.

(** The two ends of a handler: a known id, and a new request. *)
Ltac duplicate Ha :=
  left; split; [naive_solver|right]; do 3 eexists; split; [done|]; unfold request_id; simpl; rewrite Ha; naive_solver.
Ltac fresh_request Ha :=
  right; split; [done|]; split; do 4 eexists; unfold request_id, replay_record; simpl; rewrite Ha;
  split_and!; try done; try eassumption; try (apply no_error_Done; eassumption).

Lemma handle_cases payload e e' r :
  handle payload e = Done (e', r) -> (forall err, r <> Failed err) ->
  (e' = e /\ (r <> Ack \/ exists pat dat id, Unmarshal_envelope payload = Some (pat, dat) /\
     request_id pat dat = Some (Some id) /\ dedup_has (dups e) pat id = true)) \/
  (r = Ack /\ accepted payload e e').
Proof.
  unfold handle. intros Hh Hr. destruct (Unmarshal_envelope payload) as [[pat dat]|] eqn:Henv; [|naive_solver].
  destruct (String.eqb_spec pat PatternOrderCreated) as [->|N1].
  { destruct (handle_order_cases _ _ _ _ _ Hh Hr) as [?|(a & Ha & -> & [?|(? & e1 & ? & ?)])]; [naive_solver|..].
    - duplicate Ha.
    - fresh_request Ha. }
  destruct (String.eqb_spec pat PatternAccountCreated) as [->|N2].
  { destruct (simple_cases _ (fun a => Z.leb (acc_Id a) 0) _ _ activateAccount _ _ _ _ Hh)
      as [?|(a & Ha & -> & [?|(? & e1 & ? & ?)])]; [naive_solver|..].
    - duplicate Ha.
    - fresh_request Ha. }
  destruct (String.eqb_spec pat PatternTransferCreated) as [->|N3].
  { destruct (handle_transfer_cases _ _ _ _ _ Hh Hr) as [?|(a & Ha & -> & [?|(? & e1 & ? & He)])]; [naive_solver|..].
    - duplicate Ha.
    - fresh_request Ha. f_equal. exact He. }
  destruct (String.eqb_spec pat PatternStockList) as [->|N4].
  { destruct (simple_cases _ (fun a => Z.leb (st_Id a) 0) _ _
      (fun s => setStockStatus s LISTED PatternStockListed) _ _ _ _ Hh)
      as [?|(a & Ha & -> & [?|(? & e1 & ? & ?)])]; [naive_solver|..].
    - duplicate Ha.
    - fresh_request Ha. }
  destruct (String.eqb_spec pat PatternAdminBalanceAdjust) as [->|N5].
  { destruct (simple_cases _ (fun _ => false) _ _ applyBalanceAdjust _ _ _ _ Hh)
      as [?|(a & Ha & -> & [?|(? & e1 & ? & ?)])]; [naive_solver|..].
    - duplicate Ha.
    - fresh_request Ha. }
  destruct (String.eqb_spec pat PatternAdminStockBalanceAdjust) as [->|N6]; [|naive_solver].
  destruct (simple_cases _ (fun _ => false) _ _ applyStockBalanceAdjust _ _ _ _ Hh)
    as [?|(a & Ha & -> & [?|(? & e1 & ? & ?)])]; [naive_solver|..].
  - duplicate Ha.
  - fresh_request Ha.
Qed.
End replays.
