(* ===== verification/Consistency.v ===== *)
(** * The logs determine the ledger

    [consistent e ps]: the input WAL of [e] holds the payloads [ps], their
    effects from the empty ledger give the ledger of [e], and the last record of
    the output WAL belongs to the last of them. Handling a delivery keeps this,
    and a restart from the two logs rebuilds the ledger without writing; so it
    holds after every life of an engine in which the logs are not trimmed
    ([lived]). *)

From S2P Require Import Prelude Domain Slices OrderBook Ledger Events Matching Validation Orders Transfer Admin MatchLoop Dedup Wal Engine Recovery Determinism Replays.

Section consistency.
Context `{!Clock} {bytes log : Type} `{!Codec bytes, !CodecLaws bytes, !Proto bytes}.
Context `{!Twal bytes log, !TwalLaws bytes log}.
Abbreviation engine := (Engine bytes log).
Implicit Types (e : engine) (ps : list bytes) (p : bytes) (s : State).

(** The effect of replaying payload [p] from index [i]. *)
Definition effect (i : Z) p s s' : Prop :=
  exists pat dat id, Unmarshal_envelope p = Some (pat, dat) /\ known pat = true /\
    request_id pat dat = Some (Some id) /\
    forall e, state (core e) = s -> covered e i ->
      exists e', replay_record i pat dat e = Done (e', None) /\ state (core e') = s' /\ quiet e e' /\
        inputSeq (core e') = i.

Inductive history : list bytes -> State -> Prop :=
  | history_nil : history [] NewState
  | history_snoc ps p s s' : history ps s -> effect (Z.of_nat (length ps) + 1) p s s' -> history (ps ++ [p]) s'.

(** The position of the last output record. *)
Definition watermark (n : Z) (ods : list bytes) : Prop :=
  match last ods with
  | None => n = 0
  | Some d => exists env, Unmarshal_OutputEnvelope d = Some env /\ env_InputSeq env = n
  end.

Record consistent e ps : Prop := {
  cn_input : holds (input e) 1 ps;
  cn_history : history ps (state (core e));
  cn_seq : inputSeq (core e) = Z.of_nat (length ps);
  cn_output : exists first ods, holds (output e) first ods /\ started first ods /\ watermark (Z.of_nat (length ps)) ods;
  cn_applied : 0 <= outputAppliedSeq (core e) <= Z.of_nat (length ps)
}.

(** The next index of a log is still a [uint64]. *)
Definition room (w : log) : Prop := forall last, LastIndex w = inl last -> last + 2 < two64.

Lemma room_next w first ds : room w -> holds w first ds -> started first ds -> next_index first ds + 1 < two64.
Proof.
  intros Hr Hh Hs. specialize (Hr _ (h_last _ _ _ Hh)). unfold next_index.
  destruct (decide (ds = [])) as [Hd|Hd]; [|lia]. rewrite (Hs Hd), Hd. simpl. unfold two64. lia.
Qed.

(** Logging a request appends its payload and changes nothing but the windows. *)
Lemma logInput_logs payload kind id e e1 first ds :
  holds (input e) first ds -> started first ds -> room (input e) -> logInput payload kind id e = Done e1 ->
  holds (input e1) first (ds ++ [payload]) /\ inputSeq (core e1) = next_index first ds /\
  state (core e1) = state (core e) /\ output e1 = output e /\
  outputAppliedSeq (core e1) = outputAppliedSeq (core e) /\ snapshots e1 = snapshots e /\
  dedup_add (dups e) kind id = Done (dups e1).
Proof.
  intros Hi Hst Hr. unfold logInput.
  destruct (Append (input e) payload) as [w [idx|]] eqn:Ha; [|done].
  destruct (append_holds _ _ _ _ _ _ Hi Hst (room_next _ _ _ Hr Hi Hst) Ha) as (Hidx & d & [= <-] & Hh & _).
  cbn [dups set_seq set_core set_input]. destruct (dedup_add (dups e) kind id) as [d|] eqn:Hd; [|done].
  cbn [obind]. intros [= <-]. cbn. by split_and!.
Qed.

Lemma logInput_spec payload kind id e e1 ps :
  consistent e ps -> room (input e) -> logInput payload kind id e = Done e1 ->
  holds (input e1) 1 (ps ++ [payload]) /\ inputSeq (core e1) = Z.of_nat (length (ps ++ [payload])) /\
  state (core e1) = state (core e) /\ output e1 = output e /\
  outputAppliedSeq (core e1) = outputAppliedSeq (core e) /\
  dedup_add (dups e) kind id = Done (dups e1).
Proof.
  intros [Hi _ _ _ _] Hr Hl.
  destruct (logInput_logs _ _ _ _ _ _ _ Hi (fun _ => eq_refl) Hr Hl) as (H1 & H2 & H3 & H4 & H5 & _ & H7).
  split_and!; try done. rewrite H2, length_app. unfold next_index. simpl. lia.
Qed.

(** Processing a request whose output is not written yet. *)
Lemma record_effect n p pat dat id e1 e2 :
  0 <= outputAppliedSeq (core e1) <= n -> Unmarshal_envelope p = Some (pat, dat) -> known pat = true ->
  request_id pat dat = Some (Some id) -> replay_record (n + 1) pat dat e1 = Done (e2, None) ->
  effect (n + 1) p (state (core e1)) (state (core e2)) /\ wrote (n + 1) e1 e2.
Proof.
  intros Happ Henv Hk Hid Hrec. split.
  - exists pat, dat, id. split_and!; [done..|]. intros e3 Hs3 Hcov.
    destruct (record_replay _ pat dat e1 e2 e3 Hk (eq_sym Hs3) Hrec) as [Hq _]. by apply Hq.
  - destruct (record_replay _ _ _ e1 e2 e1 Hk eq_refl Hrec) as [_ Hw]. apply Hw; [|lia].
    unfold live. cbn. rewrite Z.gtb_ltb. apply orb_true_iff. right. apply Z.ltb_lt. lia.
Qed.

(** The output record it wrote is the last one, and carries its index. *)
Lemma wrote_watermark i e1 e2 first ods :
  wrote i e1 e2 -> holds (output e1) first ods -> started first ods -> room (output e1) ->
  exists d, holds (output e2) first (ods ++ [d]) /\ started first (ods ++ [d]) /\ watermark i (ods ++ [d]).
Proof.
  intros [_ _ _ _ (t & evs & out & idx & _ & _ & Hap)] Hout Hsta Hro.
  destruct (append_holds _ _ _ _ _ _ Hout Hsta (room_next _ _ _ Hro Hout Hsta) Hap) as (_ & d & Hd & Hho & Hso).
  exists d. split_and!; [done|done|]. unfold watermark. rewrite last_snoc. eexists. by split; [apply codec_envelope in Hd|].
Qed.

(** A logged request whose output is not written yet: its effect brings the
    ledger and the output WAL in step with the input WAL. *)
Lemma record_consistent ps p pat dat id e1 e2 first ods :
  holds (input e1) 1 (ps ++ [p]) -> history ps (state (core e1)) ->
  holds (output e1) first ods -> started first ods -> room (output e1) ->
  0 <= outputAppliedSeq (core e1) <= Z.of_nat (length ps) ->
  Unmarshal_envelope p = Some (pat, dat) -> known pat = true -> request_id pat dat = Some (Some id) ->
  replay_record (Z.of_nat (length ps) + 1) pat dat e1 = Done (e2, None) ->
  consistent e2 (ps ++ [p]).
Proof.
  intros Hin Hhist Hout Hsta Hro Happ Henv Hk Hid Hrec.
  destruct (record_effect _ p _ _ _ _ _ Happ Henv Hk Hid Hrec) as [Heff Hw].
  destruct (wrote_watermark _ _ _ _ _ Hw Hout Hsta Hro) as (d & Hho & Hso & Hwm).
  pose proof Hw as [W1 W2 W3 W4 _].
  split; rewrite ?length_app; cbn [length].
  - by rewrite W1.
  - by apply history_snoc with (state (core e1)).
  - rewrite W4. lia.
  - exists first, (ods ++ [d]). split_and!; [done|done|]. by replace (Z.of_nat (length ps + 1)) with (Z.of_nat (length ps) + 1) by lia.
  - rewrite W3. lia.
Qed.

(** Handling a delivery keeps the logs and the ledger in step. *)
Lemma handle_consistent payload e e' r ps :
  consistent e ps -> room (input e) -> room (output e) ->
  handle payload e = Done (e', r) -> (forall err, r <> Failed err) ->
  consistent e' ps \/ consistent e' (ps ++ [payload]).
Proof.
  intros Hc Hri Hro Hh Hr.
  destruct (handle_cases _ _ _ _ Hh Hr) as [[-> _]|[_ [(pat & dat & id & e1 & Henv & Hk & Hid & _ & Hlog & Hrec)]]];
    [by left|right].
  destruct (logInput_spec _ _ _ _ _ _ Hc Hri Hlog) as (Hi1 & Hs1 & Hst1 & Ho1 & Ha1 & _).
  destruct Hc as [Hi Hhist Hseq (first & ods & Hout & Hsta & Hwm) Happ].
  rewrite length_app, Nat2Z.inj_add in Hs1. rewrite Hs1 in Hrec.
  apply (record_consistent ps payload pat dat id e1 e' first ods); rewrite ?Ho1, ?Hst1, ?Ha1; done.
Qed.

(** ** Restarting *)

(** Replaying one record more. *)
Lemma replay_from_snoc n i e e1 dat pat dat' :
  0 <= i -> i + Z.of_nat n < two64 ->
  replay_from n i e = Done (e1, None) -> Read (input e1) (i + Z.of_nat n) = inl dat ->
  Unmarshal_envelope dat = Some (pat, dat') ->
  replay_from (S n) i e = replay_record (i + Z.of_nat n) pat dat' e1.
Proof.
  revert i e. induction n as [|n IH]; intros i e Hi Hb Hr Hread Henv.
  - injection Hr as <-. rewrite Z.add_0_r in *. cbn [replay_from]. rewrite Hread, Henv.
    destruct (replay_record i pat dat' e) as [[e2 [?|]]|]; done.
  - cbn [replay_from] in Hr. change (replay_from (S (S n)) i e) with
      (match Read (input e) i with
       | inr err => Done (e, Some (ErrWal err))
       | inl dat => match Unmarshal_envelope dat with
         | None => Done (e, Some (ErrUnmarshal i))
         | Some (pat, dat) => '(e, err) <~ replay_record i pat dat e;
             match err with Some err => Done (e, Some err) | None => replay_from (S n) (i ⊕ 1) e end
         end
       end).
    destruct (Read (input e) i) as [dat1|]; [|done].
    destruct (Unmarshal_envelope dat1) as [[pat1 dat1']|]; [|done].
    destruct (replay_record i pat1 dat1' e) as [[e2 [err|]]|]; [done| |done]. cbn [obind] in *.
    rewrite add64_exact in * by lia. rewrite (IH (i + 1) e2); [f_equal; lia|lia|lia|done| |done].
    rewrite <- Hread. f_equal. lia.
Qed.

Lemma quiet_trans e1 e2 e3 : quiet e1 e2 -> quiet e2 e3 -> quiet e1 e3.
Proof. intros [A1 A2 A3 A4 A5] [B1 B2 B3 B4 B5]. split; congruence. Qed.

(** Replaying a history whose outputs exist rebuilds its ledger and writes nothing. *)
Lemma replay_history ps s e0 :
  history ps s -> state (core e0) = NewState -> inputSeq (core e0) = 0 ->
  (ps <> [] -> covered e0 (Z.of_nat (length ps))) -> Z.of_nat (length ps) + 1 < two64 ->
  (forall k p, ps !! k = Some p -> Read (input e0) (Z.of_nat k + 1) = inl p) ->
  exists e, replay_from (length ps) 1 e0 = Done (e, None) /\ state (core e) = s /\ quiet e0 e /\
    inputSeq (core e) = Z.of_nat (length ps).
Proof.
  intros Hh Hs0 Hi0. revert e0 Hs0 Hi0.
  induction Hh as [|ps p s s' Hh IH Heff]; intros e0 Hs0 Hi0 Hcov Hb Hread; [by exists e0|].
  destruct Heff as (pat & dat & id & Henv & Hk & Hid & Heff). rewrite length_app in *. cbn [length] in *.
  assert (Hcov0 : covered e0 (Z.of_nat (length ps + 1))) by (apply Hcov; by destruct ps).
  destruct (IH e0 Hs0 Hi0) as (e1 & Hr1 & Hs1 & Hq1 & Hi1).
  { intros _. unfold covered in *. lia. }
  { lia. }
  { intros k q Hk'. apply Hread. by apply lookup_app_l_Some. }
  destruct (Heff e1 Hs1) as (e2 & Hr2 & Hs2 & Hq2 & Hi2).
  { unfold covered in *. rewrite (q_applied _ _ Hq1). lia. }
  exists e2. split_and!; [|done|by eapply quiet_trans|rewrite Hi2; lia].
  rewrite Nat.add_1_r. rewrite (replay_from_snoc _ _ _ e1 p pat dat); [|lia|lia|done| |done].
  - rewrite <- Hr2. f_equal. lia.
  - rewrite (q_input _ _ Hq1), Z.add_comm. apply Hread. by apply list_lookup_middle.
Qed.

(** ** Loading *)

(** The request of a payload: its kind and id. *)
Definition request p : option (string * Z) :=
  match Unmarshal_envelope p with
  | Some (pat, dat) => match request_id pat dat with Some (Some id) => Some (pat, id) | _ => None end
  | None => None
  end.

Lemma history_requests ps s : history ps s -> Forall (fun p => is_Some (request p)) ps.
Proof.
  induction 1 as [|ps p s s' Hh IH (pat & dat & id & Henv & Hk & Hid & _)]; [constructor|].
  apply Forall_app. split; [done|]. apply Forall_singleton. unfold request. rewrite Henv, Hid. eauto.
Qed.

Lemma set_dups_id e : set_dups e (dups e) = e.
Proof. by destruct e. Qed.

(** Loading records their requests, in order. *)
Lemma loadDedup_from_ok qs i e :
  0 <= i -> i + Z.of_nat (length qs) < two64 -> dedup_ok (dups e) ->
  Forall (fun p => is_Some (request p)) qs ->
  (forall k p, qs !! k = Some p -> Read (input e) (i + Z.of_nat k) = inl p) ->
  exists d, loadDedup_from (length qs) i e = Done (set_dups e d, None) /\
    dedup_adds (dups e) (omap request qs) = Done d.
Proof.
  revert i e. induction qs as [|p qs IH]; intros i e Hi Hb Hd Hreq Hread.
  { exists (dups e). split; [|done]. cbn. by rewrite set_dups_id. }
  inversion_clear Hreq as [|?? [[pat id] Hp] Hreq']. cbn [length] in *. cbn [loadDedup_from omap list_omap].
  pose proof (Hread 0%nat p eq_refl) as Hread0. rewrite Z.add_0_r in Hread0. rewrite Hread0, Hp. unfold request in Hp.
  destruct (Unmarshal_envelope p) as [[pat' dat]|]; [|done].
  destruct (request_id pat' dat) as [[id'|]|]; [|done|done]. injection Hp as -> ->.
  destruct (dedup_add_safe (dups e) pat id Hd) as (d1 & Hd1 & Hok1 & _). rewrite Hd1. cbn [obind dedup_adds].
  rewrite Hd1, add64_exact by lia. cbn [obind].
  destruct (IH (i + 1) (set_dups e d1)) as (d2 & Hl2 & Ha2); [lia|lia|done|done| |].
  { intros k q Hk. cbn. rewrite <- (Hread (S k) q Hk). f_equal. lia. }
  exists d2. rewrite Hl2. split; [|done]. by destruct e.
Qed.

Lemma entry_lookup ps k p : ps !! k = Some p -> entry_at 1 ps (1 + Z.of_nat k) = Some p.
Proof.
  intros Hk. unfold entry_at. destruct (Z.leb_spec 1 (1 + Z.of_nat k)); [|lia].
  by replace (Z.to_nat (1 + Z.of_nat k - 1)) with k by lia.
Qed.

Lemma holds_read w ps k p : holds w 1 ps -> ps !! k = Some p -> Read w (1 + Z.of_nat k) = inl p.
Proof. intros Hh Hk. unfold Read. by rewrite (h_read _ _ _ Hh), (entry_lookup _ _ _ Hk). Qed.

(** The records the duplicate windows are loaded from. *)
Definition recent ps : list bytes := drop (length ps - Z.to_nat dedupWindow) ps.

(** The part of a log that starts at index 1 which is left from index [first]. *)
Definition from (first : Z) ps : list bytes := drop (Z.to_nat (first - 1)) ps.

Lemma from_lookup first ps k : 1 <= first -> from first ps !! k = ps !! (Z.to_nat (first - 1) + k)%nat.
Proof. intros Hf. apply lookup_drop. Qed.

(** Reading an index from a log that was cut in front. *)
Lemma holds_from_read w first ps k p :
  1 <= first -> holds w first (from first ps) -> ps !! k = Some p -> first <= Z.of_nat k + 1 ->
  Read w (Z.of_nat k + 1) = inl p.
Proof.
  intros Hf Hh Hk Hle. unfold Read. rewrite (h_read _ _ _ Hh). unfold entry_at.
  destruct (Z.leb_spec first (Z.of_nat k + 1)); [|lia]. rewrite from_lookup by done.
  by replace (Z.to_nat (first - 1) + Z.to_nat (Z.of_nat k + 1 - first))%nat with k by lia; rewrite Hk.
Qed.

Lemma dedup_start_range n : 1 <= n < two64 -> 1 <= dedup_start dedupWindow n <= n.
Proof.
  intros Hn. unfold dedup_start. rewrite (u64_small dedupWindow) by done. unfold dedupWindow. rewrite Z.gtb_ltb.
  destruct (Z.ltb_spec 8192 n); [|lia]. rewrite sub64_exact by lia. rewrite add64_exact by lia. lia.
Qed.

Lemma dedup_start_recent n : 0 <= n < two64 -> dedup_start dedupWindow n = 1 + Z.max 0 (n - dedupWindow).
Proof.
  intros Hn. unfold dedup_start. rewrite (u64_small dedupWindow) by done. unfold dedupWindow. rewrite Z.gtb_ltb.
  destruct (Z.ltb_spec 8192 n); [|lia]. rewrite sub64_exact by lia. rewrite add64_exact by lia. lia.
Qed.

(** The last index of a log that was cut in front and still has its last record. *)
Lemma from_last w first ps :
  1 <= first -> holds w first (from first ps) -> (ps <> [] -> first <= Z.of_nat (length ps)) -> (ps = [] -> first = 1) ->
  LastIndex w = inl (Z.of_nat (length ps)) /\ Z.of_nat (length ps) + 1 < two64.
Proof.
  intros Hf Hh Hne Hnil. unfold LastIndex. rewrite (h_last _ _ _ Hh). pose proof (h_range _ _ _ Hh) as Hr.
  unfold from in *. rewrite length_drop in *. destruct (decide (ps = [])) as [->|Hps].
  - cbn in *. by rewrite drop_nil, decide_True.
  - specialize (Hne Hps). rewrite decide_False.
    + split; [f_equal; lia|lia].
    + intros Hd. apply (f_equal length) in Hd. rewrite length_drop in Hd. simpl in Hd. lia.
Qed.

(** Loading needs the records of the windows only. *)
Lemma loadDedup_ok e first ps :
  1 <= first -> holds (input e) first (from first ps) -> first <= dedup_start dedupWindow (Z.of_nat (length ps)) ->
  dups e = newDedup dedupWindow -> Forall (fun p => is_Some (request p)) ps ->
  exists d, loadDedup e = Done (set_dups e d, None) /\
    dedup_adds (newDedup dedupWindow) (omap request (recent ps)) = Done d.
Proof.
  intros Hf Hh Hst Hd Hreq.
  destruct (decide (ps = [])) as [->|Hne].
  { exists (newDedup dedupWindow). unfold loadDedup, LastIndex. rewrite (h_last _ _ _ Hh). unfold from.
    rewrite drop_nil, decide_True by done. cbn [Z.eqb]. by rewrite <- Hd, set_dups_id. }
  assert (Hlen : 1 <= Z.of_nat (length ps)) by (destruct ps; [done|simpl; lia]).
  assert (Hr0 : Z.of_nat (length ps) < two64).
  { pose proof (h_range _ _ _ Hh) as Hr. unfold from in Hr. rewrite length_drop in Hr. lia. }
  pose proof (dedup_start_range _ (conj Hlen Hr0)) as Hrg.
  destruct (from_last _ _ _ Hf Hh) as [Hlast Hr]; [lia|done|].
  unfold loadDedup. rewrite Hlast, Hd. destruct (Z.eqb_spec (Z.of_nat (length ps)) 0); [lia|]. cbn [window newDedup].
  set (k := (length ps - Z.to_nat dedupWindow)%nat).
  assert (Hstart : dedup_start dedupWindow (Z.of_nat (length ps)) = 1 + Z.of_nat k).
  { rewrite dedup_start_recent by lia. unfold dedupWindow in *. lia. }
  rewrite Hstart in *. unfold recent. fold k.
  replace (Z.to_nat (Z.of_nat (length ps) - (1 + Z.of_nat k) + 1)) with (length (drop k ps))
    by (rewrite length_drop; lia).
  rewrite <- Hd. apply loadDedup_from_ok.
  - lia.
  - rewrite length_drop. lia.
  - rewrite Hd. apply dedup_ok_new.
  - by apply Forall_drop.
  - intros j p Hj. rewrite lookup_drop in Hj. rewrite <- (holds_from_read _ _ _ _ _ Hf Hh Hj); [f_equal; lia|lia].
Qed.

(** ** The whole restart *)

Lemma loadOutputWatermark_ok e first ods n :
  holds (output e) first ods -> started first ods -> watermark n ods ->
  loadOutputWatermark e = (set_applied e n, None).
Proof.
  intros Hh Hs Hw. unfold loadOutputWatermark, LastIndex. rewrite (h_last _ _ _ Hh). unfold watermark in Hw.
  pose proof (h_pos _ _ _ Hh). destruct ods as [|d0 ods0 _] using rev_ind.
  { cbn in Hw. subst n. by rewrite decide_True. }
  rewrite last_snoc in Hw. rewrite decide_False by (by destruct ods0).
  destruct (Z.eqb_spec (first + Z.of_nat (length (ods0 ++ [d0])) - 1) 0) as [Hz|_].
  { rewrite length_app in Hz. simpl in Hz. lia. }
  unfold Read. rewrite (h_read _ _ _ Hh), length_app. cbn [length].
  replace (first + Z.of_nat (length ods0 + 1) - 1) with (next_index first ods0) by (unfold next_index; lia).
  rewrite entry_at_app, decide_True by done. destruct Hw as (env & -> & <-). done.
Qed.

(** The engine that a start-up from two logs begins with. *)
Definition fresh_engine (inp out : log) (n : Z) (d : dedup) : engine :=
  mkEngine (mkCore NewState 0 n 0 0) inp out d None false.

(** The input log may have been cut in front, up to the records of the windows. *)
Lemma NewEngine_retained inp out k qs first ods n :
  1 <= k -> holds inp k (from k qs) -> k <= dedup_start dedupWindow (Z.of_nat (length qs)) ->
  Forall (fun p => is_Some (request p)) qs ->
  holds out first ods -> started first ods -> watermark n ods ->
  exists d, NewEngine inp out = Done (inl (fresh_engine inp out n d)) /\
    dedup_adds (newDedup dedupWindow) (omap request (recent qs)) = Done d.
Proof.
  intros Hk Hi Hst Hreq Ho Hs Hw. unfold NewEngine. set (e00 := mkEngine _ _ _ _ _ _).
  rewrite (loadOutputWatermark_ok e00 first ods n Ho Hs Hw). cbv zeta.
  destruct (loadDedup_ok (set_applied e00 n) k qs Hk Hi Hst eq_refl Hreq) as (d & -> & Hd). by exists d.
Qed.

Lemma NewEngine_ok inp out qs first ods n :
  holds inp 1 qs -> Forall (fun p => is_Some (request p)) qs ->
  holds out first ods -> started first ods -> watermark n ods ->
  exists d, NewEngine inp out = Done (inl (fresh_engine inp out n d)) /\
    dedup_adds (newDedup dedupWindow) (omap request (recent qs)) = Done d.
Proof.
  intros Hi Hreq. apply (NewEngine_retained _ _ 1); [done|exact Hi| |done].
  pose proof (h_range _ _ _ Hi). rewrite dedup_start_recent by lia. lia.
Qed.

(** The engine that a restart begins with, its trade counter set. *)
Definition with_tradeID (t : Z) e : engine := set_core e (set_lastTradeID (core e) t).

(** Whatever the trade counter is set to in between. *)
Lemma restart_with e ps :
  consistent e ps ->
  exists e0, NewEngine (input e) (output e) = Done (inl e0) /\ with_tradeID 0 e0 = e0 /\
    forall t, exists e', Replay NotFound (with_tradeID t e0) = Done (e', None) /\
      state (core e') = state (core e) /\ input e' = input e /\ output e' = output e /\ lastTradeID (core e') = t /\
      consistent e' ps /\ dedup_adds (newDedup dedupWindow) (omap request (recent ps)) = Done (dups e').
Proof.
  intros [Hi Hh Hseq (first & ods & Ho & Hs & Hw) Happ]. pose proof (h_range _ _ _ Hi) as Hrg.
  destruct (NewEngine_ok _ _ _ _ _ _ Hi (history_requests _ _ Hh) Ho Hs Hw) as (d & Hne & Hd).
  eexists. split; [exact Hne|]. split; [done|]. intros t. set (e0 := with_tradeID t (fresh_engine _ _ _ d)).
  destruct (replay_history ps _ e0 Hh eq_refl eq_refl) as (e' & Hr & Hst & Hq & Hin).
  { intros Hn. unfold covered. cbn. destruct ps; [done|]. simpl. lia. }
  { lia. }
  { intros k p Hk. rewrite Z.add_comm. by apply (holds_read _ ps). }
  assert (Hrep : Replay NotFound e0 = Done (e', None)).
  { unfold Replay, restore_latest, LastIndex. change (input e0) with (input e).
    rewrite (h_last _ _ _ Hi). destruct (decide (ps = [])) as [Hn|Hn].
    - rewrite Hn in Hr. exact Hr.
    - replace (Z.to_nat (1 + Z.of_nat (length ps) - 1 - 0)) with (length ps) by lia. exact Hr. }
  destruct Hq as [Q1 Q2 Q3 Q4 Q5]. exists e'.
  split_and!; [done|done|by rewrite Q1|by rewrite Q2|by rewrite Q5| |by rewrite Q3]. split.
  - by rewrite Q1.
  - by rewrite Hst.
  - done.
  - exists first, ods. by rewrite Q2.
  - rewrite Q4. cbn. lia.
Qed.

Lemma restart_ok e ps :
  consistent e ps ->
  exists e0 e', NewEngine (input e) (output e) = Done (inl e0) /\ Replay NotFound e0 = Done (e', None) /\
    state (core e') = state (core e) /\ output e' = output e /\ consistent e' ps /\
    dedup_adds (newDedup dedupWindow) (omap request (recent ps)) = Done (dups e').
Proof.
  intros Hc. destruct (restart_with e ps Hc) as (e0 & Hne & Ht & Hr). destruct (Hr 0) as (e' & Hrep & Hst & _ & Ho & _ & Hc' & Hd).
  rewrite Ht in Hrep. by exists e0, e'.
Qed.

(** ** A crash between the two logs *)

(** Two runs of a record from the same ledger agree on the ledger: both agree
    with a run whose output exists already. *)
Lemma record_deterministic i pat dat e1 e1' e2 e2' :
  known pat = true -> state (core e1) = state (core e2) ->
  replay_record i pat dat e1 = Done (e1', None) -> replay_record i pat dat e2 = Done (e2', None) ->
  state (core e1') = state (core e2').
Proof.
  intros Hk Hs H1 H2. set (e3 := set_applied e1 (Z.max i 1)).
  assert (Hc : covered e3 i) by (unfold covered; cbn; lia).
  destruct (record_replay i pat dat e1 e1' e3 Hk eq_refl H1) as [R1 _].
  destruct (record_replay i pat dat e2 e2' e3 Hk (eq_sym Hs) H2) as [R2 _].
  destruct (R1 Hc) as (k1 & Hk1 & <- & _). destruct (R2 Hc) as (k2 & Hk2 & <- & _). congruence.
Qed.

(** The request was logged and its output was not written: the restart reaches
    the ledger before the request and processes the request again. *)
Lemma crash_ok p e e' ps t :
  consistent e ps -> room (input e) -> room (output e) -> accepted p e e' ->
  exists e0 e1 pat dat,
    NewEngine (input e') (output e) = Done (inl e0) /\
    Unmarshal_envelope p = Some (pat, dat) /\
    state (core e1) = state (core e) /\ output e1 = output e /\ lastTradeID (core e1) = t /\
    Replay NotFound (with_tradeID t e0) = replay_record (Z.of_nat (length ps) + 1) pat dat e1 /\
    forall e2, replay_record (Z.of_nat (length ps) + 1) pat dat e1 = Done (e2, None) ->
      state (core e2) = state (core e') /\ consistent e2 (ps ++ [p]).
Proof.
  intros Hc Hri Hro [(pat & dat & id & e1 & Henv & Hk & Hid & _ & Hlog & Hrec)].
  destruct (logInput_spec _ _ _ _ _ _ Hc Hri Hlog) as (Hi1 & Hs1 & Hst1 & Ho1 & Ha1 & _).
  destruct Hc as [Hi Hhist Hseq (first & ods & Hout & Hsta & Hwm) Happ].
  rewrite length_app, Nat2Z.inj_add in Hs1. rewrite Hs1 in Hrec.
  destruct (record_replay _ pat dat e1 e' e1 Hk eq_refl Hrec) as [_ Hw].
  assert (Hin' : input e' = input e1).
  { apply Hw; [|lia]. unfold live. cbn. rewrite Z.gtb_ltb. apply orb_true_iff. right. apply Z.ltb_lt. lia. }
  rewrite Hin'. pose proof (h_range _ _ _ Hi1) as Hrg. rewrite length_app in Hrg. cbn [length] in Hrg.
  assert (Hreq : Forall (fun q => is_Some (request q)) (ps ++ [p])).
  { apply Forall_app. split; [by eapply history_requests|]. apply Forall_singleton. unfold request. rewrite Henv, Hid. eauto. }
  destruct (NewEngine_ok _ _ _ _ _ _ Hi1 Hreq Hout Hsta Hwm) as (d & -> & _).
  set (e01 := fresh_engine _ _ _ d).
  set (e02 := with_tradeID t e01).
  destruct (replay_history ps _ e02 Hhist eq_refl eq_refl) as (k & Hr & Hst & Hq & Hin).
  { intros Hne. unfold covered. cbn. destruct ps; [done|]. simpl. lia. }
  { lia. }
  { intros j q Hj. rewrite Z.add_comm. apply (holds_read _ (ps ++ [p])); [exact Hi1|]. by apply lookup_app_l_Some. }
  destruct Hq as [Q1 Q2 Q3 Q4 Q5]. exists e01, k, pat, dat. split_and!; [done|done|done|by rewrite Q2|by rewrite Q5| |].
  - unfold Replay, restore_latest, LastIndex. change (input (with_tradeID t e01)) with (input e1).
    rewrite (h_last _ _ _ Hi1), decide_False by (by destruct ps). rewrite length_app. cbn [length].
    replace (Z.to_nat _) with (S (length ps)) by lia. fold e02. change (0 ⊕ 1) with 1.
    rewrite (replay_from_snoc _ _ _ k p pat dat); [f_equal; lia|lia|lia|done| |done].
    rewrite Q1. apply (holds_read _ (ps ++ [p])); [exact Hi1|]. by apply list_lookup_middle.
  - intros e2 H2. split; [symmetry; eapply record_deterministic; [done| |done|done]; congruence|].
    apply (record_consistent ps p pat dat id k e2 first ods); rewrite ?Q1, ?Q2, ?Q4, ?Hst; try done. cbn. lia.
Qed.

(** ** Runs *)

(** A run of the main loop: deliveries and snapshot ticks, in any order, with
    the payloads that were delivered. The saver is not part of it, so the logs
    are not truncated. *)
Inductive runs : engine -> list bytes -> engine -> Prop :=
  | runs_nil e : runs e [] e
  | runs_deliver e p e1 ps e2 :
      room (input e) -> room (output e) -> run_step (Deliver p) e = Done (Running e1) ->
      runs e1 ps e2 -> runs e (p :: ps) e2
  | runs_tick e e1 ps e2 :
      run_step SnapshotTick e = Done (Running e1) -> runs e1 ps e2 -> runs e ps e2.

Lemma snapshot_consistent e e' err ps : snapshot e = Done (e', err) -> consistent e ps -> consistent e' ps.
Proof.
  unfold snapshot. destruct (Serialize _) as [[dat|err']|]; [| |done]; cbn [obind]; intros [= <- <-] Hc; [|done].
  destruct Hc as [H1 H2 H3 H4 H5]. by split.
Qed.

(** The payloads that were logged are some of those delivered, in order. *)
Lemma runs_consistent e qs e' ps :
  runs e qs e' -> consistent e ps -> exists logged, sublist logged qs /\ consistent e' (ps ++ logged).
Proof.
  intros Hr. revert ps. induction Hr as [e|e p e1 qs e2 Hri Hro Hs Hr IH|e e1 qs e2 Hs Hr IH]; intros ps Hc.
  - exists []. by rewrite app_nil_r.
  - cbn [run_step] in Hs. destruct (handle p e) as [[e1' r]|] eqn:Hh; [|done]. cbn [obind] in Hs.
    assert (Hf : e1' = e1 /\ forall err, r <> Failed err) by (destruct r; naive_solver). destruct Hf as [-> Hf].
    destruct (handle_consistent _ _ _ _ _ Hc Hri Hro Hh Hf) as [Hc1|Hc1]; destruct (IH _ Hc1) as (lg & Hsub & Hc2).
    + exists lg. split; [by apply sublist_cons|done].
    + exists (p :: lg). split; [by apply sublist_skip|]. by rewrite <- app_assoc in Hc2.
  - cbn [run_step] in Hs. destruct (snapshot e) as [[e1' err]|] eqn:Hh; [|done]. cbn [obind] in Hs.
    injection Hs as ->. apply IH. by eapply snapshot_consistent.
Qed.

(** ** Lives without the saver *)

(** From a new installation: runs of the loop, restarts from the two logs, and
    crashes between the logs with a restart after them, whatever trade counter the
    restart finds; with the payloads that were delivered. *)
Inductive lived : engine -> list bytes -> Prop :=
  | lived_new w1 w2 e : holds w1 1 [] -> holds w2 1 [] -> NewEngine w1 w2 = Done (inl e) -> lived e []
  | lived_run e qs ps e' : lived e qs -> runs e ps e' -> lived e' (qs ++ ps)
  | lived_restart e qs e0 t e' :
      lived e qs -> NewEngine (input e) (output e) = Done (inl e0) -> Replay NotFound (with_tradeID t e0) = Done (e', None) ->
      lived e' qs
  | lived_crash e qs p e1 e0 t e' :
      lived e qs -> room (input e) -> room (output e) -> accepted p e e1 ->
      NewEngine (input e1) (output e) = Done (inl e0) -> Replay NotFound (with_tradeID t e0) = Done (e', None) ->
      lived e' (qs ++ [p]).

Lemma lived_consistent e qs : lived e qs -> exists ps, sublist ps qs /\ consistent e ps.
Proof.
  induction 1 as [w1 w2 e Hi Ho Hne|e qs qs' e' _ (ps & Hsub & Hc) Hr|e qs e0 t e' _ (ps & Hsub & Hc) Hne Hrep
    |e qs p e1 e0 t e' _ (ps & Hsub & Hc) Hri Hro Hacc Hne Hrep].
  - destruct (NewEngine_ok w1 w2 [] 1 [] 0 Hi (Forall_nil_2 _) Ho (fun _ => eq_refl) eq_refl) as (d & Hn & _).
    rewrite Hn in Hne. injection Hne as <-. exists []. split; [done|]. split; [exact Hi|constructor|done|by exists 1, []|done].
  - destruct (runs_consistent _ _ _ _ Hr Hc) as (lg & Hl & Hc'). exists (ps ++ lg). split; [by apply sublist_app|done].
  - destruct (restart_with e ps Hc) as (e0' & Hne' & _ & Hr). rewrite Hne' in Hne. injection Hne as <-.
    destruct (Hr t) as (e2 & Hrep' & _ & _ & _ & _ & Hc' & _). rewrite Hrep' in Hrep. injection Hrep as <-. by exists ps.
  - destruct (crash_ok p e e1 ps t Hc Hri Hro Hacc) as (e0' & e2 & pat & dat & Hne' & _ & _ & _ & _ & Hrep' & Hdone).
    rewrite Hne' in Hne. injection Hne as <-. rewrite Hrep' in Hrep. exists (ps ++ [p]).
    split; [by apply sublist_app|]. by apply (Hdone e').
Qed.
End consistency.
