(* ===== verification/SnapshotReplay.v ===== *)
(** * Replaying the input log over a restored ledger

    A record whose output exists already has related effects on related
    ledgers. So replaying, over a ledger that a snapshot restored, the records
    logged after the snapshot reaches the ledger that the engine had, up to the
    relation of [LedgerSim], and writes nothing. *)

From S2P Require Import Prelude Domain Slices OrderBook BookSpec Ledger Snapshot BookSim Events Matching Validation Orders Transfer Admin LedgerSim MatchSim.
From S2P Require Import MatchLoop TradeIds Dedup Wal Engine Recovery Determinism Replays Consistency.

Lemma NewState_equiv : NewState ≡ NewState.
Proof. split; try done. intros i. constructor. Qed.

(** A well-formed ledger is related to itself. *)
Lemma wf_state_refl s : wf_state s -> s ≡ s.
Proof.
  intros Hw. apply wf_state_equiv; [done..|]. split; [done..|]. intros i. by destruct (s_OrderBooks s !! i).
Qed.

Section snapshot_replay.
Context `{!Clock} {bytes log : Type} `{!Codec bytes, !Proto bytes, !Twal bytes log}.
Abbreviation engine := (Engine bytes log).
Implicit Types (e : engine) (s : State).

(** Engines that differ in their ledgers only. *)
Record engine_related e e' : Prop := {
  er_core : core e ≡ core e';
  er_input : input e = input e';
  er_output : output e = output e';
  er_dups : dups e = dups e';
  er_snapshots : snapshots e = snapshots e';
  er_signal : outputSignal e = outputSignal e'
}.
#[local] Instance engine_equiv : Equiv engine := engine_related.

Lemma set_core_equiv e e' c c' : e ≡ e' -> c ≡ c' -> set_core e c ≡ set_core e' c'.
Proof. intros [] ?. by split. Qed.

Lemma set_seq_equiv i e e' : e ≡ e' -> set_seq e i ≡ set_seq e' i.
Proof. intros He. apply set_core_equiv; [done|]. apply set_inputSeq_proper; [apply He|done]. Qed.

Lemma set_ledger_related e s : s ≡ state (core e) -> set_ledger e s ≡ e.
Proof. intros Hs. by split. Qed.

Lemma covered_equiv i e e' : e ≡ e' -> covered e i -> covered e' i.
Proof. intros He. unfold covered. by rewrite (cr_applied _ _ (er_core _ _ He)). Qed.

(** A run that succeeds is matched by a related run. *)
Definition matched_run {A} (R : relation A) (m m' : outcome A) : Prop :=
  forall a, m = Done a -> exists a', m' = Done a' /\ R a a'.

Definition ok_related : relation (engine * option run_error) := prod_relation (≡) (=).

Lemma set_core_covered e c i :
  same_seq (core e) c -> inputSeq (core e) = i -> covered e i -> covered (set_core e c) (inputSeq (core (set_core e c))).
Proof. intros [H1 H2] Hi. unfold covered. cbn. rewrite H1, H2, Hi. done. Qed.

(** The output of a record that has it already. *)
Lemma must_covered e e' evs evs' :
  e ≡ e' -> covered e (inputSeq (core e)) -> matched_run (≡) (mustAppend e evs) (mustAppend e' evs').
Proof.
  intros He Hc a Ha. apply mustAppend_Done in Ha. rewrite appendOutput_covered in Ha by done. injection Ha as <-.
  exists e'. split; [|done]. apply mustAppend_Done, appendOutput_covered.
  rewrite <- (cr_inputSeq _ _ (er_core _ _ He)). by eapply covered_equiv.
Qed.

Lemma partial_related f e e' :
  replayable f -> (forall c c', c ≡ c' -> outcome_rel result_related (f c) (f c')) ->
  e ≡ e' -> covered e (inputSeq (core e)) ->
  forall e1, append_result (f (core e)) e = Done (e1, None) ->
  exists e1', append_result (f (core e')) e' = Done (e1', None) /\ e1 ≡ e1'.
Proof.
  intros Hr Hf He Hc e1. unfold append_result.
  pose proof (Hf _ _ (er_core _ _ He)) as Hfc. destruct (f (core e)) as [[c r]|] eqn:Hfe; [|done].
  destruct (outcome_rel_Done _ _ _ _ Hfc eq_refl) as ([c' r'] & -> & Hcc & Hrr). cbn [obind fst snd] in *.
  destruct Hrr as [evs evs' _|]; [|done]. destruct (mustAppend (set_core e c) evs) as [e2|] eqn:Hm; [|done].
  cbn [obind]. intros [= <-].
  destruct (Hr _ _ _ _ eq_refl (live_seq e _ eq_refl Hc) Hfe) as (_ & Hseq & _).
  destruct (must_covered (set_core e c) (set_core e' c') evs evs') with (a := e2) as (e2' & -> & He2); [| |done|].
  - by apply set_core_equiv.
  - by eapply set_core_covered.
  - cbn [obind]. by exists e2'.
Qed.

Lemma total_must_related f e e' :
  replayable_total f -> (forall c c', c ≡ c' -> total_related (f c) (f c')) ->
  e ≡ e' -> covered e (inputSeq (core e)) ->
  matched_run (≡) (let '(c, evs) := f (core e) in mustAppend (set_core e c) evs)
    (let '(c, evs) := f (core e') in mustAppend (set_core e' c) evs).
Proof.
  intros Hr Hf He Hc. destruct (Hr (core e) (core e) eq_refl) as (_ & _ & (H1 & H2 & _) & _).
  destruct (Hf _ _ (er_core _ _ He)) as [Hcc _]. destruct (f (core e)) as [c evs], (f (core e')) as [c' evs'].
  apply must_covered; [by apply set_core_equiv|]. by apply (set_core_covered e c (inputSeq (core e))).
Qed.

(** The same for the requests that report the failure of the append. *)
Lemma total_append_related f e e' :
  replayable_total f -> (forall c c', c ≡ c' -> total_related (f c) (f c')) ->
  e ≡ e' -> covered e (inputSeq (core e)) ->
  forall e1, (let '(c, evs) := f (core e) in appendOutput (set_core e c) evs) = (e1, None) ->
  exists e1', (let '(c, evs) := f (core e') in appendOutput (set_core e' c) evs) = (e1', None) /\ e1 ≡ e1'.
Proof.
  intros Hr Hf He Hc e1 Ha. pose proof (total_must_related f e e' Hr Hf He Hc) as Hm.
  destruct (f (core e)) as [c evs], (f (core e')) as [c' evs'].
  destruct (Hm e1) as (e1' & He1 & ?); [by apply mustAppend_Done|]. exists e1'. split; [|done]. by apply mustAppend_Done.
Qed.

Lemma route_related order e e' :
  e ≡ e' -> covered e (inputSeq (core e)) ->
  forall e1, route order e = Done (e1, None) -> exists e1', route order e' = Done (e1', None) /\ e1 ≡ e1'.
Proof.
  intros He Hc e1. unfold route, match_order, edit, cancel. destruct (o_TradingType order); [..|done].
  1-2: apply partial_related; [apply matchEvents_replayable|intros ?? Hcc; by apply matchEvents_equiv|done..].
  - apply partial_related; [apply editEvents_replayable|intros ?? Hcc; by apply editEvents_equiv|done..].
  - apply partial_related; [apply cancelEvents_replayable|intros ?? Hcc; by apply cancelEvents_equiv|done..].
Qed.

Lemma order_related order e e' :
  e ≡ e' -> covered e (inputSeq (core e)) ->
  forall e1, replay_order order e = Done (e1, None) -> exists e1', replay_order order e' = Done (e1', None) /\ e1 ≡ e1'.
Proof.
  intros He Hc e1. unfold replay_order.
  destruct (validateOrder_equiv order _ _ (cr_state _ _ (er_core _ _ He))) as [Hs Hr].
  destruct (validateOrder order (state (core e))) as [s r], (validateOrder order (state (core e'))) as [s' r'].
  cbn in Hs, Hr. subst r'.
  assert (Hl : set_ledger e s ≡ set_ledger e' s').
  { apply set_core_equiv; [done|]. by apply set_state_proper; [apply He|]. }
  destruct r as [r|].
  - unfold appendReject. intros Ha%Done_inj. rewrite appendOutput_covered in Ha by done. injection Ha as <-.
    exists (set_ledger e' s'). split; [|done]. f_equal. apply appendOutput_covered. cbn.
    rewrite <- (cr_inputSeq _ _ (er_core _ _ He)). unfold covered. cbn.
    rewrite <- (cr_applied _ _ (er_core _ _ He)). exact Hc.
  - by apply route_related.
Qed.

(** One record over related ledgers. *)
Lemma record_related i pat dat e e' :
  e ≡ e' -> covered e i ->
  forall e1, replay_record i pat dat e = Done (e1, None) ->
  exists e1', replay_record i pat dat e' = Done (e1', None) /\ e1 ≡ e1'.
Proof.
  intros He Hc e1. unfold replay_record.
  pose proof (set_seq_equiv i _ _ He) as Hs.
  assert (Hcs : covered (set_seq e i) (inputSeq (core (set_seq e i)))) by exact Hc.
  destruct (String.eqb pat PatternOrderCreated).
  { destruct (Unmarshal_Order dat); [|done]. by apply order_related. }
  destruct (String.eqb pat PatternAccountCreated).
  { destruct (Unmarshal_Account dat) as [a|]; [|done]. rewrite no_error_Done. intros Ha. setoid_rewrite no_error_Done.
    revert Ha. apply (total_must_related (activateAccountEvents a)); auto using activateAccountEvents_replayable, activateAccountEvents_equiv. }
  destruct (String.eqb pat PatternTransferCreated).
  { destruct (Unmarshal_Transfer dat) as [t|]; [|done]. intros Ha%Done_inj.
    destruct (total_append_related (transferEvents t) _ _ (transferEvents_replayable t) (transferEvents_equiv t) Hs Hcs _ Ha)
      as (e1' & Ha' & ?). exists e1'. split; [|done]. f_equal. exact Ha'. }
  destruct (String.eqb pat PatternStockList).
  { destruct (Unmarshal_Stock dat) as [st|]; [|done]. rewrite no_error_Done. intros Ha. setoid_rewrite no_error_Done.
    revert Ha. apply (total_must_related (setStockStatusEvents st LISTED PatternStockListed)); auto using setStockStatusEvents_replayable, setStockStatusEvents_equiv. }
  destruct (String.eqb pat PatternAdminBalanceAdjust).
  { destruct (Unmarshal_BalanceAdjust dat) as [r|]; [|done]. rewrite no_error_Done. intros Ha. setoid_rewrite no_error_Done.
    revert Ha. apply (total_must_related (balanceAdjustEvents r)); auto using balanceAdjustEvents_replayable, balanceAdjustEvents_equiv. }
  destruct (String.eqb pat PatternAdminStockBalanceAdjust).
  { destruct (Unmarshal_StockBalanceAdjust dat) as [r|]; [|done]. rewrite no_error_Done. intros Ha. setoid_rewrite no_error_Done.
    revert Ha. apply (total_must_related (stockBalanceAdjustEvents r)); auto using stockBalanceAdjustEvents_replayable, stockBalanceAdjustEvents_equiv. }
  intros [= <-]. by exists e'.
Qed.

Lemma quiet_related e e' e1 e1' : e ≡ e' -> e1 ≡ e1' -> quiet e e1 -> quiet e' e1'.
Proof. intros [[] ?????] [[] ?????] []. split; congruence. Qed.

(** The effect of a record, transferred to a related ledger. *)
Lemma effect_related i p s s' e :
  effect i p s s' -> s ≡ state (core e) -> covered e i ->
  exists pat dat e', Unmarshal_envelope p = Some (pat, dat) /\ replay_record i pat dat e = Done (e', None) /\
    s' ≡ state (core e') /\ quiet e e' /\ inputSeq (core e') = i.
Proof.
  intros (pat & dat & id & Henv & _ & _ & Heff) Hs Hc.
  pose proof (set_ledger_related e s Hs) as He.
  assert (Hc1 : covered (set_ledger e s) i) by exact Hc.
  destruct (Heff (set_ledger e s) eq_refl Hc1) as (e1 & Hr & Hst & Hq & Hi).
  destruct (record_related i pat dat _ _ He Hc1 _ Hr) as (e' & Hr' & He').
  exists pat, dat, e'. split_and!; [done|done| | |].
  - rewrite <- Hst. apply He'.
  - by eapply quiet_related.
  - rewrite <- Hi. symmetry. apply He'.
Qed.

(** ** Effects in sequence *)

(** [effects i ps s s']: from [s] the payloads [ps], logged from index [i], lead
    to [s']; in between the ledger may have been replaced by a related one. *)
Inductive effects (i : Z) (s : State) : list bytes -> State -> Prop :=
  | effects_nil : effects i s [] s
  | effects_snoc ps p s1 s2 :
      effects i s ps s1 -> effect (i + Z.of_nat (length ps)) p s1 s2 -> effects i s (ps ++ [p]) s2
  | effects_swap ps s1 s2 : effects i s ps s1 -> s1 ≡ s2 -> effects i s ps s2.

Lemma history_effects ps s : history ps s -> effects 1 NewState ps s.
Proof.
  induction 1 as [|ps p s s' _ IH He]; [constructor|]. econstructor; [exact IH|].
  by replace (1 + Z.of_nat (length ps)) with (Z.of_nat (length ps) + 1) by lia.
Qed.

Lemma effects_requests i s ps s' : effects i s ps s' -> Forall (fun p => is_Some (request p)) ps.
Proof.
  induction 1 as [|ps p s1 s2 _ IH (pat & dat & id & Henv & _ & Hid & _)|]; [constructor| |done].
  apply Forall_app. split; [done|]. apply Forall_singleton. unfold request. rewrite Henv, Hid. eauto.
Qed.

(** Replaying them over a related ledger. *)
Lemma replay_effects i ps s s' e0 :
  effects i s ps s' -> s ≡ state (core e0) -> 1 <= i ->
  inputSeq (core e0) = i - 1 -> (ps <> [] -> covered e0 (i + Z.of_nat (length ps) - 1)) ->
  i + Z.of_nat (length ps) < two64 ->
  (forall k p, ps !! k = Some p -> Read (input e0) (i + Z.of_nat k) = inl p) ->
  exists e, replay_from (length ps) i e0 = Done (e, None) /\ s' ≡ state (core e) /\ quiet e0 e /\
    inputSeq (core e) = i + Z.of_nat (length ps) - 1.
Proof.
  intros Hef Hs0 Hi Hi0. induction Hef as [|ps p s1 s2 _ IH He|ps s1 s2 _ IH Hss]; intros Hcov Hb Hread.
  - exists e0. split_and!; [done|done|done|]. cbn. lia.
  - rewrite length_app in *. cbn [length] in *.
    assert (Hcov0 : covered e0 (i + Z.of_nat (length ps + 1) - 1)) by (apply Hcov; by destruct ps).
    destruct IH as (e1 & Hr1 & Hs1 & Hq1 & Hi1).
    { intros _. unfold covered in *. lia. }
    { lia. }
    { intros k q Hk. apply Hread. by apply lookup_app_l_Some. }
    destruct (effect_related _ _ _ _ e1 He Hs1) as (pat & dat & e2 & Henv & Hr2 & Hs2 & Hq2 & Hi2).
    { unfold covered in *. rewrite (q_applied _ _ Hq1). lia. }
    exists e2. split_and!; [|done|by eapply quiet_trans|rewrite Hi2; lia].
    rewrite Nat.add_1_r. rewrite (replay_from_snoc _ _ _ e1 p pat dat); [done|lia|lia|done| |done].
    rewrite (q_input _ _ Hq1). apply Hread. by apply list_lookup_middle.
  - destruct IH as (e1 & Hr1 & Hs1 & Hq1 & Hi1); [done..|]. exists e1. split_and!; [done| |done|done].
    symmetry in Hss. by etrans.
Qed.
End snapshot_replay.
