(* ===== verification/TradeRecovery.v ===== *)
(** * Trade ids across restarts

    [counted base e]: the trades in the output WAL of [e] have the consecutive ids
    from [base + 1] up to the engine's counter. Handling requests keeps this, and
    the search that a restart makes through the output WAL finds the counter. *)

From S2P Require Import Prelude Domain Slices OrderBook Ledger Events Matching Validation Orders Transfer Admin MatchLoop TradeIds.
From S2P Require Import Dedup Wal Engine Recovery Determinism Replays Consistency.

Section counting.
Context `{!Clock} {bytes log : Type} `{!Codec bytes, !CodecLaws bytes, !Proto bytes}.
Context `{!Twal bytes log, !TwalLaws bytes log}.
Abbreviation engine := (Engine bytes log).
Implicit Types (e : engine) (ods : list bytes) (ids : list Z).

(** The trade ids of encoded events, of a record, and of a log. *)
Fixpoint event_ids (evs : list (OutputEvent bytes)) : option (list Z) :=
  match evs with
  | [] => Some []
  | ev :: evs =>
      if String.eqb (oev_Pattern ev) PatternTradeExecuted then
        t ← Unmarshal_Trade (oev_Data ev); ids ← event_ids evs; Some (tr_Id t :: ids)
      else event_ids evs
  end.

Definition record_ids (d : bytes) : option (list Z) :=
  env ← Unmarshal_OutputEnvelope d; event_ids (env_Events env).

Fixpoint log_ids (ds : list bytes) : option (list Z) :=
  match ds with
  | [] => Some []
  | d :: ds => ids ← record_ids d; rest ← log_ids ds; Some (ids ++ rest)
  end.

(** Encoding keeps the ids. *)
Lemma marshal_ids evs out :
  Forall tagged evs -> marshal_events evs = Some out -> event_ids out = Some (tr_Id <$> trades_of evs).
Proof.
  intros Ht. revert out. induction Ht as [|ev evs Hev Ht IH]; intros out; cbn [marshal_events]; [by intros [= <-]|].
  destruct (Marshal_data (data ev)) as [raw|] eqn:Hd; [|done]. cbn.
  destruct (marshal_events evs) as [rest|]; [|done]. cbn. intros [= <-]. cbn [event_ids oev_Pattern oev_Data].
  specialize (IH _ eq_refl). unfold tagged in Hev. unfold trades_of in *. csimpl.
  destruct (data ev) as [t| | | | | | | | | |].
  { rewrite Hev. cbn. by rewrite (codec_trade _ _ Hd), IH. }
  all: destruct (String.eqb_spec (pattern ev) PatternTradeExecuted); [done|exact IH].
Qed.

Lemma event_ids_app evs1 evs2 ids :
  event_ids (evs1 ++ evs2) = Some ids ->
  exists ids1 ids2, event_ids evs1 = Some ids1 /\ event_ids evs2 = Some ids2 /\ ids = ids1 ++ ids2.
Proof.
  revert ids. induction evs1 as [|ev evs1 IH]; intros ids; cbn [event_ids app]; [eauto|].
  destruct (String.eqb _ _); [|apply IH].
  destruct (Unmarshal_Trade _) as [t|]; [|done]. cbn. destruct (event_ids (evs1 ++ evs2)) as [ids'|]; [|done]. cbn.
  intros [= <-]. destruct (IH _ eq_refl) as (ids1 & ids2 & -> & -> & ->). cbn. eauto.
Qed.

Lemma log_ids_snoc ods d ids ids' :
  log_ids ods = Some ids -> record_ids d = Some ids' -> log_ids (ods ++ [d]) = Some (ids ++ ids').
Proof.
  revert ids. induction ods as [|d0 ods IH]; intros ids; cbn [log_ids app].
  - intros [= <-] ->. cbn. by rewrite app_nil_r.
  - destruct (record_ids d0) as [i0|]; [|done]. cbn. destruct (log_ids ods) as [rest|]; [|done]. cbn.
    intros [= <-] Hd. rewrite (IH _ eq_refl Hd). cbn. by rewrite app_assoc.
Qed.

Lemma log_ids_app ods d ids :
  log_ids (ods ++ [d]) = Some ids ->
  exists ids1 ids2, log_ids ods = Some ids1 /\ record_ids d = Some ids2 /\ ids = ids1 ++ ids2.
Proof.
  revert ids. induction ods as [|d0 ods IH]; intros ids; cbn [log_ids app].
  - destruct (record_ids d) as [i0|]; [|done]. cbn. intros [= <-]. rewrite app_nil_r. by exists [], i0.
  - destruct (record_ids d0) as [i0|]; [|done]. cbn. destruct (log_ids (ods ++ [d])) as [rest|]; [|done]. cbn.
    intros [= <-]. destruct (IH _ eq_refl) as (ids1 & ids2 & -> & Hd & ->). exists (i0 ++ ids1), ids2.
    by rewrite app_assoc.
Qed.

(** ** The search *)

Definition last_positive ids : option Z := last (filter (fun i => 0 < i) ids).

Lemma last_positive_app ids1 ids2 :
  last_positive (ids1 ++ ids2) = match last_positive ids2 with Some i => Some i | None => last_positive ids1 end.
Proof. unfold last_positive. rewrite filter_app, last_app. by destruct (last (filter _ ids2)). Qed.

Lemma last_trade_rev_ok evs ids :
  event_ids evs = Some ids -> last_trade_rev (rev evs) = Some (last_positive ids).
Proof.
  revert ids. induction evs as [|ev evs IH] using rev_ind; intros ids; [by intros [= <-]|].
  intros (ids1 & ids2 & H1 & H2 & ->)%event_ids_app. rewrite rev_app_distr. cbn [rev app last_trade_rev].
  cbn [event_ids] in H2. destruct (String.eqb _ _); cbn [negb].
  - destruct (Unmarshal_Trade _) as [t|]; [|done]. cbn in H2. injection H2 as <-. rewrite last_positive_app.
    unfold last_positive at 1. rewrite filter_cons, Z.gtb_ltb. destruct (Z.ltb_spec 0 (tr_Id t)).
    + by rewrite decide_True.
    + rewrite decide_False by lia. cbn. by apply IH.
  - injection H2 as <-. rewrite app_nil_r. by apply IH.
Qed.

Lemma find_trade_ok (w : log) first ods rest ids :
  holds w first (ods ++ rest) -> log_ids ods = Some ids ->
  find_trade (length ods) (first + Z.of_nat (length ods) - 1) w = inl (last_positive ids).
Proof.
  intros Hh. revert rest ids Hh. induction ods as [|d ods IH] using rev_ind; intros rest ids Hh; [by intros [= <-]|].
  intros (ids1 & ids2 & H1 & H2 & ->)%log_ids_app. rewrite length_app, Nat.add_1_r. cbn [find_trade].
  pose proof (h_pos _ _ _ Hh). pose proof (h_range _ _ _ Hh) as Hr. rewrite !length_app in Hr. cbn [length] in Hr.
  replace (first + Z.of_nat (S (length ods)) - 1) with (next_index first ods) by (unfold next_index; lia).
  rewrite <- app_assoc in Hh. unfold Read. rewrite (h_read _ _ _ Hh).
  assert (He : entry_at first (ods ++ [d] ++ rest) (next_index first ods) = Some d).
  { unfold entry_at, next_index. destruct (Z.leb_spec first (first + Z.of_nat (length ods))); [|lia].
    replace (Z.to_nat _) with (length ods) by lia. by apply list_lookup_middle. }
  rewrite He. unfold record_ids in H2. destruct (Unmarshal_OutputEnvelope d) as [env|]; [|done]. cbn in H2.
  rewrite (last_trade_rev_ok _ _ H2), last_positive_app. destruct (last_positive ids2) as [i|]; [done|].
  unfold next_index. rewrite sub64_exact by (unfold two64 in *; lia). by apply (IH ([d] ++ rest)).
Qed.

(** ** The counter *)

Record counted (base : Z) e : Prop := {
  ct_base : 0 <= base <= lastTradeID (core e);
  ct_log : exists first ods, holds (output e) first ods /\ started first ods /\
    log_ids ods = Some (seqZ (base + 1) (lastTradeID (core e) - base))
}.

Lemma last_positive_seqZ base n :
  0 <= base -> 0 <= n -> default base (last_positive (seqZ (base + 1) n)) = base + n.
Proof.
  intros Hb Hn. unfold last_positive. rewrite filter_all.
  - destruct (decide (n = 0)) as [->|Hne]; [change (seqZ (base + 1) 0) with (@nil Z); cbn; lia|].
    replace n with (Z.of_nat (S (Z.to_nat (n - 1)))) at 1 by lia. rewrite seqZ_S, last_snoc. cbn. lia.
  - intros x [? _]%elem_of_seqZ. lia.
Qed.

Lemma initializeTradeID_ok base e e0 :
  counted base e -> output e0 = output e ->
  initializeTradeID (Some (Some base)) e0 = (with_tradeID (lastTradeID (core e)) e0, None).
Proof.
  intros [Hb (first & ods & Hh & Hs & Hids)] Ho. unfold initializeTradeID, LastIndex, FirstIndex. rewrite Ho.
  rewrite (h_last _ _ _ Hh), (h_first _ _ _ Hh). pose proof (h_pos _ _ _ Hh).
  assert (Hf : find_trade (search_length (if decide (ods = []) then 0 else first)
      (if decide (ods = []) then 0 else first + Z.of_nat (length ods) - 1))
      (if decide (ods = []) then 0 else first + Z.of_nat (length ods) - 1) (output e) =
    inl (last_positive (seqZ (base + 1) (lastTradeID (core e) - base)))).
  { rewrite <- (app_nil_r ods) in Hh. case_decide as Hd.
    - subst ods. injection Hids as <-. done.
    - rewrite <- (find_trade_ok _ _ _ _ _ Hh Hids). f_equal. unfold search_length. lia. }
  rewrite Hf. pose proof (last_positive_seqZ base (lastTradeID (core e) - base)) as Hl.
  destruct (last_positive _) as [i|]; cbn in Hl.
  - rewrite Hl by lia. unfold with_tradeID. do 3 f_equal. lia.
  - destruct (Z.ltb_spec base 0); [lia|]. unfold with_tradeID. do 3 f_equal. lia.
Qed.

(** Handling a delivery keeps the count. *)
Lemma logInput_lastID payload kind id e e1 :
  logInput payload kind id e = Done e1 -> lastTradeID (core e1) = lastTradeID (core e).
Proof.
  unfold logInput. destruct (Append _ _) as [w [idx|]]; [|done].
  destruct (dedup_add _ _ _); [|done]. by intros [= <-].
Qed.

Lemma handle_counted base payload e e' r ps :
  consistent e ps -> counted base e -> room (input e) -> room (output e) ->
  handle payload e = Done (e', r) -> (forall err, r <> Failed err) -> counted base e'.
Proof.
  intros Hc [Hb (first & ods & Hh & Hs & Hids)] Hri Hro Hha Hr.
  destruct (handle_cases _ _ _ _ Hha Hr) as [[-> _]|[_ [(pat & dat & id & e1 & Henv & Hk & Hid & _ & Hlog & Hrec)]]];
    [by split; [|exists first, ods]|].
  destruct (logInput_spec _ _ _ _ _ _ Hc Hri Hlog) as (_ & Hs1 & _ & Ho1 & Ha1 & _).
  apply logInput_lastID in Hlog. destruct Hc as [_ _ _ _ Happ].
  assert (Hlive : live (core (set_seq e1 (inputSeq (core e1)))) = true).
  { unfold live. cbn. rewrite Ha1, Hs1, length_app, Z.gtb_ltb. apply orb_true_iff. right. apply Z.ltb_lt. simpl. lia. }
  destruct (record_replay _ _ _ e1 e' e1 Hk eq_refl Hrec) as [_ Hw].
  destruct (Hw Hlive ltac:(lia)) as [_ _ _ _ (t & evs & out & idx & Hm & [Htag Hiss] & Hap)].
  destruct (Hiss Hlive) as [Hle Hnew]. cbn [core set_seq set_core lastTradeID set_inputSeq] in Hle, Hnew.
  rewrite Hlog in Hle, Hnew. rewrite Ho1 in Hap.
  destruct (append_holds _ _ _ _ _ _ Hh Hs (room_next _ _ _ Hro Hh Hs) Hap) as (_ & d & Hd & Hh' & Hs').
  split; [lia|]. exists first, (ods ++ [d]). split_and!; [done|done|].
  rewrite (log_ids_snoc _ _ _ (tr_Id <$> trades_of evs) Hids).
  - rewrite Hnew. f_equal.
    replace (lastTradeID (core e') - base) with
      ((lastTradeID (core e) - base) + (lastTradeID (core e') - lastTradeID (core e))) by lia.
    rewrite (seqZ_app (base + 1)) by lia. do 2 f_equal. lia.
  - unfold record_ids. rewrite (codec_envelope _ _ Hd). cbn. by apply marshal_ids.
Qed.

Lemma snapshot_counted base e e' err : snapshot e = Done (e', err) -> counted base e -> counted base e'.
Proof.
  unfold snapshot. destruct (Serialize _) as [[dat|err']|]; [| |done]; cbn [obind]; intros [= <- <-] Hc; [|done].
  destruct Hc as [H1 H2]. by split.
Qed.

Lemma runs_counted base e qs e' ps : runs e qs e' -> consistent e ps -> counted base e -> counted base e'.
Proof.
  intros Hr. revert ps. induction Hr as [e|e p e1 qs e2 Hri Hro Hs Hr IH|e e1 qs e2 Hs Hr IH]; intros ps Hc Hn; [done|..].
  - cbn [run_step] in Hs. destruct (handle p e) as [[e1' r]|] eqn:Hh; [|done]. cbn [obind] in Hs.
    assert (Hf : e1' = e1 /\ forall err, r <> Failed err) by (destruct r; naive_solver). destruct Hf as [-> Hf].
    pose proof (handle_counted _ _ _ _ _ _ Hc Hn Hri Hro Hh Hf).
    destruct (handle_consistent _ _ _ _ _ Hc Hri Hro Hh Hf); eauto.
  - cbn [run_step] in Hs. destruct (snapshot e) as [[e1' err]|] eqn:Hh; [|done]. cbn [obind] in Hs.
    injection Hs as ->. eauto using snapshot_counted, snapshot_consistent.
Qed.
End counting.
