(* ===== verification/Cleanup.v ===== *)
(** * What log cleanup keeps

    Both logs are truncated from the front while the engine runs. Truncation
    keeps what a restart reads: of the input WAL the records after the oldest
    kept snapshot and the records the duplicate windows are loaded from, of the
    output WAL its last record and everything that is not both published and
    applied. *)

From S2P Require Import Prelude Domain Slices OrderBook Ledger Events Matching Dedup Wal Engine Recovery.

(** [w'] is [w] without some records before [t]; it has the same last record. *)
Record trimmed {bytes log} `{Twal bytes log} (t : Z) (w w' : log) (first : Z) (ds : list bytes)
    (first' : Z) (ds' : list bytes) : Prop := {
  tm_holds : holds w' first' ds';
  tm_started : started first ds -> started first' ds';
  tm_first : first <= first' <= Z.max first t;
  tm_next : next_index first' ds' = next_index first ds;
  tm_last : last ds' = last ds;
  tm_entry j : t <= j -> entry_at first' ds' j = entry_at first ds j;
  tm_cut : t < next_index first ds -> t <= first'
}.

Lemma last_drop_lt {A} (l : list A) n : (n < length l)%nat -> last (drop n l) = last l.
Proof.
  intros Hn. destruct l as [|x l _] using rev_ind; [simpl in *; lia|]. rewrite length_app in Hn. simpl in Hn.
  rewrite drop_app_le by lia. by rewrite !last_snoc.
Qed.

Section cleanup.
Context `{!Clock} {bytes log : Type} `{!Codec bytes, !Proto bytes, !Twal bytes log, !TwalLaws bytes log}.
Abbreviation engine := (Engine bytes log).
Implicit Types (e : engine) (ds : list bytes).

Lemma trimmed_refl t w first ds :
  holds w first ds -> ~ first <= t < next_index first ds -> trimmed t w w first ds first ds.
Proof. intros Hh Ht. split; try done; lia. Qed.

Lemma truncate_to_ok (w w' : log) t first ds :
  holds w first ds -> truncate_to w t = (w', None) ->
  exists first' ds', trimmed t w w' first ds first' ds'.
Proof.
  intros Hh. unfold truncate_to, TruncateFront.
  destruct (decide (first <= t < first + Z.of_nat (length ds))) as [Hin|Hout].
  - destruct (twal_TruncateFront w t) as [w1 [err|]] eqn:Ht.
    + intros Heq. destruct (decide (err = ErrOutOfRange)) as [->|]; [|done].
      by destruct (twal_truncate_refused _ _ _ _ _ Hh Ht).
    + intros [= <-]. exists t, (drop (Z.to_nat (t - first)) ds). split.
      * by eapply twal_truncate.
      * intros _ Hnil. apply (f_equal length) in Hnil. rewrite length_drop in Hnil. simpl in Hnil. lia.
      * lia.
      * unfold next_index. rewrite length_drop. lia.
      * apply last_drop_lt. lia.
      * intros j Hj. apply entry_at_drop; lia.
      * lia.
  - rewrite (twal_truncate_range _ _ _ _ Hh Hout). rewrite decide_True by done. intros [= <-].
    eauto using trimmed_refl.
Qed.

(** What is left behind the cut. *)
Lemma trimmed_length t w w' first ds first' ds' :
  trimmed t w w' first ds first' ds' -> t < next_index first ds -> Z.of_nat (length ds') <= next_index first ds - t.
Proof. intros [_ _ _ Hn _ _ Hc] Ht. specialize (Hc Ht). unfold next_index in *. lia. Qed.

Lemma cleanupInputWAL_ok floor e e' first ps :
  holds (input e) first ps -> cleanupInputWAL floor e = (e', None) ->
  core e' = core e /\ output e' = output e /\ dups e' = dups e /\
  exists first' ps', trimmed (input_target floor) (input e) (input e') first ps first' ps'.
Proof.
  intros Hh. unfold cleanupInputWAL. destruct (truncate_to _ _) as [w err] eqn:Ht. intros [= <- ->].
  split_and!; [done..|]. by eapply truncate_to_ok.
Qed.

(** Every record that a restart reads is at or after the target: those after
    the oldest kept snapshot, and those of the duplicate windows. *)
Lemma input_target_low floor last :
  0 <= floor <= last -> last < two64 - 1 ->
  input_target floor <= floor + 1 /\ input_target floor <= dedup_start dedupWindow last.
Proof.
  intros Hf Hl. unfold input_target, dedup_start. rewrite (u64_small dedupWindow) by done.
  rewrite add64_exact by lia. rewrite !Z.gtb_ltb.
  destruct (Z.ltb_spec dedupWindow (floor + 1)), (Z.ltb_spec dedupWindow last); unfold dedupWindow in *; u64_simpl; lia.
Qed.

(** And at most a window before the snapshot is kept. *)
Lemma input_target_high floor last :
  0 <= floor <= last -> last < two64 - 1 -> floor - dedupWindow + 1 <= input_target floor <= Z.max 1 floor.
Proof.
  intros Hf Hl. unfold input_target. rewrite add64_exact by lia. rewrite !Z.gtb_ltb.
  destruct (Z.ltb_spec dedupWindow (floor + 1)); unfold dedupWindow in *; u64_simpl; lia.
Qed.

(** The position both consumers of the output have passed. *)
Definition output_floor (mqCursor dbCursor : Z) : Z := Z.min mqCursor dbCursor.

Lemma cleanupOutputWAL_ok mq db e e' first ods :
  holds (output e) first ods -> 0 <= mq -> 0 <= db ->
  cleanupOutputWAL (Some (Some (mq, db))) e = (e', None) ->
  core e' = core e /\ input e' = input e /\ dups e' = dups e /\
  exists first' ods', trimmed (output_floor mq db) (output e) (output e') first ods first' ods'.
Proof.
  intros Hh H1 H2. unfold cleanupOutputWAL. fold (output_floor mq db). destruct (Z.eqb_spec (output_floor mq db) 0).
  - intros [= <-]. split_and!; [done..|]. exists first, ods. apply trimmed_refl; [done|]. pose proof (h_pos _ _ _ Hh). lia.
  - destruct (truncate_to _ _) as [w err] eqn:Ht. intros [= <- ->]. split_and!; [done..|].
    by eapply truncate_to_ok.
Qed.
End cleanup.
