(* ===== verification/Windows.v ===== *)
(** * What the duplicate windows know

    The queue delivers a message again when its acknowledgement is lost. A
    request whose id is in the window of its kind changes nothing, and handling
    or restarting puts the ids of the logged requests into the windows.

    Every id in a window is the id of a logged request ([remembered]),
    so nothing is suppressed that was not logged; and every request among the last
    [dedupWindow] of the log is in its window ([known_requests]), so a request is
    logged again only when more than that many were logged since ([spaced]). A
    restart, which loads the windows from the log, keeps both. [valid] are the
    messages that the engine takes for requests. *)

From S2P Require Import Prelude Domain Slices OrderBook Ledger Events Matching Validation Orders Transfer Admin MatchLoop Dedup Wal Engine Recovery Determinism Replays Consistency.

(** An id that was added is in the window. *)
Lemma recentIDs_add_has r id r' : recentIDs_add r id = Done r' -> recentIDs_has r' id = true.
Proof.
  unfold recentIDs_add, recentIDs_has. case_bool_decide as Hin.
  - intros [= <-]. by apply bool_decide_eq_true.
  - destruct (ring r !! pos r); [|done]. intros [= <-]. apply bool_decide_eq_true. cbn. set_solver.
Qed.

Lemma dedup_add_has d kind id d' : dedup_add d kind id = Done d' -> dedup_has d' kind id = true.
Proof.
  unfold dedup_add, dedup_has. destruct (recentIDs_add _ _) as [r|] eqn:Hr; [|done]. intros [= <-]. cbn.
  rewrite lookup_insert_eq. by eapply recentIDs_add_has.
Qed.

Lemma omap_length_le {A B} (f : A -> option B) (l : list A) : (length (omap f l) <= length l)%nat.
Proof. induction l as [|x l IH]; [done|]. csimpl. destruct (f x); csimpl; lia. Qed.

Section redelivery.
Context `{!Clock} {bytes log : Type} `{!Codec bytes, !CodecLaws bytes, !Proto bytes}.
Context `{!Twal bytes log, !TwalLaws bytes log}.
Abbreviation engine := (Engine bytes log).
Implicit Types (e : engine) (ps : list bytes) (p : bytes).

(** A request whose id is known is acknowledged without effect, unless its
    handler refuses it whatever the state. *)
Lemma handle_duplicate p kind id e :
  request p = Some (kind, id) -> dedup_has (dups e) kind id = true ->
  handle p e = Done (e, Ack) \/ forall e', handle p e' = Done (e', Nack false).
Proof.
  unfold request, handle. destruct (Unmarshal_envelope p) as [[pat dat]|]; [|done]. unfold request_id.
  destruct (String.eqb_spec pat PatternOrderCreated) as [->|_].
  { unfold handleOrder. destruct (Unmarshal_Order dat); [|done]. intros [= <- <-] ->. by left. }
  destruct (String.eqb_spec pat PatternAccountCreated) as [->|_].
  { unfold handleAccountCreated. destruct (Unmarshal_Account dat); [|done]. intros [= <- <-] ->.
    destruct (Z.leb _ 0); [by right|by left]. }
  destruct (String.eqb_spec pat PatternTransferCreated) as [->|_].
  { unfold handleTransferCreated. destruct (Unmarshal_Transfer dat); [|done]. intros [= <- <-] ->. by left. }
  destruct (String.eqb_spec pat PatternStockList) as [->|_].
  { unfold handleStockListed. destruct (Unmarshal_Stock dat); [|done]. intros [= <- <-] ->.
    destruct (Z.leb _ 0); [by right|by left]. }
  destruct (String.eqb_spec pat PatternAdminBalanceAdjust) as [->|_].
  { unfold handleAdminBalanceAdjust. destruct (Unmarshal_BalanceAdjust dat); [|done]. intros [= <- <-] ->. by left. }
  destruct (String.eqb_spec pat PatternAdminStockBalanceAdjust) as [->|_]; [|done].
  unfold handleAdminStockBalanceAdjust. destruct (Unmarshal_StockBalanceAdjust dat); [|done]. intros [= <- <-] ->.
  by left.
Qed.

(** Handling a request puts its id into the window. *)
Lemma accepted_known p e e' ps :
  consistent e ps -> room (input e) -> accepted p e e' ->
  exists kind id, request p = Some (kind, id) /\ dedup_has (dups e') kind id = true.
Proof.
  intros Hc Hri [(pat & dat & id & e1 & Henv & Hk & Hid & _ & Hlog & Hrec)]. exists pat, id.
  split; [unfold request; by rewrite Henv, Hid|].
  destruct (logInput_spec _ _ _ _ _ _ Hc Hri Hlog) as (_ & Hs1 & _ & _ & Ha1 & Hd).
  destruct Hc as [_ _ _ _ Happ]. rewrite length_app, Nat2Z.inj_add in Hs1.
  destruct (record_replay _ pat dat e1 e' e1 Hk eq_refl Hrec) as [_ Hw].
  destruct Hw as [_ -> _ _ _]; [|lia|by eapply dedup_add_has].
  unfold live. cbn. rewrite Z.gtb_ltb. apply orb_true_iff. right. apply Z.ltb_lt. simpl in *. lia.
Qed.

Lemma redelivered p e e' ps :
  consistent e ps -> room (input e) -> handle p e = Done (e', Ack) -> handle p e' = Done (e', Ack).
Proof.
  intros Hc Hri Hh. destruct (handle_cases _ _ _ _ Hh ltac:(done)) as [[-> _]|[_ Ha]]; [done|].
  destruct (accepted_known _ _ _ _ Hc Hri Ha) as (kind & id & Hr & Hd).
  destruct (handle_duplicate _ _ _ _ Hr Hd) as [?|Hn]; [done|]. rewrite Hn in Hh. by injection Hh.
Qed.

(** ** After a restart *)

Lemma of_kind_elem kind id kis : id ∈ of_kind kind kis <-> (kind, id) ∈ kis.
Proof.
  unfold of_kind. rewrite list_elem_of_fmap. split.
  - intros ([k i] & -> & [Hk Hin]%list_elem_of_filter). simpl in *. by subst.
  - intros Hin. exists (kind, id). split; [done|]. by apply list_elem_of_filter.
Qed.

(** Loading at most a window's worth of requests remembers all of them. *)
Lemma loaded_known kis d kind id :
  dedup_adds (newDedup dedupWindow) kis = Done d -> (length kis <= Z.to_nat dedupWindow)%nat ->
  Forall (fun ki => snd ki <> 0) kis ->
  dedup_has d kind id = bool_decide ((kind, id) ∈ kis).
Proof.
  intros Hd Hlen Hnz.
  destruct (dedup_adds_ok kis _ _ (dedup_rep_new dedupWindow) Hnz) as (d' & m & Hd' & _ & Hrep & Hm).
  rewrite Hd' in Hd. injection Hd as <-. rewrite (dedup_rep_has _ _ _ _ Hrep), Hm, lookup_empty. cbn [default].
  apply bool_decide_ext. rewrite <- of_kind_elem. apply slide_all_short. unfold of_kind. rewrite length_fmap.
  etransitivity; [apply length_filter|]. exact Hlen.
Qed.

Lemma recent_length ps : (length (omap request (recent ps)) <= Z.to_nat dedupWindow)%nat.
Proof. etransitivity; [apply omap_length_le|]. unfold recent. rewrite length_drop. lia. Qed.

Lemma restart_redelivered ps e' p :
  Forall (fun q => is_Some (request q)) ps ->
  dedup_adds (newDedup dedupWindow) (omap request (recent ps)) = Done (dups e') ->
  Forall (fun q => from_option snd 1 (request q) <> 0) ps -> p ∈ recent ps ->
  exists r, handle p e' = Done (e', r) /\ (r = Ack \/ r = Nack false).
Proof.
  intros Hreq Hd Hnz Hp.
  assert (Hin : p ∈ ps) by (rewrite <- (take_drop (length ps - Z.to_nat dedupWindow) ps); set_solver).
  destruct ((proj1 (Forall_forall _ _) Hreq) p Hin) as [[kind id] Hr].
  destruct (handle_duplicate p kind id e' Hr) as [?|Hn]; [|eauto|eauto].
  rewrite (loaded_known _ _ kind id Hd (recent_length ps)).
  - apply bool_decide_eq_true, list_elem_of_omap. eauto.
  - apply Forall_forall. intros [k i] (q & Hq & Hqr)%list_elem_of_omap.
    assert (Hqin : q ∈ ps) by (rewrite <- (take_drop (length ps - Z.to_nat dedupWindow) ps); set_solver).
    pose proof (proj1 (Forall_forall _ _) Hnz q Hqin) as Hz. cbn beta in Hz. by rewrite Hqr in Hz.
Qed.
End redelivery.

(** ** Adding ids *)

Lemma dedup_add_inv d kind id d' k i :
  dedup_add d kind id = Done d' -> dedup_has d' k i = true -> (k, i) = (kind, id) \/ dedup_has d k i = true.
Proof.
  unfold dedup_add, dedup_has. destruct (recentIDs_add _ id) as [r|] eqn:Hr; [|done]. intros [= <-]. cbn.
  destruct (decide (kind = k)) as [<-|Hne]; [rewrite lookup_insert_eq|rewrite lookup_insert_ne by done; by right].
  revert Hr. unfold recentIDs_add, recentIDs_has. set (r0 := default _ _).
  assert (Hr0 : i ∈ seen r0 -> match byKind d !! kind with Some r => bool_decide (i ∈ seen r) | None => false end = true).
  { unfold r0. destruct (byKind d !! kind); cbn; [by intros; apply bool_decide_eq_true|].
    intros Hi. exfalso. revert Hi. unfold newRecentIDs. cbn. set_solver. }
  case_bool_decide; [intros [= <-] Hi%bool_decide_eq_true; auto|].
  destruct (ring r0 !! pos r0) as [old|]; [|done]. intros [= <-] Hi%bool_decide_eq_true. cbn in Hi.
  apply elem_of_union in Hi as [Hi| ->%elem_of_singleton]; [|by left]. right. apply Hr0. destruct (negb _); set_solver.
Qed.

Lemma dedup_adds_inv kis d d' k i :
  dedup_adds d kis = Done d' -> dedup_has d' k i = true -> (k, i) ∈ kis \/ dedup_has d k i = true.
Proof.
  revert d. induction kis as [|[kind id] kis IH]; intros d; cbn [dedup_adds]; [intros [= <-]; auto|].
  destruct (dedup_add d kind id) as [d1|] eqn:Ha; [|done]. cbn [obind]. intros Hd Hh.
  destruct (IH _ Hd Hh) as [?|H1]; [left; by right|]. destruct (dedup_add_inv _ _ _ _ _ _ Ha H1) as [->|?]; [|by right].
  left. by left.
Qed.

Lemma suffix_tail {A} (l q : list A) : suffix l q -> (length l < length q)%nat -> suffix l (tail q).
Proof.
  intros [k ->] Hlt. destruct k as [|x k]; [simpl in Hlt; lia|]. by exists k.
Qed.

Lemma of_kind_app kind kis1 kis2 : of_kind kind (kis1 ++ kis2) = of_kind kind kis1 ++ of_kind kind kis2.
Proof. unfold of_kind. by rewrite filter_app, fmap_app. Qed.

Lemma of_kind_one kind k id : of_kind kind [(k, id)] = if decide (k = kind) then [id] else [].
Proof. unfold of_kind. rewrite filter_cons. cbn [fst]. by destruct (decide (k = kind)). Qed.

Lemma of_kind_length kind kis : (length (of_kind kind kis) <= length kis)%nat.
Proof. unfold of_kind. rewrite length_fmap. apply length_filter. Qed.

(** Sliding a window keeps its recent part. *)
Lemma suffix_slide w q id l :
  id ∉ q -> suffix l q -> (length l < w)%nat -> (length q <= w)%nat -> suffix (l ++ [id]) (slide w q id).
Proof.
  intros Hid Hs Hl Hq. unfold slide. rewrite decide_False by done.
  assert (Hs' : suffix l (if decide (length q < w)%nat then q else tail q)).
  { case_decide; [done|]. apply suffix_tail; [done|lia]. }
  destruct Hs' as [k ->]. exists k. by rewrite app_assoc.
Qed.

Section windows.
Context `{!Clock} {bytes log : Type} `{!Codec bytes, !CodecLaws bytes, !Proto bytes}.
Context `{!Twal bytes log, !TwalLaws bytes log}.
Abbreviation engine := (Engine bytes log).
Implicit Types (ps : list bytes) (p b : bytes) (d : dedup) (e : engine).

(** ** The messages that are requests *)

(** What the engine logs, unless it is a duplicate: the rest it refuses. *)
Definition valid b : bool :=
  match Unmarshal_envelope b with
  | None => false
  | Some (pat, dat) =>
      if String.eqb pat PatternOrderCreated then bool_decide (is_Some (Unmarshal_Order dat))
      else if String.eqb pat PatternAccountCreated then
        match Unmarshal_Account dat with Some acc => Z.ltb 0 (acc_Id acc) | None => false end
      else if String.eqb pat PatternTransferCreated then bool_decide (is_Some (Unmarshal_Transfer dat))
      else if String.eqb pat PatternStockList then
        match Unmarshal_Stock dat with Some stock => Z.ltb 0 (st_Id stock) | None => false end
      else if String.eqb pat PatternAdminBalanceAdjust then bool_decide (is_Some (Unmarshal_BalanceAdjust dat))
      else if String.eqb pat PatternAdminStockBalanceAdjust then bool_decide (is_Some (Unmarshal_StockBalanceAdjust dat))
      else false
  end.

Lemma valid_refused b : valid b = false -> forall e, handle b e = Done (e, Nack false).
Proof.
  unfold valid, handle. intros Hv e. destruct (Unmarshal_envelope b) as [[pat dat]|]; [|done].
  destruct (String.eqb pat _); [unfold handleOrder; by destruct (Unmarshal_Order dat)|].
  destruct (String.eqb pat _).
  { unfold handleAccountCreated. destruct (Unmarshal_Account dat) as [a|]; [|done]. destruct (Z.leb_spec (acc_Id a) 0); [done|lia]. }
  destruct (String.eqb pat _); [unfold handleTransferCreated; by destruct (Unmarshal_Transfer dat)|].
  destruct (String.eqb pat _).
  { unfold handleStockListed. destruct (Unmarshal_Stock dat) as [a|]; [|done]. destruct (Z.leb_spec (st_Id a) 0); [done|lia]. }
  destruct (String.eqb pat _); [unfold handleAdminBalanceAdjust; by destruct (Unmarshal_BalanceAdjust dat)|].
  destruct (String.eqb pat _); [unfold handleAdminStockBalanceAdjust; by destruct (Unmarshal_StockBalanceAdjust dat)|done].
Qed.

(** A handler that accepts a message never discards it. *)
Ltac accepts Hh :=
  lazymatch type of Hh with
  | obind ?m _ = Done _ => destruct m; cbn [obind] in Hh; [accepts Hh|discriminate Hh]
  | (match ?x with _ => _ end) = Done _ => destruct x; accepts Hh
  | _ => discriminate Hh
  end.

Lemma valid_accepted b e e' rq : valid b = true -> handle b e <> Done (e', Nack rq).
Proof.
  unfold valid, handle. intros Hv Hh. destruct (Unmarshal_envelope b) as [[pat dat]|]; [|done].
  destruct (String.eqb pat _); [unfold handleOrder in Hh; destruct (Unmarshal_Order dat); [accepts Hh|done]|].
  destruct (String.eqb pat _).
  { unfold handleAccountCreated in Hh. destruct (Unmarshal_Account dat) as [a|]; [|done].
    destruct (Z.leb_spec (acc_Id a) 0); [lia|accepts Hh]. }
  destruct (String.eqb pat _); [unfold handleTransferCreated in Hh; destruct (Unmarshal_Transfer dat); [accepts Hh|done]|].
  destruct (String.eqb pat _).
  { unfold handleStockListed in Hh. destruct (Unmarshal_Stock dat) as [a|]; [|done].
    destruct (Z.leb_spec (st_Id a) 0); [lia|accepts Hh]. }
  destruct (String.eqb pat _); [unfold handleAdminBalanceAdjust in Hh; destruct (Unmarshal_BalanceAdjust dat); [accepts Hh|done]|].
  destruct (String.eqb pat _); [unfold handleAdminStockBalanceAdjust in Hh; destruct (Unmarshal_StockBalanceAdjust dat); [accepts Hh|done]|done].
Qed.

(** ** Nothing else is in the windows *)

Definition remembered ps d : Prop := forall kind id, dedup_has d kind id = true -> (kind, id) ∈ omap request ps.

Lemma remembered_new : remembered [] (newDedup dedupWindow).
Proof. by intros kind id. Qed.

Lemma remembered_add ps p d kind id d' :
  remembered ps d -> request p = Some (kind, id) -> dedup_add d kind id = Done d' -> remembered (ps ++ [p]) d'.
Proof.
  intros Hr Hp Ha k i Hh. rewrite omap_app, elem_of_app. cbn [omap list_omap]. rewrite Hp.
  destruct (dedup_add_inv _ _ _ _ _ _ Ha Hh) as [->|?]; [right; by left|left; auto].
Qed.

Lemma recent_elem ps ki : ki ∈ omap request (recent ps) -> ki ∈ omap request ps.
Proof.
  intros Hin. rewrite <- (take_drop (length ps - Z.to_nat dedupWindow) ps), omap_app, elem_of_app. by right.
Qed.

Lemma remembered_load ps d :
  dedup_adds (newDedup dedupWindow) (omap request (recent ps)) = Done d -> remembered ps d.
Proof.
  intros Hd k i Hh. destruct (dedup_adds_inv _ _ _ _ _ Hd Hh) as [?|Hn]; [by apply recent_elem|]. done.
Qed.

(** ** The recent requests are *)

(** Requests of the same kind and id are more than a window apart. *)
Definition spaced ps : Prop :=
  forall i j p q r, ps !! i = Some p -> ps !! j = Some q -> (i < j)%nat -> request p = Some r -> request q = Some r ->
  dedupWindow < Z.of_nat j - Z.of_nat i.

Record known_requests ps d : Prop := {
  kr_window : window d = dedupWindow;
  kr_rep : exists m, dedup_rep m d /\ forall kind, suffix (of_kind kind (omap request (recent ps))) (default [] (m !! kind))
}.

(** The ids that requests carry; the ring uses zero for an empty place. *)
Definition numbered p : Prop := forall kind id, request p = Some (kind, id) -> id <> 0.

Lemma recent_lookup ps i p :
  ps !! i = Some p -> Z.of_nat (length ps) - Z.of_nat i <= dedupWindow -> p ∈ recent ps.
Proof.
  intros Hi Hw. unfold recent. apply list_elem_of_lookup. exists (i - (length ps - Z.to_nat dedupWindow))%nat.
  rewrite lookup_drop, <- Hi. f_equal. lia.
Qed.

Lemma recent_snoc ps p : exists l, recent (ps ++ [p]) = l ++ [p] /\ suffix l (recent ps) /\ (length l < Z.to_nat dedupWindow)%nat.
Proof.
  unfold recent. rewrite length_app. cbn [length]. set (w := Z.to_nat dedupWindow).
  assert (Hw : (0 < w)%nat) by (unfold w, dedupWindow; lia). clearbody w.
  exists (drop (length ps + 1 - w) ps). rewrite drop_app_le by lia. split_and!; [done| |rewrite length_drop; lia].
  exists (take (length ps + 1 - w - (length ps - w)) (drop (length ps - w) ps)).
  rewrite <- (take_drop (length ps + 1 - w - (length ps - w)) (drop (length ps - w) ps)) at 1. f_equal. rewrite drop_drop. f_equal. lia.
Qed.

Lemma NoDup_omap_lookup {A B} (f : A -> option B) (l : list A) :
  (forall i j x y r, (i < j)%nat -> l !! i = Some x -> l !! j = Some y -> f x = Some r -> f y <> Some r) -> NoDup (omap f l).
Proof.
  induction l as [|x l IH]; intros Hd; [constructor|]. csimpl.
  assert (Hl : NoDup (omap f l)) by (apply IH; intros i j y z r Hij; apply (Hd (S i) (S j)); lia).
  destruct (f x) as [r|] eqn:Hx; [|done]. apply NoDup_cons. split; [|done].
  intros (y & [j Hj]%list_elem_of_lookup & Hy)%list_elem_of_omap. by apply (Hd 0%nat (S j) x y r ltac:(lia) eq_refl Hj Hx).
Qed.

Lemma spaced_nodup ps : spaced ps -> NoDup (omap request (recent ps)).
Proof.
  intros Hs. apply NoDup_omap_lookup. intros i j p q r Hij Hi Hj Hp Hq. unfold recent in Hi, Hj.
  rewrite lookup_drop in Hi, Hj. pose proof (lookup_lt_Some _ _ _ Hj).
  specialize (Hs _ _ _ _ _ Hi Hj ltac:(lia) Hp Hq). unfold dedupWindow in *. lia.
Qed.

Lemma known_load ps d :
  spaced ps -> Forall numbered ps -> dedup_adds (newDedup dedupWindow) (omap request (recent ps)) = Done d -> known_requests ps d.
Proof.
  intros Hs Hn Hd.
  destruct (dedup_adds_ok (omap request (recent ps)) _ _ (dedup_rep_new dedupWindow)) as (d' & m & Hd' & Hw & Hrep & Hm).
  { apply Forall_forall. intros [k i] (p & Hp & Hr)%list_elem_of_omap. rewrite Forall_forall in Hn. apply (Hn p) with k; [|done].
    rewrite <- (take_drop (length ps - Z.to_nat dedupWindow) ps). apply elem_of_app. by right. }
  rewrite Hd' in Hd. injection Hd as <-. split; [done|]. exists m. split; [done|]. intros kind.
  rewrite Hm, lookup_empty. cbn [default from_option].
  change (foldl _ [] ?l) with (slide_all (ring_size dedupWindow) l).
  rewrite slide_all_nodup; [|apply ring_size_pos|].
  - pose proof (of_kind_length kind (omap request (recent ps))) as Hl1. pose proof (recent_length ps) as Hl2.
    change (ring_size dedupWindow) with (Z.to_nat dedupWindow).
    replace (length _ - Z.to_nat dedupWindow)%nat with 0%nat by lia. by rewrite drop_0.
  - unfold of_kind. apply NoDup_fmap_2_strong; [|by apply NoDup_filter, spaced_nodup].
    intros [k1 i1] [k2 i2] [Hk1 _]%list_elem_of_filter [Hk2 _]%list_elem_of_filter Hi. cbn in *. by subst.
Qed.

(** A recent request is in its window. *)
Lemma known_has ps d p kind id :
  known_requests ps d -> p ∈ recent ps -> request p = Some (kind, id) -> dedup_has d kind id = true.
Proof.
  intros [_ (m & Hrep & Hs)] Hp Hr. rewrite (dedup_rep_has _ _ _ _ Hrep). apply bool_decide_eq_true.
  destruct (Hs kind) as [l ->]. apply elem_of_app. right. apply of_kind_elem, list_elem_of_omap. eauto.
Qed.

Lemma known_add ps p d kind id d' :
  known_requests ps d -> spaced ps -> numbered p -> request p = Some (kind, id) ->
  dedup_has d kind id = false -> dedup_add d kind id = Done d' ->
  known_requests (ps ++ [p]) d' /\ spaced (ps ++ [p]).
Proof.
  intros Hk Hs Hn Hp Hh Ha. split.
  - destruct Hk as [Hw (m & Hrep & Hsuf)]. destruct (dedup_rep_add m d kind id Hrep (Hn _ _ Hp)) as (d1 & Ha' & Hw1 & Hrep1).
    rewrite Ha in Ha'. injection Ha' as <-. split; [congruence|]. eexists. split; [exact Hrep1|]. intros k.
    destruct (recent_snoc ps p) as (l & -> & [l0 Hl0] & Hlen). rewrite omap_app, of_kind_app. cbn [omap list_omap]. rewrite Hp.
    rewrite of_kind_one. unfold slide_kind.
    assert (Hl : suffix (of_kind k (omap request l)) (default [] (m !! k))).
    { etransitivity; [|apply Hsuf]. rewrite Hl0, omap_app, of_kind_app. by eexists. }
    destruct (decide (kind = k)) as [<-|Hne]; [|by rewrite lookup_insert_ne, app_nil_r].
    rewrite lookup_insert_eq. cbn [default from_option]. rewrite (dedup_rep_has _ _ _ _ Hrep) in Hh. apply bool_decide_eq_false in Hh.
    rewrite Hw. change (ring_size dedupWindow) with (Z.to_nat dedupWindow). apply suffix_slide; [done|done| |].
    + pose proof (of_kind_length kind (omap request l)). pose proof (omap_length_le request l). lia.
    + pose proof (dedup_rep_bound m d kind Hrep) as Hb. by rewrite Hw in Hb.
  - intros i j p1 q r Hi Hj Hij Hr1 Hr2. apply lookup_app_Some in Hj as [Hj|[Hge Hj]].
    { rewrite lookup_app_l in Hi by (apply lookup_lt_Some in Hj; lia). eauto. }
    apply list_lookup_singleton_Some in Hj as [Hj <-]. rewrite Hp in Hr2. injection Hr2 as <-.
    rewrite lookup_app_l in Hi by lia. destruct (decide (dedupWindow < Z.of_nat j - Z.of_nat i)) as [?|Hle]; [done|].
    exfalso. rewrite (known_has ps d p1 kind id Hk) in Hh; [done| |done]. apply (recent_lookup ps i); [done|lia].
Qed.
End windows.
