(* ===== verification/Consuming.v ===== *)
(** * Receiving from the message queue ([internal/messaging/rabbitmq.go], [core/ports.go])

    [Deliveries] of [Connection] starts a goroutine that receives messages from
    the consuming channel of [github.com/rabbitmq/amqp091-go] and hands each one
    over an unbuffered channel, with the operations that answer it. The client
    library and the broker's queue behind it are a parameter, with their
    documented behaviour in [AmqpConsumerSpec]: a message that was delivered and
    not answered is delivered again on a new connection, and an answer itself is
    not confirmed, so what was answered may be delivered again as well. *)

From S2P Require Import Prelude Events Engine.

(** What [Deliveries] hands over ([core.Delivery]): [Ack] and [Nack] name the
    delivery by its tag. *)
Record Delivery (bytes : Type) := mkDelivery {
  dl_tag : Z;
  dl_payload : bytes
}.
Arguments mkDelivery {bytes} _ _.
Arguments dl_tag {bytes} _.
Arguments dl_payload {bytes} _.

(** The third-party channel. [Enqueue]: another process publishes to the queue;
    [Receive]: the next message, if there is one; [AckDelivery] and
    [NackDelivery]: whether the call succeeded; [Reopen]: the connection ended, and
    a new one consumes the same queue. *)
Class AmqpConsumer (bytes queue : Type) := {
  Enqueue : queue -> bytes -> queue;
  Receive : queue -> queue * option (Z * bytes);
  AckDelivery : queue -> Z -> queue * bool;
  NackDelivery : queue -> Z -> bool -> queue * bool;
  Reopen : queue -> queue
}.

Class AmqpConsumerSpec (bytes queue : Type) `{!AmqpConsumer bytes queue} := {
  queued : queue -> list bytes;
  unacked : queue -> gmap Z bytes;
  answered : queue -> list bytes;
  removed : queue -> list bytes;
  same_queue (q q' : queue) : Prop :=
    queued q' = queued q /\ unacked q' = unacked q /\ answered q' = answered q /\ removed q' = removed q;
  (** The message of a delivery was answered for good. *)
  answers_delivery (q : queue) (t : Z) (q' : queue) : Prop :=
    exists b, unacked q !! t = Some b /\ unacked q' = delete t (unacked q) /\ queued q' = queued q /\
      answered q' ≡ₚ answered q ++ [b] /\ removed q' = removed q;
  enqueue_queued q b : queued (Enqueue q b) ≡ₚ b :: queued q /\ unacked (Enqueue q b) = unacked q /\
    answered (Enqueue q b) = answered q /\ removed (Enqueue q b) = removed q;
  receive_none q q' : Receive q = (q', None) -> same_queue q q';
  receive_some q q' t b : Receive q = (q', Some (t, b)) ->
    unacked q !! t = None /\ unacked q' = <[t := b]> (unacked q) /\ queued q ≡ₚ b :: queued q' /\
    answered q' = answered q /\ removed q' = removed q;
  ack_answers q t q' ok : AckDelivery q t = (q', ok) -> (ok = false /\ same_queue q q') \/ answers_delivery q t q';
  nack_answers q t q' ok : NackDelivery q t false = (q', ok) -> (ok = false /\ same_queue q q') \/ answers_delivery q t q';
  reopen_redelivers q : exists lost kept, answered q ≡ₚ lost ++ kept /\
    queued (Reopen q) ≡ₚ queued q ++ (map_to_list (unacked q)).*2 ++ lost /\ unacked (Reopen q) = ∅ /\
    answered (Reopen q) = [] /\ removed (Reopen q) ≡ₚ removed q ++ kept
}.

(** What a broker promises beyond that to the only consumer of a queue, about
    order: messages are delivered in the order in which they arrived; at most
    [prefetch] deliveries are outstanding for the broker; and as it takes the
    answers in the order in which they were sent, what is delivered again after
    deliveries were answered in order are the latest, before everything else.
    [delivered] are the deliveries on the connection so far. *)
Class AmqpOrderedSpec (bytes queue : Type) `{!AmqpConsumer bytes queue, !AmqpConsumerSpec bytes queue} := {
  prefetch : nat;
  delivered : queue -> list (Z * bytes);
  answered_in_order (q : queue) : Prop :=
    exists n, forall i t b, delivered q !! i = Some (t, b) -> (unacked q !! t = None <-> (i < n)%nat);
  enqueue_order q b : queued (Enqueue q b) = queued q ++ [b] /\ delivered (Enqueue q b) = delivered q;
  receive_idle q q' : Receive q = (q', None) -> delivered q' = delivered q;
  receive_order q q' t b : Receive q = (q', Some (t, b)) ->
    queued q = b :: queued q' /\ delivered q' = delivered q ++ [(t, b)] /\ t ∉ (delivered q).*1;
  ack_order q t q' ok : AckDelivery q t = (q', ok) -> delivered q' = delivered q;
  nack_order q t q' ok : NackDelivery q t false = (q', ok) -> delivered q' = delivered q;
  reopen_order q : answered_in_order q ->
    exists kept back, delivered q = kept ++ back /\ Forall (fun tb => unacked q !! fst tb = None) kept /\
      (length back <= prefetch)%nat /\ queued (Reopen q) = back.*2 ++ queued q /\
      delivered (Reopen q) = [] /\ removed (Reopen q) = removed q ++ kept.*2
}.

(** Where the goroutine of [Deliveries] is: receiving, handing over, or returned
    with its channel closed. *)
Inductive forwarder (bytes : Type) :=
  | Receiving
  | Handing (d : Delivery bytes)
  | Closed.
Arguments Receiving {bytes}.
Arguments Handing {bytes} d.
Arguments Closed {bytes}.

Section consuming.
Context {bytes queue : Type} `{!AmqpConsumer bytes queue}.
Implicit Types (q : queue) (f : forwarder bytes).

(** One turn of the outer [select] on a message. *)
Definition forward_receive q f : queue * forwarder bytes :=
  match f with
  | Receiving =>
      match Receive q with
      | (q, Some (tag, body)) => (q, Handing (mkDelivery tag body))
      | (q, None) => (q, Receiving)
      end
  | _ => (q, f)
  end.

(** The receiver of the unbuffered channel takes what is handed over. *)
Definition forward_taken f : option (Delivery bytes * forwarder bytes) :=
  match f with
  | Handing d => Some (d, Receiving)
  | _ => None
  end.

(** [d.Ack(false)] and [d.Nack(false, requeue)]; a handler that failed does neither. *)
Definition answer_delivery (d : Delivery bytes) (r : reply) q : queue * bool :=
  match r with
  | Ack => AckDelivery q (dl_tag d)
  | Nack requeue => NackDelivery q (dl_tag d) requeue
  | Failed _ => (q, false)
  end.

Context `{!AmqpConsumerSpec bytes queue}.

(** Everything that is not answered for good. *)
Definition held q : list bytes := queued q ++ (map_to_list (unacked q)).*2.

(** Everything that the engine has answered. *)
Definition gone q : list bytes := removed q ++ answered q.

Lemma held_unacked q t b : unacked q !! t = Some b -> b ∈ held q.
Proof.
  intros Ht. unfold held. apply elem_of_app. right. apply list_elem_of_fmap. exists (t, b).
  split; [done|]. by apply elem_of_map_to_list.
Qed.

(** Receiving moves a message. *)
Lemma receive_held q q' t b : Receive q = (q', Some (t, b)) -> held q' ≡ₚ held q /\ gone q' = gone q.
Proof.
  intros Hr. destruct (receive_some _ _ _ _ Hr) as (Hn & Hu & Hrd & Ha & Hm). unfold held, gone. rewrite Ha, Hm, Hu, Hrd.
  split; [|done]. rewrite map_to_list_insert by done. csimpl. symmetry. apply Permutation_middle.
Qed.

Lemma answers_held q t q' :
  answers_delivery q t q' -> exists b, unacked q !! t = Some b /\ held q ≡ₚ b :: held q' /\ gone q' ≡ₚ gone q ++ [b].
Proof.
  intros (b & Ht & Hu & Hr & Ha & Hm). exists b. split; [done|]. unfold held, gone. rewrite Ha, Hm, Hu, Hr, app_assoc.
  split; [|done]. rewrite <- (insert_delete_id (unacked q) t b Ht) at 1. rewrite map_to_list_insert by apply lookup_delete_eq.
  csimpl. symmetry. apply Permutation_middle.
Qed.

(** An answer ends the delivery, or fails and changes nothing. *)
Lemma answer_delivery_cases d r q q' ok :
  r = Ack \/ r = Nack false -> answer_delivery d r q = (q', ok) ->
  (ok = false /\ same_queue q q') \/ answers_delivery q (dl_tag d) q'.
Proof. intros [->| ->]; [apply ack_answers|apply nack_answers]. Qed.

Lemma reopen_held q :
  exists lost, gone q ≡ₚ lost ++ gone (Reopen q) /\ held (Reopen q) ≡ₚ held q ++ lost /\ unacked (Reopen q) = ∅.
Proof.
  destruct (reopen_redelivers q) as (lost & kept & Ha & Hr & Hu & Ha' & Hm). exists lost. unfold held, gone.
  rewrite Ha', Hr, Hu, Hm, Ha, map_to_list_empty, !app_nil_r, <- app_assoc. split_and!; [|done..].
  rewrite !app_assoc. f_equiv. apply Permutation_app_comm.
Qed.
End consuming.
