(* ===== verification/Retention.v ===== *)
(** * The engine with its snapshots and its trimmed logs

    The life of an engine, with the saver, the snapshot table and restarts. A
    snapshot is taken at a tick and waits in a channel of capacity one; a round
    of the saver stores it, prunes the table to [snapshotRetention] rows and
    trims both logs; a restart opens the logs, loads the latest snapshot,
    replays the records after it, and trims again.

    [in_step e ps snaps] is the invariant: what is left of the input log are the
    last of the payloads [ps] that were ever logged, among them the ones the
    duplicate windows need; the effects of [ps] from the empty ledger lead to
    the ledger of [e]; and from each snapshot that is stored or waits, the
    effects of the payloads logged after it lead there too, and their records
    are still in the log. *)

From S2P Require Import Prelude Domain Slices OrderBook BookSpec Ledger Snapshot BookSim Events Matching Validation Orders Transfer Admin LedgerSim MatchSim.
From S2P Require Import MatchLoop TradeIds Dedup Wal Engine Recovery Determinism Replays Consistency SnapshotReplay Cleanup Columns Database Storage SnapshotStore.

Definition snapshotRetention : Z := 15.

Lemma retention_range : 0 <= snapshotRetention <= MaxInt32.
Proof. done. Qed.

Section retention.
Context `{!Clock} {bytes log : Type} `{!Codec bytes, !CodecLaws bytes, !Proto bytes, !ProtoLaws bytes}.
Context `{!Twal bytes log, !TwalLaws bytes log, !Server, !ServerLaws}.
Abbreviation engine := (Engine bytes log).
Abbreviation store := (Store bytes).
Implicit Types (e : engine) (s : State) (ps : list bytes) (sn : bytes * Z).

(** The snapshot that waits for the saver. *)
Definition waiting e : list (bytes * Z) :=
  match snapshots e with
  | None => []
  | Some sd => [(sd_state sd, sd_inputSeq sd)]
  end.

(** A snapshot that was taken after [snd sn] of the payloads [ps]. *)
Definition saved ps s sn : Prop :=
  0 <= snd sn <= Z.of_nat (length ps) /\
  exists s0, wf_state s0 /\ Serialize s0 = Done (inl (fst sn)) /\
    effects (snd sn + 1) s0 (drop (Z.to_nat (snd sn)) ps) s.

(** What is left of the input log starts at [first]. *)
Record kept first e ps (snaps : list (bytes * Z)) : Prop := {
  kp_pos : 1 <= first;
  kp_holds : holds (input e) first (from first ps);
  kp_window : first <= dedup_start dedupWindow (Z.of_nat (length ps));
  kp_snaps : Forall (fun sn => first <= snd sn + 1) (snaps ++ waiting e);
  kp_all : snaps = [] -> first = 1
}.

Record in_step e ps (snaps : list (bytes * Z)) : Prop := {
  is_input : exists first, kept first e ps snaps;
  is_effects : effects 1 NewState ps (state (core e));
  is_seq : inputSeq (core e) = Z.of_nat (length ps);
  is_output : exists first ods, holds (output e) first ods /\ started first ods /\ watermark (Z.of_nat (length ps)) ods;
  is_applied : 0 <= outputAppliedSeq (core e) <= Z.of_nat (length ps);
  is_saved : Forall (saved ps (state (core e))) (snaps ++ waiting e);
  is_sorted : StronglySorted (fun a b : bytes * Z => snd a <= snd b) (snaps ++ waiting e)
}.

(** ** What is left of the logs *)

Lemma kept_first first e ps snaps :
  kept first e ps snaps -> first = 1 \/ first <= Z.of_nat (length ps).
Proof.
  intros [Hp Hh Hw _ _]. destruct (decide (ps = [])) as [->|Hne].
  - left. rewrite dedup_start_recent in Hw by done. unfold dedupWindow in Hw. simpl in Hw. lia.
  - right. pose proof (h_range _ _ _ Hh) as Hr. unfold from in Hr. rewrite length_drop in Hr.
    assert (1 <= Z.of_nat (length ps)) by (destruct ps; [done|simpl; lia]).
    destruct (dedup_start_range (Z.of_nat (length ps))); lia.
Qed.

Lemma kept_last first e ps snaps :
  kept first e ps snaps ->
  LastIndex (input e) = inl (Z.of_nat (length ps)) /\ Z.of_nat (length ps) + 1 < two64.
Proof.
  intros Hk. destruct (kept_first _ _ _ _ Hk) as [->|Hle]; destruct Hk as [Hp Hh Hw _ _].
  - apply (from_last _ 1); [done|done| |done]. intros Hne. destruct ps; [done|simpl; lia].
  - apply (from_last _ first); [done|done|done|]. intros ->. simpl in Hle. lia.
Qed.

Lemma kept_next first e ps snaps :
  kept first e ps snaps -> next_index first (from first ps) = Z.of_nat (length ps) + 1 /\ started first (from first ps).
Proof.
  intros Hk. pose proof (kp_pos _ _ _ _ Hk). unfold next_index, started, from. rewrite length_drop.
  destruct (kept_first _ _ _ _ Hk) as [->|Hle]; [split; [lia|done]|]. split; [lia|].
  intros Hn. apply (f_equal length) in Hn. rewrite length_drop in Hn. simpl in Hn. lia.
Qed.

Lemma from_snoc first ps p :
  1 <= first -> first - 1 <= Z.of_nat (length ps) -> from first (ps ++ [p]) = from first ps ++ [p].
Proof. intros Hf Hl. unfold from. rewrite drop_app_le; [done|lia]. Qed.

Lemma dedup_start_mono n m : 0 <= n <= m -> m < two64 -> dedup_start dedupWindow n <= dedup_start dedupWindow m.
Proof. intros Hn Hm. rewrite !dedup_start_recent by lia. lia. Qed.

(** ** Trimming *)

(** A truncation that fails leaves the log as it is. *)
Definition stable (w : log) : Prop := forall t w' err, TruncateFront w t = (w', Some err) -> w' = w.

Lemma truncate_to_trims w t first (ds : list bytes) :
  holds w first ds -> stable w ->
  exists first', first <= first' <= Z.max first t /\ (ds <> [] -> first' < next_index first ds) /\ (ds = [] -> first' = first) /\
    holds (fst (truncate_to w t)) first' (drop (Z.to_nat (first' - first)) ds).
Proof.
  intros Hh Hst. unfold truncate_to.
  assert (Hsame : holds w first (drop (Z.to_nat (first - first)) ds)) by (by rewrite Z.sub_diag).
  assert (Hfirst : ds <> [] -> first < next_index first ds) by (destruct ds; [done|unfold next_index; simpl; lia]).
  destruct (TruncateFront w t) as [w1 [err|]] eqn:Ht.
  - exists first. rewrite (Hst _ _ _ Ht). split_and!; [lia..|done|done|done].
  - destruct (decide (first <= t < first + Z.of_nat (length ds))) as [Hin|Hout].
    + exists t. split_and!; [lia..|unfold next_index; lia| |].
      { intros ->. simpl in Hin. lia. }
      by eapply twal_truncate.
    + unfold TruncateFront in Ht. by rewrite (twal_truncate_range _ _ _ _ Hh Hout) in Ht.
Qed.

(** Cutting the input log at the floor of the stored snapshots. *)
Lemma cleanup_input_kept first e ps snaps floor :
  kept first e ps snaps -> stable (input e) -> snaps <> [] ->
  Forall (fun sn => floor <= snd sn) (snaps ++ waiting e) -> 0 <= floor <= Z.of_nat (length ps) ->
  exists first', kept first' (fst (cleanupInputWAL floor e)) ps snaps.
Proof.
  intros Hk Hst Hne Hfl Hf0. pose proof (kept_last _ _ _ _ Hk) as [_ Hr]. destruct Hk as [Hp Hh Hw Hs Ha].
  destruct (truncate_to_trims _ (input_target floor) _ _ Hh Hst) as (f' & Hf & _ & _ & Hh').
  destruct (input_target_low floor (Z.of_nat (length ps))) as [L1 L2]; [lia|lia|].
  unfold cleanupInputWAL. destruct (truncate_to (input e) (input_target floor)) as [w err]. cbn [fst] in *.
  exists f'. split; cbn.
  - lia.
  - unfold from in *. rewrite drop_drop in Hh'. by replace (Z.to_nat (f' - 1)) with (Z.to_nat (first - 1) + Z.to_nat (f' - first))%nat by lia.
  - lia.
  - change (waiting (set_input e w)) with (waiting e). rewrite Forall_forall in *. intros sn Hsn.
    specialize (Hfl sn Hsn). specialize (Hs sn Hsn). cbn in *. lia.
  - done.
Qed.

Lemma watermark_drop n k (ods : list bytes) : (k < length ods)%nat -> watermark n ods -> watermark n (drop k ods).
Proof. intros Hk. unfold watermark. by rewrite last_drop_lt. Qed.

Lemma cleanup_output_kept cursors e n :
  stable (output e) ->
  (exists first ods, holds (output e) first ods /\ started first ods /\ watermark n ods) ->
  exists first ods, holds (output (fst (cleanupOutputWAL cursors e))) first ods /\ started first ods /\ watermark n ods.
Proof.
  intros Hst Ho. unfold cleanupOutputWAL. destruct cursors as [[[mq db]|]|]; [|done..].
  destruct (Z.eqb (Z.min mq db) 0); [done|]. destruct Ho as (first & ods & Hh & Hs & Hw).
  destruct (truncate_to_trims _ (Z.min mq db) _ _ Hh Hst) as (f' & Hf & Hne & Hnil & Hh').
  destruct (truncate_to (output e) (Z.min mq db)) as [w err]. cbn [fst output set_output] in *.
  exists f', (drop (Z.to_nat (f' - first)) ods). split; [done|]. destruct (decide (ods = [])) as [->|Hods].
  - rewrite (Hnil eq_refl), drop_nil in *. done.
  - specialize (Hne Hods). unfold next_index in Hne. split.
    + intros Hd. apply (f_equal length) in Hd. rewrite length_drop in Hd. simpl in Hd. lia.
    + apply watermark_drop; [lia|done].
Qed.

(** ** Deliveries *)

(** The snapshot that waits and the windows. *)
Definition spared e : option (snapshotData bytes) * dedup := (snapshots e, dups e).

Lemma appendOutput_spares e evs : spared (fst (appendOutput e evs)) = spared e.
Proof. unfold spared, appendOutput, time_now. by repeat case_match. Qed.

Lemma must_spares e evs e' : mustAppend e evs = Done e' -> spared e' = spared e.
Proof. intros Ha%mustAppend_Done. pose proof (appendOutput_spares e evs) as Hs. by rewrite Ha in Hs. Qed.

Lemma append_result_spares r e e' err : append_result r e = Done (e', err) -> spared e' = spared e.
Proof.
  unfold append_result. destruct r as [[c [evs|x]]|]; [| |done]; cbn [obind]; [|by intros [= <- _]].
  destruct (mustAppend _ _) as [e1|] eqn:Hm; [|done]. cbn [obind]. intros [= <- _]. by apply must_spares in Hm.
Qed.

(** No request touches them after it was logged. *)
Lemma record_spares i pat dat e e' :
  replay_record i pat dat e = Done (e', None) -> spared e' = spared e.
Proof.
  assert (Htot : forall f : Core -> Core * list outEvent, forall e1,
    (let '(c, evs) := f (core (set_seq e i)) in mustAppend (set_core (set_seq e i) c) evs) = Done e1 ->
    spared e1 = spared e).
  { intros f e1. destruct (f _). intros Hm. by apply must_spares in Hm. }
  unfold replay_record, no_error.
  destruct (String.eqb pat PatternOrderCreated).
  { destruct (Unmarshal_Order dat) as [o|]; [|done]. unfold replay_order.
    destruct (validateOrder o _) as [s [r|]].
    - intros Ha%Done_inj. pose proof (appendOutput_spares (set_ledger (set_seq e i) s) [reject_event o r]) as Hs.
      unfold appendReject in Ha. by rewrite Ha in Hs.
    - unfold route, match_order, edit, cancel. destruct (o_TradingType o); [..|done];
        intros Ha; by apply append_result_spares in Ha. }
  destruct (String.eqb pat PatternAccountCreated).
  { destruct (Unmarshal_Account dat); [|done]. intros (e1 & Ha & [= <-])%obind_Done. by apply Htot in Ha. }
  destruct (String.eqb pat PatternTransferCreated).
  { destruct (Unmarshal_Transfer dat) as [t|]; [|done]. unfold applyTransfer.
    destruct (transferEvents t _) as [c evs]. intros Ha%Done_inj.
    pose proof (appendOutput_spares (set_core (set_seq e i) c) evs) as Hs. by rewrite Ha in Hs. }
  destruct (String.eqb pat PatternStockList).
  { destruct (Unmarshal_Stock dat); [|done]. intros (e1 & Ha & [= <-])%obind_Done. by apply Htot in Ha. }
  destruct (String.eqb pat PatternAdminBalanceAdjust).
  { destruct (Unmarshal_BalanceAdjust dat); [|done]. intros (e1 & Ha & [= <-])%obind_Done. by apply Htot in Ha. }
  destruct (String.eqb pat PatternAdminStockBalanceAdjust).
  { destruct (Unmarshal_StockBalanceAdjust dat); [|done]. intros (e1 & Ha & [= <-])%obind_Done. by apply Htot in Ha. }
  by intros [= <-].
Qed.

Lemma record_snapshots i pat dat e e' :
  replay_record i pat dat e = Done (e', None) -> snapshots e' = snapshots e.
Proof. intros Hr%record_spares. by injection Hr. Qed.

Lemma saved_snoc ps p s s' sn :
  saved ps s sn -> effect (Z.of_nat (length ps) + 1) p s s' -> saved (ps ++ [p]) s' sn.
Proof.
  intros (Hi & s0 & Hw & Hser & Hef) He. split; [rewrite length_app; simpl; lia|].
  exists s0. split_and!; [done|done|]. rewrite drop_app_le by lia. eapply effects_snoc; [exact Hef|].
  rewrite length_drop. by replace (snd sn + 1 + _) with (Z.of_nat (length ps) + 1) by lia.
Qed.

(** Between the two logs: the payload [p] is logged and not yet processed. *)
Record logged e ps p (snaps : list (bytes * Z)) : Prop := {
  lg_input : exists first, kept first e (ps ++ [p]) snaps;
  lg_effects : effects 1 NewState ps (state (core e));
  lg_output : exists first ods, holds (output e) first ods /\ started first ods /\ watermark (Z.of_nat (length ps)) ods;
  lg_applied : 0 <= outputAppliedSeq (core e) <= Z.of_nat (length ps);
  lg_saved : Forall (saved ps (state (core e))) (snaps ++ waiting e);
  lg_sorted : StronglySorted (fun a b : bytes * Z => snd a <= snd b) (snaps ++ waiting e);
  lg_request : exists pat dat id, Unmarshal_envelope p = Some (pat, dat) /\ known pat = true /\ request_id pat dat = Some (Some id)
}.

Lemma logInput_logged e e1 ps p snaps pat dat id :
  in_step e ps snaps -> room (input e) -> Unmarshal_envelope p = Some (pat, dat) -> known pat = true ->
  request_id pat dat = Some (Some id) -> logInput p pat id e = Done e1 ->
  logged e1 ps p snaps /\ inputSeq (core e1) = Z.of_nat (length ps) + 1 /\ state (core e1) = state (core e) /\
  output e1 = output e /\ outputAppliedSeq (core e1) = outputAppliedSeq (core e).
Proof.
  intros [(f & Hkept) Heff Hseq Hout Happ Hsav Hsort] Hri Henv Hk Hid Hlog.
  destruct (kept_next _ _ _ _ Hkept) as [Hnext Hst]. pose proof (kept_last _ _ _ _ Hkept) as [_ Hr64].
  pose proof (kept_first _ _ _ _ Hkept) as Hf1.
  destruct (logInput_logs _ _ _ _ _ _ _ (kp_holds _ _ _ _ Hkept) Hst Hri Hlog) as (Hi1 & Hs1 & Hst1 & Ho1 & Ha1 & Hsn1 & _).
  assert (Hwait : waiting e1 = waiting e) by (unfold waiting; by rewrite Hsn1).
  split_and!; [|by rewrite Hs1, Hnext|done..]. split; rewrite ?Hst1, ?Ho1, ?Ha1, ?Hwait; [|done..|by exists pat, dat, id].
  exists f. destruct Hkept as [K1 K2 K3 K4 K5].
  assert (Hlen : Z.of_nat (length (ps ++ [p])) = Z.of_nat (length ps) + 1) by (rewrite length_app; simpl; lia).
  split; rewrite ?Hlen, ?Hwait; try done.
  - by rewrite from_snoc by lia.
  - pose proof (dedup_start_mono (Z.of_nat (length ps)) (Z.of_nat (length ps) + 1)). lia.
Qed.

Lemma logged_done e e' ps p snaps pat dat :
  logged e ps p snaps -> room (output e) -> Unmarshal_envelope p = Some (pat, dat) ->
  replay_record (Z.of_nat (length ps) + 1) pat dat e = Done (e', None) -> in_step e' (ps ++ [p]) snaps.
Proof.
  intros [(f & Hkept) Heff (first & ods & Hout & Hsta & Hwm) Happ Hsav Hsort (pat' & dat' & id & Henv & Hk & Hid)] Hro Henv' Hrec.
  rewrite Henv in Henv'. injection Henv' as <- <-. pose proof (record_snapshots _ _ _ _ _ Hrec) as Hsn2.
  destruct (record_effect _ p _ _ _ _ _ Happ Henv Hk Hid Hrec) as [He Hw].
  destruct (wrote_watermark _ _ _ _ _ Hw Hout Hsta Hro) as (d & Hho & Hso & Hwm').
  pose proof Hw as [W1 W2 W3 W4 _].
  assert (Hwait : waiting e' = waiting e) by (unfold waiting; by rewrite Hsn2).
  assert (Hlen : Z.of_nat (length (ps ++ [p])) = Z.of_nat (length ps) + 1) by (rewrite length_app; simpl; lia).
  split; rewrite ?Hlen, ?Hwait; try done.
  - exists f. destruct Hkept as [K1 K2 K3 K4 K5]. by split; rewrite ?W1, ?Hwait.
  - eapply effects_snoc; [exact Heff|]. by replace (1 + Z.of_nat (length ps)) with (Z.of_nat (length ps) + 1) by lia.
  - by exists first, (ods ++ [d]).
  - rewrite W3. lia.
  - eapply Forall_impl; [exact Hsav|]. intros sn Hsn. by eapply saved_snoc.
Qed.

Lemma deliver_in_step p e e' r ps snaps :
  in_step e ps snaps -> room (input e) -> room (output e) ->
  handle p e = Done (e', r) -> (forall err, r <> Failed err) ->
  in_step e' ps snaps \/ in_step e' (ps ++ [p]) snaps.
Proof.
  intros Hs Hri Hro Hh Hr.
  destruct (handle_cases _ _ _ _ Hh Hr) as [[-> _]|[_ [(pat & dat & id & e1 & Henv & Hk & Hid & _ & Hlog & Hrec)]]];
    [by left|right].
  destruct (logInput_logged _ _ _ _ _ _ _ _ Hs Hri Henv Hk Hid Hlog) as (Hl & Hs1 & _ & Ho1 & _).
  rewrite Hs1 in Hrec. eapply logged_done; [exact Hl|by rewrite Ho1|done..].
Qed.

(** ** Ticks and the saver *)

(** Forgetting snapshots, stored or waiting. *)
Lemma in_step_forget e e' ps snaps snaps' :
  in_step e ps snaps -> core e' = core e -> input e' = input e -> output e' = output e ->
  sublist (snaps' ++ waiting e') (snaps ++ waiting e) -> (snaps' = [] -> snaps = []) ->
  in_step e' ps snaps'.
Proof.
  intros [(f & [K1 K2 K3 K4 K5]) Heff Hseq Hout Happ Hsav Hsort] Hc Hi Ho Hsub Hnil.
  split; rewrite ?Hc, ?Ho; try done.
  - exists f. split; rewrite ?Hi; auto. by eapply Forall_sublist.
  - by eapply Forall_sublist.
  - by eapply StronglySorted_sublist.
Qed.

Lemma tick_in_step e e' err ps snaps :
  in_step e ps snaps -> wf_state (state (core e)) -> snapshot e = Done (e', err) -> in_step e' ps snaps.
Proof.
  intros Hs Hwf. unfold snapshot. destruct (Serialize (state (core e))) as [[dat|le]|] eqn:Hser; [| |done];
    cbn [obind]; [|by intros [= <- _]].
  destruct (snapshots e) as [sd|] eqn:Hsn; intros [= <- _].
  { apply (in_step_forget e _ _ _ _ Hs); try done. unfold waiting. by rewrite Hsn. }
  pose proof Hs as [(f & Hk) Heff Hseq Hout Happ Hsav Hsort].
  assert (Hw : waiting e = []) by (unfold waiting; by rewrite Hsn). rewrite Hw, app_nil_r in *.
  assert (Hnew : saved ps (state (core e)) (dat, inputSeq (core e))).
  { cbn. rewrite Hseq. split; [cbn; lia|]. exists (state (core e)). cbn. split_and!; [done|done|].
    rewrite Nat2Z.id, drop_all. constructor. }
  split; try done; cbn [core].
  - exists f. pose proof (kept_first _ _ _ _ Hk) as Hf. destruct Hk as [K1 K2 K3 K4 K5]. split; try done.
    rewrite Hw, app_nil_r in K4. apply Forall_app. split; [done|]. apply Forall_singleton. cbn. lia.
  - apply Forall_app. by split; [|apply Forall_singleton].
  - apply StronglySorted_app_2; [|done|by repeat constructor].
    intros a b Ha Hb%list_elem_of_singleton. rewrite Forall_forall in Hsav. destruct (Hsav a Ha) as [Hrange _].
    rewrite Hb. cbn in *. lia.
Qed.

Lemma cleanup_input_in_step e ps snaps floor :
  in_step e ps snaps -> stable (input e) -> snd <$> head snaps = Some floor ->
  in_step (fst (cleanupInputWAL floor e)) ps snaps /\ output (fst (cleanupInputWAL floor e)) = output e /\
  core (fst (cleanupInputWAL floor e)) = core e.
Proof.
  intros [(f & Hk) Heff Hseq Hout Happ Hsav Hsort] Hsti Hfl.
  destruct snaps as [|sn snaps]; [done|]. injection Hfl as <-.
  pose proof Hsav as Hsav'. apply Forall_cons in Hsav' as [[Hrange _] _]. pose proof Hsort as Hsort'.
  inversion_clear Hsort' as [|?? Hs1 Hs2].
  destruct (cleanup_input_kept f e ps (sn :: snaps) (snd sn) Hk Hsti) as (f' & Hk').
  { done. }
  { constructor; [lia|]. exact Hs2. }
  { done. }
  set (e1 := fst (cleanupInputWAL (snd sn) e)) in *.
  assert (He1 : core e1 = core e /\ output e1 = output e /\ waiting e1 = waiting e).
  { unfold e1, cleanupInputWAL. by destruct (truncate_to _ _). }
  destruct He1 as (C1 & O1 & W1). split_and!; [|done|done].
  split; rewrite ?C1, ?O1, ?W1; try done. by exists f'.
Qed.

Lemma cleanup_output_in_step e ps snaps cursors :
  in_step e ps snaps -> stable (output e) ->
  in_step (fst (cleanupOutputWAL cursors e)) ps snaps /\ core (fst (cleanupOutputWAL cursors e)) = core e.
Proof.
  intros [(f & Hk) Heff Hseq Hout Happ Hsav Hsort] Hsto.
  pose proof (cleanup_output_kept cursors e (Z.of_nat (length ps)) Hsto Hout) as Hout'.
  set (e2 := fst (cleanupOutputWAL cursors e)) in *.
  assert (He2 : core e2 = core e /\ input e2 = input e /\ waiting e2 = waiting e).
  { unfold e2, cleanupOutputWAL. destruct cursors as [[[??]|]|]; [|done..]. destruct (Z.eqb _ 0); [done|].
    by destruct (truncate_to _ _). }
  destruct He2 as (C2 & I2 & W2). split; [|done].
  split; rewrite ?C2, ?W2; try done. exists f. destruct Hk as [K1 K2 K3 K4 K5]. by split; rewrite ?I2, ?W2.
Qed.

Lemma cleanup_in_step e ps snaps floor cursors :
  in_step e ps snaps -> stable (input e) -> stable (output e) -> snd <$> head snaps = Some floor ->
  in_step (cleanupWAL floor cursors e) ps snaps.
Proof.
  intros Hs Hsti Hsto Hfl. destruct (cleanup_input_in_step _ _ _ _ Hs Hsti Hfl) as (Hs1 & Ho & _).
  apply cleanup_output_in_step; [done|]. by rewrite Ho.
Qed.

(** The floor, when the table could be written. *)
Definition answered_floor (r : Z + store_error) : option Z :=
  match r with inl floor => Some floor | inr _ => None end.

Lemma save_in_step e ps sd (s s' : store) r cursors :
  in_step e ps (stored (st_db s)) -> stable (input e) -> stable (output e) -> snapshots e = Some sd ->
  SaveSnapshotAndPrune (sd_state sd) (sd_inputSeq sd) snapshotRetention s = (s', r) ->
  in_step (saver_step (answered_floor r) cursors e) ps (stored (st_db s')).
Proof.
  intros Hs Hsti Hsto Hsn Hsave. unfold saver_step. rewrite Hsn. set (e1 := mkEngine _ _ _ _ None _).
  assert (Hw : waiting e = [(sd_state sd, sd_inputSeq sd)]) by (unfold waiting; by rewrite Hsn).
  destruct (SaveSnapshotAndPrune_cases _ _ snapshotRetention _ _ _ retention_range Hsave) as [[Hst (err & ->)]|[Hst Hfl]].
  - rewrite Hst. apply (in_step_forget e _ _ _ _ Hs); try done. cbn. rewrite app_nil_r. by apply sublist_inserts_r.
  - assert (He1 : in_step e1 ps (stored (st_db s'))).
    { apply (in_step_forget e _ _ _ _ Hs); try done.
      - cbn. rewrite Hst, Hw, app_nil_r. apply sublist_drop.
      - rewrite Hst. intros Hnil. apply (f_equal length) in Hnil. rewrite length_drop, length_app in Hnil.
        unfold snapshotRetention in Hnil. cbn in Hnil. lia. }
    destruct r as [floor|err]; [|exact He1]. cbn [answered_floor]. apply cleanup_in_step; [done..|]. by apply Hfl.
Qed.
End retention.
