(* ===== verification/Restarts.v ===== *)
(** * Restarts: after a shutdown, and after a crash between the two logs

    A restart opens the logs, loads the latest snapshot, replays the records
    after it and trims both logs. When the process ended between the two logs,
    the last input record is logged but not processed: the replay then comes to
    it in the ledger before it and processes it, output included. [life] is the
    whole life of an engine, in which all this happens in any order. *)

From S2P Require Import Prelude Domain Slices OrderBook BookSpec Ledger Snapshot BookSim Events Matching Validation Orders Transfer Admin LedgerSim MatchSim.
From S2P Require Import MatchLoop TradeIds Dedup Wal Engine Recovery Determinism Replays Consistency SnapshotReplay Cleanup Windows Columns Database Storage SnapshotStore Retention.

Section restarts.
Context `{!Clock} {bytes log : Type} `{!Codec bytes, !CodecLaws bytes, !Proto bytes, !ProtoLaws bytes}.
Context `{!Twal bytes log, !TwalLaws bytes log, !Server, !ServerLaws}.
Abbreviation engine := (Engine bytes log).
Abbreviation store := (Store bytes).
Implicit Types (e : engine) (ps : list bytes) (snaps : list (bytes * Z)).

(** ** Replaying what a restart finds *)

(** What the snapshot table answers. *)
Definition latest_of (found : option (bytes * Z)) : latest :=
  match found with Some (dat, idx) => Found dat idx | None => NotFound end.

Lemma replay_from_spares n i e e' : replay_from n i e = Done (e', None) -> spared e' = spared e.
Proof.
  revert i e. induction n as [|n IH]; intros i e; cbn [replay_from]; [by intros [= <-]|].
  destruct (Read (input e) i); [|done]. destruct (Unmarshal_envelope _) as [[pat dat]|]; [|done].
  destruct (replay_record i pat dat e) as [[e1 [err|]]|] eqn:Hr; [done| |done]. cbn [obind]. intros Hn.
  rewrite (IH _ _ Hn). by apply record_spares in Hr.
Qed.

Lemma replay_from_snapshots n i e e' : replay_from n i e = Done (e', None) -> snapshots e' = snapshots e.
Proof. intros Hr%replay_from_spares. by injection Hr. Qed.

(** Restoring a snapshot that was taken of [s0]. *)
Lemma Restore_related s0 dat s1 :
  wf_state s0 -> Serialize s0 = Done (inl dat) -> exists s2, Restore s1 dat = (s2, None) /\ s0 ≡ s2.
Proof.
  intros Hw Hser. destruct (of_to_snapshot s0 Hw) as (snap & Hto & Hv & Hsame & Hwf).
  unfold Serialize in Hser. rewrite Hto in Hser. cbn [obind] in Hser.
  destruct (proto_Marshal snap) as [d|] eqn:Hm; [|done]. injection Hser as ->.
  unfold Restore. rewrite (proto_roundtrip _ _ Hm), Hv. eexists. split; [done|].
  symmetry. by apply wf_state_equiv.
Qed.

Section replaying.
Context (ps : list bytes) (snaps : list (bytes * Z)) (s : State) (first : Z).
Hypothesis (Heff : effects 1 NewState ps s) (Hsav : Forall (saved ps s) snaps).
Hypothesis (Hsn : Forall (fun sn => first <= snd sn + 1) snaps) (Hall : snaps = [] -> first = 1).

(** Loading the latest snapshot: the ledger from which the rest is replayed. *)
Lemma restore_latest_related e0 :
  state (core e0) = NewState -> inputSeq (core e0) = 0 ->
  exists k s0 e1, restore_latest (latest_of (last snaps)) e0 = (e1, inl (Z.of_nat k)) /\
    (k <= length ps)%nat /\ effects (Z.of_nat k + 1) s0 (drop k ps) s /\
    s0 ≡ state (core e1) /\ inputSeq (core e1) = Z.of_nat k /\ first <= Z.of_nat k + 1 /\
    quiet e0 e1 /\ snapshots e1 = snapshots e0.
Proof.
  intros Hs0 Hi0. destruct (last snaps) as [[dat idx]|] eqn:Hlast.
  - apply last_Some in Hlast as (snaps0 & Heq). revert Hsav Hsn. rewrite Heq.
    intros [_ Hsav1]%Forall_app [_ Hsn1]%Forall_app.
    apply Forall_cons in Hsav1 as [(Hr & s0 & Hw & Hser & Hef) _], Hsn1 as [Hf _]. cbn [fst snd] in *.
    destruct (Restore_related s0 dat (state (core e0)) Hw Hser) as (s2 & Hres & Hrel).
    exists (Z.to_nat idx), s0, (set_seq (set_ledger e0 s2) idx). unfold restore_latest, latest_of. rewrite Hres.
    rewrite Z2Nat.id by lia. split_and!; try done. lia.
  - apply last_None in Hlast. exists 0%nat, NewState, e0. rewrite Hs0.
    pose proof (Hall Hlast). split_and!; try done; [lia|apply NewState_equiv|simpl; lia].
Qed.

(** From there the records whose outputs exist are replayed without output. *)
Lemma replay_processed e0 :
  state (core e0) = NewState -> inputSeq (core e0) = 0 -> outputAppliedSeq (core e0) = Z.of_nat (length ps) ->
  Z.of_nat (length ps) + 1 < two64 ->
  (forall i p, ps !! i = Some p -> first <= Z.of_nat i + 1 -> Read (input e0) (Z.of_nat i + 1) = inl p) ->
  exists k e1 e2, restore_latest (latest_of (last snaps)) e0 = (e1, inl (Z.of_nat k)) /\ (k <= length ps)%nat /\
    input e1 = input e0 /\ replay_from (length ps - k) (Z.of_nat k + 1) e1 = Done (e2, None) /\
    s ≡ state (core e2) /\ quiet e0 e2 /\ inputSeq (core e2) = Z.of_nat (length ps) /\ snapshots e2 = snapshots e0.
Proof.
  intros Hs0 Hi0 Ha0 Hb Hread.
  destruct (restore_latest_related e0 Hs0 Hi0) as (k & s0 & e1 & Hres & Hkl & Hef & Hst0 & Hi1 & Hf1 & Hq1 & S1).
  pose proof (length_drop ps k) as Hld. pose proof (q_input _ _ Hq1) as I1.
  destruct (replay_effects (Z.of_nat k + 1) (drop k ps) s0 s e1 Hef Hst0) as (e2 & Hrep & Hst & Hq & Hi2).
  { lia. }
  { lia. }
  { intros Hne. unfold covered. rewrite (q_applied _ _ Hq1), Ha0, Hld. destruct (drop k ps) as [|x l]; [done|]. simpl in Hld. lia. }
  { lia. }
  { intros j p Hj. rewrite lookup_drop in Hj. rewrite I1. rewrite <- (Hread _ _ Hj); [f_equal; lia|lia]. }
  exists k, e1, e2. rewrite <- Hld. split_and!; [done|done|done|done|done|by eapply quiet_trans|lia|].
  by rewrite (replay_from_snapshots _ _ _ _ Hrep), S1.
Qed.
End replaying.

Lemma kept_read first e ps snaps i p :
  kept first e ps snaps -> ps !! i = Some p -> first <= Z.of_nat i + 1 -> Read (input e) (Z.of_nat i + 1) = inl p.
Proof. intros Hk Hi Hf. exact (holds_from_read _ first ps i p (kp_pos _ _ _ _ Hk) (kp_holds _ _ _ _ Hk) Hi Hf). Qed.

Lemma kept_drop first e e' ps snaps :
  kept first e ps snaps -> input e' = input e -> waiting e' = [] -> kept first e' ps snaps.
Proof.
  intros [K1 K2 K3 K4 K5] Hi Hw. split; rewrite ?Hi, ?Hw, ?app_nil_r; try done. by apply Forall_app in K4 as [? _].
Qed.

(** The snapshots that are stored are also good for a related ledger. *)
Lemma saved_related ps s s' snaps : s ≡ s' -> Forall (saved ps s) snaps -> Forall (saved ps s') snaps.
Proof.
  intros Heq Hs. eapply Forall_impl; [exact Hs|]. intros sn (Hrg & s1 & Hw1 & Hser & Hef).
  split; [done|]. exists s1. split_and!; [done|done|]. by eapply effects_swap.
Qed.

(** ** After a shutdown *)

Lemma restart_in_step e ps snaps :
  in_step e ps snaps ->
  exists e0, NewEngine (input e) (output e) = Done (inl e0) /\
    dedup_adds (newDedup dedupWindow) (omap request (recent ps)) = Done (dups e0) /\
    input e0 = input e /\ output e0 = output e /\
    forall t, exists e', Replay (latest_of (last snaps)) (with_tradeID t e0) = Done (e', None) /\
      state (core e) ≡ state (core e') /\ quiet (with_tradeID t e0) e' /\ in_step e' ps snaps.
Proof.
  intros [(f & Hk) Heff Hseq (first & ods & Ho & Hst & Hwm) Happ Hsav Hsort].
  pose proof (effects_requests _ _ _ _ Heff) as Hreq. pose proof (kept_last _ _ _ _ Hk) as [Hlast Hr].
  destruct (NewEngine_retained (input e) (output e) f ps first ods (Z.of_nat (length ps)))
    as (d & Hne & Hd); [apply Hk|apply Hk|apply Hk|done..|].
  eexists. split; [exact Hne|]. split_and!; [exact Hd|done|done|]. intros t. set (e0 := with_tradeID t _).
  apply Forall_app in Hsav as [Hsav _]. pose proof (kp_snaps _ _ _ _ Hk) as Hsn. apply Forall_app in Hsn as [Hsn _].
  destruct (replay_processed ps snaps _ f Heff Hsav Hsn (kp_all _ _ _ _ Hk) e0)
    as (k & e1 & e' & Hres & Hkl & I1 & Hrep & Hst' & Hq & Hi' & S'); [done..| |].
  { intros i p Hi Hf. exact (kept_read _ _ _ _ _ _ Hk Hi Hf). }
  exists e'. split_and!; [|done|done|].
  - unfold Replay. rewrite Hres, I1. change (input e0) with (input e). rewrite Hlast, add64_exact by lia.
    by replace (Z.to_nat (Z.of_nat (length ps) - Z.of_nat k)) with (length ps - k)%nat by lia.
  - assert (Hw : waiting e' = []) by (unfold waiting; by rewrite S').
    destruct Hq as [Q1 Q2 Q3 Q4 Q5]. split; rewrite ?Hw, ?app_nil_r, ?Q2, ?Q4.
    + exists f. by eapply kept_drop.
    + by eapply effects_swap.
    + done.
    + by exists first, ods.
    + cbn. lia.
    + by eapply saved_related.
    + by eapply StronglySorted_app_1_l.
Qed.

(** ** After a crash between the logs *)

(** The replay comes to the last record in a ledger related to the one before
    it, and processes it. *)
Lemma restart_logged e ps p snaps :
  logged e ps p snaps ->
  exists e0, NewEngine (input e) (output e) = Done (inl e0) /\
    dedup_adds (newDedup dedupWindow) (omap request (recent (ps ++ [p]))) = Done (dups e0) /\ output e0 = output e /\
    forall t, exists e2 pat dat, Unmarshal_envelope p = Some (pat, dat) /\
      Replay (latest_of (last snaps)) (with_tradeID t e0) = replay_record (Z.of_nat (length ps) + 1) pat dat e2 /\
      state (core e) ≡ state (core e2) /\ output e2 = output e /\ lastTradeID (core e2) = t /\ logged e2 ps p snaps.
Proof.
  intros [(f & Hk) Heff (first & ods & Ho & Hst & Hwm) Happ Hsav Hsort (pat & dat & id & Henv & Hkn & Hid)].
  assert (Hreq : Forall (fun q => is_Some (request q)) (ps ++ [p])).
  { apply Forall_app. split; [by eapply effects_requests|]. apply Forall_singleton. unfold request. rewrite Henv, Hid. eauto. }
  pose proof (kept_last _ _ _ _ Hk) as [Hlast Hr]. rewrite length_app in Hlast, Hr. cbn [length] in Hlast, Hr.
  destruct (NewEngine_retained (input e) (output e) f (ps ++ [p]) first ods (Z.of_nat (length ps)))
    as (d & Hne & Hd); [apply Hk|apply Hk|apply Hk|done..|].
  eexists. split; [exact Hne|]. split; [exact Hd|]. split; [done|]. intros t. set (e0 := with_tradeID t _).
  apply Forall_app in Hsav as [Hsav _]. pose proof (kp_snaps _ _ _ _ Hk) as Hsn. apply Forall_app in Hsn as [Hsn _].
  destruct (replay_processed ps snaps _ f Heff Hsav Hsn (kp_all _ _ _ _ Hk) e0)
    as (k & e1 & e2 & Hres & Hkl & I1 & Hrep & Hst' & Hq & Hi' & S'); [done..|lia| |].
  { intros i q Hi Hf. exact (kept_read _ _ _ _ _ _ Hk ltac:(by apply lookup_app_l_Some) Hf). }
  assert (Hlastp : Read (input e2) (Z.of_nat k + 1 + Z.of_nat (length ps - k)) = inl p).
  { rewrite (q_input _ _ Hq). replace (Z.of_nat k + 1 + Z.of_nat (length ps - k)) with (Z.of_nat (length ps) + 1) by lia.
    apply (kept_read _ _ _ _ _ _ Hk); [by apply list_lookup_middle|].
    destruct (kept_first _ _ _ _ Hk) as [->|Hle]; [lia|]. rewrite length_app in Hle. simpl in Hle. lia. }
  exists e2, pat, dat. split_and!; [done| |done|by rewrite (q_output _ _ Hq)|by rewrite (q_lastID _ _ Hq)|].
  - unfold Replay. rewrite Hres, I1. change (input e0) with (input e). rewrite Hlast, add64_exact by lia.
    replace (Z.to_nat (Z.of_nat (length ps + 1) - Z.of_nat k)) with (S (length ps - k)) by lia.
    rewrite (replay_from_snoc (length ps - k) (Z.of_nat k + 1) e1 e2 p pat dat); [f_equal; lia|lia|lia|done..].
  - assert (Hw : waiting e2 = []) by (unfold waiting; by rewrite S').
    destruct Hq as [Q1 Q2 Q3 Q4 Q5]. split; rewrite ?Hw, ?app_nil_r, ?Q2, ?Q4.
    + exists f. by eapply kept_drop.
    + by eapply effects_swap.
    + by exists first, ods.
    + cbn. lia.
    + by eapply saved_related.
    + by eapply StronglySorted_app_1_l.
    + by exists pat, dat, id.
Qed.

(** ** Start-up *)

Lemma with_tradeID_self e : with_tradeID (lastTradeID (core e)) e = e.
Proof. by destruct e as [[] ?????]. Qed.

Lemma initializeTradeID_sets legacy e e' :
  initializeTradeID legacy e = (e', None) -> exists t, e' = with_tradeID t e.
Proof. unfold initializeTradeID. repeat case_match; intros; simplify_eq/=; eauto. Qed.

(** The answer of the pruning at start-up. *)
Definition prune_answer (r : option Z + store_error) : option (option (option Z)) :=
  Some (match r with inl floor => Some floor | inr _ => None end).

(** [LastTradeID] is asked when the output log has no trade. *)
Definition legacy_answer (out : log) (s : store) : store * option (option Z) :=
  match LastIndex out, FirstIndex out with
  | inl last, inl first =>
      match find_trade (search_length first last) last out with
      | inl None =>
          let '(s, r) := EventStore_LastTradeID s in
          (s, Some (match r with inl id => Some id | inr _ => None end))
      | _ => (s, None)
      end
  | _, _ => (s, None)
  end.

Lemma legacy_answer_db out (s s' : store) legacy : legacy_answer out s = (s', legacy) -> st_db s' = st_db s.
Proof. unfold legacy_answer, EventStore_LastTradeID, query. by repeat case_match; intros; simplify_eq/=. Qed.

(** The process starts over the two logs; [cursors] is the answer to the reading
    of the consumers' positions. *)
Inductive rebooted (inp out : log) (s : store) (cursors : option (option (Z * Z))) : engine -> store -> Prop :=
  | rebooted_intro s0 s1 s2 found pr legacy e0 e' :
      NewEngine inp out = Done (inl e0) -> legacy_answer out s = (s0, legacy) ->
      LatestSnapshot s0 = (s1, inl found) -> PruneSnapshots snapshotRetention s1 = (s2, pr) ->
      boot (Build_boot_answers legacy (latest_of found) (prune_answer pr) cursors) e0 = Done (e', None) ->
      rebooted inp out s cursors e' s2.

(** The trade counter is restored, the replay succeeds, and the trimming follows. *)
Lemma rebooted_steps inp out (s s2 : store) cursors e' :
  rebooted inp out s cursors e' s2 ->
  exists e0 t e2 pr, NewEngine inp out = Done (inl e0) /\
    initializeTradeID (snd (legacy_answer out s)) e0 = (with_tradeID t e0, None) /\
    Replay (latest_of (last (stored (st_db s)))) (with_tradeID t e0) = Done (e2, None) /\
    (exists s1 : store, st_db s1 = st_db s /\ PruneSnapshots snapshotRetention s1 = (s2, pr)) /\
    e' = fst (cleanupOutputWAL cursors
           (match pr with inl (Some floor) => fst (cleanupInputWAL floor e2) | _ => e2 end)).
Proof.
  intros [s0 s1 s2' found pr legacy e0 e1 Hne Hleg Hlatest Hprune Hboot].
  pose proof (legacy_answer_db _ _ _ _ Hleg) as Hdb0.
  unfold LatestSnapshot, query in Hlatest. injection Hlatest as <- Hfound.
  destruct (answer_at (st_calls s0)); [|done..]. injection Hfound as <-. rewrite q_LatestSnapshot_stored, Hdb0 in Hboot.
  unfold boot in Hboot. cbn [ba_legacy ba_latest ba_prune ba_cursors] in Hboot.
  destruct (initializeTradeID legacy e0) as [e3 [err|]] eqn:Hi; [done|]. pose proof Hi as [t ->]%initializeTradeID_sets.
  destruct (Replay _ _) as [[e2 [err|]]|] eqn:Hr2; [done| |done]. cbn [obind] in Hboot. injection Hboot as <-.
  exists e0, t, e2, pr. rewrite Hleg. split_and!; [done..| |].
  - eexists. split; [|exact Hprune]. exact Hdb0.
  - by destruct pr as [[floor|]|err].
Qed.

Lemma rebooted_inv inp out (s s2 : store) cursors e' :
  rebooted inp out s cursors e' s2 ->
  exists e0 t e2 pr, NewEngine inp out = Done (inl e0) /\
    Replay (latest_of (last (stored (st_db s)))) (with_tradeID t e0) = Done (e2, None) /\
    (exists s1 : store, st_db s1 = st_db s /\ PruneSnapshots snapshotRetention s1 = (s2, pr)) /\
    e' = fst (cleanupOutputWAL cursors
           (match pr with inl (Some floor) => fst (cleanupInputWAL floor e2) | _ => e2 end)).
Proof. intros Hb. destruct (rebooted_steps _ _ _ _ _ _ Hb) as (e0 & t & e2 & pr & ? & _ & ? & ? & ?). by exists e0, t, e2, pr. Qed.

(** Start-up leaves the windows as the log filled them. *)
Lemma rebooted_dups inp out (s s2 : store) cursors e' :
  rebooted inp out s cursors e' s2 -> exists e0, NewEngine inp out = Done (inl e0) /\ dups e' = dups e0.
Proof.
  intros Hb. destruct (rebooted_inv _ _ _ _ _ _ Hb) as (e0 & t & e2 & pr & Hne & Hr2 & _ & ->). exists e0. split; [done|].
  assert (He2 : dups e2 = dups e0).
  { unfold Replay in Hr2. set (e1 := with_tradeID t e0) in Hr2.
    destruct (restore_latest _ e1) as [e3 [k|err]] eqn:Hres; [|done].
    assert (H3 : dups e3 = dups e0).
    { revert Hres. unfold restore_latest. destruct (latest_of _); try by intros [= <- _]. destruct (Restore _ _) as [? [?|]]; by intros [= <- _]. }
    destruct (LastIndex (input e3)); [|done]. apply replay_from_spares in Hr2. injection Hr2 as _ ->. exact H3. }
  rewrite <- He2. unfold cleanupOutputWAL, cleanupInputWAL. repeat case_match; simplify_eq/=; done.
Qed.

(** Pruning and trimming keep the engine in step. *)
Lemma trimmed_in_step e ps (s s1 s2 : store) pr cursors :
  in_step e ps (stored (st_db s)) -> stable (input e) -> stable (output e) ->
  st_db s1 = st_db s -> PruneSnapshots snapshotRetention s1 = (s2, pr) ->
  let e3 := match pr with inl (Some floor) => fst (cleanupInputWAL floor e) | _ => e end in
  in_step (fst (cleanupOutputWAL cursors e3)) ps (stored (st_db s2)) /\
  core (fst (cleanupOutputWAL cursors e3)) = core e /\ output e3 = output e.
Proof.
  intros Hs Hsti Hsto Hdb Hprune e3.
  destruct (PruneSnapshots_cases snapshotRetention _ _ _ retention_range Hprune) as [Hcases Hfl]. rewrite Hdb in Hcases.
  assert (Hs1 : in_step e ps (stored (st_db s2))).
  { apply (in_step_forget e _ _ _ _ Hs); try done.
    - destruct Hcases as [->| ->]; [done|]. apply sublist_app; [apply sublist_drop|done].
    - destruct Hcases as [->| ->]; [done|]. intros Hnil. apply (f_equal length) in Hnil. rewrite length_drop in Hnil.
      unfold snapshotRetention in Hnil. cbn in Hnil. apply length_zero_iff_nil. lia. }
  assert (H3 : in_step e3 ps (stored (st_db s2)) /\ output e3 = output e /\ core e3 = core e).
  { unfold e3. destruct pr as [[floor|]|]; [|done..]. apply cleanup_input_in_step; [done..|]. by apply Hfl. }
  destruct H3 as (Hs2 & Ho3 & Hc3).
  destruct (cleanup_output_in_step e3 ps _ cursors Hs2) as (Hs3 & Hc4); [by rewrite Ho3|].
  split_and!; [done|by rewrite Hc4|done].
Qed.

Lemma boot_in_step e ps (s s2 : store) cursors e' :
  in_step e ps (stored (st_db s)) -> stable (input e) -> stable (output e) ->
  rebooted (input e) (output e) s cursors e' s2 ->
  in_step e' ps (stored (st_db s2)) /\ state (core e) ≡ state (core e').
Proof.
  intros Hs Hsti Hsto Hb. destruct (restart_in_step e ps _ Hs) as (e0 & Hne & _ & I0 & O0 & Hrep).
  destruct (rebooted_inv _ _ _ _ _ _ Hb) as (e0' & t & e2 & pr & Hne' & Hr2 & (s1 & Hdb & Hprune) & ->).
  rewrite Hne in Hne'. injection Hne' as <-. destruct (Hrep t) as (e2' & Hr2' & Hst2 & Hq2 & Hs2).
  rewrite Hr2 in Hr2'. injection Hr2' as <-.
  destruct (trimmed_in_step e2 ps s s1 s2 pr cursors) as (Hs3 & Hc3 & _); [done|..|by rewrite Hc3].
  - rewrite (q_input _ _ Hq2). cbn. by rewrite I0.
  - rewrite (q_output _ _ Hq2). cbn. by rewrite O0.
  - done.
  - done.
Qed.

(** After a crash with [p] logged and not processed. *)
Lemma crash_in_step e ps p (s s2 : store) cursors e' :
  logged e ps p (stored (st_db s)) -> room (output e) -> (forall w, stable w) ->
  rebooted (input e) (output e) s cursors e' s2 -> in_step e' (ps ++ [p]) (stored (st_db s2)).
Proof.
  intros Hl Hro Hst Hb. destruct (restart_logged e ps p _ Hl) as (e0 & Hne & _ & _ & Hrep).
  destruct (rebooted_inv _ _ _ _ _ _ Hb) as (e0' & t & e2 & pr & Hne' & Hr2 & (s1 & Hdb & Hprune) & ->).
  rewrite Hne in Hne'. injection Hne' as <-. destruct (Hrep t) as (e1 & pat & dat & Henv & Hr1 & _ & Ho1 & _ & Hl1).
  rewrite Hr1 in Hr2. pose proof (logged_done _ _ _ _ _ _ _ Hl1 ltac:(by rewrite Ho1) Henv Hr2) as Hs2.
  by apply (trimmed_in_step e2 (ps ++ [p]) s s1 s2 pr cursors).
Qed.

(** ** The life of an engine *)

(** The process ends between the two logs. *)
Record crashed (p : bytes) e e1 : Prop := {
  cr_request : exists pat dat id,
    Unmarshal_envelope p = Some (pat, dat) /\ known pat = true /\ request_id pat dat = Some (Some id) /\
    dedup_has (dups e) pat id = false /\ logInput p pat id e = Done e1;
  cr_valid : valid p = true
}.

(** One event: a delivery, a tick over a well-formed ledger, a round of the
    saver, a change of other tables, a start-up after the process ended, or a
    crash between the two logs with the start-up that follows. *)
Inductive life_step : engine * store -> list bytes -> engine * store -> Prop :=
  | life_deliver e (s : store) p e' :
      room (input e) -> room (output e) -> run_step (Deliver p) e = Done (Running e') ->
      life_step (e, s) [p] (e', s)
  | life_tick e (s : store) e' :
      wf_state (state (core e)) -> run_step SnapshotTick e = Done (Running e') -> life_step (e, s) [] (e', s)
  | life_save e (s s' : store) sd r cursors e' :
      snapshots e = Some sd ->
      SaveSnapshotAndPrune (sd_state sd) (sd_inputSeq sd) snapshotRetention s = (s', r) ->
      run_step (Saver (answered_floor r) cursors) e = Done (Running e') -> life_step (e, s) [] (e', s')
  | life_other e (s s' : store) : stored (st_db s') = stored (st_db s) -> life_step (e, s) [] (e, s')
  | life_restart e (s s' : store) cursors e' :
      rebooted (input e) (output e) s cursors e' s' -> life_step (e, s) [] (e', s')
  | life_crash e (s s' : store) p e1 cursors e' :
      room (input e) -> room (output e) -> crashed p e e1 ->
      rebooted (input e1) (output e1) s cursors e' s' -> life_step (e, s) [p] (e', s').

(** Any number of events, with the payloads delivered. *)
Inductive life : engine * store -> list bytes -> engine * store -> Prop :=
  | life_nil w : life w [] w
  | life_cons w1 qs1 w2 qs2 w3 : life_step w1 qs1 w2 -> life w2 qs2 w3 -> life w1 (qs1 ++ qs2) w3.

Lemma run_Deliver p e e' :
  run_step (Deliver p) e = Done (Running e') -> exists r, handle p e = Done (e', r) /\ forall err, r <> Failed err.
Proof.
  cbn [run_step]. destruct (handle p e) as [[e1 r]|]; [|done]. cbn [obind]. intros Hrun. exists r. destruct r; naive_solver.
Qed.

Lemma run_SnapshotTick e e' : run_step SnapshotTick e = Done (Running e') -> exists err, snapshot e = Done (e', err).
Proof. cbn [run_step]. destruct (snapshot e) as [[e1 err]|]; [|done]. cbn [obind]. intros [= <-]. eauto. Qed.

Lemma life_step_in_step w qs w' ps :
  (forall l : log, stable l) -> life_step w qs w' -> in_step (fst w) ps (stored (st_db (snd w))) ->
  exists logged, sublist logged qs /\ in_step (fst w') (ps ++ logged) (stored (st_db (snd w'))).
Proof.
  intros Hst Hl Hs.
  assert (Hnone : forall w' : engine * store, in_step (fst w') ps (stored (st_db (snd w'))) ->
    exists logged, sublist logged [] /\ in_step (fst w') (ps ++ logged) (stored (st_db (snd w')))).
  { intros w1 Hs1. exists []. by rewrite app_nil_r. }
  destruct Hl as [e s p e' Hri Hro Hrun|e s e' Hwf Hrun|e s s' sd r cursors e' Hsn Hsave Hrun|e s s' Hsto
    |e s s' cursors e' Hb|e s s' p e1 cursors e' Hri Hro [(pat & dat & id & Henv & Hk & Hid & _ & Hlog) _] Hb]; cbn [fst snd] in *.
  - destruct (run_Deliver _ _ _ Hrun) as (r & Hh & Hr).
    destruct (deliver_in_step _ _ _ _ _ _ Hs Hri Hro Hh Hr) as [Hs'|Hs'].
    + exists []. rewrite app_nil_r. split; [apply sublist_nil_l|done].
    + by exists [p].
  - destruct (run_SnapshotTick _ _ Hrun) as (err & Hsn). apply (Hnone (e', s)). by eapply tick_in_step.
  - apply (Hnone (e', s')). cbn [run_step] in Hrun. injection Hrun as <-. by eapply save_in_step.
  - apply (Hnone (e, s')). cbn [fst snd]. by rewrite Hsto.
  - apply (Hnone (e', s')). cbn [fst snd]. by eapply boot_in_step.
  - exists [p]. split; [done|].
    destruct (logInput_logged _ _ _ _ _ _ _ _ Hs Hri Henv Hk Hid Hlog) as (Hl & _ & _ & Ho1 & _).
    eapply crash_in_step; [exact Hl|by rewrite Ho1|done|exact Hb].
Qed.

Lemma life_in_step w qs w' ps :
  (forall l : log, stable l) -> life w qs w' -> in_step (fst w) ps (stored (st_db (snd w))) ->
  exists logged, sublist logged qs /\ in_step (fst w') (ps ++ logged) (stored (st_db (snd w'))).
Proof.
  intros Hsta Hl. revert ps. induction Hl as [w|w1 qs1 w2 qs2 w3 Hst Hl IH]; intros ps Hs.
  - exists []. by rewrite app_nil_r.
  - destruct (life_step_in_step _ _ _ _ Hsta Hst Hs) as (lg1 & Hsub1 & Hs1). destruct (IH _ Hs1) as (lg2 & Hsub2 & Hs2).
    exists (lg1 ++ lg2). rewrite app_assoc. split; [by apply sublist_app|done].
Qed.

(** An engine in step with untrimmed logs, before the first snapshot. *)
Lemma consistent_in_step e ps : consistent e ps -> snapshots e = None -> in_step e ps [].
Proof.
  intros [Hi Hh Hseq Ho Happ] Hsn. pose proof (h_range _ _ _ Hi) as Hr.
  assert (Hw : waiting e = []) by (unfold waiting; by rewrite Hsn).
  split; rewrite ?Hw; try done; [|by apply history_effects|constructor].
  exists 1. split; rewrite ?Hw; try done. rewrite dedup_start_recent by lia. lia.
Qed.

Lemma related_same_ledger s s' : s ≡ s' -> same_ledger s s'.
Proof. intros [H2 H3 H4 H5]. split; [done..|]. intros i. destruct (H5 i); [by apply equiv_same_queues|done]. Qed.
End restarts.
