(* ===== verification/Requests.v ===== *)
(** * Every request keeps the ledger invariant

    What validation guarantees, and the effect of each kind of request on the
    invariant and on the totals: orders, edits, cancels, transfers, account
    creation, listing and the two admin adjustments. *)

From S2P Require Import Prelude Domain Slices OrderBook BookSpec Ledger Snapshot Events Matching Validation Orders Transfer Admin Invariant Settlement MatchStep MatchLoop MatchSpec Crossing.

(** The integer fields of a decoded order are [uint64] values. *)
Definition order_fields (order : Order) : Prop :=
  is_u64 (o_Price order) /\ is_u64 (o_Quantity order) /\ is_u64 (o_FilledQuantity order).

(** The id is not resting in the order's book. *)
Definition fresh_id (order : Order) (st : State) : Prop :=
  forall o, o ∈ resting (book (o_StockId order) st) -> o_Id o <> o_Id order.

(** A market buy bids at least the best prices it can meet, as the upstream
    service promises (the day's upper limit price). *)
Definition capped (order : Order) (st : State) : Prop :=
  forall o, o_OrderType order = ORDER_MARKET -> o_TradingType order = TRADING_BUY ->
    o ∈ resting (book (o_StockId order) st) -> o_TradingType o = TRADING_SELL -> o_Price o <= o_Price order.

Section validation.
Implicit Types (order : Order) (st : State).

Lemma validateTrade_iff order :
  validateTrade order = None <->
  o_Quantity order <> 0 /\ o_FilledQuantity order = 0 /\ o_Price order <> 0 /\
  (o_OrderType order = ORDER_LIMIT \/ o_OrderType order = ORDER_MARKET).
Proof.
  unfold validateTrade.
  destruct (Z.eqb_spec (o_Quantity order) 0), (Z.eqb_spec (o_FilledQuantity order) 0); simpl; try naive_solver.
  destruct (bool_decide_reflect (o_OrderType order = ORDER_LIMIT)),
    (bool_decide_reflect (o_OrderType order = ORDER_MARKET)); simpl; try naive_solver;
    destruct (Z.eqb_spec (o_Price order) 0); naive_solver.
Qed.

Lemma validateBuy_None order st :
  is_u64 (o_Price order) -> is_u64 (o_Quantity order) ->
  validateBuy order st = None <->
  validateTrade order = None /\ exists a, s_Accounts st !! o_AccountId order = Some a /\
    o_Price order * o_Quantity order < two64 /\ o_Price order * o_Quantity order <= acc_AvailableBalance a.
Proof.
  intros Hp Hq. unfold validateBuy, Accounts_Get. destruct (validateTrade order); [naive_solver|].
  destruct (s_Accounts st !! o_AccountId order) as [a|]; [|naive_solver].
  destruct (Mul64 (o_Price order) (o_Quantity order)) as [hi cost] eqn:Hm.
  destruct (Mul64_no_overflow _ _ _ _ Hp Hq Hm) as [Hhi Hlo].
  destruct (Z.eqb_spec hi 0) as [->|Hne]; simpl.
  - rewrite Hlo by done. destruct (Z.ltb_spec (acc_AvailableBalance a) (o_Price order * o_Quantity order)).
    + split; [done|]. intros (_ & a' & [= <-] & ?). lia.
    + split; [|done]. intros _. split; [done|]. exists a. naive_solver.
  - split; [done|]. intros (_ & a' & [= <-] & ?). naive_solver.
Qed.

Lemma validateSell_None order st :
  validateSell order st = None <->
  validateTrade order = None /\ exists h, s_StockBalances st !! (o_AccountId order, o_StockId order) = Some h /\
    o_Quantity order <= sb_AvailableQuantity h.
Proof.
  unfold validateSell, StockBalances_Get. destruct (validateTrade order); [naive_solver|].
  destruct (s_StockBalances st !! _) as [h|]; [|naive_solver].
  destruct (Z.ltb_spec (sb_AvailableQuantity h) (o_Quantity order)).
  - split; [done|]. intros (_ & h' & [= <-] & ?). lia.
  - split; [|done]. intros _. split; [done|]. eauto.
Qed.

Lemma validateStock_None order st :
  validateStock order st = None <->
  exists s, s_Stocks st !! o_StockId order = Some s /\
    (st_Status s = LISTED \/ o_TradingType order = TRADING_CANCEL).
Proof.
  unfold validateStock, Stocks_Get. destruct (s_Stocks st !! o_StockId order) as [s|]; [|naive_solver].
  destruct (bool_decide_reflect (st_Status s = LISTED)), (bool_decide_reflect (o_TradingType order = TRADING_CANCEL));
    simpl; naive_solver.
Qed.

(** A validated buy or sell order can be matched. *)
Lemma validated_matchable order st :
  order_fields order -> is_trade order -> snd (validateOrder order st) = None -> fresh_id order st -> capped order st ->
  matchable order st.
Proof.
  intros (Hp & Hq & Hf) Ht Hv Hfr Hcap. unfold validateOrder in Hv.
  destruct (Z.leb_spec (o_Id order) 0); [done|]. destruct (validateStock order st); [done|].
  assert (Hall : validateTrade order = None /\ funded order st).
  { unfold funded, unfilled. destruct Ht as [Ht|Ht]; rewrite Ht in *; simpl in Hv.
    - apply validateBuy_None in Hv as (Hvt & a & Ha & _ & Hle); [|done..]. split; [done|].
      destruct (proj1 (validateTrade_iff _) Hvt) as (_ & -> & _). rewrite Z.sub_0_r. eauto.
    - apply validateSell_None in Hv as (Hvt & h & Hh & Hle). split; [done|].
      destruct (proj1 (validateTrade_iff _) Hvt) as (_ & -> & _). rewrite Z.sub_0_r. eauto. }
  destruct Hall as [Hvt Hfund]. destruct (proj1 (validateTrade_iff _) Hvt) as (H1 & H2 & H3 & H4).
  unfold is_u64 in *. split; try done; [unfold open_order|]; lia.
Qed.
End validation.

(** ** Cancelling *)

Section cancelling.
Context `{!Clock}.
Implicit Types (order target : Order) (st : State) (la : abook).

Lemma rep_at sid st : ledger_ok st -> exists la, rep (book sid st) la /\ forall a o, (a, o) ∈ la -> resting_ok sid o.
Proof. intros Hi. apply (wf_book_at sid st), Hi. Qed.

(** Taking an order out of the book turns its reservation into something held. *)
Lemma cancel_inv st sid la a target b' :
  ledger_ok st -> rep (book sid st) la -> (forall a o, (a, o) ∈ la -> resting_ok sid o) ->
  (a, target) ∈ la -> rep b' (without a la) ->
  ledger_inv (hold_cash target (o_Price target * unfilled target)) (hold_qty target (unfilled target))
    (set_book sid b' st).
Proof.
  intros Hi Hr Hok Hin Hr'. pose proof (rep_addrs _ _ Hr) as Hnd. pose proof (ro_stock _ _ (Hok _ _ Hin)) as Hs.
  apply (inv_set_book (fun _ => 0) _ (fun _ _ => 0)); [done| | | |].
  - exists (without a la). split; [done|]. intros a' o [_ ?]%list_elem_of_filter. eauto.
  - intros o (a' & [_ Hin']%list_elem_of_filter)%(resting_elem _ _ _ Hr').
    eapply inv_owner_at; [done|]. apply (resting_elem _ _ _ Hr). eauto.
  - intros i. rewrite (resting_perm _ _ Hr), (resting_perm _ _ Hr'), (lsum_without _ la a target) by done.
    unfold hold_cash, cash_of. case_decide; lia.
  - intros i t. unfold hold_qty. rewrite Hs. destruct (decide (t = sid)) as [->|Hne].
    + rewrite (resting_perm _ _ Hr), (resting_perm _ _ Hr'), (lsum_without _ la a target) by done.
      unfold qty_of. repeat case_decide; naive_solver lia.
    + rewrite decide_False by naive_solver. lia.
Qed.

(** What an order held is added to the available balance or quantity exactly. *)
Lemma release_account target w st acc :
  ledger_inv (hold_cash target w) (hold_qty target (unfilled target)) st -> 0 <= w -> 0 <= unfilled target ->
  o_TradingType target = TRADING_BUY -> s_Accounts st !! o_AccountId target = Some acc ->
  s_Accounts (move_funds target (fun av => av ⊕ w) (fun av => av ⊕ unfilled target) st) !! o_AccountId target =
    Some (set_AvailableBalance (acc_AvailableBalance acc + w) acc).
Proof.
  intros Hinv Hw Hu Hb Hacc. unfold move_funds. rewrite Hb.
  rewrite modify_account_lookup, decide_True; [|done|done|apply Hinv]. rewrite Hacc. simpl. do 2 f_equal.
  apply add64_exact. destruct (inv_cash _ _ _ Hinv _ _ Hacc) as (? & ? & Heq).
  pose proof (reserved_cash_nonneg st (o_AccountId target) (inv_wf _ _ _ Hinv)).
  unfold hold_cash in Heq. rewrite decide_True in Heq by done. lia.
Qed.

Lemma release_holding target w st h :
  ledger_inv (hold_cash target w) (hold_qty target (unfilled target)) st -> 0 <= unfilled target ->
  o_TradingType target = TRADING_SELL -> s_StockBalances st !! (o_AccountId target, o_StockId target) = Some h ->
  s_StockBalances (move_funds target (fun av => av ⊕ w) (fun av => av ⊕ unfilled target) st)
    !! (o_AccountId target, o_StockId target) =
    Some (set_AvailableQuantity (sb_AvailableQuantity h + unfilled target) h).
Proof.
  intros Hinv Hu Hb Hh. unfold move_funds. rewrite Hb.
  rewrite modify_holding_lookup, decide_True; [|done|done|apply Hinv]. rewrite Hh. simpl. do 2 f_equal.
  apply add64_exact. destruct (inv_qty _ _ _ Hinv _ _ h Hh) as (? & ? & Heq).
  pose proof (reserved_qty_nonneg st (o_AccountId target) (o_StockId target) (inv_wf _ _ _ Hinv)).
  unfold hold_qty in Heq. rewrite decide_True in Heq by done. lia.
Qed.

(** What removing an order preserves and what it makes available. *)
Record removed target la a st st' : Prop := {
  rm_inv : ledger_ok st';
  rm_total_cash : total_cash st' = total_cash st;
  rm_total_qty t : total_qty t st' = total_qty t st;
  rm_rep : rep (book (o_StockId target) st') (without a la);
  rm_frame : ledger_frame [o_AccountId target] (o_StockId target) st st';
  rm_cash acc : o_TradingType target = TRADING_BUY -> s_Accounts st !! o_AccountId target = Some acc ->
    s_Accounts st' !! o_AccountId target =
      Some (set_AvailableBalance (acc_AvailableBalance acc + o_Price target * unfilled target) acc);
  rm_qty h : o_TradingType target = TRADING_SELL ->
    s_StockBalances st !! (o_AccountId target, o_StockId target) = Some h ->
    s_StockBalances st' !! (o_AccountId target, o_StockId target) =
      Some (set_AvailableQuantity (sb_AvailableQuantity h + unfilled target) h)
}.

Lemma open_book_id sid st : is_Some (s_OrderBooks st !! sid) -> open_book sid st = st.
Proof. intros [b Hb]. unfold open_book, OrderBooks_Get. rewrite Hb. by destruct st. Qed.

Lemma removeAndRelease_ok st la a target :
  ledger_ok st -> rep (book (o_StockId target) st) la ->
  (forall a o, (a, o) ∈ la -> resting_ok (o_StockId target) o) -> (a, target) ∈ la ->
  exists st', removeAndRelease target st = Done (st', true) /\ removed target la a st st'.
Proof.
  intros Hi Hr Hok Hin. pose proof (Hok _ _ Hin) as [Ho Hp _ _ Hside].
  unfold removeAndRelease. cbv zeta. set (st1 := open_book (o_StockId target) st).
  assert (Hi1 : ledger_ok st1) by (by apply inv_open_book).
  assert (Hr1 : rep (book (o_StockId target) st1) la) by (unfold st1; by rewrite book_open).
  destruct (rep_Cancel _ _ _ _ Hr1 Hin) as (b' & -> & Hr'). cbn [obind negb].
  pose proof (cancel_inv st1 _ la a target b' Hi1 Hr1 Hok Hin Hr') as Hinv.
  set (st2 := set_book (o_StockId target) b' st1) in *.
  assert (Hown : owner_ok st2 (o_StockId target) target).
  { assert (owner_ok st (o_StockId target) target); [|done]. eapply inv_owner_at; [done|].
    apply (resting_elem _ _ _ Hr). eauto. }
  unfold open_order in Ho. assert (Hu : 0 < unfilled target) by (unfold unfilled; lia).
  assert (Hnn : held_nonneg (hold_cash target (o_Price target * unfilled target)) (hold_qty target (unfilled target)))
    by (apply hold_nonneg; nia).
  rewrite sub64_exact by lia. fold (unfilled target).
  assert (Hpu : o_TradingType target = TRADING_BUY -> o_Price target ⊗ unfilled target = o_Price target * unfilled target).
  { intros Hb. apply (held_cash_exact _ _ st2 (o_AccountId target) _ _ Hinv).
    - done.
    - unfold owner_ok in Hown. by rewrite Hb in Hown.
    - unfold hold_cash. rewrite decide_True by done. nia. }
  destruct (release_inv target (o_Price target * unfilled target) (unfilled target) (o_Price target * unfilled target)
    (unfilled target) st2) as [Hi' [T1 T2 T3 T4]]; [destruct Hside; [by left|by right]|done|done|nia|lia|].
  rewrite !Z.sub_diag in Hi'.
  match goal with |- exists st', Done (?s, true) = _ /\ _ =>
    assert (Hs : s = move_funds target (fun av => av ⊕ (o_Price target * unfilled target))
      (fun av => av ⊕ unfilled target) st2) end.
  { unfold move_funds. destruct Hside as [Ht|Ht]; rewrite Ht; [|done]. by rewrite Hpu. }
  rewrite Hs. eexists; split; [done|]. set (st3 := move_funds _ _ _ _) in *. split.
  - eapply inv_ext; [exact Hi'|..]; intros; unfold hold_cash, hold_qty; by case_decide.
  - by rewrite T1.
  - intros t. by rewrite T2.
  - rewrite book_default, T3, <- book_default. unfold st2. by rewrite book_set_book.
  - eapply ledger_frame_trans; [apply frame_open_book| |set_solver|reflexivity].
    eapply ledger_frame_trans; [apply frame_set_book|exact T4|set_solver|reflexivity].
  - intros acc Hb Hacc. by apply release_account; [| nia|lia| |].
  - intros h Hb Hh. by apply release_holding; [|lia| |].
Qed.
End cancelling.

(** ** Edits and cancels of active orders *)

Section targets.
Context `{!Clock}.
Implicit Types (order target : Order) (st : State) (la : abook).

(** The target of a request, as validation finds it. *)
Definition active_target order target st : Prop :=
  Get (book (o_StockId order) st) (o_TargetId order) = Some target /\ o_AccountId target = o_AccountId order.

Lemma validateTarget_inl order st st' target :
  validateTargetRequest order st = (st', inl target) ->
  st' = open_book (o_StockId order) st /\ active_target order target st.
Proof.
  unfold validateTargetRequest, active_target. destruct (Z.leb _ 0); [done|]. rewrite book_open.
  destruct (Get _ _) as [t|]; [|done].
  destruct (Z.eqb_spec (o_AccountId t) (o_AccountId order)); simpl; naive_solver.
Qed.

(** The funds an edit needs, with the old reservation given back. *)
Lemma validateEditFunds_None order target st acc :
  is_u64 (o_Price order) -> open_order target -> 0 < o_Price target < two64 ->
  o_TradingType target = TRADING_BUY -> s_Accounts st !! o_AccountId target = Some acc ->
  is_u64 (acc_AvailableBalance acc) ->
  validateEditFunds order target st = None ->
  o_Price order * unfilled target <= acc_AvailableBalance acc + o_Price target * unfilled target.
Proof.
  intros Hp Ho Htp Hb Ha Hav. unfold validateEditFunds, Accounts_Get. unfold open_order in Ho.
  rewrite Hb, Ha, sub64_exact by lia. fold (unfilled target).
  assert (Hu : is_u64 (unfilled target)) by (unfold is_u64, unfilled; lia).
  assert (Htp' : is_u64 (o_Price target)) by (unfold is_u64; lia).
  destruct (Mul64 (o_Price target) (unfilled target)) as [ohi olo] eqn:H1.
  destruct (Mul64 (o_Price order) (unfilled target)) as [nhi nlo] eqn:H2.
  destruct (Mul64_no_overflow _ _ _ _ Htp' Hu H1) as [O1 O2]. destruct (Mul64_no_overflow _ _ _ _ Hp Hu H2) as [N1 N2].
  destruct (Z.eqb_spec ohi 0) as [->|]; [|simpl; done]. destruct (Z.eqb_spec nhi 0) as [->|]; [|simpl; done].
  cbn [negb orb].
  assert (Holo : is_u64 olo) by (injection H1 as _ <-; apply u64_range).
  destruct (Add64 (acc_AvailableBalance acc) olo 0) as [eff carry] eqn:H3.
  destruct (Add64_no_carry _ _ _ _ Hav Holo H3) as [A1 A2].
  destruct (Z.eqb_spec carry 0) as [->|]; [|done]. cbn [negb]. rewrite A2, O2, N2 by done.
  destruct (Z.ltb_spec (acc_AvailableBalance acc + o_Price target * unfilled target) (o_Price order * unfilled target));
    [done|lia].
Qed.

(** What a validated edit satisfies. *)
Lemma validated_edit order st :
  o_TradingType order = TRADING_EDIT -> snd (validateOrder order st) = None ->
  exists target, active_target order target st /\ o_Price order <> 0 /\ o_Price order <> o_Price target /\
    o_Id order <> o_TargetId order /\ validateEditFunds order target (open_book (o_StockId order) st) = None.
Proof.
  intros Ht. unfold validateOrder. rewrite Ht. destruct (Z.leb _ 0); [done|]. destruct (validateStock order st); [done|].
  unfold validateEdit. destruct (validateTargetRequest order st) as [st' [target|r]] eqn:Hv; [|done].
  apply validateTarget_inl in Hv as [-> Hact].
  destruct (Z.eqb_spec (o_Id order) (o_TargetId order)); [done|].
  destruct (Z.eqb_spec (o_Price order) 0); [done|].
  destruct (Z.eqb_spec (o_Price order) (o_Price target)); [done|]. simpl. intros Hf. by exists target.
Qed.

Lemma validated_cancel order st :
  o_TradingType order = TRADING_CANCEL -> snd (validateOrder order st) = None ->
  exists target, active_target order target st.
Proof.
  intros Ht. unfold validateOrder. rewrite Ht. destruct (Z.leb _ 0); [done|]. destruct (validateStock order st); [done|].
  unfold validateCancel. destruct (validateTargetRequest order st) as [st' [target|r]] eqn:Hv; [|done].
  apply validateTarget_inl in Hv as [_ Hact]. eauto.
Qed.

(** An active target, removed. *)
Lemma remove_target order target st la :
  ledger_ok st -> rep (book (o_StockId order) st) la -> active_target order target st ->
  resting_ok (o_StockId order) target /\
  exists a st', (a, target) ∈ la /\
    removeAndRelease target (open_book (o_StockId order) st) = Done (st', true) /\
    removed target la a (open_book (o_StockId order) st) st'.
Proof.
  intros Hi Hr [Hget _]. apply (rep_Get _ _ _ _ Hr) in Hget as (a & Hin & _).
  assert (Hok : forall a o, (a, o) ∈ la -> resting_ok (o_StockId order) o).
  { intros a' o Hin'. eapply resting_wf; [apply wf_book_at, Hi|]. apply (resting_elem _ _ _ Hr). eauto. }
  pose proof (ro_stock _ _ (Hok _ _ Hin)) as Hs. split; [by eauto|].
  destruct (removeAndRelease_ok (open_book (o_StockId order) st) la a target) as (st' & He & Hrm).
  - by apply inv_open_book.
  - by rewrite book_open, Hs.
  - by rewrite Hs.
  - done.
  - eauto.
Qed.

(** The replacement can be matched once its target is gone. *)
Lemma replacement_matchable order target st la a st' :
  ledger_ok st -> rep (book (o_StockId order) st) la -> (a, target) ∈ la -> resting_ok (o_StockId order) target ->
  active_target order target st -> is_u64 (o_Price order) -> o_Price order <> 0 -> fresh_id order st ->
  validateEditFunds order target (open_book (o_StockId order) st) = None ->
  removed target la a (open_book (o_StockId order) st) st' ->
  matchable (replacement_of order target) st'.
Proof.
  intros Hi Hr Hin [Ho Hp Hs Hl Hside] [_ Hacc] Hup Hnz Hfr Hfunds Hrm.
  assert (Hown : owner_ok st (o_StockId order) target).
  { eapply inv_owner_at; [done|]. apply (resting_elem _ _ _ Hr). eauto. }
  unfold owner_ok in Hown.
  split; cbn [replacement_of o_TradingType o_OrderType o_Price o_Id o_StockId].
  - destruct Hside; [by left|by right].
  - by left.
  - exact Ho.
  - unfold is_u64 in Hup. lia.
  - unfold funded. cbn. unfold unfilled. cbn. fold (unfilled target). rewrite <- Hacc, <- Hs.
    destruct Hside as [Ht|Ht]; rewrite Ht in *.
    + destruct Hown as [acc Ha]. eexists. split; [by eapply (rm_cash _ _ _ _ _ Hrm)|]. cbn.
      eapply (validateEditFunds_None order target _ acc); [done|done|done|done|exact Ha| |exact Hfunds].
      destruct (inv_cash _ _ _ Hi _ _ Ha) as (? & ? & ?).
      pose proof (reserved_cash_nonneg st (o_AccountId target) (inv_wf _ _ _ Hi)). unfold is_u64. lia.
    + destruct Hown as [h Hh]. rewrite <- Hs in Hh. eexists. split; [by eapply (rm_qty _ _ _ _ _ Hrm)|]. cbn.
      destruct (inv_qty _ _ _ Hi _ _ _ Hh) as (? & _ & _). lia.
  - intros o Hres. pose proof (rm_rep _ _ _ _ _ Hrm) as Hr'. rewrite Hs in Hr'.
    apply (resting_elem _ _ _ Hr') in Hres as (a' & [_ Hin']%list_elem_of_filter). apply Hfr.
    apply (resting_elem _ _ _ Hr). eauto.
  - intros o Hm. congruence.
Qed.
End targets.

(** ** Whole requests *)

(** What every accepted request preserves. *)
Record preserves (c c' : Core) : Prop := {
  pv_inv : ledger_ok (state c');
  pv_cash : total_cash (state c') = total_cash (state c);
  pv_qty t : total_qty t (state c') = total_qty t (state c);
  pv_books : (forall t, uncrossed (book t (state c))) -> forall t, uncrossed (book t (state c'))
}.

Section orders.
Context `{!Clock}.
Implicit Types (order target : Order) (c : Core).

Lemma totals_open_book sid st :
  total_cash (open_book sid st) = total_cash st /\ forall t, total_qty t (open_book sid st) = total_qty t st.
Proof. done. Qed.

(** Validation changes nothing but the existence of an empty book. *)
Lemma validated_open order st :
  fst (validateOrder order st) = st \/ fst (validateOrder order st) = open_book (o_StockId order) st.
Proof.
  assert (Hvt : forall st' r, validateTargetRequest order st = (st', r) -> st' = st \/ st' = open_book (o_StockId order) st).
  { unfold validateTargetRequest. intros st' r. repeat case_match; naive_solver. }
  unfold validateOrder, validateEdit, validateCancel.
  destruct (Z.leb _ 0); [by left|]. destruct (validateStock _ _); [by left|]. destruct (o_TradingType order); try by left.
  - destruct (validateTargetRequest order st) as [st' [t|r]]; destruct (Hvt _ _ eq_refl) as [->| ->]; repeat case_match; auto.
  - destruct (validateTargetRequest order st) as [st' [t|r]]; destruct (Hvt _ _ eq_refl) as [->| ->]; auto.
Qed.

Lemma removed_books order target st la a st' :
  rep (book (o_StockId order) st) la -> o_StockId target = o_StockId order ->
  removed target la a (open_book (o_StockId order) st) st' ->
  (forall t, uncrossed (book t st)) -> forall t, uncrossed (book t st').
Proof.
  intros Hr Hs Hrm Hu t. destruct (decide (t = o_StockId order)) as [->|Hne].
  - pose proof (rm_rep _ _ _ _ _ Hrm) as Hr'. rewrite Hs in Hr'. rewrite (uncrossed_rep _ _ Hr').
    apply (uncrossed_sub la.*2); [|apply (uncrossed_rep _ _ Hr), Hu].
    intros o ([a' o'] & -> & [_ Hin]%list_elem_of_filter)%list_elem_of_fmap. exists o'. split; [|done].
    apply list_elem_of_fmap. by exists (a', o').
  - rewrite (frame_book _ _ _ _ t (rm_frame _ _ _ _ _ Hrm)), book_open by congruence. apply Hu.
Qed.

Lemma editEvents_ok order target c la :
  ledger_ok (state c) -> bounded (o_StockId order) (state c) -> rep (book (o_StockId order) (state c)) la ->
  ids_left c (length la) -> active_target order target (state c) -> is_u64 (o_Price order) -> o_Price order <> 0 ->
  fresh_id order (state c) -> validateEditFunds order target (open_book (o_StockId order) (state c)) = None ->
  exists c' evs a st1 c1 evs1, editEvents order c = Done (c', inl evs) /\ preserves c c' /\
    (a, target) ∈ la /\ state c1 = st1 /\
    matched (replacement_of order target) (without a la).*2 c1 c' evs1.
Proof.
  intros Hi [Hb1 Hb2] Hr Hids Hact Hp Hnz Hfr Hfunds. unfold editEvents. cbv zeta. rewrite book_open.
  pose proof Hact as [Hget _]. rewrite Hget. cbn [default from_option id].
  destruct (remove_target order target (state c) la Hi Hr Hact) as (Hok & a & st1 & Hin & Hrem & Hrm).
  unfold default, id. rewrite Hrem. cbn [obind negb].
  pose proof (replacement_matchable order target (state c) la a st1 Hi Hr Hin Hok Hact Hp Hnz Hfr Hfunds Hrm) as Hm.
  assert (Hsid : o_StockId target = o_StockId order) by apply Hok.
  destruct (matchEvents_ok (replacement_of order target) (set_state c st1) (without a la)) as (c' & evs & -> & Hmt).
  - apply Hrm.
  - done.
  - split; cbn [state set_state].
    + rewrite (rm_total_cash _ _ _ _ _ Hrm). done.
    + rewrite (rm_total_qty _ _ _ _ _ Hrm). done.
  - cbn. rewrite <- Hsid. apply Hrm.
  - eapply ids_left_le; [exact Hids| |done|done]. apply length_filter.
  - cbn [obind]. do 6 eexists. split; [done|]. split; [|split; [done|split; [reflexivity|exact Hmt]]].
    assert (Hr1 : rep (book (o_StockId order) st1) (without a la)) by (rewrite <- Hsid; apply Hrm).
    split; [apply Hmt|..|intros Hu;
      apply (matched_books (replacement_of order target) (without a la) (set_state c st1) c' evs);
      [apply Hm|exact Hr1|exact Hmt|exact (removed_books order target (state c) la a st1 Hr Hsid Hrm Hu)]].
    + rewrite (mr_total_cash _ _ _ _ _ Hmt). cbn [state set_state]. by rewrite (rm_total_cash _ _ _ _ _ Hrm).
    + intros t. rewrite (mr_total_qty _ _ _ _ _ Hmt). cbn [state set_state]. by rewrite (rm_total_qty _ _ _ _ _ Hrm).
Qed.

Lemma cancelEvents_ok order target c la :
  ledger_ok (state c) -> rep (book (o_StockId order) (state c)) la -> active_target order target (state c) ->
  exists c' evs a, cancelEvents order c = Done (c', inl evs) /\ preserves c c' /\ (a, target) ∈ la /\
    removed target la a (open_book (o_StockId order) (state c)) (state c').
Proof.
  intros Hi Hr Hact. unfold cancelEvents. cbv zeta. rewrite book_open.
  pose proof Hact as [Hget _]. rewrite Hget.
  destruct (remove_target order target (state c) la Hi Hr Hact) as (Hok & a & st1 & Hin & Hrem & Hrm).
  rewrite Hrem. cbn [obind negb]. do 3 eexists. split_and!; [done| |exact Hin|exact Hrm].
  split; cbn [state set_state]; [apply Hrm|by rewrite (rm_total_cash _ _ _ _ _ Hrm)|intros t; by rewrite (rm_total_qty _ _ _ _ _ Hrm)|].
  intros Hu. exact (removed_books order target (state c) la a st1 Hr (ro_stock _ _ Hok) Hrm Hu).
Qed.

(** An edit and a cancel open the book themselves. *)
Lemma open_book_twice sid st : open_book sid (open_book sid st) = open_book sid st.
Proof.
  unfold open_book, OrderBooks_Get. destruct (s_OrderBooks st !! sid) as [b|] eqn:Hb; simpl.
  - by rewrite Hb.
  - by rewrite lookup_insert_eq.
Qed.

Lemma editEvents_opened order c :
  editEvents order (set_state c (open_book (o_StockId order) (state c))) = editEvents order c.
Proof. unfold editEvents. cbv zeta. cbn [state set_state]. by rewrite open_book_twice. Qed.

Lemma cancelEvents_opened order c :
  cancelEvents order (set_state c (open_book (o_StockId order) (state c))) = cancelEvents order c.
Proof. unfold cancelEvents. cbv zeta. cbn [state set_state]. by rewrite open_book_twice. Qed.

(** A validated order of any kind is processed without an error and keeps the ledger in order. *)
Lemma route_ok order c :
  ledger_ok (state c) -> bounded (o_StockId order) (state c) -> order_fields order ->
  fresh_id order (state c) -> capped order (state c) ->
  ids_left c (size (index (book (o_StockId order) (state c)))) ->
  snd (validateOrder order (state c)) = None ->
  exists c' evs, route_events order (set_state c (fst (validateOrder order (state c)))) = Done (c', inl evs) /\
    preserves c c'.
Proof.
  intros Hi Hb Hf Hfr Hcap Hids Hv.
  destruct (rep_at (o_StockId order) (state c) Hi) as (la & Hr & Hok).
  assert (Hids' : ids_left c (length la)) by (eapply ids_left_le; [exact Hids|by apply rep_index_size|done|done]).
  unfold route_events. destruct (o_TradingType order) eqn:Ht.
  - assert (Hs : fst (validateOrder order (state c)) = state c)
      by (unfold validateOrder; rewrite Ht; repeat case_match; done).
    rewrite Hs, set_state_id.
    destruct (matchEvents_ok order c la Hi (validated_matchable _ _ Hf (or_introl Ht) Hv Hfr Hcap) Hb Hr Hids')
      as (c' & evs & He & Hm). exists c', evs. split; [done|]. split; [apply Hm..|].
    apply (matched_books order la c c' evs); [by (left + right)|exact Hr|exact Hm].
  - assert (Hs : fst (validateOrder order (state c)) = state c)
      by (unfold validateOrder; rewrite Ht; repeat case_match; done).
    rewrite Hs, set_state_id.
    destruct (matchEvents_ok order c la Hi (validated_matchable _ _ Hf (or_intror Ht) Hv Hfr Hcap) Hb Hr Hids')
      as (c' & evs & He & Hm). exists c', evs. split; [done|]. split; [apply Hm..|].
    apply (matched_books order la c c' evs); [by (left + right)|exact Hr|exact Hm].
  - destruct (validated_edit order (state c) Ht Hv) as (target & Hact & Hnz & _ & _ & Hfunds).
    assert (He : editEvents order (set_state c (fst (validateOrder order (state c)))) = editEvents order c)
      by (destruct (validated_open order (state c)) as [Hs|Hs]; rewrite Hs, ?set_state_id; auto using editEvents_opened).
    rewrite He. destruct (editEvents_ok order target c la Hi Hb Hr Hids' Hact ltac:(apply Hf) Hnz Hfr Hfunds)
      as (c' & evs & _ & _ & _ & _ & He' & Hp & _). eauto.
  - destruct (validated_cancel order (state c) Ht Hv) as (target & Hact).
    assert (He : cancelEvents order (set_state c (fst (validateOrder order (state c)))) = cancelEvents order c)
      by (destruct (validated_open order (state c)) as [Hs|Hs]; rewrite Hs, ?set_state_id; auto using cancelEvents_opened).
    rewrite He. destruct (cancelEvents_ok order target c la Hi Hr Hact) as (c' & evs & _ & He' & Hp & _). eauto.
  - unfold validateOrder in Hv. rewrite Ht in Hv. repeat case_match; done.
Qed.
End orders.
