(* ===== verification/Accounts.v ===== *)
(** * Transfers, account creation, listing and admin adjustments

    The effect of the requests that are not orders on the ledger invariant and
    on the totals, and the exact conditions under which they are accepted. *)

From S2P Require Import Prelude Domain Slices OrderBook BookSpec Ledger Snapshot Events Matching Transfer Admin Invariant Settlement MatchStep MatchLoop MatchSpec Crossing Requests.

Section accounts.
Context `{!Clock}.
Implicit Types (st : State) (c : Core).

Lemma ok_nonneg : held_nonneg (fun _ => 0) (fun _ _ => 0).
Proof. by split. Qed.

(** ** Transfers *)

(** The conditions of an accepted transfer. *)
Definition transfer_ok (t : Transfer) st (sender recipient : Account) : Prop :=
  0 < tf_Id t /\ tf_Amount t <> 0 /\ tf_SenderAccountId t <> tf_RecipientAccountId t /\
  0 < tf_SenderAccountId t /\ 0 < tf_RecipientAccountId t /\
  s_Accounts st !! tf_SenderAccountId t = Some sender /\
  s_Accounts st !! tf_RecipientAccountId t = Some recipient /\
  tf_Amount t <= acc_AvailableBalance sender.

Lemma validateTransfer_inl t st sender recipient :
  validateTransfer t st = inl (sender, recipient) <-> transfer_ok t st sender recipient.
Proof.
  unfold validateTransfer, transfer_ok, Accounts_Get.
  destruct (Z.leb_spec (tf_Id t) 0); [naive_solver lia|].
  destruct (Z.eqb_spec (tf_Amount t) 0); [naive_solver|].
  destruct (Z.eqb_spec (tf_SenderAccountId t) (tf_RecipientAccountId t)); [naive_solver|].
  destruct (Z.leb_spec (tf_SenderAccountId t) 0); [naive_solver lia|].
  destruct (s_Accounts st !! tf_SenderAccountId t) as [a|]; [|naive_solver].
  destruct (Z.leb_spec (tf_RecipientAccountId t) 0); [naive_solver lia|].
  destruct (s_Accounts st !! tf_RecipientAccountId t) as [b|]; [|naive_solver].
  destruct (Z.ltb_spec (acc_AvailableBalance a) (tf_Amount t)); naive_solver lia.
Qed.

(** Moving cash out of and into an account. *)
Lemma debit_inv st i a d :
  ledger_ok st -> s_Accounts st !! i = Some a -> 0 <= d <= acc_AvailableBalance a ->
  ledger_ok (upsert_account (debit d a) st) /\
  total_cash (upsert_account (debit d a) st) = total_cash st - d /\
  debit d a = mkAccount i (acc_Balance a - d) (acc_AvailableBalance a - d).
Proof.
  intros Hi Ha Hd. destruct (inv_cash _ _ _ Hi _ _ Ha) as (Hav & Hlt & Heq).
  pose proof (reserved_cash_nonneg st i (inv_wf _ _ _ Hi)).
  pose proof (wf_acc_key _ (inv_wf _ _ _ Hi) _ _ Ha) as Hid.
  assert (He : debit d a = mkAccount i (acc_Balance a - d) (acc_AvailableBalance a - d)).
  { unfold debit. rewrite !sub64_exact, Hid by lia. done. }
  rewrite He. split_and!; [|rewrite total_cash_upsert; simpl; rewrite Ha; simpl; lia|done].
  apply (inv_upsert_account (fun _ => 0)); simpl; [done|lia|lia|lia|done].
Qed.

Lemma credit_inv st i a d :
  ledger_ok st -> s_Accounts st !! i = Some a -> 0 <= d -> acc_Balance a + d < two64 ->
  ledger_ok (upsert_account (credit d a) st) /\
  total_cash (upsert_account (credit d a) st) = total_cash st + d /\
  credit d a = mkAccount i (acc_Balance a + d) (acc_AvailableBalance a + d).
Proof.
  intros Hi Ha Hd Hb. destruct (inv_cash _ _ _ Hi _ _ Ha) as (Hav & Hlt & Heq).
  pose proof (reserved_cash_nonneg st i (inv_wf _ _ _ Hi)).
  pose proof (wf_acc_key _ (inv_wf _ _ _ Hi) _ _ Ha) as Hid.
  assert (He : credit d a = mkAccount i (acc_Balance a + d) (acc_AvailableBalance a + d)).
  { unfold credit. rewrite !add64_exact, Hid by lia. done. }
  rewrite He. split_and!; [|rewrite total_cash_upsert; simpl; rewrite Ha; simpl; lia|done].
  apply (inv_upsert_account (fun _ => 0)); simpl; [done|lia|lia|lia|done].
Qed.

Lemma transferEvents_ok t c :
  ledger_ok (state c) -> total_cash (state c) < two64 -> 0 <= tf_Amount t ->
  let c' := fst (transferEvents t c) in
  preserves c c' /\
  ((exists r, validateTransfer t (state c) = inr r /\ state c' = state c) \/
   (exists sender recipient, transfer_ok t (state c) sender recipient /\
      s_Accounts (state c') !! tf_SenderAccountId t =
        Some (mkAccount (tf_SenderAccountId t) (acc_Balance sender - tf_Amount t)
                (acc_AvailableBalance sender - tf_Amount t)) /\
      s_Accounts (state c') !! tf_RecipientAccountId t =
        Some (mkAccount (tf_RecipientAccountId t) (acc_Balance recipient + tf_Amount t)
                (acc_AvailableBalance recipient + tf_Amount t)) /\
      forall i, i <> tf_SenderAccountId t -> i <> tf_RecipientAccountId t ->
        s_Accounts (state c') !! i = s_Accounts (state c) !! i)).
Proof.
  intros Hi Htot Hamt. unfold transferEvents, time_now. cbn [state].
  destruct (validateTransfer t (state c)) as [[sender recipient]|r] eqn:Hv; cbn [fst state set_state].
  2: { split; [by split|]. left. eauto. }
  apply validateTransfer_inl in Hv as Hok. destruct Hok as (_ & _ & Hne & _ & _ & Hs & Hr & Hle).
  destruct (debit_inv (state c) _ _ (tf_Amount t) Hi Hs ltac:(lia)) as (Hi1 & Ht1 & He1).
  assert (Hr1 : s_Accounts (upsert_account (debit (tf_Amount t) sender) (state c)) !! tf_RecipientAccountId t
    = Some recipient).
  { rewrite He1. simpl. unfold Accounts_Upsert. simpl. by rewrite lookup_insert_ne. }
  destruct (inv_balance_range _ _ _ _ _ Hi1 ok_nonneg Hr1) as ((? & Hrb) & _ & _).
  destruct (credit_inv _ _ _ (tf_Amount t) Hi1 Hr1 ltac:(lia) ltac:(lia)) as (Hi2 & Ht2 & He2).
  split.
  - split; cbn [state set_state]; [exact Hi2|rewrite Ht2; lia|done|done].
  - right. exists sender, recipient. split; [by apply validateTransfer_inl|]. rewrite He1, He2. simpl.
    unfold Accounts_Upsert. simpl. split_and!.
    + by rewrite lookup_insert_ne, lookup_insert_eq.
    + by rewrite lookup_insert_eq.
    + intros i ? ?. by rewrite !lookup_insert_ne.
Qed.

(** ** Admin adjustments *)

Definition is_i64 (z : Z) : Prop := - (MaxInt64 + 1) <= z <= MaxInt64.

(** Negating and converting an [int64] is exact, also for the least one. *)
Lemma decrease_of_exact d : is_i64 d -> d < 0 -> decrease_of d = - d.
Proof.
  unfold is_i64, decrease_of, i64, MaxInt64, u64, two64. intros Hd Hneg.
  destruct (decide (d = -9223372036854775808)) as [->|Hne]; [done|].
  rewrite (Z.mod_small (- d + _)) by lia. rewrite Z.mod_small; lia.
Qed.

Lemma increase_of_exact d : is_i64 d -> 0 <= d -> increase_of d = d.
Proof. unfold is_i64, increase_of, MaxInt64. intros. apply u64_small. unfold is_u64, two64. lia. Qed.

Definition balance_room (req : BalanceAdjust) st : Prop :=
  forall a, s_Accounts st !! ba_AccountId req = Some a -> 0 < ba_Delta req -> acc_Balance a + ba_Delta req < two64.

(** An adjustment changes both balances of its account by exactly the delta, or is rejected. *)
Lemma balanceAdjustEvents_ok req c :
  ledger_ok (state c) -> is_i64 (ba_Delta req) -> balance_room req (state c) ->
  let c' := fst (balanceAdjustEvents req c) in
  ledger_ok (state c') /\
  ((exists r, validateBalanceAdjust req (state c) = Some r /\ state c' = state c) \/
   (exists a, s_Accounts (state c) !! ba_AccountId req = Some a /\
      state c' = upsert_account (mkAccount (ba_AccountId req) (acc_Balance a + ba_Delta req)
                   (acc_AvailableBalance a + ba_Delta req)) (state c) /\
      0 <= acc_AvailableBalance a + ba_Delta req /\
      total_cash (state c') = total_cash (state c) + ba_Delta req)).
Proof.
  intros Hi Hd Hroom. unfold balanceAdjustEvents. destruct (validateBalanceAdjust req (state c)) as [r|] eqn:Hv.
  { unfold adminRequestRejected, time_now. cbn [fst state]. split; [done|left]. eauto. }
  unfold validateBalanceAdjust, Accounts_Get in *. destruct (Z.eqb_spec (ba_Delta req) 0); [done|].
  destruct (s_Accounts (state c) !! ba_AccountId req) as [a|] eqn:Ha; [|done].
  cbn [default from_option id] in *. unfold adminRequestCompleted, time_now. cbn [fst state set_state]. unfold default, id.
  destruct (inv_cash _ _ _ Hi _ _ Ha) as (Hav & Hlt & _).
  destruct (Z.ltb_spec (ba_Delta req) 0) as [Hneg|Hpos].
  - rewrite decrease_of_exact in * by done.
    destruct (Z.ltb_spec (acc_Balance a) (- ba_Delta req)); [done|].
    destruct (Z.ltb_spec (acc_AvailableBalance a) (- ba_Delta req)); [done|].
    destruct (debit_inv (state c) _ _ (- ba_Delta req) Hi Ha ltac:(lia)) as (Hi1 & Ht1 & He1).
    split; [exact Hi1|right]. exists a. split_and!; [done| |lia|rewrite Ht1; lia].
    rewrite He1. do 2 f_equal; lia.
  - rewrite increase_of_exact by done.
    destruct (credit_inv (state c) _ _ (ba_Delta req) Hi Ha ltac:(lia) ltac:(apply Hroom; [done|lia])) as (Hi1 & Ht1 & He1).
    split; [exact Hi1|right]. exists a. split_and!; [done| |lia|done]. by rewrite He1.
Qed.

Definition holding_room (req : StockBalanceAdjust) st : Prop :=
  forall h, s_StockBalances st !! (sba_AccountId req, sba_StockId req) = Some h -> 0 < sba_Delta req ->
    sb_Quantity h + sba_Delta req < two64.

(** The quantities of the adjusted holding. *)
Lemma adjusted_quantities req st :
  ledger_ok st -> is_i64 (sba_Delta req) -> holding_room req st ->
  validateStockBalanceAdjust req st = None ->
  let h := s_StockBalances st !! (sba_AccountId req, sba_StockId req) in
  let h' := adjusted_holding req h in
  is_Some (s_Accounts st !! sba_AccountId req) /\ is_Some (s_Stocks st !! sba_StockId req) /\
  sb_AccountId h' = sba_AccountId req /\ sb_StockId h' = sba_StockId req /\
  sb_Quantity h' = from_option sb_Quantity 0 h + sba_Delta req /\
  sb_AvailableQuantity h' = from_option sb_AvailableQuantity 0 h + sba_Delta req /\
  0 <= sb_AvailableQuantity h' /\ sb_Quantity h' < two64.
Proof.
  intros Hi Hd Hroom. unfold validateStockBalanceAdjust, Accounts_Get, Stocks_Get, StockBalances_Get.
  destruct (Z.eqb_spec (sba_Delta req) 0); [done|].
  destruct (s_Accounts st !! _) as [a|]; [|done]. destruct (s_Stocks st !! _) as [s|]; [|done].
  destruct (s_StockBalances st !! _) as [h|] eqn:Hh; cbv zeta.
  - destruct (inv_qty _ _ _ Hi _ _ _ Hh) as (Hav & Hlt & Heq).
    pose proof (reserved_qty_nonneg st (sba_AccountId req) (sba_StockId req) (inv_wf _ _ _ Hi)).
    pose proof (wf_hold_key _ (inv_wf _ _ _ Hi) _ _ Hh) as [= Hk1 Hk2]. unfold adjusted_holding. cbn [from_option].
    destruct (Z.ltb_spec (sba_Delta req) 0) as [Hneg|Hpos].
    + rewrite decrease_of_exact by done.
      destruct (Z.ltb_spec (sb_Quantity h) (- sba_Delta req)); [done|].
      destruct (Z.ltb_spec (sb_AvailableQuantity h) (- sba_Delta req)); [done|]. intros _.
      rewrite (sub64_exact (sb_Quantity h)), (sub64_exact (sb_AvailableQuantity h)) by lia.
      destruct (Z.eqb_spec (sb_Quantity h - - sba_Delta req) 0); simpl; split_and!; eauto; lia.
    + intros _. specialize (Hroom h Hh ltac:(lia)). rewrite increase_of_exact by done.
      rewrite (add64_exact (sb_Quantity h)), (add64_exact (sb_AvailableQuantity h)) by lia.
      simpl. split_and!; eauto; lia.
  - destruct (Z.ltb_spec (sba_Delta req) 0); [done|]. destruct (Z.eqb_spec (sba_Average req) 0); [done|]. intros _.
    unfold adjusted_holding. rewrite increase_of_exact by done. unfold is_i64, MaxInt64, two64 in *. simpl.
    split_and!; eauto; lia.
Qed.

Lemma stockBalanceAdjustEvents_ok req c :
  ledger_ok (state c) -> is_i64 (sba_Delta req) -> holding_room req (state c) ->
  let c' := fst (stockBalanceAdjustEvents req c) in
  ledger_ok (state c') /\ total_cash (state c') = total_cash (state c) /\
  ((exists r, validateStockBalanceAdjust req (state c) = Some r /\ state c' = state c) \/
   (validateStockBalanceAdjust req (state c) = None /\
    total_qty (sba_StockId req) (state c') = total_qty (sba_StockId req) (state c) + sba_Delta req /\
    forall t, t <> sba_StockId req -> total_qty t (state c') = total_qty t (state c))).
Proof.
  intros Hi Hd Hroom. unfold stockBalanceAdjustEvents.
  destruct (validateStockBalanceAdjust req (state c)) as [r|] eqn:Hv.
  { unfold adminRequestRejected, time_now. cbn [fst state]. split_and!; [done..|left]. eauto. }
  unfold adminRequestCompleted, time_now, StockBalances_Get. cbn [fst state set_state].
  destruct (adjusted_quantities req (state c) Hi Hd Hroom Hv) as (Hacc & _ & Hk1 & Hk2 & Hq & Hav & Hav0 & Hlt).
  set (h' := adjusted_holding req _) in *. split_and!; [|done|right; split; [done|]].
  - apply (inv_upsert_holding _ (fun _ _ => 0)); rewrite ?Hk1, ?Hk2; [done|done|done| |done|done].
    rewrite Hq, Hav. destruct (s_StockBalances (state c) !! _) as [h|] eqn:Hh; cbn [from_option].
    + destruct (inv_qty _ _ _ Hi _ _ _ Hh) as (_ & _ & ->). lia.
    + rewrite (no_holding_no_reserved _ _ _ _ _ Hi Hh). lia.
  - split.
    + rewrite total_qty_upsert, Hk1, Hk2, Hq, decide_True by done. lia.
    + intros t Ht. rewrite total_qty_upsert, Hk2, decide_False by congruence. lia.
Qed.

(** ** Accounts and stocks *)

Lemma no_account_no_reserved st i :
  ledger_ok st -> s_Accounts st !! i = None -> reserved_cash (s_OrderBooks st) i = 0.
Proof.
  intros Hi Hn. unfold reserved_cash. rewrite (msum_ext _ (fun _ _ => 0)).
  - induction (s_OrderBooks st) as [|k v m Hk IH] using map_ind; [apply msum_empty|].
    rewrite msum_insert_None by done. lia.
  - intros sid b Hb. apply lsum_zero. intros o Ho. unfold cash_of. case_decide as Hd; [|done]. destruct Hd as [Ht <-].
    pose proof (inv_orders _ _ _ Hi _ _ _ Hb Ho) as Hown. rewrite Ht, Hn in Hown. by destruct Hown.
Qed.

(** A new account whose balance is all available. *)
Lemma activateAccount_ok acc c :
  ledger_ok (state c) -> s_Accounts (state c) !! acc_Id acc = None ->
  is_u64 (acc_Balance acc) -> acc_AvailableBalance acc = acc_Balance acc ->
  let c' := fst (activateAccountEvents acc c) in
  ledger_ok (state c') /\ total_cash (state c') = total_cash (state c) + acc_Balance acc /\
  s_Accounts (state c') !! acc_Id acc = Some acc.
Proof.
  intros Hi Hn [Hb1 Hb2] Hav. cbn. split_and!.
  - apply (inv_upsert_account (fun _ => 0)); [done|lia|done| |done].
    rewrite (no_account_no_reserved _ _ Hi Hn). lia.
  - rewrite total_cash_upsert, Hn. simpl. lia.
  - unfold Accounts_Upsert. by rewrite lookup_insert_eq.
Qed.

Lemma setStockStatus_ok stock status p c :
  ledger_ok (state c) -> StockStatus_wf status ->
  let c' := fst (setStockStatusEvents stock status p c) in
  preserves c c' /\ s_Stocks (state c') !! st_Id stock = Some (mkStock (st_Id stock) (st_Price stock) status).
Proof.
  intros Hi Hs. cbn. split.
  - split; cbn [state set_state]; [by apply inv_upsert_stock|done|done|done].
  - unfold Stocks_Upsert. by rewrite lookup_insert_eq.
Qed.
End accounts.
