(* ===== verification/Reporting.v ===== *)
(** * Every request reports what it does to the ledger

    The events of a request say everything about its effect on accounts,
    holdings and stocks, and nothing that is not true of the ledger after it.
    This holds for every request that is processed, whatever its amounts and
    whatever the state of the ledger ([Reports] has the counterpart for matched
    orders that includes the levels of the book). *)

From S2P Require Import Prelude Domain Slices OrderBook BookSpec Ledger Snapshot Events Matching Validation Orders Transfer Admin Invariant MatchLoop MatchSpec Reports Footprint Requests.

Definition order_patterns : list string :=
  [PatternOrderOpen; PatternOrderFilled; PatternOrderCanceled; PatternOrderReplaced; PatternOrderCompleted].

(** Events that say nothing about accounts, holdings and stocks. *)
Inductive neutral : outEvent -> Prop :=
  | nt_trade t : neutral (mkOutEvent PatternTradeExecuted (EvTrade t))
  | nt_order p o : p ∈ order_patterns -> neutral (mkOutEvent p (EvOrder o))
  | nt_rejected order r : neutral (reject_event order r)
  | nt_book u : neutral (mkOutEvent PatternOrderBookUpdated (EvOrderBook u))
  | nt_transfer_completed t : neutral (mkOutEvent PatternTransferCompleted (EvTransferCompleted t))
  | nt_transfer_rejected t r now : neutral (transfer_reject_event t r now)
  | nt_admin_completed r : neutral (mkOutEvent PatternAdminRequestCompleted (EvAdminCompleted r))
  | nt_admin_rejected id r now :
      neutral (mkOutEvent PatternAdminRequestRejected
        (EvAdminRejected (mkAdminRequestRejected id (AdminRejectReason_string r) now))).

Abbreviation account_updated a := (mkOutEvent PatternAccountUpdated (EvAccount a)).
Abbreviation account_activated a := (mkOutEvent PatternAccountActivated (EvAccount a)).
Abbreviation holding_updated h := (mkOutEvent PatternHoldingUpdated (EvHolding h)).
Abbreviation stock_updated s := (mkOutEvent PatternStockUpdated (EvStock s)).
Abbreviation stock_listed s := (mkOutEvent PatternStockListed (EvStock s)).

(** What an event says is so in the ledger [st]. *)
Inductive faithful (st : State) : outEvent -> Prop :=
  | fa_neutral ev : neutral ev -> faithful st ev
  | fa_account a : s_Accounts st !! acc_Id a = Some a -> faithful st (account_updated a)
  | fa_activated a : s_Accounts st !! acc_Id a = Some a -> faithful st (account_activated a)
  | fa_holding h : s_StockBalances st !! (sb_AccountId h, sb_StockId h) = Some h -> faithful st (holding_updated h)
  | fa_stock s : s_Stocks st !! st_Id s = Some s -> faithful st (stock_updated s)
  | fa_listed s : s_Stocks st !! st_Id s = Some s -> faithful st (stock_listed s).

(** No account and no stock disappears. *)
Definition grows (st st' : State) : Prop :=
  (forall i, is_Some (s_Accounts st !! i) -> is_Some (s_Accounts st' !! i)) /\
  (forall i, is_Some (s_Stocks st !! i) -> is_Some (s_Stocks st' !! i)).

Lemma is_Some_insert {A} (m : gmap Z A) j x i : is_Some (m !! i) -> is_Some (<[j := x]> m !! i).
Proof. rewrite lookup_insert. case_decide; eauto. Qed.
#[export] Hint Resolve is_Some_insert : kronex.

Record reports (st st' : State) (evs : list outEvent) : Prop := {
  rs_keyed : keyed st';
  rs_faithful : Forall (faithful st') evs;
  rs_account i a : s_Accounts st' !! i = Some a ->
    s_Accounts st !! i = Some a \/ (is_Some (s_Accounts st !! i) /\ account_updated a ∈ evs) \/ account_activated a ∈ evs;
  rs_holding k h : s_StockBalances st' !! k = Some h ->
    s_StockBalances st !! k = Some h \/ holding_updated h ∈ evs;
  rs_held k : is_Some (s_StockBalances st !! k) -> is_Some (s_StockBalances st' !! k);
  rs_stock i s : s_Stocks st' !! i = Some s ->
    s_Stocks st !! i = Some s \/
    (exists s0, s_Stocks st !! i = Some s0 /\ st_Status s0 = st_Status s /\ stock_updated s ∈ evs) \/
    stock_listed s ∈ evs;
  rs_grows : grows st st'
}.

Section reporting.
Context `{!Clock}.
Implicit Types (order : Order) (c : Core) (st : State).

(** ** Requests that change no record *)

Lemma reports_same st st' evs :
  keyed st' -> s_Accounts st' = s_Accounts st -> s_StockBalances st' = s_StockBalances st ->
  s_Stocks st' = s_Stocks st -> Forall neutral evs -> reports st st' evs.
Proof.
  intros Hk Ha Hh Hs Hn. split; [done| | | | | |unfold grows; by rewrite Ha, Hs].
  - eapply Forall_impl; [exact Hn|]. by constructor.
  - intros i a. rewrite Ha. auto.
  - intros k h. rewrite Hh. auto.
  - intros k. by rewrite Hh.
  - intros i s. rewrite Hs. auto.
Qed.

(** ** Matching *)

Lemma order_event_neutral ev : order_event ev -> neutral ev.
Proof. intros []; constructor; unfold order_patterns; set_solver. Qed.

Lemma account_events_faithful sid st ids ev :
  keyed st -> ev ∈ account_events sid st ids -> faithful st ev.
Proof.
  intros Hk [(i & a & Ha & ->)|(i & h & Hh & ->)]%account_events_sound.
  - apply fa_account. by rewrite (kd_account _ Hk _ _ Ha).
  - apply fa_holding. by rewrite (kd_holding _ Hk _ _ Hh).
Qed.

(** The changes of a footprint are among the events of its accounts. *)
Lemma footprint_reports ids sid st st' evs :
  footprint ids sid st st' -> (forall ev, ev ∈ account_events sid st' ids -> ev ∈ evs) ->
  Forall (fun ev => neutral ev \/ ev ∈ account_events sid st' ids) evs -> reports st st' evs.
Proof.
  intros [Hk F Hn] Hin Hev. split; [done| | | |apply F| |].
  - eapply Forall_impl; [exact Hev|]. intros ev [Hne|Ha]; [by constructor|]. by eapply account_events_faithful.
  - intros i a Ha. destruct (decide (i ∈ ids)) as [Hi|Hi].
    + right. left. split; [apply Hn; eauto|]. apply Hin. by eapply account_event_elem.
    + left. by rewrite <- (lf_accounts _ _ _ _ F i Hi).
  - intros [i t] h Hh. destruct (decide (i ∈ ids /\ t = sid)) as [[Hi ->]|Hi].
    + right. apply Hin. by eapply holding_event_elem.
    + left. rewrite <- (lf_holdings _ _ _ _ F i t); [done|].
      destruct (decide (i ∈ ids)); [right|left]; naive_solver.
  - intros i s. rewrite (lf_stocks _ _ _ _ F). auto.
  - split; [apply F|]. by rewrite (lf_stocks _ _ _ _ F).
Qed.

Lemma reserve_fp order r st : keyed st -> footprint [o_AccountId order] (o_StockId order) st (reserve order r st).
Proof. intros Hk. unfold reserve. destruct (o_TradingType order); auto with kronex. Qed.

Lemma place_remainder_fp l :
  keyed (state (l_core l)) ->
  footprint [o_AccountId (l_order l)] (o_StockId (l_order l)) (state (l_core l)) (state (l_core (place_remainder l))) /\
  l_order (place_remainder l) = l_order l /\ l_accountIDs (place_remainder l) = l_accountIDs l /\
  l_events (place_remainder l) = l_events l.
Proof.
  intros Hk. unfold place_remainder. destruct (Z.ltb _ _); [|by auto using fp_refl].
  destruct (o_OrderType (l_order l)); cbn [l_core l_order l_accountIDs l_events state set_state]; (split; [|done]).
  - eapply fp_weaken; [apply fp_set_book; [|done]|apply list_subseteq_nil]. by apply shelf_Add, shelf_book.
  - destruct (o_TradingType (l_order l)); auto with kronex.
  - by apply fp_refl.
Qed.

Lemma refund_buyer_fp f l st :
  keyed st -> footprint [o_AccountId (l_order l)] (o_StockId (l_order l)) st (refund_buyer f l st).
Proof. intros Hk. unfold refund_buyer. destruct (o_TradingType (l_order l)); auto with kronex. destruct (Z.gtb _ 0); auto with kronex. Qed.

Lemma taker_event_neutral order c c' ev : taker_event order c = (c', ev) -> state c' = state c /\ neutral ev.
Proof.
  unfold taker_event, orderStatusPattern, time_now. repeat case_match; intros; simplify_eq/=; (split; [done|]);
    constructor; unfold order_patterns; set_solver.
Qed.

Lemma book_events_neutral sid levels st : Forall neutral (book_events sid levels st).
Proof. unfold book_events. destruct levels; repeat constructor. Qed.

(** The price of a stock changes with its event. *)
Lemma price_reports l st st' so st0 evs ids :
  update_stock_price l st = (st', so) -> footprint ids (o_StockId (l_order l)) st0 st ->
  Forall neutral evs -> ids ⊆ l_accountIDs l ->
  reports st0 st' (evs ++ account_events (o_StockId (l_order l)) st' (l_accountIDs l) ++ stock_events so).
Proof.
  intros Hu F Hn Hids. apply (fp_weaken _ (l_accountIDs l)) in F; [|done].
  assert (Hbase : so = None -> st' = st ->
    reports st0 st' (evs ++ account_events (o_StockId (l_order l)) st' (l_accountIDs l) ++ stock_events so)).
  { intros -> ->. eapply footprint_reports; [exact F|set_solver|]. cbn. rewrite app_nil_r. apply Forall_app. split.
    - eapply Forall_impl; [exact Hn|]. auto.
    - apply Forall_forall. auto. }
  unfold update_stock_price, Stocks_Get in Hu. destruct (Z.gtb _ 0); [|injection Hu as <- <-; auto].
  destruct (s_Stocks st !! o_StockId (l_order l)) as [s0|] eqn:Hs0; [|injection Hu as <- <-; auto].
  injection Hu as <- <-. clear Hbase. set (s1 := set_Price (l_lastTradePrice l) s0).
  destruct F as [Hk F Hnew]. pose proof (kd_stock _ Hk _ _ Hs0) as Hid.
  assert (Hk' : keyed (upsert_stock s1 st)) by (by apply keyed_upsert_stock).
  assert (Hs1 : s_Stocks (upsert_stock s1 st) !! st_Id s1 = Some s1) by apply lookup_insert_eq.
  split; [done| | | |apply F| |].
  - rewrite !Forall_app. split_and!; [eapply Forall_impl; [exact Hn|]; by constructor| |apply Forall_singleton; by apply fa_stock].
    apply Forall_forall. intros ev Hev. by eapply account_events_faithful.
  - intros i a Ha. destruct (decide (i ∈ l_accountIDs l)) as [Hi|Hi].
    + right. left. split; [apply Hnew; eauto|]. rewrite !elem_of_app. right. left. by eapply account_event_elem.
    + left. by rewrite <- (lf_accounts _ _ _ _ F i Hi).
  - intros [i t] h Hh. destruct (decide (i ∈ l_accountIDs l /\ t = o_StockId (l_order l))) as [[Hi ->]|Hi].
    + right. rewrite !elem_of_app. right. left. by eapply holding_event_elem.
    + left. rewrite <- (lf_holdings _ _ _ _ F i t); [done|].
      destruct (decide (i ∈ l_accountIDs l)); [right|left]; naive_solver.
  - intros i s. cbn. unfold Stocks_Upsert. intros [[<- <-]|[_ Hs]]%lookup_insert_Some.
    + right. left. exists s0. cbn in Hid |- *. rewrite Hid, <- (lf_stocks _ _ _ _ F), Hs0. split_and!; [done|done|].
      rewrite !elem_of_app. right. right. by apply list_elem_of_singleton.
    + left. by rewrite <- (lf_stocks _ _ _ _ F).
  - split; [apply F|]. intros i Hi. apply is_Some_insert. by rewrite (lf_stocks _ _ _ _ F).
Qed.

Lemma matchEvents_reports_from order c c' evs st0 :
  footprint [o_AccountId order] (o_StockId order) st0 (state c) ->
  matchEvents order c = Done (c', inl evs) -> reports st0 (state c') evs.
Proof.
  intros F0. unfold matchEvents. cbv zeta. set (l0 := start_match order c).
  assert (F1 : footprint [o_AccountId order] (o_StockId order) st0 (state (l_core l0))).
  { eapply fp_trans; [exact F0|eapply fp_trans; [apply fp_open_book, F0|apply reserve_fp|apply list_subseteq_nil|done]|done|done].
    eapply fp_keyed, fp_open_book, F0. }
  destruct (match_loop _ l0) as [[l1 [e|]]|] eqn:Hl; [done| |done]. cbn [obind].
  pose proof (match_loop_walked _ l0 l1 (fp_keyed _ _ _ _ F1) ltac:(cbn; set_solver) Hl) as W.
  destruct (wk_order _ _ W) as (Ha & Hs & _). cbn [l0 start_match l_order] in Ha, Hs.
  assert (Hin : o_AccountId order ∈ l_accountIDs l1) by (apply (wk_ids _ _ W); cbn; set_solver).
  pose proof (wk_fp _ _ W) as F2. cbn [l0 start_match l_order] in F2.
  destruct (place_remainder_fp l1 (fp_keyed _ _ _ _ F2)) as (F3 & Ho & Hi & He).
  unfold finish_match. cbv zeta. destruct (update_stock_price _ _) as [s so] eqn:Hu.
  destruct (taker_event _ _) as [c2 taker] eqn:Ht. intros [= <- <-].
  destruct (taker_event_neutral _ _ _ _ Ht) as [Hst Hnt]. cbn [state set_state] in Hst. rewrite Hst.
  pose proof (refund_buyer_fp (o_FilledQuantity order) (place_remainder l1) _ (fp_keyed _ _ _ _ F3)) as F4.
  rewrite (cons_middle taker), !app_assoc. rewrite <- (app_assoc _ _ (stock_events so)).
  eapply (price_reports _ _ _ _ _ _ (l_accountIDs l1)); [exact Hu| | |by rewrite Hi].
  - rewrite Ho, Hs in *. rewrite Ha in *. assert (Hids : [o_AccountId order] ⊆ l_accountIDs l1) by set_solver.
    eapply fp_trans; [exact F1|eapply fp_trans; [exact F2|eapply fp_trans; [exact F3|exact F4|done|done]|done|done]|done|done].
  - rewrite !Forall_app. split_and!; [|by constructor|apply book_events_neutral].
    rewrite He. eapply Forall_impl; [|apply order_event_neutral]. apply (wk_events _ _ W). constructor.
Qed.

Lemma matchEvents_reports order c c' evs :
  keyed (state c) -> matchEvents order c = Done (c', inl evs) -> reports (state c) (state c') evs.
Proof. intros Hk. apply matchEvents_reports_from. by apply fp_refl. Qed.

(** ** Edits and cancels *)

(** An event about a record of the ledger. *)
Definition on_record (ev : outEvent) : Prop :=
  match data ev with EvAccount _ | EvHolding _ | EvStock _ => True | _ => False end.

(** Only the events about records matter. *)
Lemma reports_events st st' evs evs' :
  reports st st' evs -> Forall (faithful st') evs' -> (forall ev, on_record ev -> ev ∈ evs -> ev ∈ evs') ->
  reports st st' evs'.
Proof.
  intros [K F A L D S G] F' Hin. split; [done|done| | |done| |done].
  - intros i a Ha. destruct (A _ _ Ha) as [?|[[? ?]|?]]; [auto|right; left|right; right]; [split; [done|]|]; by apply Hin.
  - intros k h Hh. destruct (L _ _ Hh) as [?|?]; [auto|right]. by apply Hin.
  - intros i s0 Hs. destruct (S _ _ Hs) as [?|[(s1 & ? & ? & ?)|?]]; [auto|right; left|right; right].
    + exists s1. split_and!; [done|done|]. by apply Hin.
    + by apply Hin.
Qed.

Lemma merge_faithful st evs lv sid : Forall (faithful st) evs -> Forall (faithful st) (mergeOrderBookLevel evs lv sid).
Proof.
  induction 1 as [|ev evs Hev Hevs IH]; cbn; [by repeat constructor|].
  destruct (data ev); try (by constructor). destruct (String.eqb_spec (pattern ev) PatternOrderBookUpdated) as [->|]; [|by constructor].
  constructor; [|done]. apply fa_neutral. constructor.
Qed.

Lemma merge_elem evs lv sid ev : on_record ev -> ev ∈ evs -> ev ∈ mergeOrderBookLevel evs lv sid.
Proof.
  intros Hr. induction evs as [|ev0 evs IH]; [set_solver|]. intros [<-|Hin]%elem_of_cons; cbn.
  - unfold on_record in Hr. destruct (data ev) eqn:Hd; try done; left.
  - destruct (data ev0); try (right; by apply IH). destruct (String.eqb _ _); right; auto.
Qed.

Lemma removeAndRelease_fp target st st' ok :
  keyed st -> removeAndRelease target st = Done (st', ok) ->
  footprint [o_AccountId target] (o_StockId target) st st'.
Proof.
  intros Hk. unfold removeAndRelease. cbv zeta.
  pose proof (fp_open_book (o_StockId target) st Hk) as F1.
  destruct (Cancel _ _) as [[b ok']|] eqn:Hc; [|done]. cbn [obind].
  assert (F2 : footprint [] (o_StockId target) st (set_book (o_StockId target) b (open_book (o_StockId target) st))).
  { eapply fp_trans; [exact F1|apply fp_set_book; [|apply F1]|done|done]. eapply shelf_Cancel; [apply shelf_book, F1|exact Hc]. }
  destruct ok'; cbn [negb]; intros [= <- <-].
  - eapply fp_trans; [exact F2| |apply list_subseteq_nil|done].
    destruct (o_TradingType target); auto using fp_refl, fp_modify_account, fp_modify_holding, fp_keyed.
    + apply fp_modify_account; [done|apply F2].
    + apply fp_modify_holding; [done|apply F2].
    + apply fp_refl, F2.
    + apply fp_refl, F2.
    + apply fp_refl, F2.
  - eapply fp_weaken; [exact F2|apply list_subseteq_nil].
Qed.

Lemma editEvents_reports order target c c' evs :
  keyed (state c) -> active_target order target (state c) ->
  editEvents order c = Done (c', inl evs) -> reports (state c) (state c') evs.
Proof.
  intros Hk [Hget Hacc]. unfold editEvents. cbv zeta. rewrite book_open, Hget. unfold default, id.
  pose proof (shelf_Get _ _ _ _ (shelf_book (o_StockId order) _ Hk) Hget) as Hsid.
  pose proof (fp_open_book (o_StockId order) (state c) Hk) as F1.
  destruct (removeAndRelease _ _) as [[st1 ok]|] eqn:Hrem; [|done]. cbn [obind]. destruct ok; [|done]. cbn [negb].
  pose proof (removeAndRelease_fp _ _ _ _ (fp_keyed _ _ _ _ F1) Hrem) as F2. rewrite Hacc, Hsid in F2.
  destruct (matchEvents _ _) as [[c1 [evs1|e]]|] eqn:Hm; [|done|done]. cbn [obind]. intros [= <- <-].
  apply (matchEvents_reports_from _ _ _ _ (state c)) in Hm.
  2: { cbn. eapply fp_trans; [exact F1|exact F2|apply list_subseteq_nil|done]. }
  eapply reports_events; [exact Hm| |].
  - constructor; [|apply merge_faithful, Hm]. apply fa_neutral, nt_order. unfold order_patterns. set_solver.
  - intros ev Hr Hin. right. by apply merge_elem.
Qed.

(** One record changes, and its event says so. *)
Lemma reports_account a st st' evs :
  keyed st' -> s_Accounts st' = <[acc_Id a := a]> (s_Accounts st) -> s_StockBalances st' = s_StockBalances st ->
  s_Stocks st' = s_Stocks st -> is_Some (s_Accounts st !! acc_Id a) ->
  Forall (fun ev => neutral ev \/ ev = account_updated a) evs -> account_updated a ∈ evs -> reports st st' evs.
Proof.
  intros Hk Ha Hh Hs Hold Hev Hin. split; [done| | | | | |split; rewrite ?Ha, ?Hs; auto with kronex].
  - eapply Forall_impl; [exact Hev|]. intros ev [Hn| ->]; [by constructor|]. apply fa_account. by rewrite Ha, lookup_insert_eq.
  - intros i b. rewrite Ha. intros [[<- <-]|[_ Hb]]%lookup_insert_Some; auto.
  - intros k h. rewrite Hh. auto.
  - intros k. by rewrite Hh.
  - intros i x. rewrite Hs. auto.
Qed.

Lemma reports_holding h st st' evs :
  keyed st' -> s_Accounts st' = s_Accounts st ->
  s_StockBalances st' = <[(sb_AccountId h, sb_StockId h) := h]> (s_StockBalances st) ->
  s_Stocks st' = s_Stocks st ->
  Forall (fun ev => neutral ev \/ ev = holding_updated h) evs -> holding_updated h ∈ evs -> reports st st' evs.
Proof.
  intros Hk Ha Hh Hs Hev Hin. split; [done| | | | | |unfold grows; by rewrite Ha, Hs].
  - eapply Forall_impl; [exact Hev|]. intros ev [Hn| ->]; [by constructor|]. apply fa_holding. by rewrite Hh, lookup_insert_eq.
  - intros i b. rewrite Ha. auto.
  - intros k x. rewrite Hh. intros [[<- <-]|[_ Hb]]%lookup_insert_Some; auto.
  - intros k. rewrite Hh, lookup_insert. case_decide; [eauto|done].
  - intros i x. rewrite Hs. auto.
Qed.

Lemma cancelEvents_reports order c c' evs :
  keyed (state c) -> cancelEvents order c = Done (c', inl evs) -> reports (state c) (state c') evs.
Proof.
  intros Hk. unfold cancelEvents. cbv zeta. destruct (Get _ _) as [target|] eqn:Hget; [|done].
  destruct (removeAndRelease _ _) as [[st1 ok]|] eqn:Hrem; [|done]. cbn [obind]. destruct ok; [|done]. cbn [negb].
  pose proof (fp_open_book (o_StockId order) (state c) Hk) as F1.
  pose proof (fp_keyed _ _ _ _ (removeAndRelease_fp _ _ _ _ (fp_keyed _ _ _ _ F1) Hrem)) as Hk1.
  unfold removeAndRelease in Hrem. cbv zeta in Hrem. destruct (Cancel _ _) as [[b ok']|]; [|done]. cbn [obind] in Hrem.
  destruct ok'; [|done]. cbn [negb] in Hrem. injection Hrem as Hst1. intros [= <- <-]. cbn [state set_state].
  assert (Hnt : Forall neutral [mkOutEvent PatternOrderCanceled (EvOrder (orderEvent target));
    mkOutEvent PatternOrderCompleted (EvOrder (orderEvent order));
    mkOutEvent PatternOrderBookUpdated (EvOrderBook (mkOrderBookUpdated (o_StockId target)
      [target_level target (book (o_StockId order) st1)]))]) by (repeat constructor; unfold order_patterns; set_solver).
  set (evs0 := [_; _; _]) in *. unfold Accounts_Get, StockBalances_Get.
  match goal with |- reports _ _ (_ :: _ :: _ :: ?bal) => change (reports (state c) st1 (evs0 ++ bal)) end.
  clearbody evs0.
  destruct (o_TradingType target); try (by rewrite app_nil_r; apply reports_same; [|subst st1..|]).
  - unfold modify_account, Accounts_Get in Hst1. cbn [s_Accounts set_book set_books open_book] in Hst1.
    destruct (s_Accounts (state c) !! o_AccountId target) as [a|] eqn:Ha.
    2: { rewrite <- Hst1. cbn. rewrite Ha, app_nil_r. apply reports_same; try done. by rewrite Hst1. }
    pose proof (kd_account _ Hk _ _ Ha) as Hid. set (a1 := set_AvailableBalance _ a) in Hst1.
    assert (Hlk : s_Accounts st1 !! o_AccountId target = Some a1)
      by (rewrite <- Hst1; cbn; unfold Accounts_Upsert; cbn; rewrite Hid; apply lookup_insert_eq).
    rewrite Hlk. apply (reports_account a1); [done|by rewrite <- Hst1..| | |set_solver].
    + cbn. rewrite Hid, Ha. eauto.
    + apply Forall_app. split; [eapply Forall_impl; [exact Hnt|]; auto|]. by repeat constructor; right.
  - unfold modify_holding, StockBalances_Get in Hst1. cbn [s_StockBalances set_book set_books open_book] in Hst1.
    destruct (s_StockBalances (state c) !! (o_AccountId target, o_StockId target)) as [h|] eqn:Hh.
    2: { rewrite <- Hst1. cbn. rewrite Hh, app_nil_r. apply reports_same; try done. by rewrite Hst1. }
    pose proof (kd_holding _ Hk _ _ Hh) as Hid. set (h1 := set_AvailableQuantity _ h) in Hst1.
    assert (Hlk : s_StockBalances st1 !! (o_AccountId target, o_StockId target) = Some h1)
      by (rewrite <- Hst1; cbn; unfold StockBalances_Upsert; cbn; rewrite Hid; apply lookup_insert_eq).
    rewrite Hlk. apply (reports_holding h1); [done|by rewrite <- Hst1..| |set_solver].
    apply Forall_app. split; [eapply Forall_impl; [exact Hnt|]; auto|]. by repeat constructor; right.
Qed.

(** A validated order of any kind. *)
Lemma route_reports order c c' evs :
  keyed (state c) -> snd (validateOrder order (state c)) = None ->
  route_events order (set_state c (fst (validateOrder order (state c)))) = Done (c', inl evs) ->
  reports (state c) (state c') evs.
Proof.
  intros Hk Hv. unfold route_events. set (st1 := fst (validateOrder order (state c))).
  assert (Hst1 : keyed st1 /\ s_Accounts st1 = s_Accounts (state c) /\ s_StockBalances st1 = s_StockBalances (state c) /\
    s_Stocks st1 = s_Stocks (state c) /\ forall i, book i st1 = book i (state c)).
  { destruct (validated_open order (state c)) as [Hs|Hs]; unfold st1; rewrite Hs; [done|]. split_and!; try done.
    - apply (fp_keyed [] (o_StockId order) (state c)). by apply fp_open_book.
    - intros i. apply book_open. }
  destruct Hst1 as (Hk1 & HA & HH & HS & HB).
  assert (Hback : forall evs', reports st1 (state c') evs' -> reports (state c) (state c') evs').
  { intros evs' [K F A L D S G]. unfold grows in G. rewrite HA in *. rewrite HH in *. rewrite HS in *. by split. }
  destruct (o_TradingType order) eqn:Ht; [| | | |done]; intros He; apply Hback.
  1-2: by apply (matchEvents_reports order (set_state c st1)).
  - destruct (validated_edit order (state c) Ht Hv) as (target & [Hget Hacc] & _).
    apply (editEvents_reports order target (set_state c st1)); [done| |done]. split; [|done]. cbn. by rewrite HB.
  - by apply (cancelEvents_reports order (set_state c st1)).
Qed.

(** ** The other requests *)

Lemma transferEvents_reports t c :
  keyed (state c) -> reports (state c) (state (fst (transferEvents t c))) (snd (transferEvents t c)).
Proof.
  intros Hk. unfold transferEvents, time_now. cbn [fst snd state].
  destruct (validateTransfer t (state c)) as [[sender recipient]|r] eqn:Hv; cbn [fst snd state set_state].
  2: { apply reports_same; [done..|]. repeat constructor. }
  assert (Hsr : s_Accounts (state c) !! tf_SenderAccountId t = Some sender /\
    s_Accounts (state c) !! tf_RecipientAccountId t = Some recipient /\ tf_SenderAccountId t <> tf_RecipientAccountId t).
  { revert Hv. unfold validateTransfer, Accounts_Get. repeat case_match; intros; simplify_eq/=; try done.
    split_and!; [done|done|]. by apply Z.eqb_neq. }
  destruct Hsr as (Hs & Hr & Hne).
  pose proof (kd_account _ Hk _ _ Hs) as Is. pose proof (kd_account _ Hk _ _ Hr) as Ir.
  split; cbn [s_Accounts s_StockBalances s_Stocks upsert_account].
  - by do 2 apply keyed_upsert_account.
  - rewrite !Forall_cons. split_and!; [apply fa_account|apply fa_account|apply fa_neutral; constructor|constructor]; cbn; unfold Accounts_Upsert; cbn.
    + rewrite lookup_insert_ne by congruence. apply lookup_insert_eq.
    + apply lookup_insert_eq.
  - intros i a. unfold Accounts_Upsert. cbn. rewrite Is, Ir.
    intros [[<- <-]|[_ [[<- <-]|[_ Ha]]%lookup_insert_Some]]%lookup_insert_Some; [right; left..|by left].
    + rewrite Hr. split; [eauto|set_solver].
    + rewrite Hs. split; [eauto|set_solver].
  - intros k h. auto.
  - done.
  - intros i s. auto.
  - split; cbn; unfold Accounts_Upsert; auto with kronex.
Qed.

Lemma balanceAdjustEvents_reports req c :
  keyed (state c) -> reports (state c) (state (fst (balanceAdjustEvents req c))) (snd (balanceAdjustEvents req c)).
Proof.
  intros Hk. unfold balanceAdjustEvents, adminRequestRejected, adminRequestCompleted, time_now.
  destruct (validateBalanceAdjust req (state c)) as [r|] eqn:Hv; cbn [fst snd state set_state].
  { apply reports_same; [done..|]. repeat constructor. }
  assert (Ha : exists a, s_Accounts (state c) !! ba_AccountId req = Some a).
  { revert Hv. unfold validateBalanceAdjust, Accounts_Get. repeat case_match; intros; simplify_eq/=; eauto. }
  destruct Ha as [a Ha]. unfold Accounts_Get. rewrite Ha. cbn [default from_option id].
  set (a1 := if Z.ltb _ _ then _ else _). pose proof (kd_account _ Hk _ _ Ha) as Hid.
  assert (Hid1 : acc_Id a1 = ba_AccountId req) by (unfold a1, default, id; by case_match).
  apply (reports_account a1); [by apply keyed_upsert_account|done..| | |set_solver].
  - rewrite Hid1, Ha. eauto.
  - rewrite !Forall_cons. split_and!; [by right|left; constructor|constructor].
Qed.

Lemma stockBalanceAdjustEvents_reports req c :
  keyed (state c) -> reports (state c) (state (fst (stockBalanceAdjustEvents req c))) (snd (stockBalanceAdjustEvents req c)).
Proof.
  intros Hk. unfold stockBalanceAdjustEvents, adminRequestRejected, adminRequestCompleted, time_now.
  destruct (validateStockBalanceAdjust req (state c)) as [r|] eqn:Hv; cbn [fst snd state set_state].
  { apply reports_same; [done..|]. repeat constructor. }
  set (h := adjusted_holding _ _). apply (reports_holding h); [by apply keyed_upsert_holding|done..| |set_solver].
  rewrite !Forall_cons. split_and!; [by right|left; constructor|constructor].
Qed.

Lemma activateAccountEvents_reports a c :
  keyed (state c) -> reports (state c) (state (fst (activateAccountEvents a c))) (snd (activateAccountEvents a c)).
Proof.
  intros Hk. cbn. split; cbn.
  - by apply keyed_upsert_account.
  - apply Forall_singleton, fa_activated. apply lookup_insert_eq.
  - intros i b. unfold Accounts_Upsert. intros [[<- <-]|[_ Hb]]%lookup_insert_Some; [right; right; set_solver|auto].
  - auto.
  - done.
  - auto.
  - split; cbn; unfold Accounts_Upsert; auto with kronex.
Qed.

Lemma listing_reports s c :
  keyed (state c) ->
  reports (state c) (state (fst (setStockStatusEvents s LISTED PatternStockListed c)))
    (snd (setStockStatusEvents s LISTED PatternStockListed c)).
Proof.
  intros Hk. cbn. split; cbn.
  - by apply keyed_upsert_stock.
  - apply Forall_singleton, fa_listed. apply lookup_insert_eq.
  - auto.
  - auto.
  - done.
  - intros i x. unfold Stocks_Upsert. cbn. intros [[<- <-]|[_ Hb]]%lookup_insert_Some; [right; right; set_solver|auto].
  - split; cbn; unfold Stocks_Upsert; auto with kronex.
Qed.
End reporting.
