(* ===== verification/Feed.v ===== *)
(** * The output log tells the story of the ledger

    [feed rs st]: the output records [rs], from the first one ever written, carry
    events that account for the ledger [st], record by record. Every request that
    the engine processes extends the log and the ledger in step, and a restart
    keeps both, so a consumer of the log can rebuild every account, holding and
    stock from it. *)

From S2P Require Import Prelude Domain Slices OrderBook Ledger Events Matching Validation Orders Transfer Admin MatchLoop.
From S2P Require Import Footprint Dedup Wal Engine Columns Database Storage Messaging Publisher.
From S2P Require Import Recovery TradeIds Determinism Replays Consistency Requests Reporting.

Section feed.
Context `{!Clock} {bytes log : Type} `{!Codec bytes, !CodecLaws bytes, !Proto bytes}.
Context `{!Twal bytes log, !TwalLaws bytes log}.
Abbreviation engine := (Engine bytes log).
Implicit Types (e : engine) (c : Core) (rs : list bytes).

(** ** The effect of a request, apart from its output record *)

Definition order_events (order : Order) c : outcome (Core * (list outEvent + engine_error)) :=
  match validateOrder order (state c) with
  | (s, Some r) => Done (set_state c s, inl [reject_event order r])
  | (s, None) => route_events order (set_state c s)
  end.

Definition total (r : Core * list outEvent) : outcome (Core * (list outEvent + engine_error)) := Done (fst r, inl (snd r)).

Definition record_events (pat : string) (dat : bytes) c : option (outcome (Core * (list outEvent + engine_error))) :=
  if String.eqb pat PatternOrderCreated then (fun o => order_events o c) <$> Unmarshal_Order dat
  else if String.eqb pat PatternAccountCreated then (fun a => total (activateAccountEvents a c)) <$> Unmarshal_Account dat
  else if String.eqb pat PatternTransferCreated then (fun t => total (transferEvents t c)) <$> Unmarshal_Transfer dat
  else if String.eqb pat PatternStockList then
    (fun s => total (setStockStatusEvents s LISTED PatternStockListed c)) <$> Unmarshal_Stock dat
  else if String.eqb pat PatternAdminBalanceAdjust then
    (fun r => total (balanceAdjustEvents r c)) <$> Unmarshal_BalanceAdjust dat
  else if String.eqb pat PatternAdminStockBalanceAdjust then
    (fun r => total (stockBalanceAdjustEvents r c)) <$> Unmarshal_StockBalanceAdjust dat
  else None.

Lemma append_result_inv r e e' :
  append_result r e = Done (e', None) ->
  exists c evs, r = Done (c, inl evs) /\ appendOutput (set_core e c) evs = (e', None).
Proof.
  unfold append_result. destruct r as [[c [evs|err]]|]; [|done|done]. cbn [obind].
  destruct (mustAppend _ _) as [e1|] eqn:Hm; [|done]. cbn [obind]. intros [= <-]. exists c, evs. split; [done|].
  by apply mustAppend_Done.
Qed.

(** A processed record is its effect, then its output. *)
Lemma replay_record_inv i pat dat e e' :
  known pat = true -> replay_record i pat dat e = Done (e', None) ->
  exists c evs, record_events pat dat (core (set_seq e i)) = Some (Done (c, inl evs)) /\
    appendOutput (set_core e c) evs = (e', None).
Proof.
  intros Hk. unfold replay_record, record_events.
  destruct (String.eqb_spec pat PatternOrderCreated) as [_|N1].
  { destruct (Unmarshal_Order dat) as [order|]; [|done]. unfold replay_order. cbn [fmap option_fmap option_map].
    unfold order_events. destruct (validateOrder order _) as [s [r|]].
    - intros Ha%Done_inj. do 2 eexists. split; [done|]. exact Ha.
    - unfold route, route_events, match_order, edit, cancel. destruct (o_TradingType order); try done;
        intros (c & evs & Hr & Ha)%append_result_inv; exists c, evs; (split; [by f_equal|exact Ha]). }
  destruct (String.eqb_spec pat PatternAccountCreated) as [_|N2].
  { destruct (Unmarshal_Account dat) as [a|]; [|done]. rewrite no_error_Done. intros Ha%mustAppend_Done. do 2 eexists. split; [done|]. exact Ha. }
  destruct (String.eqb_spec pat PatternTransferCreated) as [_|N3].
  { destruct (Unmarshal_Transfer dat) as [t|]; [|done]. intros Ha%Done_inj. revert Ha. unfold applyTransfer.
    destruct (transferEvents t _) as [c evs] eqn:Ht. intros Ha. do 2 eexists. split; [reflexivity|]. rewrite Ht. exact Ha. }
  destruct (String.eqb_spec pat PatternStockList) as [_|N4].
  { destruct (Unmarshal_Stock dat) as [a|]; [|done]. rewrite no_error_Done. intros Ha%mustAppend_Done. do 2 eexists. split; [done|]. exact Ha. }
  destruct (String.eqb_spec pat PatternAdminBalanceAdjust) as [_|N5].
  { destruct (Unmarshal_BalanceAdjust dat) as [a|]; [|done]. rewrite no_error_Done. unfold applyBalanceAdjust.
    destruct (balanceAdjustEvents a _) as [c evs] eqn:Ht. intros Ha%mustAppend_Done. do 2 eexists. split; [reflexivity|]. rewrite Ht. exact Ha. }
  destruct (String.eqb_spec pat PatternAdminStockBalanceAdjust) as [_|N6].
  { destruct (Unmarshal_StockBalanceAdjust dat) as [a|]; [|done]. rewrite no_error_Done. unfold applyStockBalanceAdjust.
    destruct (stockBalanceAdjustEvents a _) as [c evs] eqn:Ht. intros Ha%mustAppend_Done. do 2 eexists. split; [reflexivity|]. rewrite Ht. exact Ha. }
  unfold known in Hk. rewrite bool_decide_eq_true in Hk. set_solver.
Qed.

(** Every request reports its effect. *)
Lemma record_events_reports pat dat c c' evs :
  keyed (state c) -> record_events pat dat c = Some (Done (c', inl evs)) -> reports (state c) (state c') evs.
Proof.
  intros Hk. unfold record_events, total.
  repeat case_match; try done; intros (x & Hx & Hd)%fmap_Some; try (injection Hx as -> ->).
  2: { injection Hd as -> ->. by apply activateAccountEvents_reports. }
  2: { injection Hd as -> ->. by apply transferEvents_reports. }
  2: { injection Hd as -> ->. by apply listing_reports. }
  2: { injection Hd as -> ->. by apply balanceAdjustEvents_reports. }
  2: { injection Hd as -> ->. by apply stockBalanceAdjustEvents_reports. }
  unfold order_events in Hd. destruct (validateOrder x (state c)) as [s [r|]] eqn:Hv.
  - injection Hd as -> ->. cbn. pose proof (validated_open x (state c)) as Hop. rewrite Hv in Hop. cbn in Hop.
    apply reports_same; [|by destruct Hop as [->| ->]..|repeat constructor].
    destruct Hop as [->| ->]; [done|]. eapply fp_keyed. by apply (fp_open_book (o_StockId x)).
  - eapply route_reports; [done|by rewrite Hv|]. by rewrite Hv.
Qed.

(** It has at least one event, and leaves the sequence numbers. *)
Lemma record_events_seq pat dat c c' evs :
  record_events pat dat c = Some (Done (c', inl evs)) -> evs <> [] /\ same_seq c c'.
Proof.
  assert (Htot : forall f, replayable_total f -> total (f c) = Done (c', inl evs) -> evs <> [] /\ same_seq c c').
  { unfold total. intros f Hf [= <- <-]. destruct (Hf c c eq_refl) as (Hne & _ & _ & H1 & H2 & _). by split. }
  assert (Hpar : forall f c1, replayable f -> same_seq c c1 -> f c1 = Done (c', inl evs) -> evs <> [] /\ same_seq c c').
  { intros f c1 Hf Hs He. destruct (Hf c1 (mkCore (state c1) 0 1 0 0) _ _ eq_refl eq_refl He) as (Hne & Hseq & _).
    split; [done|by etrans]. }
  unfold record_events. repeat case_match; try done; intros (x & Hx & Hd)%fmap_Some.
  2: { apply (Htot (activateAccountEvents x)); [apply activateAccountEvents_replayable|done]. }
  2: { apply (Htot (transferEvents x)); [apply transferEvents_replayable|done]. }
  2: { apply (Htot (setStockStatusEvents x LISTED PatternStockListed)); [apply setStockStatusEvents_replayable|done]. }
  2: { apply (Htot (balanceAdjustEvents x)); [apply balanceAdjustEvents_replayable|done]. }
  2: { apply (Htot (stockBalanceAdjustEvents x)); [apply stockBalanceAdjustEvents_replayable|done]. }
  unfold order_events in Hd. destruct (validateOrder x (state c)) as [s [r|]].
  - by injection Hd as -> ->.
  - unfold route_events in Hd. destruct (o_TradingType x); [..|done].
    1-2: by eapply (Hpar (matchEvents x)); [apply matchEvents_replayable| |done].
    + by eapply (Hpar (editEvents x)); [apply editEvents_replayable| |done].
    + by eapply (Hpar (cancelEvents x)); [apply cancelEvents_replayable| |done].
Qed.

(** ** The records written so far *)

(** Records [rs], with the events [evss], take the ledger from one state to
    another. *)
Inductive trail : State -> list (list outEvent) -> list bytes -> State -> Prop :=
  | trail_nil st : trail st [] [] st
  | trail_cons st st1 st2 env evs evss r rs :
      marshal_events evs = Some (env_Events env) -> Marshal_OutputEnvelope env = Some r ->
      reports st st1 evs -> trail st1 evss rs st2 -> trail st (evs :: evss) (r :: rs) st2.

Lemma trail_app st1 st2 st3 evss1 evss2 rs1 rs2 :
  trail st1 evss1 rs1 st2 -> trail st2 evss2 rs2 st3 -> trail st1 (evss1 ++ evss2) (rs1 ++ rs2) st3.
Proof. induction 1; [done|]. intros. cbn. econstructor; eauto. Qed.

Lemma trail_one st st' env evs r :
  marshal_events evs = Some (env_Events env) -> Marshal_OutputEnvelope env = Some r ->
  reports st st' evs -> trail st [evs] [r] st'.
Proof. intros. econstructor; [done..|constructor]. Qed.

Lemma trail_keyed st evss rs st' : trail st evss rs st' -> keyed st -> keyed st'.
Proof. induction 1 as [|?????????? Hr _ IH]; [done|]. intros _. apply IH, Hr. Qed.

(** From the empty ledger. *)
Definition feed rs (st : State) : Prop := exists evss, trail NewState evss rs st.

Lemma feed_keyed rs st : feed rs st -> keyed st.
Proof. intros [evss Ht]. exact (trail_keyed _ _ _ _ Ht keyed_new). Qed.

Lemma feed_snoc rs st st' env evs r :
  feed rs st -> marshal_events evs = Some (env_Events env) -> Marshal_OutputEnvelope env = Some r ->
  reports st st' evs -> feed (rs ++ [r]) st'.
Proof. intros [evss Ht] Hm Hr Hrep. exists (evss ++ [evs]). eapply trail_app; [done|]. by eapply trail_one. Qed.

Lemma feed_written rs st : feed rs st -> Forall written rs.
Proof. intros [evss Ht]. induction Ht as [|???????? _ Hm _ _ IH]; constructor; [by eexists|done]. Qed.

(** The engine's log and ledger, with all records ever written. *)
Record fed e rs : Prop := {
  fd_log : exists k, retains (output e) k rs;
  fd_feed : feed rs (state (core e))
}.

Lemma retains_append w k rs builder w' i :
  retains w k rs -> room w -> AppendWithIndex w builder = (w', inl i) ->
  exists r, builder i = Some r /\ retains w' k (rs ++ [r]).
Proof.
  intros [Hh Hk] Hr Ha.
  assert (Hs : started (Z.of_nat k + 1) (drop k rs)).
  { intros Hd. apply (f_equal length) in Hd. rewrite length_drop in Hd. simpl in Hd. destruct Hk; lia. }
  destruct (append_holds _ _ _ _ _ _ Hh Hs (room_next _ _ _ Hr Hh Hs) Ha) as (_ & r & Hb & Hh' & _).
  exists r. split; [done|]. split; [|rewrite length_app; simpl; lia].
  rewrite drop_app_le by lia. done.
Qed.

(** A request that is processed, and whose output did not exist, adds a record
    with events that report its effect. *)
Lemma record_writes i pat dat e e' k rs :
  retains (output e) k rs -> keyed (state (core e)) -> known pat = true -> room (output e) ->
  live (core (set_seq e i)) = true -> 0 <= outputAppliedSeq (core e) ->
  replay_record i pat dat e = Done (e', None) ->
  exists c evs env r, record_events pat dat (core (set_seq e i)) = Some (Done (c, inl evs)) /\
    marshal_events evs = Some (env_Events env) /\ Marshal_OutputEnvelope env = Some r /\
    reports (state (core e)) (state (core e')) evs /\ retains (output e') k (rs ++ [r]).
Proof.
  intros Hr Hkey Hk Hro Hlive H0 Hrec.
  destruct (replay_record_inv _ _ _ _ _ Hk Hrec) as (c & evs & Hev & Ha).
  destruct (record_events_seq _ _ _ _ _ Hev) as [Hne [Hseq Happ]].
  assert (Hrep : reports (state (core e)) (state c) evs)
    by (by eapply (record_events_reports pat dat (core (set_seq e i))); [|exact Hev]).
  pose proof (appendOutput_state _ _ _ _ Ha) as Hst. cbn in Hst.
  unfold appendOutput in Ha. destruct evs as [|ev evs]; [done|].
  cbn [core set_core] in Ha. rewrite Hseq, Happ in Ha. cbn [core set_core set_seq inputSeq outputAppliedSeq set_inputSeq] in Ha.
  assert (Hskip : Z.gtb (outputAppliedSeq (core e)) 0 && Z.leb i (outputAppliedSeq (core e)) = false).
  { unfold live in Hlive. cbn in Hlive. apply orb_true_iff in Hlive as [Hz|Hg].
    - apply Z.eqb_eq in Hz. by rewrite Hz.
    - rewrite Z.gtb_ltb, Z.ltb_lt in Hg. destruct (Z.leb_spec i (outputAppliedSeq (core e))); [lia|]. by rewrite andb_false_r. }
  rewrite Hskip in Ha. destruct (marshal_events (ev :: evs)) as [out|] eqn:Hm; [|done].
  unfold time_now in Ha. cbn [inputSeq output set_core] in Ha.
  destruct (AppendWithIndex _ _) as [w [idx|err]] eqn:Hw; [|done]. injection Ha as <-.
  destruct (retains_append _ _ _ _ _ _ Hr Hro Hw) as (r & Hb & Hr').
  exists c, (ev :: evs). eexists. exists r. split; [exact Hev|]. split; [|split; [exact Hb|]]; [exact Hm|].
  split; [by rewrite Hst|exact Hr'].
Qed.

Lemma record_fed i pat dat e e' rs :
  fed e rs -> known pat = true -> room (output e) ->
  live (core (set_seq e i)) = true -> 0 <= outputAppliedSeq (core e) ->
  replay_record i pat dat e = Done (e', None) -> exists r, fed e' (rs ++ [r]).
Proof.
  intros [[k Hr] Hf] Hk Hro Hlive H0 Hrec.
  destruct (record_writes _ _ _ _ _ _ _ Hr (feed_keyed _ _ Hf) Hk Hro Hlive H0 Hrec) as (c & evs & env & r & _ & Hm & Hb & Hrep & Hr').
  exists r. split; [eauto|by eapply feed_snoc].
Qed.

(** Handling a delivery keeps the story complete. *)
Lemma handle_fed payload e e' r ps rs :
  consistent e ps -> fed e rs -> room (input e) -> room (output e) ->
  handle payload e = Done (e', r) -> (forall err, r <> Failed err) ->
  exists new, fed e' (rs ++ new).
Proof.
  intros Hc Hf Hri Hro Hh Hr.
  destruct (handle_cases _ _ _ _ Hh Hr) as [[-> _]|[_ [(pat & dat & id & e1 & Henv & Hk & Hid & _ & Hlog & Hrec)]]].
  { exists []. by rewrite app_nil_r. }
  destruct (logInput_spec _ _ _ _ _ _ Hc Hri Hlog) as (_ & Hs1 & Hst1 & Ho1 & Ha1 & _).
  destruct Hc as [_ _ _ _ Happ]. destruct Hf as [Hl Hfd].
  assert (Hf1 : fed e1 rs) by (split; [by rewrite Ho1|by rewrite Hst1]).
  destruct (record_fed (inputSeq (core e1)) pat dat e1 e' rs Hf1 Hk) as (rec & Hf2).
  - by rewrite Ho1.
  - unfold live. cbn. rewrite Ha1, Hs1, Z.gtb_ltb. apply orb_true_iff. right. apply Z.ltb_lt. rewrite length_app. simpl. lia.
  - rewrite Ha1. lia.
  - done.
  - by exists [rec].
Qed.

Lemma runs_fed e qs e' ps rs :
  runs e qs e' -> consistent e ps -> fed e rs -> exists new, fed e' (rs ++ new).
Proof.
  intros Hr. revert ps rs. induction Hr as [e|e p e1 qs e2 Hri Hro Hs Hr IH|e e1 qs e2 Hs Hr IH]; intros ps rs Hc Hf.
  - exists []. by rewrite app_nil_r.
  - cbn [run_step] in Hs. destruct (handle p e) as [[e1' r]|] eqn:Hh; [|done]. cbn [obind] in Hs.
    assert (Hf' : e1' = e1 /\ forall err, r <> Failed err) by (destruct r; naive_solver). destruct Hf' as [-> Hnf].
    destruct (handle_fed _ _ _ _ _ _ Hc Hf Hri Hro Hh Hnf) as (n1 & Hf1).
    assert (Hc1 : exists ps1, consistent e1 ps1) by (destruct (handle_consistent _ _ _ _ _ Hc Hri Hro Hh Hnf); eauto).
    destruct Hc1 as [ps1 Hc1]. destruct (IH _ _ Hc1 Hf1) as (n2 & Hf2). exists (n1 ++ n2). by rewrite app_assoc.
  - cbn [run_step] in Hs. destruct (snapshot e) as [[e1' err]|] eqn:Hh; [|done]. cbn [obind] in Hs. injection Hs as ->.
    apply (IH ps); [by eapply snapshot_consistent|].
    unfold snapshot in Hh. destruct (Serialize _) as [[dat|er]|]; [| |done]; cbn [obind] in Hh; injection Hh as <- _; by destruct Hf.
Qed.
End feed.
