(* ===== verification/Mirror.v ===== *)
(** * The database mirrors the ledger

    The projector writes only what events say, and the events of a request say
    everything about its effect. So a database to which the output records have
    been applied shows the balances of every account, the rows of every holding
    that is not empty, and the price and status of every stock, as the ledger had
    them after the last record applied ([mirrors]). *)

From S2P Require Import Prelude Domain Slices OrderBook Ledger Events Matching Validation Orders Transfer Admin.
From S2P Require Import Footprint Wal Metrics Engine Columns Database Storage Messaging Publisher Projector Reporting Feed.

Section mirror.
Context {bytes : Type} `{!Clock, !Codec bytes, !CodecLaws bytes, !EventCodec bytes, !EventCodecLaws bytes, !Server}.
Abbreviation db := (DB bytes).
Implicit Types (d : db) (ev : outEvent) (st : State).

(** ** The statement of an event *)

Definition is_empty_holding (h : StockBalance) : bool := Z.eqb (sb_Quantity h) 0 && Z.eqb (sb_AvailableQuantity h) 0.

(** What [applyEvent] executes for an event of the engine. *)
Definition stmt_of ev (now : Time) d : option db :=
  match data ev with
  | EvTrade t => q_SaveTrade (tr_Id t) (tr_StockId t) (tr_Price t) (tr_Quantity t) (tr_MakerOrderId t) (tr_TakerOrderId t) (tr_ExecutedAt t) d
  | EvOrder o => q_UpdateOrderState (orderStatus (pattern ev)) (oe_Quantity o) (oe_FilledQuantity o) (oe_FullyFilledAt o) (oe_Id o) d
  | EvOrderRejected r => q_RejectOrder (mkNullEnum (orj_Reason r) true) (orj_OrderId r) d
  | EvAccount a =>
      if String.eqb (pattern ev) PatternAccountActivated then q_ActivateAccount (acc_Id a) d
      else q_UpdateAccountBalance (acc_Balance a) (acc_AvailableBalance a) (acc_Id a) d
  | EvHolding h =>
      if is_empty_holding h then q_DeleteHolding (sb_AccountId h) (sb_StockId h) d
      else q_UpsertHolding (sb_AccountId h) (sb_StockId h) (sb_Quantity h) (sb_AvailableQuantity h) (sb_Average h) (sb_TotalBuyAmount h) d
  | EvStock s =>
      if String.eqb (pattern ev) PatternStockListed
      then q_UpdateStockStatus (StockStatus_String (st_Status s)) (st_Id s) now d
      else q_UpdateStockPrice (st_Price s) (st_Id s) now d
  | EvOrderBook _ => Some d
  | EvTransferCompleted t => q_CompleteTransfer (Some (tc_CompletedAt t)) (tc_Id t) d
  | EvTransferRejected t => q_RejectTransfer (mkNullEnum (trj_Reason t) true) (Some (trj_CompletedAt t)) (trj_Id t) d
  | EvAdminCompleted r => q_CompleteAdminRequest (Some (arc_CompletedAt r)) (arc_Id r) d
  | EvAdminRejected r => q_RejectAdminRequest (mkNullEnum (arr_Reason r) true) (Some (arr_CompletedAt r)) (arr_Id r) d
  end.

Lemma json_stock_string s : StockStatus_String (st_Status (json_stock s)) = StockStatus_String (st_Status s).
Proof. by destruct s as [? ? []]. Qed.

(** [applyEvent] on an event of the engine, encoded, is its statement. *)
Lemma applyEvent_stmt st ev raw (s : Store bytes) :
  faithful st ev -> Marshal_data (data ev) = Some raw ->
  applyEvent (mkOutputEvent (pattern ev) raw) s =
    match data ev with EvOrderBook _ => (s, None) | _ => tx_call (exec_tx (stmt_of ev) s) end.
Proof.
  intros [ev' [t|p o Hp|o r|u|t|t r now|r|i r now]|a _|a _|h _|x _|x _] Hm; cbn [data pattern reject_event transfer_reject_event] in *;
    unfold applyEvent, decoded; cbn [oev_Pattern oev_Data].
  - by rewrite (codec_trade _ _ Hm).
  - rewrite (codec_order_event _ _ Hm). unfold stmt_of. cbn [data pattern].
    unfold order_patterns in Hp. by repeat (apply elem_of_cons in Hp as [->|Hp]; [done|]); apply elem_of_nil in Hp.
  - by rewrite (codec_order_rejected _ _ Hm).
  - done.
  - by rewrite (codec_transfer_completed _ _ Hm).
  - by rewrite (codec_transfer_rejected _ _ Hm).
  - by rewrite (codec_admin_completed _ _ Hm).
  - by rewrite (codec_admin_rejected _ _ Hm).
  - by rewrite (codec_account _ _ Hm).
  - by rewrite (codec_account _ _ Hm).
  - rewrite (codec_holding _ _ Hm). cbn. unfold project_holding, stmt_of, is_empty_holding. cbn [data]. by destruct (_ && _).
  - by rewrite (codec_stock _ _ Hm).
  - rewrite (codec_stock _ _ Hm). cbn -[json_stock]. unfold UpdateStockStatus. by rewrite json_stock_string.
Qed.

Lemma applied1_stmt st ev raw d d' :
  faithful st ev -> Marshal_data (data ev) = Some raw -> applied1 (mkOutputEvent (pattern ev) raw) d d' ->
  exists now, stmt_of ev now d = Some d'.
Proof.
  intros Hf Hm (s & s' & Hd & Ha & Hd'). rewrite (applyEvent_stmt st ev raw s Hf Hm) in Ha.
  destruct (data ev) eqn:Hdat.
  7: { exists 0. unfold stmt_of. rewrite Hdat. injection Ha as <-. congruence. }
  all: unfold tx_call in Ha; destruct (exec_tx (stmt_of ev) s) as [s1 [e|]] eqn:Hx; simplify_eq/=;
    destruct (exec_tx_cases _ _ _ _ Hx) as [_ Hok]; destruct (Hok eq_refl) as (v & now & d1 & Hv & Hs & Hd1);
    exists now; congruence.
Qed.

(** ** Following one part of the database *)

(** If every event keeps [P] under the invariant [Q], then [P] holds at the end
    when it holds at the start or some event establishes it. *)
Lemma applied_reaches (Q P : db -> Prop) st evs outs d d' :
  Forall (faithful st) evs -> marshal_events evs = Some outs -> applied outs d d' ->
  (forall ev now d1 d2, ev ∈ evs -> stmt_of ev now d1 = Some d2 -> Q d1 -> Q d2 /\ (P d1 -> P d2)) ->
  Q d ->
  P d \/ (exists ev, ev ∈ evs /\ forall now d1 d2, stmt_of ev now d1 = Some d2 -> Q d1 -> P d2) ->
  Q d' /\ P d'.
Proof.
  intros Hf. revert outs d. induction Hf as [|ev evs Hev Hevs IH]; intros outs d Hm Ha Hstep HQ HP.
  { injection Hm as <-. inversion Ha; subst. split; [done|]. destruct HP as [?|(ev & Hin & _)]; [done|set_solver]. }
  cbn [marshal_events] in Hm. destruct (Marshal_data (data ev)) as [raw|] eqn:Hraw; [|done]. cbn in Hm.
  destruct (marshal_events evs) as [outs'|] eqn:Hrest; [|done]. cbn in Hm. injection Hm as <-.
  inversion Ha as [|? ? ? d1 ? Ha1 Ha2]; subst. destruct (applied1_stmt _ _ _ _ _ Hev Hraw Ha1) as (now & Hs).
  destruct (Hstep ev now d d1 ltac:(set_solver) Hs HQ) as [HQ1 HP1].
  apply (IH outs' d1 eq_refl Ha2); [intros ev0 n0 x1 x2 Hin0; apply Hstep; by right|done|].
  destruct HP as [?|(ev' & [->|Hin]%elem_of_cons & Hest)]; [auto|left; by eapply Hest|right; eauto].
Qed.

(** ** What the database shows *)

Definition account_shown (a : Account) (r : AccountRow) : Prop :=
  ac_Balance r = acc_Balance a /\ ac_AvailableBalance r = acc_AvailableBalance a.

Definition holding_row (h : option StockBalance) : option UserStockRow :=
  match h with
  | None => None
  | Some h =>
      if is_empty_holding h then None
      else Some (mkUserStockRow (sb_AccountId h) (sb_StockId h) (sb_Quantity h) (sb_AvailableQuantity h) (sb_Average h) (sb_TotalBuyAmount h))
  end.

Record mirrors st d : Prop := {
  mi_account i a : s_Accounts st !! i = Some a ->
    exists r, accounts d !! i = Some r /\ account_shown a r /\ ac_Status r = "ACTIVE"%string;
  mi_holding k : user_stocks d !! k = holding_row (s_StockBalances st !! k);
  mi_stock i s : s_Stocks st !! i = Some s ->
    exists r, stocks d !! i = Some r /\ sk_Price r = st_Price s /\ sk_Status r = StockStatus_String (st_Status s)
}.

(** The row of an account or a stock that a request activates or lists is there,
    with the values of the request: its creator inserted it. *)
Definition prepared (evs : list outEvent) d : Prop :=
  (forall a, account_activated a ∈ evs -> exists r, accounts d !! acc_Id a = Some r /\ account_shown a r) /\
  (forall s, stock_listed s ∈ evs -> exists r, stocks d !! st_Id s = Some r /\ sk_Price r = st_Price s).

(** *** Which rows an event touches *)

(** An update that cannot fail alters the row, if it is there. *)
Lemma update_row_total {R} (m : gmap Z R) id g : update_row m id (fun r => Some (g r)) = Some (alter g id m).
Proof.
  unfold update_row. destruct (m !! id) as [r|] eqn:Hr; cbn; f_equal; apply map_eq; intros j.
  - destruct (decide (id = j)) as [->|]; [by rewrite lookup_insert_eq, lookup_alter_eq, Hr|].
    by rewrite lookup_insert_ne, lookup_alter_ne.
  - destruct (decide (id = j)) as [->|]; [by rewrite lookup_alter_eq, Hr|]. by rewrite lookup_alter_ne.
Qed.

Lemma status_in_enum s : in_enum StocksStatus_values (StockStatus_String s) = true.
Proof. by destruct s. Qed.

(** Statements that leave a table alone. *)
Lemma stmt_accounts ev now d d' : stmt_of ev now d = Some d' -> (forall a, data ev <> EvAccount a) -> accounts d' = accounts d.
Proof. unfold stmt_of. intros Hs Hn. destruct (data ev); try (by destruct (Hn _ eq_refl)); by query_cases Hs. Qed.

Lemma stmt_holdings ev now d d' : stmt_of ev now d = Some d' -> (forall h, data ev <> EvHolding h) -> user_stocks d' = user_stocks d.
Proof. unfold stmt_of. intros Hs Hn. destruct (data ev); try (by destruct (Hn _ eq_refl)); by query_cases Hs. Qed.

Lemma stmt_stocks ev now d d' : stmt_of ev now d = Some d' -> (forall x, data ev <> EvStock x) -> stocks d' = stocks d.
Proof. unfold stmt_of. intros Hs Hn. destruct (data ev); try (by destruct (Hn _ eq_refl)); by query_cases Hs. Qed.

(** Which events carry a record. *)
Lemma faithful_account st ev a :
  faithful st ev -> data ev = EvAccount a ->
  s_Accounts st !! acc_Id a = Some a /\ (ev = account_updated a \/ ev = account_activated a).
Proof. intros [ev' []| | | | |]; cbn; intros [= <-]; auto. Qed.

Lemma faithful_holding st ev h :
  faithful st ev -> data ev = EvHolding h ->
  s_StockBalances st !! (sb_AccountId h, sb_StockId h) = Some h /\ ev = holding_updated h.
Proof. intros [ev' []| | | | |]; cbn; intros [= <-]; auto. Qed.

Lemma faithful_stock st ev s :
  faithful st ev -> data ev = EvStock s ->
  s_Stocks st !! st_Id s = Some s /\ (ev = stock_updated s \/ ev = stock_listed s).
Proof. intros [ev' []| | | | |]; cbn; intros [= <-]; auto. Qed.

(** *** One event *)

(** The row of an account after an event that is true of [st]. *)
Lemma account_step st ev now d d' i r :
  keyed st -> faithful st ev -> stmt_of ev now d = Some d' -> accounts d !! i = Some r ->
  exists r', accounts d' !! i = Some r' /\
    (forall a, s_Accounts st !! i = Some a -> account_shown a r \/ ev = account_updated a -> account_shown a r') /\
    (ac_Status r = "ACTIVE"%string \/ (exists a, ev = account_activated a /\ acc_Id a = i) -> ac_Status r' = "ACTIVE"%string).
Proof.
  intros Hkey Hf Hs Hi. destruct (data ev) eqn:Hd;
    try (exists r; rewrite (stmt_accounts _ _ _ _ Hs) by (by rewrite Hd); split; [done|]; split;
         [intros a0 _ [?|He]; [done|]|intros [?|(a0 & He & _)]; [done|]]; by rewrite He in Hd).
  destruct (faithful_account _ _ _ Hf Hd) as [Ha [->| ->]]; unfold stmt_of in Hs; cbn in Hs;
    unfold q_UpdateAccountBalance, q_ActivateAccount in Hs; rewrite update_row_total in Hs; cbn in Hs; injection Hs as <-; cbn;
    (destruct (decide (acc_Id a = i)) as [<-|Hne];
      [rewrite lookup_alter_eq, Hi|rewrite lookup_alter_ne by done]); eexists; (split; [done|]); cbn; split.
  - intros a0 Ha0 _. assert (a0 = a) as -> by congruence. by split.
  - intros [?|(a0 & [=] & _)]. done.
  - intros a0 Ha0 [?|[= ->]]; [done|]. destruct Hne. exact (kd_account _ Hkey _ _ Ha0).
  - intros [?|(a0 & [=] & _)]. done.
  - intros a0 Ha0 [?|[=]]. done.
  - done.
  - intros a0 Ha0 [?|[=]]. done.
  - intros [?|(a0 & [= <-] & ?)]; [done|]. by destruct Hne.
Qed.

Lemma holding_step st ev now d d' k :
  faithful st ev -> stmt_of ev now d = Some d' ->
  user_stocks d !! k = holding_row (s_StockBalances st !! k) \/ (exists h, ev = holding_updated h /\ (sb_AccountId h, sb_StockId h) = k) ->
  user_stocks d' !! k = holding_row (s_StockBalances st !! k).
Proof.
  intros Hf Hs Hk. destruct (data ev) eqn:Hd;
    try (rewrite (stmt_holdings _ _ _ _ Hs) by (by rewrite Hd); destruct Hk as [?|(h & -> & _)]; done).
  destruct (faithful_holding _ _ _ Hf Hd) as [Hh ->]. unfold stmt_of in Hs. cbn in Hs.
  unfold q_DeleteHolding, q_UpsertHolding in Hs. cbv zeta in Hs.
  destruct (decide ((sb_AccountId h, sb_StockId h) = k)) as [<-|Hne].
  - rewrite Hh. cbn. destruct (is_empty_holding h).
    + injection Hs as <-. cbn. apply lookup_delete_eq.
    + repeat case_match; try done; injection Hs as <-; cbn; apply lookup_insert_eq.
  - destruct Hk as [Hk|(h' & [= <-] & ?)]; [|done]. rewrite <- Hk. destruct (is_empty_holding h).
    + injection Hs as <-. cbn. by rewrite lookup_delete_ne.
    + repeat case_match; try done; injection Hs as <-; cbn; by rewrite lookup_insert_ne.
Qed.

Lemma touch_stock_columns now r r' : sk_Price (touch_stock now r r') = sk_Price r' /\ sk_Status (touch_stock now r r') = sk_Status r'.
Proof. unfold touch_stock. case_decide; by subst. Qed.

Lemma stock_step st ev now d d' i r :
  keyed st -> faithful st ev -> stmt_of ev now d = Some d' -> stocks d !! i = Some r ->
  exists r', stocks d' !! i = Some r' /\
    (forall s, s_Stocks st !! i = Some s -> sk_Price r = st_Price s \/ ev = stock_updated s -> sk_Price r' = st_Price s) /\
    (forall s, s_Stocks st !! i = Some s -> sk_Status r = StockStatus_String (st_Status s) \/ ev = stock_listed s ->
       sk_Status r' = StockStatus_String (st_Status s)).
Proof.
  intros Hkey Hf Hs Hi. destruct (data ev) eqn:Hd;
    try (exists r; rewrite (stmt_stocks _ _ _ _ Hs) by (by rewrite Hd); split; [done|]; split;
         (intros s0 _ [?|He]; [done|]); by rewrite He in Hd).
  destruct (faithful_stock _ _ _ Hf Hd) as [Ha [->| ->]]; unfold stmt_of in Hs; cbn in Hs;
    unfold q_UpdateStockPrice, q_UpdateStockStatus in Hs; rewrite ?status_in_enum, update_row_total in Hs; cbn in Hs;
    injection Hs as <-; cbn;
    (destruct (decide (st_Id s = i)) as [<-|Hne];
      [rewrite lookup_alter_eq, Hi|rewrite lookup_alter_ne by done]); eexists; (split; [done|]); cbn; split;
    intros s0 Hs0; rewrite ?(proj1 (touch_stock_columns _ _ _)), ?(proj2 (touch_stock_columns _ _ _)); cbn.
  - intros _. congruence.
  - intros [?|[=]]. done.
  - intros [?|[= <-]]; [done|]. destruct Hne. exact (kd_stock _ Hkey _ _ Hs0).
  - intros [?|[=]]. done.
  - intros [?|[=]]. done.
  - intros _. congruence.
  - intros [?|[=]]. done.
  - intros [?|[= <-]]; [done|]. destruct Hne. exact (kd_stock _ Hkey _ _ Hs0).
Qed.

(** ** A record of events *)

Section request.
Context (st st' : State) (evs : list outEvent) (outs : list (OutputEvent bytes)) (d d' : db).
Hypothesis (Hrep : reports st st' evs) (Hm : marshal_events evs = Some outs) (Ha : applied outs d d').
Hypothesis (Hmir : mirrors st d) (Hprep : prepared evs d).

(** Following one row of a table: what it shows at the end. *)
Lemma row_reaches {R} (tbl : db -> gmap Z R) (i : Z) (P : R -> Prop) r :
  (forall ev now x x' r, ev ∈ evs -> stmt_of ev now x = Some x' -> tbl x !! i = Some r ->
     exists r', tbl x' !! i = Some r' /\ (P r -> P r')) ->
  tbl d !! i = Some r ->
  P r \/ (exists ev, ev ∈ evs /\ forall now x x' r, stmt_of ev now x = Some x' -> tbl x !! i = Some r ->
            exists r', tbl x' !! i = Some r' /\ P r') ->
  exists r', tbl d' !! i = Some r' /\ P r'.
Proof.
  intros Hstep Hr HP.
  destruct (applied_reaches (fun x => exists r, tbl x !! i = Some r) (fun x => exists r, tbl x !! i = Some r /\ P r)
    st' evs outs d d' (rs_faithful _ _ _ Hrep) Hm Ha) as [_ ?]; [|by exists r| |done].
  - intros ev now x x' Hin Hs [r1 Hr1]. destruct (Hstep _ _ _ _ _ Hin Hs Hr1) as (r2 & Hr2 & Hk).
    split; [by exists r2|]. intros (r0 & Hr0 & HP0). exists r2. split; [done|]. apply Hk. congruence.
  - destruct HP as [HP|(ev & Hin & Hest)]; [left; by exists r|]. right. exists ev. split; [done|].
    intros now x x' Hs [r1 Hr1]. eauto.
Qed.

Lemma faithful_elem ev : ev ∈ evs -> faithful st' ev.
Proof. intros Hin. pose proof (rs_faithful _ _ _ Hrep) as Hf. rewrite Forall_forall in Hf. auto. Qed.

Lemma request_account i a :
  s_Accounts st' !! i = Some a ->
  exists r, accounts d' !! i = Some r /\ account_shown a r /\ ac_Status r = "ACTIVE"%string.
Proof.
  intros Hi. pose proof (rs_keyed _ _ _ Hrep) as Hk. pose proof (kd_account _ Hk _ _ Hi) as Hid.
  assert (Hrow : exists r, accounts d !! i = Some r /\ (account_shown a r \/ account_updated a ∈ evs) /\
    (ac_Status r = "ACTIVE"%string \/ account_activated a ∈ evs)).
  { destruct (rs_account _ _ _ Hrep _ _ Hi) as [H1|[[[a0 H1] H2]|H1]].
    - destruct (mi_account _ _ Hmir _ _ H1) as (r & ? & ? & ?). eauto 6.
    - destruct (mi_account _ _ Hmir _ _ H1) as (r & ? & ? & ?). eauto 6.
    - destruct (proj1 Hprep _ H1) as (r & Hr & Hs). rewrite Hid in Hr. eauto 6. }
  destruct Hrow as (r & Hr & Hsh & Hac).
  destruct (row_reaches accounts i (account_shown a) r) as (r1 & R1 & S1); [|done| |].
  { intros ev now x x' r0 Hin Hs Hr0. destruct (account_step st' ev now x x' i r0 Hk (faithful_elem _ Hin) Hs Hr0) as (r' & ? & H1 & _). eauto 10. }
  { destruct Hsh as [?|Hin]; [by left|]. right. eexists. split; [exact Hin|]. intros now x x' r0 Hs Hr0.
    destruct (account_step st' _ now x x' i r0 Hk (faithful_elem _ Hin) Hs Hr0) as (r' & ? & H1 & _). eauto 10. }
  destruct (row_reaches accounts i (fun r => ac_Status r = "ACTIVE"%string) r) as (r2 & R2 & S2); [|done| |].
  { intros ev now x x' r0 Hin Hs Hr0. destruct (account_step st' ev now x x' i r0 Hk (faithful_elem _ Hin) Hs Hr0) as (r' & ? & _ & H1). eauto 10. }
  { destruct Hac as [?|Hin]; [by left|]. right. eexists. split; [exact Hin|]. intros now x x' r0 Hs Hr0.
    destruct (account_step st' _ now x x' i r0 Hk (faithful_elem _ Hin) Hs Hr0) as (r' & ? & _ & H1). eauto 10. }
  exists r1. split_and!; [done|done|]. congruence.
Qed.

Lemma request_stock i s :
  s_Stocks st' !! i = Some s ->
  exists r, stocks d' !! i = Some r /\ sk_Price r = st_Price s /\ sk_Status r = StockStatus_String (st_Status s).
Proof.
  intros Hi. pose proof (rs_keyed _ _ _ Hrep) as Hk. pose proof (kd_stock _ Hk _ _ Hi) as Hid.
  assert (Hrow : exists r, stocks d !! i = Some r /\ (sk_Price r = st_Price s \/ stock_updated s ∈ evs) /\
    (sk_Status r = StockStatus_String (st_Status s) \/ stock_listed s ∈ evs)).
  { destruct (rs_stock _ _ _ Hrep _ _ Hi) as [H1|[(s0 & H1 & <- & H2)|H1]].
    - destruct (mi_stock _ _ Hmir _ _ H1) as (r & ? & ? & ?). eauto 6.
    - destruct (mi_stock _ _ Hmir _ _ H1) as (r & ? & ? & ?). eauto 6.
    - destruct (proj2 Hprep _ H1) as (r & Hr & Hs). rewrite Hid in Hr. eauto 6. }
  destruct Hrow as (r & Hr & Hsh & Hac).
  destruct (row_reaches stocks i (fun r => sk_Price r = st_Price s) r) as (r1 & R1 & S1); [|done| |].
  { intros ev now x x' r0 Hin Hs Hr0. destruct (stock_step st' ev now x x' i r0 Hk (faithful_elem _ Hin) Hs Hr0) as (r' & ? & H1 & _). eauto 10. }
  { destruct Hsh as [?|Hin]; [by left|]. right. eexists. split; [exact Hin|]. intros now x x' r0 Hs Hr0.
    destruct (stock_step st' _ now x x' i r0 Hk (faithful_elem _ Hin) Hs Hr0) as (r' & ? & H1 & _). eauto 10. }
  destruct (row_reaches stocks i (fun r => sk_Status r = StockStatus_String (st_Status s)) r) as (r2 & R2 & S2); [|done| |].
  { intros ev now x x' r0 Hin Hs Hr0. destruct (stock_step st' ev now x x' i r0 Hk (faithful_elem _ Hin) Hs Hr0) as (r' & ? & _ & H1). eauto 10. }
  { destruct Hac as [?|Hin]; [by left|]. right. eexists. split; [exact Hin|]. intros now x x' r0 Hs Hr0.
    destruct (stock_step st' _ now x x' i r0 Hk (faithful_elem _ Hin) Hs Hr0) as (r' & ? & _ & H1). eauto 10. }
  exists r1. split_and!; [done|done|]. congruence.
Qed.

Lemma request_holding k : user_stocks d' !! k = holding_row (s_StockBalances st' !! k).
Proof.
  pose proof (rs_keyed _ _ _ Hrep) as Hk.
  destruct (applied_reaches (fun _ => True) (fun x => user_stocks x !! k = holding_row (s_StockBalances st' !! k))
    st' evs outs d d' (rs_faithful _ _ _ Hrep) Hm Ha) as [_ Hr]; [|done| |done].
  { intros ev now x x' Hin Hs _. split; [done|]. intros Hx. eapply holding_step; [by apply faithful_elem|done|by left]. }
  rewrite (mi_holding _ _ Hmir). destruct (s_StockBalances st' !! k) as [h|] eqn:Hh.
  - destruct (rs_holding _ _ _ Hrep _ _ Hh) as [->|Hin]; [by left|]. right. exists (holding_updated h). split; [done|].
    intros now x x' Hs _. rewrite <- Hh. eapply holding_step; [by apply faithful_elem|done|]. right. exists h.
    split; [done|]. exact (kd_holding _ Hk _ _ Hh).
  - left. destruct (s_StockBalances st !! k) as [h0|] eqn:Hst0; [|done].
    destruct (rs_held _ _ _ Hrep k) as [h1 H1]; [eauto|]. congruence.
Qed.

(** Applying the events of a request takes a mirror of the ledger before it to
    a mirror of the ledger after it. *)
Lemma request_mirrored : mirrors st' d'.
Proof. split; [apply request_account|apply request_holding|apply request_stock]. Qed.
End request.
End mirror.
