(* ===== verification/Tracking.v ===== *)
(** * The projector tracks the ledger

    The engine and the projector together: the engine appends the records of its
    requests, the projector applies them when it can, and the rows of accounts
    and stocks are inserted by the parts of the system that request their
    activation. At every moment the database mirrors the ledger as it was after
    the last record applied. *)

From S2P Require Import Prelude Domain Slices OrderBook Ledger Events Matching Validation Orders Transfer Admin.
From S2P Require Import Footprint Wal Metrics Engine Columns Database Storage Messaging Publisher Projector Reporting Feed Mirror.

Section tracking.
Context {bytes log : Type} `{!Clock, !Codec bytes, !CodecLaws bytes, !EventCodec bytes, !EventCodecLaws bytes, !Server}.
Context `{!Twal bytes log, !TwalLaws bytes log}.
Abbreviation db := (DB bytes).
Abbreviation projector := (DBProjector bytes log).
Implicit Types (d : db) (ev : outEvent) (st : State) (evs : list outEvent) (evss : list (list outEvent)) (rs : list bytes).

(** ** What does not disturb the mirror *)

Lemma mirrors_foreign st d d' : foreign d d' -> mirrors st d -> mirrors st d'.
Proof.
  intros Hf [Ha Hh Hs]. split.
  - intros i a Hi. destruct (Ha i a Hi) as (r & Hr & [? ?] & ?). destruct (fo_accounts _ _ Hf i r Hr) as (r' & ? & ? & ? & ?).
    exists r'. unfold account_shown. split_and!; congruence.
  - intros k. by rewrite (fo_holdings _ _ Hf).
  - intros i s Hi. destruct (Hs i s Hi) as (r & Hr & ? & ?). destruct (fo_stocks _ _ Hf i r Hr) as (r' & ? & ? & ?).
    exists r'. split_and!; congruence.
Qed.

Lemma mirrors_cursor st i d : mirrors st d -> mirrors st (with_cursor i d).
Proof. intros [Ha Hh Hs]. by split. Qed.

Lemma prepared_foreign evs d d' : foreign d d' -> prepared evs d -> prepared evs d'.
Proof.
  intros Hf [Ha Hs]. split.
  - intros a Hin. destruct (Ha a Hin) as (r & Hr & [? ?]). destruct (fo_accounts _ _ Hf _ r Hr) as (r' & ? & ? & ? & ?).
    exists r'. unfold account_shown. split_and!; congruence.
  - intros s Hin. destruct (Hs s Hin) as (r & Hr & ?). destruct (fo_stocks _ _ Hf _ r Hr) as (r' & ? & ? & ?).
    exists r'. split; congruence.
Qed.

(** ** Accounts and stocks to come *)

Definition opened ev : option Z :=
  match data ev with EvAccount a => if String.eqb (pattern ev) PatternAccountActivated then Some (acc_Id a) else None | _ => None end.
Definition listed ev : option Z :=
  match data ev with EvStock s => if String.eqb (pattern ev) PatternStockListed then Some (st_Id s) else None | _ => None end.

(** No account is created twice and no stock is listed twice. *)
Record once st evss : Prop := {
  on_opened : NoDup (omap opened (concat evss));
  on_listed : NoDup (omap listed (concat evss));
  on_accounts i : i ∈ omap opened (concat evss) -> s_Accounts st !! i = None;
  on_stocks i : i ∈ omap listed (concat evss) -> s_Stocks st !! i = None
}.

Lemma opened_in a evs : account_activated a ∈ evs -> acc_Id a ∈ omap opened evs.
Proof. intros Hin. apply list_elem_of_omap. by exists (account_activated a). Qed.

Lemma listed_in s evs : stock_listed s ∈ evs -> st_Id s ∈ omap listed evs.
Proof. intros Hin. apply list_elem_of_omap. by exists (stock_listed s). Qed.

Lemma once_new evss : NoDup (omap opened (concat evss)) -> NoDup (omap listed (concat evss)) -> once NewState evss.
Proof. intros H1 H2. by split. Qed.

Lemma once_step st st' evs evss : once st (evs :: evss) -> reports st st' evs -> once st' evss.
Proof.
  intros [Ho Hl Ha Hs] Hr. cbn [concat] in *. rewrite omap_app in Ho, Hl, Ha, Hs.
  apply NoDup_app in Ho as (_ & Hdo & ?). apply NoDup_app in Hl as (_ & Hdl & ?).
  pose proof (rs_keyed _ _ _ Hr) as Hk. split; [done|done|..].
  - intros i Hi. destruct (s_Accounts st' !! i) as [a|] eqn:Hst; [|done]. exfalso.
    pose proof (Ha i ltac:(apply elem_of_app; by right)) as Hnone.
    destruct (rs_account _ _ _ Hr _ _ Hst) as [?|[[[? ?] _]|Hin]]; [congruence..|].
    apply opened_in in Hin. rewrite (kd_account _ Hk _ _ Hst) in Hin. by destruct (Hdo _ Hin).
  - intros i Hi. destruct (s_Stocks st' !! i) as [a|] eqn:Hst; [|done]. exfalso.
    pose proof (Hs i ltac:(apply elem_of_app; by right)) as Hnone.
    destruct (rs_stock _ _ _ Hr _ _ Hst) as [?|[(? & ? & _)|Hin]]; [congruence..|].
    apply listed_in in Hin. rewrite (kd_stock _ Hk _ _ Hst) in Hin. by destruct (Hdl _ Hin).
Qed.

(** The rows that later records need are there. *)
Definition pending evss d : Prop := Forall (fun evs => prepared evs d) evss.

(** A row that the ledger does not know is not touched. *)
Lemma applied_unknown st' evs outs d d' :
  Forall (faithful st') evs -> marshal_events evs = Some outs -> applied outs d d' ->
  (forall i, s_Accounts st' !! i = None -> accounts d' !! i = accounts d !! i) /\
  (forall i, s_Stocks st' !! i = None -> stocks d' !! i = stocks d !! i).
Proof.
  intros Hf Hm Ha. split; intros i Hi.
  - refine (proj2 (applied_reaches (fun _ => True) (fun x => accounts x !! i = accounts d !! i) st' evs outs d d' Hf Hm Ha _ I (or_introl eq_refl))).
    intros ev now x x' Hin Hs _. split; [done|]. intros <-. rewrite Forall_forall in Hf. specialize (Hf _ Hin).
    destruct (data ev) eqn:Hd; try (by rewrite (stmt_accounts _ _ _ _ Hs) by (by rewrite Hd)).
    destruct (faithful_account _ _ _ Hf Hd) as [Hacc [->| ->]]; unfold stmt_of in Hs; cbn in Hs;
      unfold q_UpdateAccountBalance, q_ActivateAccount in Hs; rewrite update_row_total in Hs; injection Hs as <-; cbn;
      apply lookup_alter_ne; congruence.
  - refine (proj2 (applied_reaches (fun _ => True) (fun x => stocks x !! i = stocks d !! i) st' evs outs d d' Hf Hm Ha _ I (or_introl eq_refl))).
    intros ev now x x' Hin Hs _. split; [done|]. intros <-. rewrite Forall_forall in Hf. specialize (Hf _ Hin).
    destruct (data ev) eqn:Hd; try (by rewrite (stmt_stocks _ _ _ _ Hs) by (by rewrite Hd)).
    destruct (faithful_stock _ _ _ Hf Hd) as [Hacc [->| ->]]; unfold stmt_of in Hs; cbn in Hs;
      unfold q_UpdateStockPrice, q_UpdateStockStatus in Hs; rewrite ?status_in_enum, update_row_total in Hs; injection Hs as <-; cbn;
      apply lookup_alter_ne; congruence.
Qed.

Lemma pending_step st' evs evss outs d d' :
  once st' evss -> Forall (faithful st') evs -> marshal_events evs = Some outs -> applied outs d d' ->
  pending evss d -> pending evss d'.
Proof.
  intros Ho Hf Hm Ha Hp. destruct (applied_unknown _ _ _ _ _ Hf Hm Ha) as [Hacc Hsto].
  unfold pending in *. rewrite Forall_forall in *. intros evs1 Hin. destruct (Hp _ Hin) as [Hpa Hps].
  assert (Hsub : forall ev, ev ∈ evs1 -> ev ∈ concat evss) by (intros ev Hev; apply list_elem_of_In, in_concat; exists evs1; by rewrite <- !list_elem_of_In).
  split.
  - intros a Hev. rewrite Hacc; [auto|]. apply (on_accounts _ _ Ho), opened_in, Hsub, Hev.
  - intros s Hev. rewrite Hsto; [auto|]. apply (on_stocks _ _ Ho), listed_in, Hsub, Hev.
Qed.

(** ** A batch *)

Lemma applied_app l1 l2 d d' : applied (l1 ++ l2) d d' -> exists d1, applied l1 d d1 /\ applied l2 d1 d'.
Proof.
  revert d. induction l1 as [|ev l1 IH]; intros d Ha; cbn in Ha; [exists d; split; [constructor|done]|].
  inversion Ha as [|? ? ? d1 ? H1 H2]; subst. destruct (IH _ H2) as (d2 & ? & ?). exists d2. split; [by econstructor|done].
Qed.

(** The rest of the history, seen from a database. *)
Record awaits st evss d : Prop := {
  aw_mirrors : mirrors st d;
  aw_once : once st evss;
  aw_pending : pending evss d
}.

(** Applying some records takes the mirror of the ledger before them to a mirror
    of the ledger after them. *)
Lemma batch_tracked st evss rs st' more envs d d' :
  trail st evss rs st' -> mapM Unmarshal_OutputEnvelope rs = Some envs ->
  applied (concat (env_Events <$> envs)) d d' -> awaits st (evss ++ more) d -> awaits st' more d'.
Proof.
  intros Ht. revert envs d. induction Ht as [st|st st1 st2 env evs evss r rs Hm Hr Hrep _ IH]; intros envs d Henv Ha Haw.
  { injection Henv as <-. by inversion Ha; subst. }
  cbn [mapM] in Henv. rewrite (codec_envelope _ _ Hr) in Henv. cbn in Henv.
  destruct (mapM Unmarshal_OutputEnvelope rs) as [envs'|] eqn:Hrest; [|done]. injection Henv as <-.
  cbn in Ha. apply applied_app in Ha as (d1 & Ha1 & Ha2). destruct Haw as [Hmir Hon Hp].
  rewrite <- app_comm_cons in Hon, Hp. inversion Hp as [|? ? Hp1 Hp2]; subst. pose proof (once_step _ _ _ _ Hon Hrep) as Hon1.
  eapply (IH envs' d1); [done|done|]. split; [by eapply request_mirrored|done|].
  eapply pending_step; [done|apply Hrep|done..].
Qed.

Lemma awaits_foreign st evss d d' : foreign d d' -> awaits st evss d -> awaits st evss d'.
Proof.
  intros Hf [Hm Ho Hp]. split; [by eapply mirrors_foreign|done|]. eapply Forall_impl; [exact Hp|].
  intros evs. by apply prepared_foreign.
Qed.

Lemma awaits_cursor st evss i d : awaits st evss d -> awaits st evss (with_cursor i d).
Proof. intros [Hm Ho Hp]. split; [by apply mirrors_cursor|done|exact Hp]. Qed.

(** ** The system *)

(** After [c] of the records the ledger was [at_c], and the database mirrors it;
    the remaining records lead to the ledger [st]. *)
Definition tracks st evss rs (c : nat) d : Prop :=
  cursor_at DB_APPLIED_OUTPUT_SEQ d = Z.of_nat c /\ (c <= length rs)%nat /\
  exists at_c, trail NewState (take c evss) (take c rs) at_c /\ trail at_c (drop c evss) (drop c rs) st /\
    awaits at_c (drop c evss) d.

Lemma trail_length st evss rs st' : trail st evss rs st' -> length evss = length rs.
Proof. induction 1; cbn; congruence. Qed.

Lemma trail_split st evss rs st' n :
  trail st evss rs st' -> exists st1, trail st (take n evss) (take n rs) st1 /\ trail st1 (drop n evss) (drop n rs) st'.
Proof.
  intros Ht. revert n. induction Ht as [st|st st1 st2 env evs evss r rs Hm Hr Hrep Ht IH]; intros n.
  { exists st. rewrite !take_nil, !drop_nil. split; constructor. }
  destruct n as [|n]; [exists st; cbn; split; [constructor|by econstructor]|].
  destruct (IH n) as (sm & H1 & H2). exists sm. cbn. split; [by econstructor|done].
Qed.

Lemma tracks_keeps st evss rs0 : Z.of_nat (length rs0) < two64 -> keeps (fun rs c d => rs = rs0 /\ tracks st evss rs c d).
Proof.
  intros Hb. split.
  - by intros rs c d _ (_ & Hc & _).
  - intros rs c d d' [-> (Hc & Hle & at_c & H1 & H2 & H3)] Hf. split; [done|].
    split; [by rewrite <- Hc; unfold cursor_at; rewrite (fo_cursor _ _ Hf)|]. split; [done|].
    exists at_c. split_and!; [done..|by eapply awaits_foreign].
  - intros rs c n envs d d' [-> (Hc & Hle & at_c & H1 & H2 & H3)] Hn Henv Ha. split; [done|].
    split; [apply cursor_at_save; unfold is_u64; lia|]. split; [done|].
    destruct (trail_split _ _ _ _ n H2) as (st1 & H4 & H5). exists st1.
    rewrite <- (take_take_drop evss c n), <- (take_take_drop rs0 c n). rewrite !drop_drop in H5. split_and!; [by eapply trail_app|done|].
    apply awaits_cursor. eapply batch_tracked; [exact H4|done|done|]. rewrite <- drop_drop. by rewrite take_drop.
Qed.

(** The system: the events of the requests so far, their records, the ledger, and
    the projector. *)
Record world := mkWorld {
  w_events : list (list outEvent);
  w_records : list bytes;
  w_ledger : State;
  w_projector : projector
}.

(** The engine processes a request, whose rows are in the database, or something
    happens to the projector. *)
Inductive world_step : world -> world -> Prop :=
  | world_request w st' env evs r k out :
      reports (w_ledger w) st' evs -> marshal_events evs = Some (env_Events env) -> Marshal_OutputEnvelope env = Some r ->
      prepared evs (st_db (dp_store (w_projector w))) ->
      retains out k (w_records w ++ [r]) -> Z.of_nat (length (w_records w ++ [r])) + dbProjectorBatchSize < two64 ->
      world_step w (mkWorld (w_events w ++ [evs]) (w_records w ++ [r]) st' (dp_set_output (w_projector w) out))
  | world_projector w p :
      proj_move (w_records w) (w_projector w) p ->
      world_step w (mkWorld (w_events w) (w_records w) (w_ledger w) p).

Definition world_ok (w : world) : Prop :=
  proj_inv (fun rs c d => rs = w_records w /\ tracks (w_ledger w) (w_events w) rs c d) (w_records w) (w_projector w).

(** Nothing is created twice. *)
Definition distinct evss : Prop := NoDup (omap opened (concat evss)) /\ NoDup (omap listed (concat evss)).

Lemma distinct_prefix evss evs : distinct (evss ++ [evs]) -> distinct evss.
Proof. unfold distinct. rewrite concat_app, !omap_app, !NoDup_app. naive_solver. Qed.

(** With one more record, the rest of the history still has its rows. *)
Lemma once_trail st evss rs st' more : trail st evss rs st' -> once st (evss ++ more) -> once st' more.
Proof. induction 1 as [|???????? _ _ Hr _ IH]; [done|]. intros Ho. by eapply IH, once_step. Qed.

Lemma once_feed evss more rs st :
  trail NewState evss rs st -> distinct (evss ++ more) -> once st more.
Proof. intros Ht [H1 H2]. eapply once_trail; [done|by apply once_new]. Qed.

Lemma world_request_ok w st' env evs r k out :
  reports (w_ledger w) st' evs -> marshal_events evs = Some (env_Events env) -> Marshal_OutputEnvelope env = Some r ->
  prepared evs (st_db (dp_store (w_projector w))) ->
  retains out k (w_records w ++ [r]) -> Z.of_nat (length (w_records w ++ [r])) + dbProjectorBatchSize < two64 ->
  distinct (w_events w ++ [evs]) -> world_ok w ->
  world_ok (mkWorld (w_events w ++ [evs]) (w_records w ++ [r]) st' (dp_set_output (w_projector w) out)).
Proof.
  intros Hrep Hm Hr Hp Hlog Hroom Hdis [_ _ Hc (_ & Hcur & Hle & at_c & H1 & H2 & [Hmir _ Hpend])].
  pose proof (trail_length _ _ _ _ (trail_app _ _ _ _ _ _ _ H1 H2)) as Hlen. rewrite !take_drop in Hlen.
  split; cbn; [eauto|done|done|]. split; [done|]. split; [done|]. split; [rewrite length_app; lia|].
  exists at_c. rewrite !take_app_le, !drop_app_le by lia. split_and!; [done| |split].
  - eapply trail_app; [done|]. by eapply trail_one.
  - done.
  - eapply once_feed; [exact H1|]. by rewrite app_assoc, take_drop.
  - apply Forall_app. split; [done|]. by constructor; [|constructor].
Qed.

Lemma world_step_ok w w' :
  no_lost_answer -> world_step w w' -> distinct (w_events w') -> world_ok w -> world_ok w'.
Proof.
  intros Hnl [w0 st' env evs r k out Hrep Hm Hr Hp Hlog Hroom|w0 p Hmv] Hdis Hok.
  - by eapply world_request_ok.
  - eapply (proj_move_ok _ (tracks_keeps _ _ (w_records w0) _) Hnl); [done|exact Hok].
    Unshelve. pose proof (pj_room _ _ _ Hok). unfold dbProjectorBatchSize in *. lia.
Qed.

Lemma world_steps_distinct w w' : rtc world_step w w' -> distinct (w_events w') -> distinct (w_events w).
Proof.
  induction 1 as [|w w1 w' Hs _ IH]; [done|]. intros Hd. specialize (IH Hd).
  destruct Hs; cbn in *; [by eapply distinct_prefix|done].
Qed.

Lemma world_steps_ok w w' :
  no_lost_answer -> rtc world_step w w' -> distinct (w_events w') -> world_ok w -> world_ok w'.
Proof.
  intros Hnl. induction 1 as [|w w1 w' Hs Hr IH]; [done|]. intros Hd Hok.
  apply IH; [done|]. eapply world_step_ok; [done..| |done]. by eapply world_steps_distinct.
Qed.

(** A new installation: an empty log and an empty ledger. *)
Definition world_start (p : projector) : world := mkWorld [] [] NewState p.

Lemma world_start_ok p :
  dp_cursor p = 0 -> retains (dp_output p) 0 [] -> cursor_at DB_APPLIED_OUTPUT_SEQ (st_db (dp_store p)) = 0 ->
  user_stocks (st_db (dp_store p)) = ∅ -> world_ok (world_start p).
Proof.
  intros Hc Hr Hcur Hh. split; cbn; [eauto|done|lia|]. rewrite Hc. split; [done|]. split; [done|]. split; [done|].
  exists NewState. split_and!; [constructor..|]. split; [|by apply once_new; constructor|constructor].
  split; [done| |done]. intros k. by rewrite Hh, lookup_empty.
Qed.
End tracking.
