(* ===== verification/Writing.v ===== *)
(** * What the engine writes, whatever was restored

    Of all the events the engine emits, the activation of an account comes from
    the creation request of that account and nothing else, and the listing of a
    stock from its listing request. So what the rows of the database must be
    like before a request can be read off its payload.

    A request adds one record to the output log, with events that report its
    effect on the ledger of the engine. After a restart over a snapshot that
    ledger has the same accounts, holdings and stocks as the one before, so its
    next records continue the story for the consumers. *)

From S2P Require Import Prelude Domain Slices OrderBook BookSpec Ledger Snapshot BookSim Events Matching Validation Orders Transfer Admin LedgerSim MatchLoop.
From S2P Require Import Footprint Dedup Wal Metrics Engine Columns Database Storage SnapshotStore Messaging Publisher Projector Recovery Determinism Replays Consistency SnapshotReplay.
From S2P Require Import Retention Restarts Reporting Feed Mirror Tracking.

(** An event that neither activates an account nor lists a stock. *)
Definition unopened (ev : outEvent) : Prop := opened ev = None /\ listed ev = None.

Section openings.
Context `{!Clock} {bytes : Type} `{!Codec bytes}.
Implicit Types (c : Core) (l : locals) (order : Order) (evs : list outEvent).

Lemma maker_unopened o q c : unopened (snd (maker_event o q c)).
Proof. unfold maker_event, time_now. by destruct (Z.eqb _ _). Qed.

Lemma after_fill_unopened l side p o c q r :
  after_fill l side p o c q = Done r -> Forall unopened (l_events l) -> Forall unopened (l_events (step_locals r)).
Proof.
  unfold after_fill. cbv zeta. destruct (if is_sell _ then _ else _) as [buyer seller].
  destruct (settle _ _ _ _ _ _) as [s|]; [|done]. cbn [obind].
  destruct (takeTradeID _) as [c1 [tid|err]]; [|by intros [= <-]].
  unfold trade_event, time_now. destruct (maker_event o q _) as [c2 ev] eqn:Hm. intros [= <-] Hl. cbn.
  apply Forall_app. split; [done|]. constructor; [done|]. constructor; [|done].
  change ev with (snd (c2, ev)). rewrite <- Hm. apply maker_unopened.
Qed.

Lemma match_step_unopened l r :
  match_step l = Done r -> Forall unopened (l_events l) -> Forall unopened (l_events (step_locals r)).
Proof.
  unfold match_step. cbv zeta. destruct (best_counter _ _) as [[best|] side]; [|by intros [= <-]].
  destruct (price_rejected _ _); [by intros [= <-]|]. destruct (Front _ _ _) as [o|]; [|by intros [= <-]].
  destruct (Fill _ _ _) as [[b f]|]; [|done]. cbn [obind]. destruct (Z.eqb f 0); [by intros [= <-]|].
  apply after_fill_unopened.
Qed.

Lemma match_loop_unopened fuel l l' err :
  match_loop fuel l = Done (l', err) -> Forall unopened (l_events l) -> Forall unopened (l_events l').
Proof.
  revert l. induction fuel as [|fuel IH]; intros l; cbn [match_loop]; (destruct (Z.ltb _ _); [|by intros [= <- _]]).
  { by intros [= <- _]. }
  destruct (match_step l) as [r|] eqn:Hs; [|done]. cbn [obind]. intros Hr Hl.
  pose proof (match_step_unopened _ _ Hs Hl) as Hu. destruct r; [by injection Hr as <- _|by eapply IH|by injection Hr as <- _].
Qed.

Lemma finish_match_unopened F0 l : Forall unopened (l_events l) -> Forall unopened (snd (finish_match F0 l)).
Proof.
  intros Hl. unfold finish_match. cbv zeta.
  assert (Hp : l_events (place_remainder l) = l_events l) by (unfold place_remainder; by repeat case_match).
  destruct (update_stock_price _ _) as [s u]. unfold taker_event, time_now.
  destruct (String.eqb _ _) eqn:Hf; cbn [snd]; rewrite Hp; repeat (apply Forall_app; split); try done.
  - repeat constructor; unfold opened, listed; cbn.
  - unfold book_events. case_match; repeat constructor.
  - unfold account_events. apply Forall_concat, Forall_fmap, Forall_forall. intros i _. cbn.
    repeat case_match; repeat constructor.
  - unfold stock_events. case_match; repeat constructor.
  - repeat constructor; unfold opened, listed; cbn.
  - unfold book_events. case_match; repeat constructor.
  - unfold account_events. apply Forall_concat, Forall_fmap, Forall_forall. intros i _. cbn.
    repeat case_match; repeat constructor.
  - unfold stock_events. case_match; repeat constructor.
Qed.

Lemma matchEvents_unopened order c c' evs : matchEvents order c = Done (c', inl evs) -> Forall unopened evs.
Proof.
  unfold matchEvents. cbv zeta. destruct (match_loop _ _) as [[l [err|]]|] eqn:Hl; [done| |done]. cbn [obind].
  pose proof (finish_match_unopened (o_FilledQuantity order) l) as Hf. destruct (finish_match _ l) as [c1 evs1].
  intros [= _ <-]. apply Hf. eapply match_loop_unopened; [exact Hl|constructor].
Qed.

Lemma merge_unopened evs lv sid : Forall unopened evs -> Forall unopened (mergeOrderBookLevel evs lv sid).
Proof.
  induction 1 as [|ev evs Hev Hevs IH]; cbn [mergeOrderBookLevel]; [by repeat constructor|].
  destruct (data ev) eqn:Hd; try (by constructor). destruct (String.eqb _ _); [|by constructor].
  constructor; [by split|done].
Qed.

Lemma order_events_unopened order c c' evs : order_events order c = Done (c', inl evs) -> Forall unopened evs.
Proof.
  unfold order_events. destruct (validateOrder order _) as [s [r|]]; [intros [= _ <-]; by repeat constructor|].
  unfold route_events. destruct (o_TradingType order); [by apply matchEvents_unopened..| | |done].
  - unfold editEvents. cbv zeta. set (target := default zero_Order _).
    destruct (removeAndRelease _ _) as [[s1 ok]|]; [|done]. cbn [obind]. destruct ok; [|done]. cbn [negb].
    destruct (matchEvents (replacement_of order target) _) as [[c1 [evs1|err]]|] eqn:Hm; [|done|done]. cbn [obind].
    intros [= _ <-]. constructor; [done|]. by apply merge_unopened, (matchEvents_unopened _ _ _ _ Hm).
  - unfold cancelEvents. cbv zeta. destruct (Get _ _) as [target|]; [|done].
    destruct (removeAndRelease _ _) as [[s1 ok]|]; [|done]. cbn [obind]. destruct ok; [|done]. cbn [negb].
    intros [= _ <-]. repeat constructor. repeat case_match; by repeat constructor.
Qed.

(** What a request activates and lists. *)
Lemma record_openings pat dat c c' evs :
  record_events pat dat c = Some (Done (c', inl evs)) ->
  (pat = PatternAccountCreated /\ exists a, Unmarshal_Account dat = Some a /\ evs = [account_activated a]) \/
  (pat = PatternStockList /\ exists s, Unmarshal_Stock dat = Some s /\ evs = [stock_listed (mkStock (st_Id s) (st_Price s) LISTED)]) \/
  Forall unopened evs.
Proof.
  unfold record_events, total.
  destruct (String.eqb_spec pat PatternOrderCreated) as [_|_].
  { intros (o & _ & Ho)%fmap_Some. right. right. by eapply order_events_unopened. }
  destruct (String.eqb_spec pat PatternAccountCreated) as [->|_].
  { intros (a & Ha & [= _ ->])%fmap_Some. left. eauto. }
  destruct (String.eqb_spec pat PatternTransferCreated) as [_|_].
  { intros (t & _ & [= _ ->])%fmap_Some. right. right. unfold transferEvents, time_now.
    destruct (validateTransfer t _) as [[??]|?]; by repeat constructor. }
  destruct (String.eqb_spec pat PatternStockList) as [->|_].
  { intros (s & Hs & [= _ ->])%fmap_Some. right. left. eauto. }
  destruct (String.eqb_spec pat PatternAdminBalanceAdjust) as [_|_].
  { intros (r & _ & [= _ ->])%fmap_Some. right. right. unfold balanceAdjustEvents, adminRequestRejected, adminRequestCompleted, time_now.
    destruct (validateBalanceAdjust r _); by repeat constructor. }
  destruct (String.eqb_spec pat PatternAdminStockBalanceAdjust) as [_|_]; [|done].
  intros (r & _ & [= _ ->])%fmap_Some. right. right. unfold stockBalanceAdjustEvents, adminRequestRejected, adminRequestCompleted, time_now.
  destruct (validateStockBalanceAdjust r _); by repeat constructor.
Qed.

(** ** From the payload *)

(** The row of the account or the stock that the request opens is there. *)
Definition ready (pat : string) (dat : bytes) (d : DB bytes) : Prop :=
  (pat = PatternAccountCreated -> forall a, Unmarshal_Account dat = Some a ->
     exists r, accounts d !! acc_Id a = Some r /\ account_shown a r) /\
  (pat = PatternStockList -> forall s, Unmarshal_Stock dat = Some s ->
     exists r, stocks d !! st_Id s = Some r /\ sk_Price r = st_Price s).

Lemma unopened_prepared evs (d : DB bytes) : Forall unopened evs -> prepared evs d.
Proof.
  rewrite Forall_forall. intros Hu. split.
  - intros a [Ho _]%Hu. by unfold opened in Ho.
  - intros s [_ Hl]%Hu. by unfold listed in Hl.
Qed.

Lemma ready_prepared pat dat c c' evs (d : DB bytes) :
  record_events pat dat c = Some (Done (c', inl evs)) -> ready pat dat d -> prepared evs d.
Proof.
  intros Hev [Ha Hs]. destruct (record_openings _ _ _ _ _ Hev) as [(-> & a & Hu & ->)|[(-> & s & Hu & ->)|Hu]].
  - split; [|intros s Hin; by apply list_elem_of_singleton in Hin].
    intros a0 [= ->]%list_elem_of_singleton. by apply Ha.
  - split; [intros a Hin; by apply list_elem_of_singleton in Hin|].
    intros s0 [= ->]%list_elem_of_singleton. cbn. by apply Hs.
  - by apply unopened_prepared.
Qed.

(** What it opens is new to the ledger. *)
Definition unseen (pat : string) (dat : bytes) (st : State) : Prop :=
  (pat = PatternAccountCreated -> forall a, Unmarshal_Account dat = Some a -> s_Accounts st !! acc_Id a = None) /\
  (pat = PatternStockList -> forall s, Unmarshal_Stock dat = Some s -> s_Stocks st !! st_Id s = None).

Lemma unseen_opened pat dat c c' evs st :
  record_events pat dat c = Some (Done (c', inl evs)) -> unseen pat dat st ->
  (NoDup (omap opened evs) /\ NoDup (omap listed evs)) /\
  (forall i, i ∈ omap opened evs -> s_Accounts st !! i = None) /\
  (forall i, i ∈ omap listed evs -> s_Stocks st !! i = None).
Proof.
  intros Hev [Ha Hs]. destruct (record_openings _ _ _ _ _ Hev) as [(-> & a & Hu & ->)|[(-> & s & Hu & ->)|Hu]].
  - cbn. split_and!; [apply NoDup_singleton|constructor| |set_solver].
    intros i ->%list_elem_of_singleton. by apply Ha.
  - cbn. split_and!; [constructor|apply NoDup_singleton|set_solver|].
    intros i ->%list_elem_of_singleton. by apply Hs.
  - assert (Ho : omap opened evs = [] /\ omap listed evs = []).
    { clear Hev. induction Hu as [|ev evs [H1 H2] _ IH]; [done|]. cbn. rewrite H1, H2. apply IH. }
    destruct Ho as [-> ->]. split_and!; [constructor|constructor|set_solver..].
Qed.
End openings.

(** ** Ledgers with the same records *)

Record same_records (s s' : State) : Prop := {
  sm_accounts : s_Accounts s' = s_Accounts s;
  sm_holdings : s_StockBalances s' = s_StockBalances s;
  sm_stocks : s_Stocks s' = s_Stocks s
}.

Lemma same_records_refl s : same_records s s.
Proof. done. Qed.

Lemma same_records_trans s1 s2 s3 : same_records s1 s2 -> same_records s2 s3 -> same_records s1 s3.
Proof. intros [] []. split; congruence. Qed.

Lemma equiv_same_records s s' : s ≡ s' -> same_records s s'.
Proof. by intros [H1 H2 H3 _]. Qed.

Lemma reports_from s0 s s' evs : same_records s0 s -> reports s s' evs -> reports s0 s' evs.
Proof. intros [Ha Hh Hs] [K F A L D S G]. unfold grows in G. rewrite Ha in *. rewrite Hh in *. rewrite Hs in *. by split. Qed.

(** A restored ledger is keyed like the original. *)
Lemma shelf_equiv sid b b' : b ≡ b' -> shelf sid b -> shelf sid b'.
Proof.
  intros [R Hl] Hs i r' Hi. pose proof (lk_index _ _ _ Hl i) as Ho. rewrite Hi in Ho.
  destruct (index b !! i) as [r|] eqn:Hr; inversion_clear Ho as [?? [_ _ He]|].
  destruct (lk_elems _ _ _ Hl _ _ He) as (o & o' & H1 & H2 & Heq). exists o'. split; [done|].
  destruct (Hs _ _ Hr) as (o0 & H0 & <-). rewrite H1 in H0. injection H0 as ->. order_fields Heq. congruence.
Qed.

Lemma keyed_equiv s s' : s ≡ s' -> keyed s -> keyed s'.
Proof.
  intros [H1 H2 H3 H4] [K1 K2 K3 K4]. rewrite H1, H2, H3 in *. split; [done..|]. intros i b' Hb'. specialize (H4 i).
  rewrite Hb' in H4. destruct (s_OrderBooks s !! i) as [b|] eqn:Hb; inversion_clear H4 as [?? Heq|].
  eapply shelf_equiv; [exact Heq|eauto].
Qed.

Section writing.
Context `{!Clock} {bytes log : Type} `{!Codec bytes, !CodecLaws bytes, !Proto bytes, !ProtoLaws bytes}.
Context `{!EventCodec bytes, !EventCodecLaws bytes, !Twal bytes log, !TwalLaws bytes log, !Server, !ServerLaws}.
Abbreviation engine := (Engine bytes log).
Abbreviation store := (Store bytes).
Abbreviation db := (DB bytes).
Implicit Types (e : engine) (ps rs : list bytes) (d : db) (st : State).

(** ** The record of a request *)

(** A record of one request, with what it opens and reports. *)
Record recorded (p : bytes) (st st' : State) (evs : list outEvent) (r : bytes) : Prop := {
  rc_events : exists env, marshal_events evs = Some (env_Events env) /\ Marshal_OutputEnvelope env = Some r;
  rc_reports : reports st st' evs;
  rc_request : exists pat dat c c', Unmarshal_envelope p = Some (pat, dat) /\ record_events pat dat c = Some (Done (c', inl evs))
}.

Lemma logged_writes e e' ps p snaps pat dat k rs :
  logged e ps p snaps -> retains (output e) k rs -> keyed (state (core e)) -> room (output e) ->
  Unmarshal_envelope p = Some (pat, dat) ->
  replay_record (Z.of_nat (length ps) + 1) pat dat e = Done (e', None) ->
  exists evs r, recorded p (state (core e)) (state (core e')) evs r /\ retains (output e') k (rs ++ [r]).
Proof.
  intros [_ _ _ Happ _ _ (pat' & dat' & id & Henv & Hk & _)] Hr Hkey Hro Henv' Hrec.
  rewrite Henv in Henv'. injection Henv' as <- <-.
  assert (Hlive : live (core (set_seq e (Z.of_nat (length ps) + 1))) = true).
  { unfold live. cbn. rewrite Z.gtb_ltb. apply orb_true_iff. right. apply Z.ltb_lt. lia. }
  destruct (record_writes _ _ _ _ _ _ _ Hr Hkey Hk Hro Hlive (proj1 Happ) Hrec) as (c & evs & env & r & Hev & Hm & Hb & Hrep & Hr').
  exists evs, r. split; [|done]. split; [by exists env|done|by exists pat', dat', (core (set_seq e (Z.of_nat (length ps) + 1))), c].
Qed.

(** A payload that the engine will not take for a duplicate. *)
Definition fresh (p : bytes) e : Prop :=
  forall pat dat id, Unmarshal_envelope p = Some (pat, dat) -> request_id pat dat = Some (Some id) -> dedup_has (dups e) pat id = false.

(** A delivery is logged and recorded, or leaves the engine as it was. *)
Lemma deliver_writes p e e' r ps snaps k rs :
  in_step e ps snaps -> retains (output e) k rs -> keyed (state (core e)) -> room (input e) -> room (output e) ->
  handle p e = Done (e', r) -> (forall err, r <> Failed err) ->
  e' = e \/
  (fresh p e /\ in_step e' (ps ++ [p]) snaps /\
   exists evs rec, recorded p (state (core e)) (state (core e')) evs rec /\ retains (output e') k (rs ++ [rec])).
Proof.
  intros Hs Hr Hkey Hri Hro Hh Hnf.
  destruct (handle_cases _ _ _ _ Hh Hnf) as [[-> _]|[_ [(pat & dat & id & e1 & Henv & Hk & Hid & Hdup & Hlog & Hrec)]]];
    [by left|right].
  destruct (logInput_logged _ _ _ _ _ _ _ _ Hs Hri Henv Hk Hid Hlog) as (Hl & Hs1 & Hst1 & Ho1 & _).
  rewrite Hs1 in Hrec. rewrite <- Hst1 in Hkey. rewrite <- Ho1 in Hr, Hro.
  split; [|split; [by eapply logged_done|]].
  - intros pat' dat' id' Henv' Hid'. congruence.
  - rewrite <- Hst1. by eapply logged_writes.
Qed.

(** ** The consumers see one more record *)

Lemma trail_grows st evss rs st' : trail st evss rs st' -> grows st st'.
Proof.
  induction 1 as [|?????????? Hr _ [IHa IHs]]; [done|]. destruct (rs_grows _ _ _ Hr) as [Ga Gs]. split; eauto.
Qed.

(** What was opened is in the ledger. *)
Lemma trail_opened st evss rs st' :
  trail st evss rs st' ->
  (forall i, i ∈ omap opened (concat evss) -> is_Some (s_Accounts st' !! i)) /\
  (forall i, i ∈ omap listed (concat evss) -> is_Some (s_Stocks st' !! i)).
Proof.
  induction 1 as [st|st st1 st2 env evs evss r rs _ _ Hr Ht [IHa IHs]]; [cbn; set_solver|].
  destruct (trail_grows _ _ _ _ Ht) as [Ga Gs]. cbn [concat]. rewrite !omap_app.
  pose proof (rs_faithful _ _ _ Hr) as Hf. rewrite Forall_forall in Hf. split; intros i.
  - intros [Hi|Hi]%elem_of_app; [|by apply IHa]. apply list_elem_of_omap in Hi as (ev & Hin & Ho). apply Ga.
    unfold opened in Ho. destruct (data ev) eqn:Hd; try done. destruct (String.eqb _ _); [|done]. injection Ho as <-.
    destruct (faithful_account _ _ _ (Hf _ Hin) Hd) as [-> _]. eauto.
  - intros [Hi|Hi]%elem_of_app; [|by apply IHs]. apply list_elem_of_omap in Hi as (ev & Hin & Ho). apply Gs.
    unfold listed in Ho. destruct (data ev) eqn:Hd; try done. destruct (String.eqb _ _); [|done]. injection Ho as <-.
    destruct (faithful_stock _ _ _ (Hf _ Hin) Hd) as [-> _]. eauto.
Qed.

(** What is new to the ledger at the end of a history is opened once in it. *)
Lemma once_more st evss rs st' evs :
  trail st evss rs st' -> once st evss ->
  NoDup (omap opened evs) /\ NoDup (omap listed evs) ->
  (forall i, i ∈ omap opened evs -> s_Accounts st' !! i = None) ->
  (forall i, i ∈ omap listed evs -> s_Stocks st' !! i = None) -> once st (evss ++ [evs]).
Proof.
  intros Ht [Ho Hl Ha Hs] [No Nl] Fa Fs. destruct (trail_grows _ _ _ _ Ht) as [Ga Gs]. destruct (trail_opened _ _ _ _ Ht) as [Oa Os].
  split; rewrite concat_app, omap_app; cbn [concat]; rewrite app_nil_r.
  - apply NoDup_app. split_and!; [done| |done]. intros i Hi Hn. destruct (Oa _ Hi) as [a Hx]. rewrite (Fa _ Hn) in Hx. done.
  - apply NoDup_app. split_and!; [done| |done]. intros i Hi Hn. destruct (Os _ Hi) as [a Hx]. rewrite (Fs _ Hn) in Hx. done.
  - intros i [Hi|Hi]%elem_of_app; [by apply Ha|]. apply eq_None_not_Some. intros Hx%Ga. rewrite (Fa _ Hi) in Hx. by destruct Hx.
  - intros i [Hi|Hi]%elem_of_app; [by apply Hs|]. apply eq_None_not_Some. intros Hx%Gs. rewrite (Fs _ Hi) in Hx. by destruct Hx.
Qed.

(** The request opens nothing that the ledger knows, and the rows it needs are
    in the database. *)
Definition announced (p : bytes) st d : Prop :=
  forall pat dat, Unmarshal_envelope p = Some (pat, dat) -> ready pat dat d /\ unseen pat dat st.

Lemma tracks_more p st st' evss evs rs r c d :
  recorded p st st' evs r -> announced p st d -> tracks st evss rs c d ->
  tracks st' (evss ++ [evs]) (rs ++ [r]) c d.
Proof.
  intros [(env & Hm & Hr) Hrep (pat & dat & c0 & c0' & Henv & Hev)] Hann (Hcur & Hle & at_c & Hb1 & Hb2 & [Hmir Ho Hpend]).
  destruct (Hann _ _ Henv) as [Hready Hunseen].
  destruct (unseen_opened _ _ _ _ _ _ Hev Hunseen) as (Hnd & Fa & Fs).
  pose proof (trail_length _ _ _ _ (trail_app _ _ _ _ _ _ _ Hb1 Hb2)) as Hlen. rewrite !take_drop in Hlen.
  split; [done|]. split; [rewrite length_app; lia|]. exists at_c.
  rewrite !take_app_le, !drop_app_le by lia. split_and!; [done| |split].
  - eapply trail_app; [done|]. by eapply trail_one.
  - done.
  - by eapply once_more.
  - apply Forall_app. split; [done|]. apply Forall_singleton. by eapply ready_prepared.
Qed.

Lemma tracks_from st0 st evss rs c d :
  (exists st1, same_records st0 st1 /\ tracks st1 evss rs c d) -> same_records st0 st ->
  exists st1, same_records st st1 /\ tracks st1 evss rs c d.
Proof. intros (st1 & [] & Ht) []. exists st1. split; [|done]. split; congruence. Qed.

(** The history may end in the restored ledger as well. *)
Lemma recorded_from p st0 st st' evs r : same_records st0 st -> recorded p st st' evs r -> recorded p st0 st' evs r.
Proof. intros Hs [He Hr Hq]. split; [done|by eapply reports_from|done]. Qed.

Lemma announced_from p st0 st d : same_records st0 st -> announced p st d -> announced p st0 d.
Proof. intros [Ha Hh Hs] Hn pat dat Henv. destruct (Hn _ _ Henv) as [? Hu]. split; [done|]. unfold unseen in *. by rewrite <- Ha, <- Hs. Qed.
End writing.
