(* ===== verification/System.v ===== *)
(** * The whole system

    The engine, the event publisher and the database projector over one output
    log and one database. The engine takes requests, snapshots, trims its logs and
    restarts, also after a crash between its logs; the consumers drain the log
    and restart; other parts insert rows. [system_ok] relates all of them to the
    requests logged so far: one record per request in order, a ledger with the
    accounts, holdings and stocks that the records tell, a database that mirrors
    the ledger at the projector's position, a broker with the records up to the
    publisher's position, and a log that still has what either has to read. *)

From S2P Require Import Prelude Domain Slices OrderBook BookSpec Ledger Snapshot BookSim Events Matching Validation Orders Transfer Admin LedgerSim MatchLoop.
From S2P Require Import Footprint Dedup Wal Metrics Engine Columns Database Storage SnapshotStore Messaging Publisher Projector Frames Recovery Determinism Replays Consistency SnapshotReplay.
From S2P Require Import Windows Retention Restarts Reporting Feed Mirror Tracking Writing.

Record system (bytes log chan : Type) := mkSystem {
  sy_engine : Engine bytes log;
  sy_publisher : EventPublisher bytes log chan;
  sy_projector : DBProjector bytes log;
  sy_store : Store bytes
}.
Arguments mkSystem {bytes log chan} _ _ _ _.
Arguments sy_engine {bytes log chan} _.
Arguments sy_publisher {bytes log chan} _.
Arguments sy_projector {bytes log chan} _.
Arguments sy_store {bytes log chan} _.

Section system.
Context `{!Clock} {bytes log chan conf : Type} `{!Codec bytes, !CodecLaws bytes, !Proto bytes, !ProtoLaws bytes}.
Context `{!EventCodec bytes, !EventCodecLaws bytes, !Twal bytes log, !TwalLaws bytes log, !Server, !ServerLaws}.
Context `{!Amqp bytes chan conf, !AmqpSpec bytes chan conf}.
Abbreviation engine := (Engine bytes log).
Abbreviation store := (Store bytes).
Abbreviation publisher := (EventPublisher bytes log chan).
Abbreviation projector := (DBProjector bytes log).
Abbreviation db := (DB bytes).
Implicit Types (e : engine) (p : publisher) (q : projector) (s : store) (b : bytes) (ps rs : list bytes) (d : db).

(** ** The parts share the log and the database *)

Definition ep_attach (w : log) s p : publisher :=
  mkEventPublisher w s (ep_mq p) (ep_eventQueue p) (ep_cursor p) (ep_eventPublishedSeq p) (ep_metrics p) (ep_ticks p).
Definition dp_attach (w : log) s q : projector :=
  mkDBProjector w s (dp_cursor q) (dp_appliedSeq q) (dp_metrics q) (dp_ticks q).

Lemma ep_attach_self p : ep_attach (ep_output p) (ep_store p) p = p.
Proof. by destruct p. Qed.
Lemma dp_attach_self q : dp_attach (dp_output q) (dp_store q) q = q.
Proof. by destruct q. Qed.

(** The reading of both positions before the output log is trimmed. *)
Definition load_cursors s : store * option (option (Z * Z)) :=
  match LoadMQPublishedCursor s with
  | (s, inr _) => (s, Some None)
  | (s, inl mq) =>
      match LoadDBAppliedCursor s with
      | (s, inr _) => (s, Some None)
      | (s, inl db) => (s, Some (Some (mq, db)))
      end
  end.

(** [cs] tells the stored positions, or nothing. *)
Definition tells (cs : option (option (Z * Z))) d : Prop :=
  forall mq db, cs = Some (Some (mq, db)) -> mq = cursor_at MQ_PUBLISHED_OUTPUT_SEQ d /\ db = cursor_at DB_APPLIED_OUTPUT_SEQ d.

Lemma load_cursors_tell s s' cs : load_cursors s = (s', cs) -> st_db s' = st_db s /\ tells cs (st_db s).
Proof.
  unfold load_cursors. destruct (LoadMQPublishedCursor s) as [s1 [mq|e]] eqn:Hmq.
  2: { unfold LoadMQPublishedCursor, query in Hmq. repeat case_match; simplify_eq/=; intros [= <- <-]; by split. }
  destruct (LoadMQPublishedCursor_ok _ _ _ Hmq) as [Hmq1 Hd1].
  destruct (LoadDBAppliedCursor s1) as [s2 [dbc|e]] eqn:Hdb; intros [= <- <-].
  - destruct (LoadDBAppliedCursor_ok _ _ _ Hdb) as [Hdb1 Hd2]. rewrite Hd1 in *. split; [done|]. intros ? ? [= <- <-]. by split.
  - unfold LoadDBAppliedCursor, query in Hdb. split; [|done]. repeat case_match; by simplify_eq/=.
Qed.

(** Room for one more batch of either consumer. *)
Definition spacious (w : log) : Prop := forall last, LastIndex w = inl last -> last + dbProjectorBatchSize < two64.

(** ** The steps *)

Abbreviation system := (system bytes log chan).

(** What happens beside the loop of the engine: a round of the saver, the drains
    and restarts of the consumers, and what other parts write. *)
Inductive background : system -> system -> Prop :=
  | bg_save e p q s sd s1 r s2 cs e' :
      snapshots e = Some sd ->
      SaveSnapshotAndPrune (sd_state sd) (sd_inputSeq sd) snapshotRetention s = (s1, r) ->
      match r with inl _ => load_cursors s1 | inr _ => (s1, None) end = (s2, cs) ->
      run_step (Saver (answered_floor r) cs) e = Done (Running e') ->
      background (mkSystem e p q s) (mkSystem e' p q s2)
  | bg_publish e p q s p' err :
      ep_drain (ep_attach (output e) s p) = (p', err) ->
      background (mkSystem e p q s) (mkSystem e p' q (ep_store p'))
  | bg_publisher_restart e p q s mq p' :
      extends (ep_mq p) mq -> ep_start (NewEventPublisher (output e) s mq (ep_eventQueue p)) = (p', None) ->
      background (mkSystem e p q s) (mkSystem e p' q (ep_store p'))
  | bg_project e p q s q' err :
      dp_drain (dp_attach (output e) s q) = (q', err) ->
      background (mkSystem e p q s) (mkSystem e p q' (dp_store q'))
  | bg_projector_restart e p q s q' :
      dp_start (NewDBProjector (output e) s) = (q', None) ->
      background (mkSystem e p q s) (mkSystem e p q' (dp_store q'))
  | bg_other e p q s s' :
      foreign (st_db s) (st_db s') -> same_position_and_snapshots (st_db s) (st_db s') ->
      background (mkSystem e p q s) (mkSystem e p q s').

Inductive system_step : system -> list bytes -> system -> Prop :=
  | sys_deliver e p q s b e' :
      room (input e) -> room (output e) -> (fresh b e -> announced b (state (core e)) (st_db s)) ->
      run_step (Deliver b) e = Done (Running e') -> spacious (output e') ->
      system_step (mkSystem e p q s) [b] (mkSystem e' p q s)
  | sys_tick e p q s e' :
      wf_state (state (core e)) -> run_step SnapshotTick e = Done (Running e') ->
      system_step (mkSystem e p q s) [] (mkSystem e' p q s)
  | sys_restart e p q s s1 s2 cs e' :
      rebooted (input e) (output e) s cs e' s1 -> load_cursors s1 = (s2, cs) ->
      system_step (mkSystem e p q s) [] (mkSystem e' p q s2)
  | sys_crash e p q s b e1 s1 s2 cs e' :
      room (input e) -> room (output e) -> announced b (state (core e)) (st_db s) -> crashed b e e1 ->
      rebooted (input e1) (output e1) s cs e' s1 -> load_cursors s1 = (s2, cs) -> spacious (output e') ->
      system_step (mkSystem e p q s) [b] (mkSystem e' p q s2)
  | sys_background y y' : background y y' -> system_step y [] y'.

(** A run, with the payloads delivered. *)
Inductive system_run : system -> list bytes -> system -> Prop :=
  | system_run_nil y : system_run y [] y
  | system_run_cons y1 bs1 y2 bs2 y3 : system_step y1 bs1 y2 -> system_run y2 bs2 y3 -> system_run y1 (bs1 ++ bs2) y3.

(** ** The invariant *)

(** The record that answers a request. *)
Definition answers b (r : bytes) : Prop := exists st st' evs, recorded b st st' evs r.

(** Everything that either consumer has not read is in the log. *)
Definition unread_kept (w : log) rs d : Prop :=
  exists k, retains w k rs /\ Z.of_nat k <= cursor_at MQ_PUBLISHED_OUTPUT_SEQ d /\ Z.of_nat k <= cursor_at DB_APPLIED_OUTPUT_SEQ d.

Record system_ok ps rs (evss : list (list outEvent)) (y : system) : Prop := {
  so_step : in_step (sy_engine y) ps (stored (st_db (sy_store y)));
  so_keyed : keyed (state (core (sy_engine y)));
  so_answers : Forall2 answers ps rs;
  so_log : unread_kept (output (sy_engine y)) rs (st_db (sy_store y));
  so_room : Z.of_nat (length rs) + dbProjectorBatchSize < two64;
  so_applied : 0 <= dp_cursor (sy_projector y) /\ exists st, same_records (state (core (sy_engine y))) st /\
    tracks st evss rs (Z.to_nat (dp_cursor (sy_projector y))) (st_db (sy_store y));
  so_published : Forall written rs /\ cursor_at MQ_PUBLISHED_OUTPUT_SEQ (st_db (sy_store y)) = ep_cursor (sy_publisher y) /\
    published (ep_eventQueue (sy_publisher y)) rs (ep_mq (sy_publisher y)) (ep_cursor (sy_publisher y))
}.

(** ** Trimming keeps what is unread *)

Lemma cleanup_unread cs e rs d :
  unread_kept (output e) rs d -> stable (output e) -> tells cs d ->
  unread_kept (output (fst (cleanupOutputWAL cs e))) rs d.
Proof.
  intros Hu Hst Ht. unfold cleanupOutputWAL. destruct cs as [[[mq dbc]|]|]; [|done..].
  destruct (Ht _ _ eq_refl) as [-> ->]. destruct (Z.eqb _ 0); [done|]. destruct Hu as (k & [Hh Hk] & Hmq & Hdb).
  set (t := Z.min _ _). destruct (truncate_to_trims (output e) t _ _ Hh Hst) as (f' & Hf & Hne & Hnil & Hh').
  destruct (truncate_to (output e) t) as [w err]. cbn [fst output set_output] in *.
  exists (Z.to_nat (f' - 1)). rewrite drop_drop in Hh'. split_and!; [split|lia..].
  - replace (Z.of_nat (Z.to_nat (f' - 1)) + 1) with f' by lia.
    by replace (Z.to_nat (f' - 1)) with (k + Z.to_nat (f' - (Z.of_nat k + 1)))%nat by lia.
  - destruct (decide (drop k rs = [])) as [Hd|Hd].
    + rewrite (Hnil Hd). destruct Hk; lia.
    + specialize (Hne Hd). unfold next_index in Hne. rewrite length_drop in Hne. lia.
Qed.

Lemma unread_beside w rs d d' :
  cursors d' = cursors d -> unread_kept w rs d -> unread_kept w rs d'.
Proof. intros Hc (k & Hr & H2 & H3). exists k. unfold cursor_at in *. by rewrite Hc. Qed.

Lemma tells_same cs d d' : cursors d' = cursors d -> tells cs d -> tells cs d'.
Proof. intros Hc Ht mq dbc Hcs. unfold cursor_at. rewrite Hc. by apply Ht. Qed.

(** ** What other writers do *)

Lemma tracks_foreign st evss rs c d d' :
  Z.of_nat (length rs) < two64 -> foreign d d' -> tracks st evss rs c d -> tracks st evss rs c d'.
Proof. intros Hb Hf Ht. exact (proj2 (kp_foreign _ (tracks_keeps st evss rs Hb) rs c d d' (conj eq_refl Ht) Hf)). Qed.

Lemma room_two64 rs : Z.of_nat (length rs) + dbProjectorBatchSize < two64 -> Z.of_nat (length rs) < two64.
Proof. unfold dbProjectorBatchSize. lia. Qed.

Lemma applied_foreign e evss rs q d d' :
  Z.of_nat (length rs) + dbProjectorBatchSize < two64 -> foreign d d' ->
  (0 <= dp_cursor q /\ exists st, same_records (state (core e)) st /\ tracks st evss rs (Z.to_nat (dp_cursor q)) d) ->
  (0 <= dp_cursor q /\ exists st, same_records (state (core e)) st /\ tracks st evss rs (Z.to_nat (dp_cursor q)) d').
Proof.
  intros Hb Hf (Hc & st & Hs & Ht). split; [done|]. exists st. split; [done|].
  eapply tracks_foreign; [by apply room_two64|done|done].
Qed.

Lemma cursor_same t d d' : cursors d' !! t = cursors d !! t -> cursor_at t d' = cursor_at t d.
Proof. intros Hc. unfold cursor_at. by rewrite Hc. Qed.

(** Only the projector's part of the database may change. *)
Lemma other_ok ps rs evss e p q s s' :
  foreign (st_db s) (st_db s') -> same_position_and_snapshots (st_db s) (st_db s') ->
  system_ok ps rs evss (mkSystem e p q s) -> system_ok ps rs evss (mkSystem e p q s').
Proof.
  intros Hf [Hmq Hsn] [H1' H2' H3' (k & Hr & Hk1 & Hk2) H5' H6' (H7' & H8' & H9')].
  cbn [sy_engine sy_publisher sy_projector sy_store] in *.
  split; cbn [sy_engine sy_publisher sy_projector sy_store]; try done.
  - by rewrite (stored_same _ _ Hsn).
  - exists k. by rewrite (cursor_same _ _ _ Hmq), (cursor_same _ _ _ (fo_cursor _ _ Hf)).
  - by eapply applied_foreign.
  - by rewrite (cursor_same _ _ _ Hmq).
Qed.

(** ** The consumers *)

Lemma publish_step_saved last p p' err :
  no_lost_answer -> 0 <= ep_cursor p < last -> last + eventPublisherBatchSize < two64 ->
  Publisher.saved p = ep_cursor p -> publish_step last p = (p', err) ->
  Publisher.saved p' = ep_cursor p' /\ ep_cursor p <= ep_cursor p' <= last.
Proof.
  intros Hnl Hc Hl Hsv Hst. pose proof (publish_step_advances _ _ _ _ Hc Hl Hst) as [_ Hadv]. revert Hst Hadv.
  unfold publish_step, eventPublisherBatchSize in *. rewrite (add64_exact (ep_cursor p) 100) by lia. set (bend := Z.min _ _).
  assert (Hu : is_u64 bend) by (unfold bend, is_u64; lia).
  destruct (read_batch _ _ _ _) as [batch|er]; [|intros [= <- <-] _; by split; [|lia]].
  unfold ep_now. cbn [ep_mq ep_store]. destruct (PublishBatch _ _) as [mq [er|]]; [intros [= <- <-] _; by split; [|cbn; lia]|].
  cbn [ep_set_mq ep_store]. destruct (SaveMQPublishedCursor bend (ep_store p)) as [s0 [er|]] eqn:Hs.
  - intros [= <- <-] _. split; [|cbn; lia]. rewrite <- Hsv. unfold Publisher.saved. cbn. revert Hs.
    unfold SaveMQPublishedCursor, exec_db, q_SaveMQPublishedCursor.
    destruct (answer_at (st_calls (ep_store p))) eqn:Ha; [done|by intros [= <- _]|by destruct (Hnl _ Ha)].
  - intros [= <- <-] Hadv. specialize (Hadv eq_refl).
    match goal with |- context [ep_recordBatch ?x ?t ?dd ?p0] =>
      destruct (ep_recordBatch_frame x t dd p0) as (_ & F2 & _ & _ & F5) end.
    unfold Publisher.saved. rewrite F2, F5 in *. cbn in *. split; [|lia].
    destruct (save_cursor_cases bend _ _ None Hu Hs) as [Hc2|Hc2]; [|done].
    revert Hs. unfold SaveMQPublishedCursor, exec_db, q_SaveMQPublishedCursor.
    destruct (answer_at _); [|done..]. intros [= <-]. cbn. by apply cursor_at_save.
Qed.

Lemma ep_drain_saved p p' err last :
  no_lost_answer -> LastIndex (ep_output p) = inl last -> 0 <= ep_cursor p <= last -> last + eventPublisherBatchSize < two64 ->
  Publisher.saved p = ep_cursor p -> ep_drain p = (p', err) ->
  Publisher.saved p' = ep_cursor p' /\ ep_cursor p <= ep_cursor p'.
Proof.
  intros Hnl Hla Hc Hl. unfold ep_drain. rewrite Hla. clear Hla.
  generalize (Z.to_nat (last - ep_cursor p)). intros fuel. revert p Hc.
  induction fuel as [|fuel IH]; intros p Hc Hsv; cbn [publish_loop]; (destruct (Z.ltb_spec (ep_cursor p) last); [|by intros [= <- _]]).
  { by intros [= <- _]. }
  destruct (publish_step last p) as [p1 er] eqn:Hs.
  destruct (publish_step_saved last p p1 er Hnl) as [Hsv1 Hc1]; [lia|done..|].
  destruct er; [intros [= <- _]; split; [done|lia]|]. intros Hlp. destruct (IH p1 ltac:(lia) Hsv1 Hlp). split; [done|lia].
Qed.

Lemma dp_drain_advances q q' err last :
  LastIndex (dp_output q) = inl last -> 0 <= dp_cursor q -> last + dbProjectorBatchSize < two64 ->
  dp_drain q = (q', err) -> dp_cursor q <= dp_cursor q'.
Proof.
  intros Hla Hc Hl. unfold dp_drain. rewrite Hla. clear Hla.
  generalize (Z.to_nat (last - dp_cursor q)). intros fuel. revert q Hc.
  induction fuel as [|fuel IH]; intros q Hc; cbn [project_loop]; (destruct (Z.ltb_spec (dp_cursor q) last) as [Hlt|]; [|by intros [= <- _]]).
  { by intros [= <- _]. }
  destruct (project_step last q) as [q1 er] eqn:Hs.
  destruct (project_step_advances _ _ _ _ (conj Hc Hlt) Hl Hs) as [_ Hadv].
  assert (Hc1 : dp_cursor q <= dp_cursor q1).
  { destruct er; [|specialize (Hadv eq_refl); lia]. revert Hs. unfold project_step. destruct (read_envelopes _ _ _); [|by intros [= <- _]].
    unfold dp_now. destruct (applyBatch _ _ _) as [? [?|]]; by intros [= <- _]. }
  destruct er; [intros [= <- _]; lia|]. intros Hlp. specialize (IH q1 ltac:(lia) Hlp). lia.
Qed.

Ltac parts := cbn [sy_engine sy_publisher sy_projector sy_store] in *.

Lemma publish_ok ps rs evss e p q s p' err :
  no_lost_answer -> system_ok ps rs evss (mkSystem e p q s) ->
  ep_drain (ep_attach (output e) s p) = (p', err) -> system_ok ps rs evss (mkSystem e p' q (ep_store p')).
Proof.
  intros Hnl [H1' H2' H3' (k & Hr & Hk1 & Hk2) H5' H6' (Hw & Hsv & Hpub)] Hd. parts.
  destruct (ep_drain_beside _ _ _ Hd) as [Hb Hsn]. cbn [ep_store ep_attach] in Hb, Hsn.
  assert (Hp : pub_ok rs (ep_attach (output e) s p)).
  { split; cbn; [by exists k|done|done|]. unfold Publisher.saved. cbn. by rewrite Hsv. }
  destruct (ep_drain_ok _ _ _ _ Hp Hd) as ([_ _ Hpub' _] & Ho & Hq).
  destruct (ep_drain_saved (ep_attach (output e) s p) p' err (Z.of_nat (length rs)) Hnl) as [Hsv' Hle];
    [exact (retains_last _ _ _ Hr)|exact (proj1 Hpub)|exact H5'|exact Hsv|exact Hd|].
  unfold Publisher.saved in Hsv'. cbn in Hle.
  split; parts; try done.
  - by rewrite (stored_same _ _ Hsn).
  - exists k. rewrite (cursor_same _ _ _ (bs_cursor _ _ Hb)). split_and!; [done|lia|done].
  - eapply applied_foreign; [done|by apply beside_foreign|done].
Qed.

Lemma publisher_restart_ok ps rs evss e p q s mq p' :
  system_ok ps rs evss (mkSystem e p q s) -> extends (ep_mq p) mq ->
  ep_start (NewEventPublisher (output e) s mq (ep_eventQueue p)) = (p', None) ->
  system_ok ps rs evss (mkSystem e p' q (ep_store p')).
Proof.
  intros [H1' H2' H3' H4' H5' H6' (Hw & Hsv & Hpub)] He. parts. unfold ep_start. cbn [ep_store NewEventPublisher].
  destruct (LoadMQPublishedCursor s) as [s1 [c|er]] eqn:Hload; [|done].
  destruct (LoadMQPublishedCursor_ok _ _ _ Hload) as [-> Hdb]. intros [= <-].
  split; parts; cbn [ep_store ep_mq ep_eventQueue ep_cursor ep_set_cursor ep_set_store NewEventPublisher]; rewrite ?Hdb; try done.
  split_and!; [done|done|]. rewrite Hsv. by eapply published_extends.
Qed.

Lemma project_ok ps rs evss e p q s q' err :
  no_lost_answer -> system_ok ps rs evss (mkSystem e p q s) ->
  dp_drain (dp_attach (output e) s q) = (q', err) -> system_ok ps rs evss (mkSystem e p q' (dp_store q')).
Proof.
  intros Hnl [H1' H2' H3' (k & Hr & Hk1 & Hk2) H5' (Hc & st & Hst & Ht) (Hw & Hsv & Hpub)] Hd. parts.
  destruct (dp_drain_positions _ _ _ Hd) as [Hmq Hsn]. cbn [dp_store dp_attach] in Hmq, Hsn.
  assert (Hp : proj_inv (fun rs' c d => rs' = rs /\ tracks st evss rs' c d) rs (dp_attach (output e) s q))
    by (split; cbn; [by exists k|done|done|by split]).
  destruct (dp_drain_ok _ (tracks_keeps st evss rs (room_two64 _ H5')) Hnl _ _ _ _ Hp Hd) as ([_ _ Hc' [_ Ht']] & _).
  pose proof (dp_drain_advances (dp_attach (output e) s q) q' err (Z.of_nat (length rs)) (retains_last _ _ _ Hr) Hc H5' Hd) as Hle. cbn in Hle.
  split; parts; try done.
  - by rewrite (stored_same _ _ Hsn).
  - exists k. rewrite (cursor_same _ _ _ Hmq). split_and!; [done|done|]. destruct Ht' as [-> _]. destruct Ht as [Hc0 _]. lia.
  - split; [done|]. by exists st.
  - by rewrite (cursor_same _ _ _ Hmq).
Qed.

Lemma projector_restart_ok ps rs evss e p q s q' :
  system_ok ps rs evss (mkSystem e p q s) -> dp_start (NewDBProjector (output e) s) = (q', None) ->
  system_ok ps rs evss (mkSystem e p q' (dp_store q')).
Proof.
  intros [H1' H2' H3' H4' H5' (Hc & st & Hst & Ht) H7']. parts. unfold dp_start. cbn [dp_store NewDBProjector].
  destruct (LoadDBAppliedCursor s) as [s1 [c|er]] eqn:Hload; [|done].
  destruct (LoadDBAppliedCursor_ok _ _ _ Hload) as [-> Hdb]. intros [= <-].
  split; parts; cbn [dp_store dp_cursor dp_set_cursor dp_set_store NewDBProjector]; rewrite ?Hdb; try done.
  pose proof Ht as [-> _]. split; [lia|]. exists st. by rewrite Nat2Z.id.
Qed.

(** ** The engine *)

(** Without a new record: the ledger may be a restored one. *)
Lemma engine_ok ps rs evss e p q s e' s' :
  system_ok ps rs evss (mkSystem e p q s) -> beside (st_db s) (st_db s') -> cursors (st_db s') = cursors (st_db s) ->
  in_step e' ps (stored (st_db s')) -> state (core e) ≡ state (core e') \/ state (core e') = state (core e) ->
  unread_kept (output e') rs (st_db s') -> system_ok ps rs evss (mkSystem e' p q s').
Proof.
  intros [H1' H2' H3' H4' H5' H6' H7'] Hb Hcur Hs Hst Hu. parts.
  assert (Hk : keyed (state (core e')) /\ same_records (state (core e)) (state (core e'))).
  { destruct Hst as [Hst|Hst]; [split; [by eapply keyed_equiv|by apply equiv_same_records]|by rewrite Hst]. }
  destruct Hk as [Hk Hsame]. split; parts; try done.
  - destruct (applied_foreign _ _ _ _ _ _ H5' (beside_foreign _ _ Hb) H6') as [Hc Hex]. split; [done|].
    destruct (tracks_from _ (state (core e')) _ _ _ _ Hex Hsame) as (st & Hsm & Ht). by exists st.
  - unfold cursor_at in *. by rewrite Hcur.
Qed.

(** With the record of a request. *)
Lemma record_ok ps rs evss e p q s e' b evs r :
  system_ok ps rs evss (mkSystem e p q s) -> recorded b (state (core e)) (state (core e')) evs r ->
  announced b (state (core e)) (st_db s) -> in_step e' (ps ++ [b]) (stored (st_db s)) ->
  unread_kept (output e') (rs ++ [r]) (st_db s) -> Z.of_nat (length (rs ++ [r])) + dbProjectorBatchSize < two64 ->
  system_ok (ps ++ [b]) (rs ++ [r]) (evss ++ [evs]) (mkSystem e' p q s).
Proof.
  intros [H1' H2' H3' H4' H5' (Hc & st & Hst & Ht) (Hw & Hsv & Hpub)] Hrec Hann Hs Hu Hro. parts.
  assert (Hback : same_records st (state (core e))) by (destruct Hst; by split).
  split; parts; try done.
  - exact (rs_keyed _ _ _ (rc_reports _ _ _ _ _ Hrec)).
  - apply Forall2_app; [done|]. constructor; [|constructor]. by exists (state (core e)), (state (core e')), evs.
  - split; [done|]. exists (state (core e')). split; [done|].
    eapply tracks_more; [by eapply recorded_from|by eapply announced_from|done].
  - split_and!; [|done|by apply published_more].
    apply Forall_app. split; [done|]. apply Forall_singleton. destruct (rc_events _ _ _ _ _ Hrec) as (env & _ & Hm). by exists env.
Qed.

Lemma unread_more w w' rs r d :
  unread_kept w rs d -> (forall k, retains w k rs -> retains w' k (rs ++ [r])) -> unread_kept w' (rs ++ [r]) d.
Proof. intros (k & Hr & H2' & H3') Hm. exists k. auto. Qed.

Lemma spacious_room w k rs : retains w k rs -> spacious w -> Z.of_nat (length rs) + dbProjectorBatchSize < two64.
Proof. intros Hr Hs. apply Hs. by eapply retains_last. Qed.

Section engine_steps.
Hypothesis (Hsta : forall w : log, stable w).

Lemma deliver_ok ps rs evss e p q s b e' :
  system_ok ps rs evss (mkSystem e p q s) -> room (input e) -> room (output e) ->
  (fresh b e -> announced b (state (core e)) (st_db s)) -> run_step (Deliver b) e = Done (Running e') -> spacious (output e') ->
  e' = e \/ exists r evs, system_ok (ps ++ [b]) (rs ++ [r]) (evss ++ [evs]) (mkSystem e' p q s).
Proof.
  intros Hok Hri Hro Hann Hrun Hsp. destruct (run_Deliver _ _ _ Hrun) as (res & Hh & Hnf).
  pose proof Hok as [H1' H2' _ (k & Hr & Hk) _ _ _]. parts.
  destruct (deliver_writes _ _ _ _ _ _ _ _ H1' Hr H2' Hri Hro Hh Hnf) as [->|(Hf & Hs & evs & r & Hrec & Hr')]; [by left|right].
  exists r, evs. eapply record_ok; [exact Hok|exact Hrec|by apply Hann|done|by exists k|by eapply spacious_room].
Qed.

Lemma tick_ok ps rs evss e p q s e' :
  system_ok ps rs evss (mkSystem e p q s) -> wf_state (state (core e)) -> run_step SnapshotTick e = Done (Running e') ->
  system_ok ps rs evss (mkSystem e' p q s).
Proof.
  intros Hok Hwf Hrun. destruct (run_SnapshotTick _ _ Hrun) as (err & Hsn).
  pose proof (tick_in_step _ _ _ _ _ (so_step _ _ _ _ Hok) Hwf Hsn) as Hs.
  assert (Hsame : core e' = core e /\ output e' = output e).
  { unfold snapshot in Hsn. destruct (Serialize _) as [[dat|er]|]; [| |done]; cbn [obind] in Hsn; injection Hsn as <- _; done. }
  destruct Hsame as [Hc Ho]. eapply engine_ok; [exact Hok|done|done|exact Hs|right; by rewrite Hc|].
  rewrite Ho. apply Hok.
Qed.

Lemma save_ok ps rs evss e p q s sd s1 r s2 cs e' :
  system_ok ps rs evss (mkSystem e p q s) -> snapshots e = Some sd ->
  SaveSnapshotAndPrune (sd_state sd) (sd_inputSeq sd) snapshotRetention s = (s1, r) ->
  match r with inl _ => load_cursors s1 | inr _ => (s1, None) end = (s2, cs) ->
  run_step (Saver (answered_floor r) cs) e = Done (Running e') -> system_ok ps rs evss (mkSystem e' p q s2).
Proof.
  intros Hok Hsn Hsave Hload Hrun. cbn [run_step] in Hrun. injection Hrun as <-.
  destruct (SaveSnapshotAndPrune_beside _ _ _ _ _ _ Hsave) as [Hb Hcur].
  assert (Hcs : st_db s2 = st_db s1 /\ tells cs (st_db s1)).
  { destruct r; [by apply load_cursors_tell in Hload|]. injection Hload as <- <-. by split. }
  destruct Hcs as [Hd2 Ht]. pose proof (save_in_step _ _ _ _ _ _ cs (so_step _ _ _ _ Hok) (Hsta _) (Hsta _) Hsn Hsave) as Hs.
  eapply engine_ok; [exact Hok|by rewrite Hd2|by rewrite Hd2|by rewrite Hd2| |].
  - right. unfold saver_step. rewrite Hsn. destruct r; [|done]. cbn [answered_floor]. unfold cleanupWAL, cleanupOutputWAL, cleanupInputWAL.
    destruct (truncate_to _ _). cbn [fst]. by repeat case_match.
  - rewrite Hd2. apply (unread_beside _ _ (st_db s)); [done|]. pose proof (so_log _ _ _ _ Hok) as Hu. parts.
    unfold saver_step. rewrite Hsn. destruct r as [floor|er]; [|exact Hu]. cbn [answered_floor]. unfold cleanupWAL.
    apply cleanup_unread; [|apply Hsta|by eapply tells_same].
    unfold cleanupInputWAL. destruct (truncate_to _ _). exact Hu.
Qed.

(** The trimming at the end of a start-up. *)
Lemma trimmed_ok ps rs evss e p q s s1 s2 s3 pr cs :
  system_ok ps rs evss (mkSystem e p q s) ->
  st_db s1 = st_db s -> PruneSnapshots snapshotRetention s1 = (s2, pr) -> load_cursors s2 = (s3, cs) ->
  system_ok ps rs evss (mkSystem (fst (cleanupOutputWAL cs
    (match pr with inl (Some floor) => fst (cleanupInputWAL floor e) | _ => e end))) p q s3).
Proof.
  intros Hok Hdb Hprune Hload. destruct (PruneSnapshots_beside _ _ _ _ Hprune) as [Hb Hcur]. rewrite Hdb in *.
  apply load_cursors_tell in Hload as [Hd3 Ht].
  destruct (trimmed_in_step _ _ _ _ _ _ cs (so_step _ _ _ _ Hok) (Hsta _) (Hsta _) Hdb Hprune) as (Hs & Hc & Ho).
  pose proof (so_log _ _ _ _ Hok) as Hu. parts.
  eapply engine_ok; [exact Hok|by rewrite Hd3|by rewrite Hd3|by rewrite Hd3|right; by rewrite Hc|].
  rewrite Hd3. apply (unread_beside _ _ (st_db s)); [done|].
  apply cleanup_unread; [by rewrite Ho|apply Hsta|by eapply tells_same].
Qed.

Lemma reboot_ok ps rs evss e p q s cs e' s1 s2 :
  system_ok ps rs evss (mkSystem e p q s) -> rebooted (input e) (output e) s cs e' s1 -> load_cursors s1 = (s2, cs) ->
  system_ok ps rs evss (mkSystem e' p q s2).
Proof.
  intros Hok Hb Hload. destruct (restart_in_step _ _ _ (so_step _ _ _ _ Hok)) as (e0 & Hne & _ & I0 & O0 & Hrep). parts.
  destruct (rebooted_inv _ _ _ _ _ _ Hb) as (e0' & t & e2 & pr & Hne' & Hr2 & (s0 & Hdb & Hprune) & ->).
  rewrite Hne in Hne'. injection Hne' as <-. destruct (Hrep t) as (e2' & Hr2' & Hst2 & Hq2 & Hs2).
  rewrite Hr2 in Hr2'. injection Hr2' as <-.
  assert (Hok2 : system_ok ps rs evss (mkSystem e2 p q s)).
  { eapply engine_ok; [exact Hok|done|done|exact Hs2|by left|]. rewrite (q_output _ _ Hq2). cbn. rewrite O0. apply Hok. }
  by eapply trimmed_ok.
Qed.

Lemma sys_crash_ok ps rs evss e p q s b e1 cs e' s1 s2 :
  system_ok ps rs evss (mkSystem e p q s) -> room (input e) -> room (output e) -> announced b (state (core e)) (st_db s) ->
  crashed b e e1 -> rebooted (input e1) (output e1) s cs e' s1 -> load_cursors s1 = (s2, cs) -> spacious (output e') ->
  exists r evs, system_ok (ps ++ [b]) (rs ++ [r]) (evss ++ [evs]) (mkSystem e' p q s2).
Proof.
  intros Hok Hri Hro Hann [(pat & dat & id & Henv & Hk & Hid & _ & Hlog) _] Hb Hload Hsp.
  pose proof Hok as [H1' H2' _ (k & Hr & Hkc) _ _ _]. parts.
  destruct (logInput_logged _ _ _ _ _ _ _ _ H1' Hri Henv Hk Hid Hlog) as (Hl & _ & Hst1 & Ho1 & _).
  destruct (restart_logged _ _ _ _ Hl) as (e0 & Hne & _ & _ & Hrep).
  destruct (rebooted_inv _ _ _ _ _ _ Hb) as (e0' & t & e3 & pr & Hne' & Hr3 & (s0 & Hdb & Hprune) & ->).
  rewrite Hne in Hne'. injection Hne' as <-. destruct (Hrep t) as (e2 & pat' & dat' & Henv' & Hr2 & Hst2 & Ho2 & _ & Hl2).
  rewrite Hr2 in Hr3. rewrite Hst1 in Hst2. rewrite Ho1 in Ho2. rewrite <- Ho2 in Hr, Hro.
  destruct (logged_writes _ _ _ _ _ _ _ _ _ Hl2 Hr (keyed_equiv _ _ Hst2 H2') Hro Henv' Hr3) as (evs & r & Hrec & Hr').
  exists r, evs.
  assert (Hu : unread_kept (output e3) (rs ++ [r]) (st_db s)) by (by exists k).
  destruct (PruneSnapshots_beside _ _ _ _ Hprune) as [_ Hcur]. rewrite Hdb in Hcur.
  pose proof (load_cursors_tell _ _ _ Hload) as [_ Ht].
  assert (Hroom : Z.of_nat (length (rs ++ [r])) + dbProjectorBatchSize < two64).
  { assert (Hu3 : unread_kept (output (match pr with inl (Some floor) => fst (cleanupInputWAL floor e3) | _ => e3 end)) (rs ++ [r]) (st_db s)).
    { destruct pr as [[floor|]|]; [|exact Hu..]. unfold cleanupInputWAL. destruct (truncate_to _ _). exact Hu. }
    destruct (cleanup_unread cs _ _ _ Hu3 (Hsta _) (tells_same _ _ _ (eq_sym Hcur) Ht)) as (k' & Hr'' & _).
    by eapply spacious_room. }
  eapply trimmed_ok; [|exact Hdb|exact Hprune|exact Hload].
  eapply record_ok; [exact Hok| |done|by eapply logged_done|exact Hu|exact Hroom].
  eapply recorded_from; [by apply equiv_same_records|exact Hrec].
Qed.

Lemma background_ok ps rs evss y y' :
  no_lost_answer -> background y y' -> system_ok ps rs evss y -> system_ok ps rs evss y'.
Proof.
  intros Hnl [] Hok; [by eapply save_ok|by eapply publish_ok|by eapply publisher_restart_ok|by eapply project_ok
    |by eapply projector_restart_ok|by eapply other_ok].
Qed.

Lemma system_step_ok ps rs evss y bs y' :
  no_lost_answer -> system_step y bs y' -> system_ok ps rs evss y ->
  exists qs rs' evss', sublist qs bs /\ system_ok (ps ++ qs) (rs ++ rs') (evss ++ evss') y'.
Proof.
  intros Hnl Hst Hok.
  assert (Hquiet : forall y', system_ok ps rs evss y' ->
    exists qs rs' evss', sublist qs [] /\ system_ok (ps ++ qs) (rs ++ rs') (evss ++ evss') y').
  { intros y1 Hy1. exists [], [], []. by rewrite !app_nil_r. }
  destruct Hst.
  - destruct (deliver_ok ps rs evss e p q s b e' Hok) as [->|(r & evs & Hy)]; [done..| |].
    + exists [], [], []. rewrite !app_nil_r. split; [apply sublist_nil_l|done].
    + exists [b], [r], [evs]. by split.
  - apply Hquiet. by eapply tick_ok.
  - apply Hquiet. by eapply reboot_ok.
  - destruct (sys_crash_ok ps rs evss e p q s b e1 cs e' s1 s2 Hok) as (r & evs & Hy); [done..|].
    exists [b], [r], [evs]. by split.
  - apply Hquiet. by eapply background_ok.
Qed.

Lemma system_run_ok y bs y' ps rs evss :
  no_lost_answer -> system_run y bs y' -> system_ok ps rs evss y ->
  exists qs rs' evss', sublist qs bs /\ system_ok (ps ++ qs) (rs ++ rs') (evss ++ evss') y'.
Proof.
  intros Hnl Hr. revert ps rs evss. induction Hr as [y|y1 bs1 y2 bs2 y3 Hst Hr IH]; intros ps rs evss Hok.
  - exists [], [], []. by rewrite !app_nil_r.
  - destruct (system_step_ok _ _ _ _ _ _ Hnl Hst Hok) as (q1 & r1 & v1 & Hs1 & Hok1).
    destruct (IH _ _ _ Hok1) as (q2 & r2 & v2 & Hs2 & Hok2). exists (q1 ++ q2), (r1 ++ r2), (v1 ++ v2).
    rewrite !app_assoc. split; [by apply sublist_app|done].
Qed.
End engine_steps.

(** What happens beside the loop leaves the windows alone. *)
Lemma background_dups y y' : background y y' -> dups (sy_engine y') = dups (sy_engine y).
Proof.
  intros [e p q s sd s1 r s2 cs e' _ _ _ Hrun| | | | |]; [|done..]. parts. cbn [run_step] in Hrun. injection Hrun as <-.
  unfold saver_step, cleanupWAL, cleanupOutputWAL, cleanupInputWAL. by repeat case_match; simplify_eq/=.
Qed.

(** ** What the invariant says *)

Lemma mirrors_same st st' d : same_records st st' -> mirrors st d -> mirrors st' d.
Proof. intros [Ha Hh Hs] [Ma Mh Ms]. split; [by rewrite Ha|by rewrite Hh|by rewrite Hs]. Qed.

(** Records and their events. *)
Definition tells_of (evs : list outEvent) (r : bytes) : Prop :=
  exists env, marshal_events evs = Some (env_Events env) /\ Marshal_OutputEnvelope env = Some r.

Lemma trail_tells st evss rs st' : trail st evss rs st' -> Forall2 tells_of evss rs.
Proof. induction 1 as [st|st st1 st2 env evs evss r rs Hm Hr _ _ IH]; constructor; [by exists env|done]. Qed.

(** At its position the database mirrors the ledger that the records before it tell. *)
Lemma system_mirrors ps rs evss y :
  system_ok ps rs evss y ->
  exists at_c, feed (take (Z.to_nat (dp_cursor (sy_projector y))) rs) at_c /\ mirrors at_c (st_db (sy_store y)) /\
    cursor_at DB_APPLIED_OUTPUT_SEQ (st_db (sy_store y)) = dp_cursor (sy_projector y) /\
    dp_cursor (sy_projector y) <= Z.of_nat (length rs).
Proof.
  intros [_ _ _ _ _ (Hc & st & Hst & (Hcur & Hle & at_c & Ht1 & _ & [Hm _ _])) _].
  exists at_c. split_and!; [by eexists|done|lia|lia].
Qed.

(** When nothing is pending it mirrors the ledger of the engine. *)
Lemma system_mirrors_ledger ps rs evss y :
  system_ok ps rs evss y -> dp_cursor (sy_projector y) = Z.of_nat (length rs) ->
  mirrors (state (core (sy_engine y))) (st_db (sy_store y)).
Proof.
  intros [_ _ _ _ _ (Hc & st & Hst & (Hcur & Hle & at_c & Ht1 & Ht2 & [Hm _ _])) _] Heq.
  rewrite Heq, Nat2Z.id in Ht2. rewrite (drop_ge rs) in Ht2 by done. inversion Ht2; subst.
  eapply mirrors_same; [|exact Hm]. destruct Hst. by split.
Qed.

Lemma publisher_ok ps rs evss y :
  system_ok ps rs evss y -> pub_ok rs (ep_attach (output (sy_engine y)) (sy_store y) (sy_publisher y)).
Proof.
  intros [_ _ _ (k & Hr & _) _ _ (Hw & Hsv & Hpub)]. split; cbn; [by exists k|done|done|].
  unfold Publisher.saved. cbn. by rewrite Hsv.
Qed.

(** ** A new installation *)

Record new_system (y : system) : Prop := {
  ny_engine : consistent (sy_engine y) [];
  ny_waiting : snapshots (sy_engine y) = None;
  ny_log : retains (output (sy_engine y)) 0 [];
  ny_positions : cursor_at MQ_PUBLISHED_OUTPUT_SEQ (st_db (sy_store y)) = 0 /\
    cursor_at DB_APPLIED_OUTPUT_SEQ (st_db (sy_store y)) = 0;
  ny_tables : user_stocks (st_db (sy_store y)) = ∅ /\ stored (st_db (sy_store y)) = [];
  ny_trades : trades (st_db (sy_store y)) = ∅ /\ lastTradeID (core (sy_engine y)) = 0;
  ny_consumers : ep_cursor (sy_publisher y) = 0 /\ dp_cursor (sy_projector y) = 0
}.

Lemma new_system_ok y : new_system y -> system_ok [] [] [] y.
Proof.
  intros [Hc Hw Hl [Hm Hd] [Hh Hs] _ [Hp Hq]].
  assert (Hst : state (core (sy_engine y)) = NewState).
  { destruct Hc as [_ Hhist _ _ _]. inversion Hhist as [|ps p]; [done|]. by destruct ps. }
  split.
  - rewrite Hs. by apply consistent_in_step.
  - rewrite Hst. apply keyed_new.
  - constructor.
  - exists 0%nat. rewrite Hm, Hd. done.
  - done.
  - rewrite Hq. split; [done|]. exists NewState. rewrite Hst. split; [done|]. split; [done|]. split; [done|].
    exists NewState. split_and!; [constructor..|]. split; [|by apply once_new; constructor|constructor].
    split; [done| |done]. intros k. by rewrite Hh, lookup_empty.
  - rewrite Hm, Hp. split_and!; [done|done|]. split; [done|apply sublist_nil_l].
Qed.
End system.
