(* ===== verification/Acceptance.v ===== *)
(** * When the database accepts the engine's events, and the projector catches up

    The statuses and reasons that the engine writes are values of the columns'
    enumerations, so the database refuses an event only when the rows it refers
    to are not there, or when a trade is there already. When the database answers
    and the rows that the pending events refer to are there, a drain applies every
    pending record: the events are accepted one after the other, because an event
    removes no row that a later one needs. A commit whose answer is lost leads to a
    trade that is there already. *)

From S2P Require Import Prelude Domain Slices OrderBook Ledger Events Matching Validation Orders Transfer Admin.
From S2P Require Import Footprint Wal Metrics Engine Columns Database Storage Messaging Publisher Projector Reporting Feed Mirror Tracking.

Section acceptance.
Context {bytes : Type} `{!Clock, !Codec bytes, !CodecLaws bytes, !EventCodec bytes, !EventCodecLaws bytes, !Server}.
Abbreviation db := (DB bytes).
Implicit Types (d : db) (ev : outEvent) (st : State) (s : Store bytes).

(** The rows that the statement of an event refers to. *)
Definition rows_for ev d : Prop :=
  match data ev with
  | EvTrade t =>
      trades d !! (if Z.eqb (tr_Id t) 0 then auto_id (map_to_list (trades d)).*1 else tr_Id t) = None /\
      is_Some (stocks d !! tr_StockId t) /\ is_Some (orders_tbl d !! tr_MakerOrderId t) /\
      is_Some (orders_tbl d !! tr_TakerOrderId t)
  | EvHolding h =>
      is_empty_holding h = true \/ is_Some (user_stocks d !! (sb_AccountId h, sb_StockId h)) \/
      (is_Some (accounts d !! sb_AccountId h) /\ is_Some (stocks d !! sb_StockId h))
  | _ => True
  end.

(** *** Enumerations *)

Lemma orderStatus_in_enum p : in_enum OrdersStatus_values (orderStatus p) = true.
Proof. unfold orderStatus. by repeat case_match. Qed.

Lemma order_reason_in_enum r : in_null_enum OrdersRejectReason_values (Some (RejectReason_string r)) = true.
Proof. by destruct r. Qed.

Lemma transfer_reason_in_enum r : in_null_enum TransfersRejectReason_values (Some (TransferRejectReason_string r)) = true.
Proof. by destruct r. Qed.

Lemma admin_reason_in_enum r : in_null_enum AdminRequestsRejectReason_values (Some (AdminRejectReason_string r)) = true.
Proof. by destruct r. Qed.

(** The database refuses a statement only for want of rows. *)
Lemma stmt_accepted st ev now d : faithful st ev -> is_Some (stmt_of ev now d) <-> rows_for ev d.
Proof.
  intros [ev' [t|p o Hp|o r|u|t|t r tm|r|i r tm]|a _|a _|h _|x _|x _]; unfold stmt_of, rows_for; cbn [data pattern reject_event transfer_reject_event].
  - unfold q_SaveTrade. cbv zeta. generalize (if Z.eqb (tr_Id t) 0 then auto_id (map_to_list (trades d)).*1 else tr_Id t) as id.
    intros id. split.
    + intros [d' Hd]. repeat case_match; try done; split_and!; eauto.
    + intros (-> & [? ->] & [? ->] & [? ->]). eauto.
  - split; [done|]. intros _. unfold q_UpdateOrderState. rewrite orderStatus_in_enum, update_row_total. cbn. eauto.
  - split; [done|]. intros _. unfold q_RejectOrder. cbn [NullOrdersRejectReason_Value null_Value ne_Valid ne_value orj_Reason].
    rewrite order_reason_in_enum, update_row_total. cbn. eauto.
  - split; eauto.
  - split; [done|]. intros _. unfold q_CompleteTransfer. rewrite update_row_total. cbn. eauto.
  - split; [done|]. intros _. unfold q_RejectTransfer. cbn [NullTransfersRejectReason_Value null_Value ne_Valid ne_value trj_Reason].
    rewrite transfer_reason_in_enum, update_row_total. cbn. eauto.
  - split; [done|]. intros _. unfold q_CompleteAdminRequest. rewrite update_row_total. cbn. eauto.
  - split; [done|]. intros _. unfold q_RejectAdminRequest. cbn [NullAdminRequestsRejectReason_Value null_Value ne_Valid ne_value arr_Reason].
    rewrite admin_reason_in_enum, update_row_total. cbn. eauto.
  - split; [done|]. intros _. cbn. unfold q_UpdateAccountBalance. rewrite update_row_total. cbn. eauto.
  - split; [done|]. intros _. cbn. unfold q_ActivateAccount. rewrite update_row_total. cbn. eauto.
  - unfold q_DeleteHolding, q_UpsertHolding. cbv zeta. destruct (is_empty_holding h); [split; eauto|]. split.
    + intros [d' Hd]. repeat case_match; try done; eauto 6.
    + intros [?|[[? ->]|[[? ->] [? ->]]]]; [done|eauto|]. case_match; eauto.
  - split; [done|]. intros _. cbn. unfold q_UpdateStockPrice. rewrite update_row_total. cbn. eauto.
  - split; [done|]. intros _. cbn. unfold q_UpdateStockStatus. rewrite status_in_enum, update_row_total. cbn. eauto.
Qed.

(** An event is applied exactly when its rows are there. *)
Lemma event_accepted st ev raw s d :
  faithful st ev -> Marshal_data (data ev) = Some raw -> st_tx s = Some d -> answer_at (st_calls s) = Answered ->
  snd (applyEvent (mkOutputEvent (pattern ev) raw) s) = None <-> rows_for ev d.
Proof.
  intros Hf Hm Hd Ha. rewrite (applyEvent_stmt st ev raw s Hf Hm), <- (stmt_accepted st ev (server_now (st_calls s)) d Hf).
  destruct (data ev) eqn:Hdat; try (unfold tx_call, exec_tx; rewrite Hd, Ha; destruct (stmt_of ev _ d) as [d'|] eqn:Hs; cbn;
    split; [eauto|done|done|intros []; done]).
  split; [|done]. intros _. unfold stmt_of. rewrite Hdat. eauto.
Qed.

(** ** A trade that is there already *)

(** A call decoded from an event, as its statement. *)
Lemma decoded_stmt {A} (x : option A) (f : A -> Store bytes -> Store bytes * option store_error) s s' d d' (P : Prop) :
  decoded x f s = (s', None) -> st_tx s = Some d -> st_tx s' = Some d' ->
  (forall y, x = Some y -> exists stmt, f y = exec_tx stmt /\ forall now, stmt now d = Some d' -> P) -> P.
Proof.
  intros Hx Hd Hd' Hf. unfold decoded, tx_call in Hx. destruct x as [y|]; [|done]. destruct (Hf y eq_refl) as (stmt & He & HP). rewrite He in Hx.
  destruct (exec_tx stmt s) as [s1 [e|]] eqn:Hs; simplify_eq/=.
  destruct (exec_tx_cases _ _ _ _ Hs) as [_ Hok]. destruct (Hok eq_refl) as (v & now & d1 & ? & ? & ?). apply (HP now). congruence.
Qed.

(** Only a trade changes the table of trades, by a row that was not there. *)
Lemma applied1_trades (ev : OutputEvent bytes) d d' :
  applied1 ev d d' ->
  if String.eqb (oev_Pattern ev) PatternTradeExecuted
  then forall t, Unmarshal_Trade (oev_Data ev) = Some t -> tr_Id t <> 0 ->
         trades d !! tr_Id t = None /\ exists row, trades d' = <[tr_Id t := row]> (trades d)
  else trades d' = trades d.
Proof.
  intros (s & s' & Hd & Ha & Hd'). unfold applyEvent in Ha. destruct (String.eqb (oev_Pattern ev) PatternTradeExecuted).
  { intros t Ht Hid. apply (decoded_stmt _ _ _ _ _ _ _ Ha Hd Hd'). intros y Hy. assert (y = t) as -> by congruence. eexists. split; [done|].
    intros now Hq. cbv beta in Hq. unfold q_SaveTrade in Hq. rewrite (proj2 (Z.eqb_neq _ _) Hid) in Hq. cbv zeta in Hq.
    destruct (trades d !! tr_Id t); [done|]. repeat case_match; try done. injection Hq as <-. cbn. eauto. }
  repeat match type of Ha with (if ?b then _ else _) = _ => destruct b end;
    try (injection Ha as <-; congruence);
    apply (decoded_stmt _ _ _ _ _ _ _ Ha Hd Hd'); intros y _;
    try (eexists; split; [reflexivity|intros now Hq; by query_cases Hq]).
  exists (if Z.eqb (sb_Quantity y) 0 && Z.eqb (sb_AvailableQuantity y) 0
    then fun _ => q_DeleteHolding (sb_AccountId y) (sb_StockId y)
    else fun _ => q_UpsertHolding (sb_AccountId y) (sb_StockId y) (sb_Quantity y) (sb_AvailableQuantity y) (sb_Average y) (sb_TotalBuyAmount y)).
  unfold project_holding. destruct (_ && _); (split; [reflexivity|intros now Hq; by query_cases Hq]).
Qed.

(** The events of a batch carry the trade [t]. *)
Definition carries (t : Trade) (outs : list (OutputEvent bytes)) : Prop :=
  exists out, out ∈ outs /\ oev_Pattern out = PatternTradeExecuted /\ Unmarshal_Trade (oev_Data out) = Some t.

Lemma applied_trade_once t outs d d' :
  tr_Id t <> 0 -> applied outs d d' ->
  (is_Some (trades d !! tr_Id t) -> is_Some (trades d' !! tr_Id t) /\ ~ carries t outs) /\
  (carries t outs -> is_Some (trades d' !! tr_Id t)).
Proof.
  intros Hid. induction 1 as [d|ev outs d d1 d2 H1 _ [IH1 IH2]].
  { split; [|intros (? & ?%elem_of_nil & _); done]. intros ?. split; [done|]. intros (? & ?%elem_of_nil & _). done. }
  pose proof (applied1_trades _ _ _ H1) as Hev.
  assert (Hgrow : is_Some (trades d !! tr_Id t) -> is_Some (trades d1 !! tr_Id t)).
  { destruct (String.eqb _ _) eqn:Hp; [|by rewrite Hev]. intros Hd. destruct H1 as (s & s' & Hs & Ha & Hs').
    unfold applyEvent in Ha. rewrite Hp in Ha. unfold decoded in Ha. destruct (Unmarshal_Trade (oev_Data ev)) as [t0|] eqn:Ht; [|done].
    unfold tx_call in Ha. destruct (SaveTrade t0 s) as [s1 [e|]] eqn:Hst; simplify_eq/=.
    destruct (exec_tx_cases _ _ _ _ Hst) as [_ Hok]. destruct (Hok eq_refl) as (v & now & dd & Hv & Hq & Hdd).
    unfold q_SaveTrade in Hq. cbv zeta in Hq. assert (v = d) as -> by congruence. rewrite Hs' in Hdd. injection Hdd as ->.
    repeat case_match; try done; injection Hq as <-; cbn; by apply lookup_insert_is_Some'; right. }
  assert (Hhere : oev_Pattern ev = PatternTradeExecuted -> Unmarshal_Trade (oev_Data ev) = Some t ->
    trades d !! tr_Id t = None /\ is_Some (trades d1 !! tr_Id t)).
  { intros Hp Ht. rewrite (proj2 (String.eqb_eq _ _) Hp) in Hev. destruct (Hev t Ht Hid) as [? [row ->]].
    rewrite lookup_insert_eq. eauto. }
  split.
  - intros Hd. destruct (IH1 (Hgrow Hd)) as [H2 H3]. split; [done|].
    intros (e & [->|Hin]%elem_of_cons & Hp & Ht); [|apply H3; by exists e].
    destruct (Hhere Hp Ht) as [Hn _]. rewrite Hn in Hd. by destruct Hd.
  - intros (e & [->|Hin]%elem_of_cons & Hp & Ht); [|apply IH2; by exists e].
    apply IH1. by apply Hhere.
Qed.

(** A batch with a trade that the database has is refused as a whole. *)
Lemma applyBatch_duplicate t index envs s :
  tr_Id t <> 0 -> carries t (concat (env_Events <$> envs)) -> is_Some (trades (st_db s) !! tr_Id t) ->
  snd (applyBatch index envs s) <> None /\ st_db (fst (applyBatch index envs s)) = st_db s.
Proof.
  intros Hid Hc Ht. destruct (applyBatch index envs s) as [s' err] eqn:Ha. cbn.
  destruct (applyBatch_ok _ _ _ _ _ Ha) as [_ [[? ?]|[_ (d & Happ & _)]]]; [done|].
  destruct (applied_trade_once t _ _ _ Hid Happ) as [Hno _]. by destruct (Hno Ht).
Qed.

(** ** A commit whose answer is lost *)

Section lost_commit.
Context {log : Type} `{!Twal bytes log}.
Implicit Types (p : DBProjector bytes log).

Lemma read_envelopes_prefix n m c (w w' : log) envs envs' :
  (n <= m)%nat -> 0 <= c -> c + Z.of_nat n < two64 -> (forall i, c <= i < c + Z.of_nat n -> Read w' i = Read w i) ->
  read_envelopes n c w = inl envs -> read_envelopes m c w' = inl envs' -> envs `prefix_of` envs'.
Proof.
  intros Hnm. revert m Hnm c envs envs'. induction n as [|n IH]; intros m Hnm c envs envs' Hc Hb Hw.
  { intros [= <-] _. apply prefix_nil. }
  destruct m as [|m]; [lia|]. cbn [read_envelopes]. rewrite (Hw c) by lia.
  destruct (Read w c) as [raw|]; [|done]. destruct (Unmarshal_OutputEnvelope raw) as [env|]; [|done].
  rewrite add64_exact by lia.
  destruct (read_envelopes n (c + 1) w) as [rest|] eqn:H1; [|done]. destruct (read_envelopes m (c + 1) w') as [rest'|] eqn:H2; [|done].
  intros [= <-] [= <-]. apply prefix_cons. eapply (IH m ltac:(lia) (c + 1)); [lia..| |done|done]. intros i Hi. apply Hw. lia.
Qed.

Lemma carries_prefix t (envs envs' : list (OutputEnvelope bytes)) :
  envs `prefix_of` envs' -> carries t (concat (env_Events <$> envs)) -> carries t (concat (env_Events <$> envs')).
Proof.
  intros [more ->] (out & Hin & Ht). exists out. split; [|done]. rewrite fmap_app, concat_app. apply elem_of_app. by left.
Qed.

(** The end of the batch that starts at the cursor. *)
Definition batch_end (last : Z) p : Z := Z.min (dp_cursor p + dbProjectorBatchSize) last.

(** A step that changed the database although it reports an error has stored the
    end of its batch and kept its cursor. *)
Lemma project_step_lost last p p1 err envs :
  0 <= dp_cursor p < last -> last + dbProjectorBatchSize < two64 ->
  read_envelopes (Z.to_nat (batch_end last p - dp_cursor p)) (dp_cursor p + 1) (dp_output p) = inl envs ->
  project_step last p = (p1, Some err) -> st_db (dp_store p1) <> st_db (dp_store p) ->
  dp_cursor p1 = dp_cursor p /\ cursor_at DB_APPLIED_OUTPUT_SEQ (st_db (dp_store p1)) = batch_end last p /\
  forall t, tr_Id t <> 0 -> carries t (concat (env_Events <$> envs)) -> is_Some (trades (st_db (dp_store p1)) !! tr_Id t).
Proof.
  intros Hc Hl Hrd. unfold project_step, batch_end, dbProjectorBatchSize in *. rewrite !(add64_exact (dp_cursor p)) by lia.
  rewrite Hrd. unfold dp_now. cbn [dp_store dp_output dp_cursor].
  destruct (applyBatch _ envs (dp_store p)) as [s [e|]] eqn:Ha; [|done]. intros [= <- <-] Hdb. cbn in *. split; [done|].
  destruct (applyBatch_ok _ _ _ _ _ Ha) as [_ [[? _]|[_ (d & Happ & Hd)]]]; [done|]. rewrite Hd. split.
  - apply cursor_at_save. unfold is_u64. lia.
  - intros t Hid Hcar. by apply (applied_trade_once t _ _ _ Hid Happ).
Qed.

(** As long as the projector is not restarted, every later step then fails. *)
Lemma project_step_blocked t last p p2 envs :
  0 <= dp_cursor p < last -> last + dbProjectorBatchSize < two64 ->
  read_envelopes (Z.to_nat (batch_end last p - dp_cursor p)) (dp_cursor p + 1) (dp_output p) = inl envs ->
  tr_Id t <> 0 -> carries t (concat (env_Events <$> envs)) ->
  forall last', last <= last' -> last' + dbProjectorBatchSize < two64 ->
  dp_cursor p2 = dp_cursor p -> (forall i, i <= last -> Read (dp_output p2) i = Read (dp_output p) i) ->
  is_Some (trades (st_db (dp_store p2)) !! tr_Id t) ->
  exists p3 err, project_step last' p2 = (p3, Some err) /\ dp_cursor p3 = dp_cursor p /\ st_db (dp_store p3) = st_db (dp_store p2).
Proof.
  intros Hc Hl Hrd Hid Hcar last' Hle Hl' Hcur Hread Ht. unfold project_step, batch_end, dbProjectorBatchSize in *.
  rewrite Hcur, !(add64_exact (dp_cursor p)) by lia.
  destruct (read_envelopes (Z.to_nat (Z.min (dp_cursor p + 100) last' - dp_cursor p)) _ _) as [envs'|e] eqn:Hrd'; [|eauto 6].
  assert (Hpre : envs `prefix_of` envs') by (eapply (read_envelopes_prefix _ _ (dp_cursor p + 1)); [..|exact Hrd|exact Hrd']; [lia..|]; intros i Hi; apply Hread; lia).
  unfold dp_now. cbn [dp_store dp_output dp_cursor].
  destruct (applyBatch_duplicate t (Z.min (dp_cursor p + 100) last') envs' (dp_store p2) Hid (carries_prefix _ _ _ Hpre Hcar) Ht) as [He Hdb].
  destruct (applyBatch _ envs' (dp_store p2)) as [s [err|]]; [|done]. eexists _, _. split; [done|]. by cbn in *.
Qed.
End lost_commit.
End acceptance.

Section progress.
Context {bytes log : Type} `{!Clock, !Codec bytes, !CodecLaws bytes, !EventCodec bytes, !EventCodecLaws bytes, !Server}.
Context `{!Twal bytes log, !TwalLaws bytes log}.
Abbreviation db := (DB bytes).
Abbreviation projector := (DBProjector bytes log).
Implicit Types (d : db) (ev : outEvent) (st : State) (evs : list outEvent) (evss : list (list outEvent)) (rs : list bytes) (s : Store bytes).

(** ** The rows that pending events need *)

Definition trade_of ev : option Z := match data ev with EvTrade t => Some (tr_Id t) | _ => None end.

Record rows_ready evs d : Prop := {
  rr_trade ev t : ev ∈ evs -> data ev = EvTrade t ->
    tr_Id t <> 0 /\ trades d !! tr_Id t = None /\ is_Some (stocks d !! tr_StockId t) /\
    is_Some (orders_tbl d !! tr_MakerOrderId t) /\ is_Some (orders_tbl d !! tr_TakerOrderId t);
  rr_distinct : NoDup (omap trade_of evs);
  rr_holding ev h : ev ∈ evs -> data ev = EvHolding h ->
    is_Some (accounts d !! sb_AccountId h) /\ is_Some (stocks d !! sb_StockId h)
}.

(** The part of it that other tables provide. *)
Record rows_present evs d : Prop := {
  rp_trade ev t : ev ∈ evs -> data ev = EvTrade t ->
    is_Some (stocks d !! tr_StockId t) /\ is_Some (orders_tbl d !! tr_MakerOrderId t) /\ is_Some (orders_tbl d !! tr_TakerOrderId t);
  rp_holding ev h : ev ∈ evs -> data ev = EvHolding h ->
    is_Some (accounts d !! sb_AccountId h) /\ is_Some (stocks d !! sb_StockId h)
}.

Lemma rows_present_ready evs d :
  rows_present evs d -> NoDup (omap trade_of evs) -> (forall i, i ∈ omap trade_of evs -> i <> 0 /\ trades d !! i = None) ->
  rows_ready evs d.
Proof.
  intros [Ht Hh] Hnd Hid. split; [|done|done]. intros ev t Hin Hd. destruct (Hid (tr_Id t)) as [? ?]; [|by split_and!; auto; apply (Ht ev t)].
  apply list_elem_of_omap. exists ev. split; [done|]. unfold trade_of. by rewrite Hd.
Qed.

Lemma ready_rows ev evs d : rows_ready (ev :: evs) d -> rows_for ev d.
Proof.
  intros [Ht _ Hh]. unfold rows_for. destruct (data ev) eqn:Hd; try done.
  - destruct (Ht ev t ltac:(left) Hd) as (Hid & Hn & ?). by rewrite (proj2 (Z.eqb_neq _ _) Hid).
  - right. right. by apply (Hh ev h ltac:(left) Hd).
Qed.

(** *** No statement removes such a row *)

Lemma update_row_kept {R} (m m' : gmap Z R) id f i : update_row m id f = Some m' -> is_Some (m !! i) -> is_Some (m' !! i).
Proof.
  unfold update_row. destruct (m !! id) as [r|]; [|by intros [= <-]].
  destruct (f r) as [r'|]; cbn; [|done]. intros [= <-] Hi. rewrite lookup_insert. case_decide; eauto.
Qed.

Record rows_kept d d' : Prop := {
  rk_accounts i : is_Some (accounts d !! i) -> is_Some (accounts d' !! i);
  rk_stocks i : is_Some (stocks d !! i) -> is_Some (stocks d' !! i);
  rk_orders i : is_Some (orders_tbl d !! i) -> is_Some (orders_tbl d' !! i)
}.

Lemma stmt_rows ev now d d' : stmt_of ev now d = Some d' -> rows_kept d d'.
Proof.
  unfold stmt_of. intros Hs. destruct (data ev); query_cases Hs; split; cbn; intros ?; eauto using update_row_kept.
Qed.

Lemma stmt_trades ev now d d' id :
  stmt_of ev now d = Some d' -> (forall t, data ev = EvTrade t -> tr_Id t <> 0 /\ tr_Id t <> id) -> trades d !! id = None -> trades d' !! id = None.
Proof.
  unfold stmt_of. intros Hs Hne Hn. destruct (data ev) eqn:Hd.
  1: { destruct (Hne t eq_refl) as [Hid Hdf]. unfold q_SaveTrade in Hs. rewrite (proj2 (Z.eqb_neq _ _) Hid) in Hs. cbv zeta in Hs.
       repeat case_match; try done. injection Hs as <-. cbn. by rewrite lookup_insert_ne. }
  all: rewrite <- Hn; f_equal; by query_cases Hs.
Qed.

Lemma rows_ready_step ev evs now d d' :
  stmt_of ev now d = Some d' -> rows_ready (ev :: evs) d -> rows_ready evs d'.
Proof.
  intros Hs [Ht Hd Hh]. destruct (stmt_rows _ _ _ _ Hs) as [Ka Ks Ko]. split.
  - intros ev' t Hin Hdt. destruct (Ht ev' t ltac:(by right) Hdt) as (Hid & Hn & H3 & H4 & H5). split_and!; auto.
    eapply stmt_trades; [exact Hs| |done]. intros t0 Ht0. split; [by apply (Ht ev t0 ltac:(left) Ht0)|]. intros Heq.
    cbn in Hd. assert (Hto : trade_of ev = Some (tr_Id t0)) by (unfold trade_of; by rewrite Ht0). rewrite Hto in Hd.
    apply NoDup_cons in Hd as [Hni _]. apply Hni, list_elem_of_omap. exists ev'. split; [done|]. unfold trade_of. rewrite Hdt. by f_equal.
  - cbn in Hd. destruct (trade_of ev); [by apply NoDup_cons in Hd as [_ ?]|done].
  - intros ev' h Hin Hdh. destruct (Hh ev' h ltac:(by right) Hdh). auto.
Qed.

(** ** Events and batches are applied *)

(** An event that the engine wrote. *)
Definition emitted ev : Prop := exists st, faithful st ev.

Lemma applyEvent_live ev raw s d evs :
  emitted ev -> Marshal_data (data ev) = Some raw -> st_tx s = Some d -> answered_from (st_calls s) ->
  rows_ready (ev :: evs) d ->
  exists s' d', applyEvent (mkOutputEvent (pattern ev) raw) s = (s', None) /\ st_tx s' = Some d' /\
    (st_calls s <= st_calls s')%nat /\ rows_ready evs d'.
Proof.
  intros [st Hf] Hm Hd Ha Hr. rewrite (applyEvent_stmt st ev raw s Hf Hm).
  destruct (proj2 (stmt_accepted st ev (server_now (st_calls s)) d Hf) (ready_rows _ _ _ Hr)) as [d' Hs].
  assert (Hnext : rows_ready evs d') by (by eapply rows_ready_step).
  destruct (data ev) eqn:Hdat.
  7: { exists s, d. split_and!; [done|done|done|]. unfold stmt_of in Hs. rewrite Hdat in Hs. by injection Hs as <-. }
  all: unfold tx_call, exec_tx; rewrite Hd, Ha, Hs by done; eexists _, d'; (split; [done|]); cbn; split_and!; [done|lia|done].
Qed.

Lemma apply_events_live evs outs s d more :
  Forall emitted evs -> marshal_events evs = Some outs -> st_tx s = Some d -> answered_from (st_calls s) ->
  rows_ready (evs ++ more) d ->
  exists s' d', apply_events outs s = (s', None) /\ st_tx s' = Some d' /\ (st_calls s <= st_calls s')%nat /\ rows_ready more d'.
Proof.
  intros He. revert outs s d. induction He as [|ev evs Hev _ IH]; intros outs s d Hm Hd Ha Hr.
  { injection Hm as <-. exists s, d. by split_and!. }
  cbn [marshal_events] in Hm. destruct (Marshal_data (data ev)) as [raw|] eqn:Hraw; [|done]. cbn in Hm.
  destruct (marshal_events evs) as [outs'|] eqn:Hrest; [|done]. cbn in Hm. injection Hm as <-.
  destruct (applyEvent_live ev raw s d (evs ++ more) Hev Hraw Hd Ha Hr) as (s1 & d1 & H1 & Hd1 & Hle & Hr1).
  cbn [apply_events]. rewrite H1. destruct (IH _ s1 d1 eq_refl Hd1) as (s2 & d2 & H2 & Hd2 & Hle2 & Hr2);
    [intros m ?; apply Ha; lia|done|]. exists s2, d2. split_and!; [done|done|lia|done].
Qed.

Lemma rows_ready_cursor evs i d : rows_ready evs d -> rows_ready evs (with_cursor i d).
Proof. intros [Ht Hd Hh]. split; [exact Ht|exact Hd|exact Hh]. Qed.

Lemma applyBatch_live index evs envs s more :
  Forall emitted evs -> marshal_events evs = Some (concat (env_Events <$> envs)) -> answered_from (st_calls s) ->
  rows_ready (evs ++ more) (st_db s) ->
  exists s', applyBatch index envs s = (s', None) /\ answered_from (st_calls s') /\ rows_ready more (st_db s').
Proof.
  intros He Hm Ha Hr. unfold applyBatch, Begin. rewrite Ha by done. unfold apply_and_commit.
  set (s1 := mkStore _ _ _).
  destruct (apply_events_live evs _ s1 (st_db s) more He Hm eq_refl) as (s2 & d2 & H2 & Hd2 & Hle & Hr2);
    [intros m ?; apply Ha; cbn in *; lia|done|]. rewrite H2. cbn in Hle.
  unfold SaveDBAppliedCursor, exec_tx. rewrite Hd2, Ha by lia. cbn [q_SaveDBAppliedCursor].
  unfold tx_call, Commit. cbn [st_tx st_calls st_db]. rewrite Ha by lia. cbn.
  eexists. split; [done|]. cbn. split; [intros m ?; apply Ha; lia|]. by apply rows_ready_cursor.
Qed.

(** ** A stretch of the history *)

Lemma read_envelopes_total n c w k rs :
  retains w k rs -> Forall written rs -> (k <= c)%nat -> (c + n <= length rs)%nat ->
  exists envs, read_envelopes n (Z.of_nat c + 1) w = inl envs.
Proof.
  intros Hr Hw. revert c. induction n as [|n IH]; intros c Hk Hn; cbn [read_envelopes]; [eauto|].
  rewrite (retains_read _ _ _ _ Hr), decide_True by done.
  destruct (lookup_lt_is_Some_2 rs c) as [r Hc]; [lia|]. rewrite Hc.
  destruct (Forall_lookup_1 _ _ _ _ Hw Hc) as (env & Hm). rewrite (codec_envelope _ _ Hm).
  pose proof (retains_bound _ _ _ Hr). rewrite add64_exact by lia.
  replace (Z.of_nat c + 1 + 1) with (Z.of_nat (S c) + 1) by lia.
  destruct (IH (S c)) as (rest & ->); [lia|lia|]. eauto.
Qed.

Lemma marshal_events_app evs1 evs2 outs1 outs2 :
  marshal_events evs1 = Some outs1 -> marshal_events evs2 = Some outs2 -> marshal_events (evs1 ++ evs2) = Some (outs1 ++ outs2).
Proof.
  revert outs1. induction evs1 as [|ev evs1 IH]; intros outs1; cbn [marshal_events app].
  { by intros [= <-]. }
  destruct (Marshal_data (data ev)) as [raw|]; [|done]. cbn. destruct (marshal_events evs1) as [o1|]; [|done]. cbn.
  intros [= <-] H2. by rewrite (IH _ eq_refl H2).
Qed.

(** The records of a stretch carry its events. *)
Lemma trail_outs st evss rs st' envs :
  trail st evss rs st' -> mapM Unmarshal_OutputEnvelope rs = Some envs ->
  Forall emitted (concat evss) /\ marshal_events (concat evss) = Some (concat (env_Events <$> envs)).
Proof.
  intros Ht. revert envs. induction Ht as [st|st st1 st2 env evs evss r rs Hm Hr Hrep _ IH]; intros envs Henv.
  { injection Henv as <-. by split. }
  cbn [mapM] in Henv. rewrite (codec_envelope _ _ Hr) in Henv. cbn in Henv.
  destruct (mapM Unmarshal_OutputEnvelope rs) as [envs'|]; [|done]. injection Henv as <-.
  destruct (IH _ eq_refl) as [He Ho]. cbn. split; [|by apply marshal_events_app].
  apply Forall_app. split; [|done]. eapply Forall_impl; [apply (rs_faithful _ _ _ Hrep)|]. intros ev Hf. by exists st1.
Qed.

(** ** Draining *)

(** What a drain needs: answers, the pending records in the log, and the rows
    that their events refer to. *)
Record supplied st evss rs q : Prop := {
  su_answers : answered_from (st_calls (dp_store q));
  su_log : exists k, retains (dp_output q) k rs /\ Z.of_nat k <= dp_cursor q;
  su_written : Forall written rs;
  su_room : Z.of_nat (length rs) + dbProjectorBatchSize < two64;
  su_trail : 0 <= dp_cursor q <= Z.of_nat (length rs) /\ exists st0, trail st0 (drop (Z.to_nat (dp_cursor q)) evss) (drop (Z.to_nat (dp_cursor q)) rs) st;
  su_rows : rows_ready (concat (drop (Z.to_nat (dp_cursor q)) evss)) (st_db (dp_store q))
}.

Lemma project_step_live st evss rs q :
  supplied st evss rs q -> dp_cursor q < Z.of_nat (length rs) ->
  exists q', project_step (Z.of_nat (length rs)) q = (q', None) /\
    dp_cursor q' = Z.min (dp_cursor q + dbProjectorBatchSize) (Z.of_nat (length rs)) /\ supplied st evss rs q'.
Proof.
  intros [Ha (k & Hr & Hk) Hw Hroom (Hc & st0 & Ht) Hrows] Hlt. unfold project_step, dbProjectorBatchSize in *.
  rewrite !(add64_exact (dp_cursor q)) by lia. set (b := Z.min _ _). set (c := Z.to_nat (dp_cursor q)) in *.
  set (n := Z.to_nat (b - dp_cursor q)). replace (dp_cursor q + 1) with (Z.of_nat c + 1) by lia.
  assert (Hn : (c + n <= length rs)%nat) by lia.
  destruct (read_envelopes_total n c _ _ _ Hr Hw) as [envs Hrd]; [lia|done|]. rewrite Hrd.
  destruct (read_envelopes_sound _ _ _ _ _ _ Hr Hrd) as [Henvs _].
  destruct (trail_split _ _ _ _ n Ht) as (st1 & Ht1 & Ht2). destruct (trail_outs _ _ _ _ _ Ht1 Henvs) as [He Ho].
  unfold dp_now. cbn [dp_store dp_output dp_cursor].
  destruct (applyBatch_live b _ _ (dp_store q) (concat (drop n (drop c evss))) He Ho Ha) as (s' & Hab & Ha' & Hrows').
  { by rewrite <- concat_app, take_drop. }
  rewrite Hab. eexists. split; [done|]. cbn. split; [done|]. rewrite drop_drop in Hrows', Ht2. rewrite drop_drop in Ht2.
  replace (c + n)%nat with (Z.to_nat b) in * by lia.
  split; cbn; [done|exists k; split; [done|lia]|done|done| |done]. split; [lia|by exists st1].
Qed.

Lemma project_loop_live fuel st evss rs q :
  supplied st evss rs q -> (Z.to_nat (Z.of_nat (length rs) - dp_cursor q) <= fuel)%nat ->
  exists q', project_loop fuel (Z.of_nat (length rs)) q = (q', None) /\ dp_cursor q' = Z.of_nat (length rs).
Proof.
  revert q. induction fuel as [|fuel IH]; intros q Hs Hf; cbn [project_loop];
    pose proof (proj1 (su_trail _ _ _ _ Hs)) as Hc;
    (destruct (Z.ltb_spec (dp_cursor q) (Z.of_nat (length rs))) as [Hlt|]; [|exists q; split; [done|lia]]); [lia|].
  destruct (project_step_live _ _ _ _ Hs Hlt) as (q1 & Hst & Hc1 & Hs1). rewrite Hst. apply IH; [done|].
  unfold dbProjectorBatchSize in *. lia.
Qed.

Lemma dp_drain_live st evss rs q :
  supplied st evss rs q -> exists q', dp_drain q = (q', None) /\ dp_cursor q' = Z.of_nat (length rs).
Proof.
  intros Hs. destruct (su_log _ _ _ _ Hs) as (k & Hr & _). unfold dp_drain. rewrite (retains_last _ _ _ Hr).
  by apply (project_loop_live _ st evss).
Qed.
End progress.
