(* ===== verification/Numbering.v ===== *)
(** * Trades are numbered without gaps, whatever happens

    Along every run of the system the trades in the records written so far have
    the ids 1, 2, 3 and so on up to the counter of the engine, and the table of
    trades has exactly those of the records that were applied. A restart searches
    the output log, which may have been trimmed, and asks the database when it
    finds no trade there; that gives the counter back. So no id is used twice, and
    the database never refuses a pending trade as a duplicate. *)

From S2P Require Import Prelude Domain Slices OrderBook BookSpec Ledger Snapshot BookSim Events Matching Validation Orders Transfer Admin LedgerSim MatchLoop TradeIds.
From S2P Require Import Footprint Dedup Wal Metrics Engine Columns Database Storage SnapshotStore Messaging Publisher Projector Frames Recovery Determinism Replays Consistency SnapshotReplay.
From S2P Require Import TradeRecovery Windows Retention Restarts Reporting Feed Mirror Tracking Acceptance Writing System.

Section numbering.
Context `{!Clock} {bytes log chan conf : Type} `{!Codec bytes, !CodecLaws bytes, !Proto bytes, !ProtoLaws bytes}.
Context `{!EventCodec bytes, !EventCodecLaws bytes, !Twal bytes log, !TwalLaws bytes log, !Server, !ServerLaws}.
Context `{!Amqp bytes chan conf, !AmqpSpec bytes chan conf}.
Abbreviation engine := (Engine bytes log).
Abbreviation store := (Store bytes).
Abbreviation publisher := (EventPublisher bytes log chan).
Abbreviation projector := (DBProjector bytes log).
Abbreviation system := (system bytes log chan).
Abbreviation db := (DB bytes).
Implicit Types (e : engine) (p : publisher) (q : projector) (s : store) (b r : bytes) (ps rs : list bytes) (d : db) (ids : list Z).

(** ** The ids in the records *)

Lemma log_ids_split l1 l2 ids :
  log_ids (bytes := bytes) (l1 ++ l2) = Some ids <->
  exists ids1 ids2, log_ids l1 = Some ids1 /\ log_ids l2 = Some ids2 /\ ids = ids1 ++ ids2.
Proof.
  revert ids. induction l1 as [|r l1 IH]; intros ids; cbn [app log_ids].
  - split; [by exists [], ids|]. intros (ids1 & ids2 & [= <-] & -> & ->). done.
  - destruct (record_ids r) as [i0|]; cbn; [|split; [done|]; by intros (? & ? & ? & _)].
    destruct (log_ids (l1 ++ l2)) as [rest|] eqn:Hrest; cbn.
    + destruct (proj1 (IH rest) eq_refl) as (ids1 & ids2 & -> & -> & ->). cbn. split.
      * intros [= <-]. exists (i0 ++ ids1), ids2. by rewrite app_assoc.
      * intros (a1 & a2 & [= <-] & [= <-] & ->). by rewrite app_assoc.
    + split; [done|]. intros (a1 & a2 & E1 & E2 & ->). destruct (log_ids l1) as [ids1|]; [|done]. cbn in E1. injection E1 as <-.
      assert (Hx : None = Some (ids1 ++ a2)) by (apply IH; by exists ids1, a2). done.
Qed.

(** The events that the engine reports carry the pattern of trades only on trades. *)
Lemma faithful_tagged st ev : faithful st ev -> tagged ev.
Proof.
  intros [ev' [t|pat o Hp|o x|u|t|t x now|x|i x now]|a _|a _|h _|x _|x _]; unfold tagged; cbn; try done.
  intros ->. unfold order_patterns in Hp. set_solver.
Qed.

Lemma emitted_tagged evs : Forall (fun ev => exists st, faithful st ev) evs -> Forall tagged evs.
Proof. intros Hf. eapply Forall_impl; [exact Hf|]. intros ev [st Hev]. by eapply faithful_tagged. Qed.

Lemma tells_ids evs r : tells_of evs r -> Forall tagged evs -> record_ids r = Some (tr_Id <$> trades_of evs).
Proof. intros (env & Hm & Hr) Ht. unfold record_ids. rewrite (codec_envelope _ _ Hr). cbn. by apply marshal_ids. Qed.

(** *** What a request adds *)

Lemma record_numbers e ps b snaps pat dat e' first (ods : list bytes) :
  logged e ps b snaps -> holds (output e) first ods -> started first ods -> room (output e) ->
  Unmarshal_envelope b = Some (pat, dat) ->
  replay_record (Z.of_nat (length ps) + 1) pat dat e = Done (e', None) ->
  exists r, holds (output e') first (ods ++ [r]) /\ lastTradeID (core e) <= lastTradeID (core e') /\
    record_ids r = Some (seqZ (lastTradeID (core e) + 1) (lastTradeID (core e') - lastTradeID (core e))).
Proof.
  intros [_ _ _ Happ _ _ (pat' & dat' & id & Henv & Hk & _)] Hh Hs Hro Henv' Hrec.
  rewrite Henv in Henv'. injection Henv' as <- <-.
  assert (Hlive : live (core (set_seq e (Z.of_nat (length ps) + 1))) = true).
  { unfold live. cbn. rewrite Z.gtb_ltb. apply orb_true_iff. right. apply Z.ltb_lt. lia. }
  destruct (record_replay _ _ _ e e' e Hk eq_refl Hrec) as [_ Hw].
  destruct (Hw Hlive (proj1 Happ)) as [_ _ _ _ (t & evs & out & idx & Hm & [Htag Hiss] & Hap)].
  destruct (Hiss Hlive) as [Hle Hnew]. cbn [core set_seq set_core lastTradeID set_inputSeq] in Hle, Hnew.
  destruct (append_holds _ _ _ _ _ _ Hh Hs (room_next _ _ _ Hro Hh Hs) Hap) as (_ & r & Hr & Hh' & _).
  exists r. split_and!; [done|done|]. unfold record_ids. rewrite (codec_envelope _ _ Hr). cbn. rewrite (marshal_ids _ _ Htag Hm). by rewrite Hnew.
Qed.

(** The record that was appended is the last of the history. *)
Lemma appended_last (w : log) first ods r k rs r' :
  holds w first (ods ++ [r]) -> retains w k (rs ++ [r']) -> (k <= length rs)%nat -> r' = r.
Proof.
  intros Hh Hr Hk. pose proof (retains_read _ _ _ (length rs) Hr) as E1. rewrite decide_True, list_lookup_middle in E1 by done.
  pose proof (retains_last _ _ _ Hr) as Hl. unfold LastIndex in Hl. rewrite (h_last _ _ _ Hh), decide_False in Hl by (by destruct ods).
  rewrite !length_app in Hl. cbn [length] in Hl. injection Hl as Hl. unfold Read in E1. rewrite (h_read _ _ _ Hh) in E1.
  unfold entry_at in E1. destruct (Z.leb_spec first (Z.of_nat (length rs) + 1)); [|lia].
  replace (Z.to_nat (Z.of_nat (length rs) + 1 - first)) with (length ods) in E1 by lia. rewrite list_lookup_middle in E1 by done.
  by injection E1.
Qed.
(** ** The table of trades *)

Lemma event_ids_both (evs1 evs2 : list (OutputEvent bytes)) ids1 ids2 :
  event_ids evs1 = Some ids1 -> event_ids evs2 = Some ids2 -> event_ids (evs1 ++ evs2) = Some (ids1 ++ ids2).
Proof.
  intros He1 He2. revert ids1 He1. induction evs1 as [|ev evs1 IH]; intros ids1; cbn [event_ids app]; [by intros [= <-]|].
  destruct (String.eqb _ _); [|apply IH]. destruct (Unmarshal_Trade _) as [t|]; [|done]. cbn.
  destruct (event_ids evs1) as [ids|]; [|done]. cbn. intros [= <-]. by rewrite (IH _ eq_refl).
Qed.

Lemma envelopes_ids rs envs ids :
  mapM Unmarshal_OutputEnvelope rs = Some envs -> log_ids rs = Some ids -> event_ids (concat (env_Events <$> envs)) = Some ids.
Proof.
  revert envs ids. induction rs as [|r rs IH]; intros envs ids; cbn [log_ids mapM]; [by intros [= <-] [= <-]|].
  unfold record_ids. destruct (Unmarshal_OutputEnvelope r) as [env|]; [|done]. cbn. destruct (mapM _ rs) as [envs'|]; [|done]. cbn.
  intros [= <-]. destruct (event_ids (env_Events env)) as [ids1|] eqn:He; [|done]. cbn. destruct (log_ids rs) as [ids2|]; [|done]. cbn.
  intros [= <-]. cbn. by apply event_ids_both; [|apply IH].
Qed.

(** Applying events adds the rows of their trades. *)
Lemma applied_table (outs : list (OutputEvent bytes)) d d' ids :
  applied outs d d' -> event_ids outs = Some ids -> Forall (fun i => i <> 0) ids ->
  dom (trades d') = dom (trades d) ∪ list_to_set ids.
Proof.
  intros Ha. revert ids. induction Ha as [d|ev outs d d1 d2 Hev _ IH]; intros ids; cbn [event_ids]; [intros [= <-] _; set_solver|].
  pose proof (applied1_trades _ _ _ Hev) as Ht. destruct (String.eqb _ _).
  - destruct (Unmarshal_Trade _) as [t|]; [|done]. cbn. destruct (event_ids outs) as [rest|]; [|done]. cbn. intros [= <-] [Hne Hr]%Forall_cons.
    destruct (Ht t eq_refl Hne) as [_ [row Hrow]]. rewrite (IH _ eq_refl Hr), Hrow, dom_insert_L. cbn. set_solver.
  - intros Hids Hne. by rewrite (IH _ Hids Hne), Ht.
Qed.

(** The table has the trades of the first [c] records. *)
Definition applied_ids rs (c : nat) d : Prop :=
  cursor_at DB_APPLIED_OUTPUT_SEQ d = Z.of_nat c /\ (c <= length rs)%nat /\
  exists ids, log_ids (take c rs) = Some ids /\ dom (trades d) = list_to_set ids.

Lemma applied_ids_foreign rs c d d' : foreign d d' -> applied_ids rs c d -> applied_ids rs c d'.
Proof.
  intros Hf (Hc & Hle & ids & Hids & Hd). split; [by rewrite <- Hc; unfold cursor_at; rewrite (fo_cursor _ _ Hf)|].
  split; [done|]. exists ids. by rewrite (fo_trades _ _ Hf).
Qed.

Lemma applied_ids_more rs r c d : applied_ids rs c d -> applied_ids (rs ++ [r]) c d.
Proof.
  intros (Hc & Hle & Hids). split; [done|]. rewrite length_app, take_app_le by done. split; [lia|done].
Qed.

Lemma applied_ids_keeps rs0 n :
  Z.of_nat (length rs0) < two64 -> log_ids rs0 = Some (seqZ 1 n) -> keeps (fun rs c d => rs = rs0 /\ applied_ids rs c d).
Proof.
  intros Hb Hall. split.
  - by intros rs c d _ [_ [? _]].
  - intros rs c d d' [-> Hi] Hf. split; [done|]. by eapply applied_ids_foreign.
  - intros rs c m envs d d' [-> (Hc & Hle & ids & Hids & Hd)] Hm Henv Ha. split; [done|].
    split; [apply cursor_at_save; unfold is_u64; lia|]. split; [done|].
    rewrite <- (take_drop (c + m) rs0) in Hall. apply log_ids_split in Hall as (ids1 & ids2 & Hids1 & _ & Heq).
    pose proof Hids1 as Hsplit. rewrite <- (take_take_drop rs0 c m) in Hsplit.
    apply log_ids_split in Hsplit as (ids3 & ids4 & Hids3 & Hids4 & ->). rewrite Hids in Hids3. injection Hids3 as <-.
    exists (ids ++ ids4). split; [done|]. cbn. rewrite (applied_table _ _ _ _ Ha (envelopes_ids _ _ _ Henv Hids4)).
    + rewrite Hd. set_solver.
    + apply Forall_forall. intros i Hi. assert (Hin : i ∈ seqZ 1 n) by (rewrite Heq; set_solver). apply elem_of_seqZ in Hin. lia.
Qed.

(** *** The last id in the table *)

Lemma foldr_max_spec (i : Z) ids : foldr Z.max i ids ∈ i :: ids /\ forall j, j ∈ i :: ids -> j <= foldr Z.max i ids.
Proof.
  induction ids as [|x ids [IH1 IH2]]; cbn; [split; [by left|by intros j ->%list_elem_of_singleton]|]. split.
  - destruct (Z.max_spec x (foldr Z.max i ids)) as [[_ ->]|[_ ->]]; set_solver.
  - intros j Hj. assert (Hor : j = x \/ j ∈ i :: ids) by set_solver. destruct Hor as [->|Hin]; [lia|]. specialize (IH2 j Hin). lia.
Qed.

Lemma last_trade_id n d : 0 <= n -> dom (trades d) = list_to_set (seqZ 1 n) -> q_LastTradeID d = n.
Proof.
  intros Hn Hd. assert (Hin : forall i, i ∈ (map_to_list (trades d)).*1 <-> 1 <= i <= n).
  { intros i. transitivity (i ∈ dom (trades d)).
    - rewrite elem_of_dom, list_elem_of_fmap. split.
      + intros ([j row] & -> & Hj%elem_of_map_to_list). eauto.
      + intros [row Hrow]. exists (i, row). by rewrite elem_of_map_to_list.
    - rewrite Hd, elem_of_list_to_set, elem_of_seqZ. lia. }
  unfold q_LastTradeID. destruct (map_to_list (trades d)).*1 as [|i ids].
  - destruct (decide (n = 0)) as [->|Hne]; [done|]. assert (Hx : n ∈ @nil Z) by (apply Hin; lia). by apply elem_of_nil in Hx.
  - destruct (foldr_max_spec i ids) as [Hm Hmax]. pose proof (proj1 (Hin _) Hm) as Hr. specialize (Hmax n ltac:(apply Hin; lia)). lia.
Qed.

(** ** A restart restores the counter *)

Lemma trade_search (w : log) first (ods : list bytes) ids :
  holds w first ods -> log_ids ods = Some ids ->
  exists f l, FirstIndex w = inl f /\ LastIndex w = inl l /\ find_trade (search_length f l) l w = inl (last_positive ids).
Proof.
  intros Hh Hids. pose proof (h_pos _ _ _ Hh). eexists _, _. split; [apply Hh|]. split; [apply Hh|].
  destruct (decide (ods = [])) as [->|Hne]; [by injection Hids as <-|]. rewrite <- (app_nil_r ods) in Hh.
  rewrite <- (find_trade_ok _ _ _ _ _ Hh Hids). f_equal. unfold search_length. lia.
Qed.

Lemma counter_restored rs k c (w : log) s n e0 t :
  0 <= n -> log_ids rs = Some (seqZ 1 n) -> retains w k rs -> (k <= c)%nat -> applied_ids rs c (st_db s) -> output e0 = w ->
  initializeTradeID (snd (legacy_answer w s)) e0 = (with_tradeID t e0, None) -> t = n.
Proof.
  intros Hn Hall [Hh _] Hk (_ & Hc & ids & Hids & Hd) Ho Hi.
  assert (Hset : forall i e', (set_core e0 (set_lastTradeID (core e0) i), @None run_error) = (with_tradeID t e0, None) -> i = t).
  { intros i _ Heq. by apply (f_equal (fun x => lastTradeID (core (fst x)))) in Heq. }
  rewrite <- (take_drop k rs) in Hall. apply log_ids_split in Hall as (ids1 & ids2 & Hids1 & Hids2 & Heq).
  pose proof (last_positive_seqZ 0 n ltac:(lia) Hn) as Hl. change (0 + 1) with 1 in Hl. rewrite Heq, last_positive_app in Hl.
  destruct (trade_search _ _ _ _ Hh Hids2) as (f & l & Hf & Hla & Hsearch). unfold initializeTradeID, legacy_answer in Hi.
  rewrite Ho, Hf, Hla, Hsearch in Hi. destruct (last_positive ids2) as [i|] eqn:Hlp.
  - cbn in Hl. rewrite <- (Hset _ e0 Hi). lia.
  - assert (Hnil : ids2 = []).
    { destruct ids2 as [|i ids3]; [done|]. exfalso. assert (Hpos : Forall (fun i => 0 < i) (i :: ids3)).
      { apply Forall_forall. intros j Hj. assert (Hin : j ∈ seqZ 1 n) by (rewrite Heq; set_solver). apply elem_of_seqZ in Hin. lia. }
      unfold last_positive in Hlp. rewrite filter_all in Hlp by (by apply Forall_forall). by apply last_None in Hlp. }
    rewrite Hnil, app_nil_r in Heq.
    assert (Hidsn : ids = seqZ 1 n).
    { replace c with (k + (c - k))%nat in Hids by lia. rewrite <- take_take_drop in Hids.
      apply log_ids_split in Hids as (a1 & a2 & Ha1 & Ha2 & ->). rewrite Hids1 in Ha1. injection Ha1 as <-.
      rewrite <- (take_drop (c - k) (drop k rs)) in Hids2. apply log_ids_split in Hids2 as (a3 & a4 & Ha3 & _ & Ha).
      rewrite Ha2 in Ha3. injection Ha3 as <-. rewrite Hnil in Ha. symmetry in Ha. apply app_eq_nil in Ha as [-> _]. by rewrite app_nil_r. }
    rewrite Hidsn in Hd. unfold EventStore_LastTradeID, query in Hi. destruct (answer_at (st_calls s)); cbn in Hi; [|done..].
    rewrite (last_trade_id n _ Hn Hd) in Hi. destruct (Z.ltb n 0); [done|]. symmetry. exact (Hset _ e0 Hi).
Qed.
(** ** The invariant *)

Record numbers_ok rs (y : system) : Prop := {
  no_counter : 0 <= lastTradeID (core (sy_engine y));
  no_ids : log_ids rs = Some (seqZ 1 (lastTradeID (core (sy_engine y))));
  no_table : applied_ids rs (Z.to_nat (dp_cursor (sy_projector y))) (st_db (sy_store y))
}.

Ltac parts := cbn [sy_engine sy_publisher sy_projector sy_store] in *.

(** The counter and the table stay. *)
Lemma numbers_kept rs e e' p p' q s s' :
  numbers_ok rs (mkSystem e p q s) -> lastTradeID (core e') = lastTradeID (core e) -> foreign (st_db s) (st_db s') ->
  numbers_ok rs (mkSystem e' p' q s').
Proof. intros [N1 N2 N3] Hl Hf. parts. split; parts; rewrite ?Hl; [done..|by eapply applied_ids_foreign]. Qed.

Lemma foreign_refl d : foreign d d.
Proof. by split; eauto 6. Qed.

(** One more record. *)
Lemma numbers_more rs e e' p q s r :
  numbers_ok rs (mkSystem e p q s) -> lastTradeID (core e) <= lastTradeID (core e') ->
  record_ids r = Some (seqZ (lastTradeID (core e) + 1) (lastTradeID (core e') - lastTradeID (core e))) ->
  numbers_ok (rs ++ [r]) (mkSystem e' p q s).
Proof.
  intros [N1 N2 N3] Hle Hr. parts. split; parts; [lia| |by apply applied_ids_more].
  rewrite (log_ids_snoc _ _ _ _ N2 Hr). f_equal.
  replace (lastTradeID (core e')) with (lastTradeID (core e) + (lastTradeID (core e') - lastTradeID (core e))) at 2 by lia.
  rewrite (seqZ_app 1) by lia. do 2 f_equal. lia.
Qed.

Lemma retains_started (w : log) k rs : retains w k rs -> started (Z.of_nat k + 1) (drop k rs).
Proof. intros [_ [Hk| ->]] Hd; [|done]. apply (f_equal length) in Hd. rewrite length_drop in Hd. simpl in Hd. lia. Qed.

(** The log of a state with one more record begins before that record. *)
Lemma unread_below ps rs r evss p e q s c :
  system_ok ps (rs ++ [r]) evss (mkSystem e p q s) -> applied_ids rs c (st_db s) ->
  exists k, retains (output e) k (rs ++ [r]) /\ (k <= length rs)%nat.
Proof.
  intros Hok (Hc & Hle & _). destruct (so_log _ _ _ _ Hok) as (k & Hr & _ & Hk). parts. exists k. split; [done|]. lia.
Qed.

Section steps.
Hypothesis (Hsta : forall w : log, stable w).

Lemma deliver_numbers ps rs evss e p q s b e' :
  system_ok ps rs evss (mkSystem e p q s) -> numbers_ok rs (mkSystem e p q s) -> room (input e) -> room (output e) ->
  (fresh b e -> announced b (state (core e)) (st_db s)) -> run_step (Deliver b) e = Done (Running e') -> spacious (output e') ->
  e' = e \/ exists r evs, system_ok (ps ++ [b]) (rs ++ [r]) (evss ++ [evs]) (mkSystem e' p q s) /\
    numbers_ok (rs ++ [r]) (mkSystem e' p q s).
Proof.
  intros Hok Hno Hri Hro Hann Hrun Hsp.
  destruct (deliver_ok _ _ _ _ _ _ _ _ _ Hok Hri Hro Hann Hrun Hsp) as [->|(r & evs & Hy)]; [by left|].
  destruct (run_Deliver _ _ _ Hrun) as (res & Hh & Hnf).
  destruct (handle_cases _ _ _ _ Hh Hnf) as [[-> _]|[_ [(pat & dat & id & e1 & Henv & Hk & Hid & _ & Hlog & Hrec)]]]; [by left|right].
  exists r, evs. split; [done|]. destruct (so_log _ _ _ _ Hok) as (k & Hr & _). pose proof (so_step _ _ _ _ Hok) as Hs. parts.
  destruct (logInput_logged _ _ _ _ _ _ _ _ Hs Hri Henv Hk Hid Hlog) as (Hl & Hs1 & _ & Ho1 & _). apply logInput_lastID in Hlog.
  rewrite Hs1 in Hrec. destruct (record_numbers e1 ps b _ pat dat e' (Z.of_nat k + 1) (drop k rs) Hl) as (r0 & Hh' & Hle & Hids);
    [by rewrite Ho1; apply Hr|by eapply retains_started|by rewrite Ho1|done|done|].
  destruct (unread_below _ _ _ _ _ _ _ _ _ Hy (no_table _ _ Hno)) as (k' & Hr' & Hk').
  rewrite (appended_last _ _ _ _ _ _ _ Hh' Hr' Hk'). rewrite Hlog in *. by eapply numbers_more.
Qed.

(** *** Start-up *)

Lemma cleanup_core cs e : core (fst (cleanupOutputWAL cs e)) = core e.
Proof. unfold cleanupOutputWAL. repeat case_match; simplify_eq/=; done. Qed.

Lemma prune_core (pr : option Z + store_error) e :
  let e3 := match pr with inl (Some floor) => fst (cleanupInputWAL floor e) | _ => e end in
  core e3 = core e /\ output e3 = output e.
Proof. cbv zeta. destruct pr as [[floor|]|]; [|done..]. unfold cleanupInputWAL. by destruct (truncate_to _ _). Qed.

Lemma cleanup_last cs e first (ods : list bytes) r :
  holds (output e) first (ods ++ [r]) -> exists first' ods', holds (output (fst (cleanupOutputWAL cs e))) first' (ods' ++ [r]).
Proof.
  intros Hh. unfold cleanupOutputWAL. destruct cs as [[[mq dbc]|]|]; [|by exists first, ods..].
  destruct (Z.eqb _ 0); [by exists first, ods|]. set (t := Z.min _ _).
  destruct (truncate_to_trims (output e) t _ _ Hh (Hsta _)) as (f' & Hf & Hne & _ & Hh').
  destruct (truncate_to (output e) t) as [w err]. cbn [fst output set_output] in *.
  assert (Hlt : f' < next_index first (ods ++ [r])) by (apply Hne; by destruct ods). unfold next_index in Hlt. rewrite length_app in Hlt. cbn in Hlt.
  rewrite drop_app_le in Hh' by lia. by eexists _, _.
Qed.

Lemma legacy_foreign rs e p q s s1 s2 s3 cs pr :
  applied_ids rs (Z.to_nat (dp_cursor q)) (st_db s) -> st_db s1 = st_db s ->
  PruneSnapshots snapshotRetention s1 = (s2, pr) -> load_cursors s2 = (s3, cs) -> foreign (st_db s) (st_db s3).
Proof.
  intros _ Hdb Hprune Hload. destruct (PruneSnapshots_beside _ _ _ _ Hprune) as [Hb _]. rewrite Hdb in Hb.
  apply load_cursors_tell in Hload as [-> _]. by apply beside_foreign.
Qed.

Lemma reboot_numbers ps rs evss e p q s cs e' s1 s2 :
  system_ok ps rs evss (mkSystem e p q s) -> numbers_ok rs (mkSystem e p q s) ->
  rebooted (input e) (output e) s cs e' s1 -> load_cursors s1 = (s2, cs) -> numbers_ok rs (mkSystem e' p q s2).
Proof.
  intros Hok Hno Hb Hload. destruct (restart_in_step _ _ _ (so_step _ _ _ _ Hok)) as (e0 & Hne & _ & _ & O0 & Hrep). parts.
  destruct (rebooted_steps _ _ _ _ _ _ Hb) as (e0' & t & e2 & pr & Hne' & Hi & Hr2 & (s0 & Hdb & Hprune) & ->).
  rewrite Hne in Hne'. injection Hne' as <-. destruct (Hrep t) as (e2' & Hr2' & _ & Hq2 & _). rewrite Hr2 in Hr2'. injection Hr2' as <-.
  pose proof Hno as [N1 N2 N3]. parts. destruct (so_log _ _ _ _ Hok) as (k & Hr & _ & Hk). parts.
  assert (Ht : t = lastTradeID (core e)).
  { eapply (counter_restored rs k _ _ s); [exact N1|exact N2|exact Hr| |exact N3|exact O0|exact Hi]. destruct N3 as [Hc _]. lia. }
  eapply numbers_kept; [exact Hno| |by eapply legacy_foreign].
  rewrite cleanup_core. destruct (prune_core pr e2) as [-> _]. by rewrite (q_lastID _ _ Hq2).
Qed.

Lemma crash_numbers ps rs evss e p q s b e1 cs e' s1 s2 :
  system_ok ps rs evss (mkSystem e p q s) -> numbers_ok rs (mkSystem e p q s) -> room (input e) -> room (output e) ->
  announced b (state (core e)) (st_db s) -> crashed b e e1 ->
  rebooted (input e1) (output e1) s cs e' s1 -> load_cursors s1 = (s2, cs) -> spacious (output e') ->
  exists r evs, system_ok (ps ++ [b]) (rs ++ [r]) (evss ++ [evs]) (mkSystem e' p q s2) /\ numbers_ok (rs ++ [r]) (mkSystem e' p q s2).
Proof.
  intros Hok Hno Hri Hro Hann Hcr Hb Hload Hsp.
  destruct (sys_crash_ok Hsta _ _ _ _ _ _ _ _ _ _ _ _ _ Hok Hri Hro Hann Hcr Hb Hload Hsp) as (r & evs & Hy).
  exists r, evs. split; [done|]. destruct Hcr as [(pat & dat & id & Henv & Hk & Hid & _ & Hlog) _].
  pose proof (so_step _ _ _ _ Hok) as Hs. destruct (so_log _ _ _ _ Hok) as (k & Hr & _ & Hkc). pose proof Hno as [N1 N2 N3]. parts.
  destruct (logInput_logged _ _ _ _ _ _ _ _ Hs Hri Henv Hk Hid Hlog) as (Hl & _ & _ & Ho1 & _).
  destruct (restart_logged _ _ _ _ Hl) as (e0 & Hne & _ & O0 & Hrep).
  destruct (rebooted_steps _ _ _ _ _ _ Hb) as (e0' & t & e3 & pr & Hne' & Hi & Hr3 & (s0 & Hdb & Hprune) & ->).
  rewrite Hne in Hne'. injection Hne' as <-. destruct (Hrep t) as (e2 & pat' & dat' & Henv' & Hr2 & _ & Ho2 & Ht2 & Hl2).
  rewrite Hr2 in Hr3. rewrite Ho1 in Ho2, O0, Hi.
  assert (Ht : t = lastTradeID (core e)).
  { eapply (counter_restored rs k _ _ s); [exact N1|exact N2|exact Hr| |exact N3|exact O0|exact Hi]. destruct N3 as [Hc _]. lia. }
  destruct (record_numbers e2 ps b _ pat' dat' e3 (Z.of_nat k + 1) (drop k rs) Hl2) as (r0 & Hh' & Hle & Hids);
    [by rewrite Ho2; apply Hr|by eapply retains_started|by rewrite Ho2|done|done|].
  destruct (prune_core pr e3) as [Hc3 Ho3]. set (e4 := match pr with inl (Some _) => _ | _ => _ end) in *.
  rewrite <- Ho3 in Hh'. destruct (cleanup_last cs e4 _ _ _ Hh') as (first' & ods' & Hh4).
  assert (Hf : foreign (st_db s) (st_db s2)) by (by eapply legacy_foreign).
  destruct (unread_below _ _ _ _ _ _ _ _ _ Hy (applied_ids_foreign _ _ _ _ Hf N3)) as (k' & Hr' & Hk').
  rewrite (appended_last _ _ _ _ _ _ _ Hh4 Hr' Hk'). rewrite Ht2, Ht in Hle, Hids.
  eapply (numbers_kept _ e3); [eapply numbers_more; [exact Hno|done|done]| |exact Hf]. by rewrite cleanup_core, Hc3.
Qed.

(** *** Beside the loop *)

Lemma save_numbers rs e p q s sd s1 ans s2 cs e' :
  numbers_ok rs (mkSystem e p q s) -> SaveSnapshotAndPrune (sd_state sd) (sd_inputSeq sd) snapshotRetention s = (s1, ans) ->
  match ans with inl _ => load_cursors s1 | inr _ => (s1, None) end = (s2, cs) ->
  run_step (Saver (answered_floor ans) cs) e = Done (Running e') -> numbers_ok rs (mkSystem e' p q s2).
Proof.
  intros Hno Hsave Hload Hrun. cbn [run_step] in Hrun. injection Hrun as <-.
  destruct (SaveSnapshotAndPrune_beside _ _ _ _ _ _ Hsave) as [Hb _].
  assert (Hd : st_db s2 = st_db s1) by (destruct ans; [by apply load_cursors_tell in Hload as [-> _]|by injection Hload as <- _]).
  eapply numbers_kept; [exact Hno| |rewrite Hd; by apply beside_foreign].
  f_equal. unfold saver_step. destruct (snapshots e); [|done]. destruct (answered_floor ans) as [floor|]; [|done]. unfold cleanupWAL.
  rewrite cleanup_core. unfold cleanupInputWAL. by destruct (truncate_to _ _).
Qed.

Lemma publish_numbers rs e p q s p' err :
  numbers_ok rs (mkSystem e p q s) -> ep_drain (ep_attach (output e) s p) = (p', err) -> numbers_ok rs (mkSystem e p' q (ep_store p')).
Proof.
  intros Hno Hd. destruct (ep_drain_beside _ _ _ Hd) as [Hb _]. eapply numbers_kept; [exact Hno|done|]. exact (beside_foreign _ _ Hb).
Qed.

Lemma publisher_restart_numbers rs e p q s mq p' :
  numbers_ok rs (mkSystem e p q s) -> ep_start (NewEventPublisher (output e) s mq (ep_eventQueue p)) = (p', None) ->
  numbers_ok rs (mkSystem e p' q (ep_store p')).
Proof.
  unfold ep_start. cbn [ep_store NewEventPublisher]. destruct (LoadMQPublishedCursor s) as [s1 [c|er]] eqn:Hload; [|done].
  destruct (LoadMQPublishedCursor_ok _ _ _ Hload) as [_ Hdb]. intros Hno [= <-].
  eapply numbers_kept; [exact Hno|done|]. cbn. rewrite Hdb. apply foreign_refl.
Qed.

Lemma project_numbers ps rs evss e p q s q' err :
  no_lost_answer -> system_ok ps rs evss (mkSystem e p q s) -> numbers_ok rs (mkSystem e p q s) ->
  dp_drain (dp_attach (output e) s q) = (q', err) -> numbers_ok rs (mkSystem e p q' (dp_store q')).
Proof.
  intros Hnl Hok [N1 N2 N3] Hd. destruct (so_log _ _ _ _ Hok) as (k & Hr & _). pose proof (so_applied _ _ _ _ Hok) as [Hc _].
  pose proof (so_room _ _ _ _ Hok) as Hro. parts.
  assert (Hp : proj_inv (fun rs' c d => rs' = rs /\ applied_ids rs' c d) rs (dp_attach (output e) s q))
    by (split; cbn; [by exists k|done|done|by split]).
  destruct (dp_drain_ok _ (applied_ids_keeps _ _ (room_two64 _ Hro) N2) Hnl _ _ _ _ Hp Hd) as ([_ _ _ [_ Ht]] & _). by split.
Qed.

Lemma projector_restart_numbers rs e p q s q' :
  numbers_ok rs (mkSystem e p q s) -> dp_start (NewDBProjector (output e) s) = (q', None) -> numbers_ok rs (mkSystem e p q' (dp_store q')).
Proof.
  intros [N1 N2 N3]. parts. unfold dp_start. cbn [dp_store NewDBProjector].
  destruct (LoadDBAppliedCursor s) as [s1 [c|er]] eqn:Hload; [|done].
  destruct (LoadDBAppliedCursor_ok _ _ _ Hload) as [-> Hdb]. intros [= <-].
  split; parts; cbn [dp_store dp_cursor dp_set_cursor dp_set_store NewDBProjector]; rewrite ?Hdb; [done..|].
  pose proof N3 as [-> _]. by rewrite Nat2Z.id.
Qed.

Lemma background_numbers ps rs evss y y' :
  no_lost_answer -> background y y' -> system_ok ps rs evss y -> numbers_ok rs y -> numbers_ok rs y'.
Proof.
  intros Hnl [] Hok Hno; [by eapply save_numbers|by eapply publish_numbers|by eapply publisher_restart_numbers
    |by eapply project_numbers|by eapply projector_restart_numbers|by eapply numbers_kept].
Qed.

Lemma tick_numbers rs e p q s e' :
  numbers_ok rs (mkSystem e p q s) -> run_step SnapshotTick e = Done (Running e') -> numbers_ok rs (mkSystem e' p q s).
Proof.
  intros Hno Hrun. destruct (run_SnapshotTick _ _ Hrun) as (err & Hsn). eapply numbers_kept; [exact Hno| |apply foreign_refl].
  unfold snapshot in Hsn. destruct (Serialize _) as [[dat|er]|]; [| |done]; cbn [obind] in Hsn; by injection Hsn as <- _.
Qed.

(** ** Every run *)

Lemma numbers_step ps rs evss y bs y' :
  no_lost_answer -> system_step y bs y' -> system_ok ps rs evss y -> numbers_ok rs y ->
  exists ps' rs' evss', system_ok ps' rs' evss' y' /\ numbers_ok rs' y'.
Proof.
  intros Hnl Hst Hok Hno. destruct Hst.
  - destruct (deliver_numbers ps rs evss e p q s b e') as [->|(r & evs & Hy)]; [done..|by exists ps, rs, evss|].
    by exists (ps ++ [b]), (rs ++ [r]), (evss ++ [evs]).
  - exists ps, rs, evss. split; [by eapply tick_ok|by eapply tick_numbers].
  - exists ps, rs, evss. split; [by eapply reboot_ok|by eapply reboot_numbers].
  - destruct (crash_numbers ps rs evss e p q s b e1 cs e' s1 s2) as (r & evs & Hy); [done..|].
    by exists (ps ++ [b]), (rs ++ [r]), (evss ++ [evs]).
  - exists ps, rs, evss. split; [by eapply background_ok|by eapply background_numbers].
Qed.

Lemma numbers_run ps rs evss y bs y' :
  no_lost_answer -> system_run y bs y' -> system_ok ps rs evss y -> numbers_ok rs y ->
  exists ps' rs' evss', system_ok ps' rs' evss' y' /\ numbers_ok rs' y'.
Proof.
  intros Hnl Hr. revert ps rs evss. induction Hr as [y|y1 bs1 y2 bs2 y3 Hst Hr IH]; intros ps rs evss Hok Hno; [by exists ps, rs, evss|].
  destruct (numbers_step _ _ _ _ _ _ Hnl Hst Hok Hno) as (p1 & r1 & v1 & Hok1 & Hno1). by eapply IH.
Qed.

Lemma new_system_numbers y : new_system y -> numbers_ok [] y.
Proof.
  intros [_ _ _ [_ Hd] _ [Ht Hl] [_ Hc]]. split; [by rewrite Hl|by rewrite Hl|]. rewrite Hc. split; [exact Hd|]. split; [done|].
  exists []. split; [done|]. by rewrite Ht.
Qed.

Lemma system_numbers y0 bs y :
  no_lost_answer -> new_system y0 -> system_run y0 bs y -> exists ps rs evss, system_ok ps rs evss y /\ numbers_ok rs y.
Proof. intros Hnl Hn Hr. eapply numbers_run; [done..|by apply new_system_ok|by apply new_system_numbers]. Qed.
End steps.

(** ** What the ids say of the pending events *)

Lemma trail_emitted st evss rs st' : trail st evss rs st' -> Forall emitted (concat evss).
Proof.
  induction 1 as [st|st st1 st2 env evs evss r rs _ _ Hrep _ IH]; [constructor|]. cbn. apply Forall_app. split; [|done].
  eapply Forall_impl; [apply (rs_faithful _ _ _ Hrep)|]. intros ev Hf. by exists st1.
Qed.

Lemma tells_log_ids evss rs :
  Forall2 tells_of evss rs -> Forall tagged (concat evss) -> log_ids rs = Some (tr_Id <$> trades_of (concat evss)).
Proof.
  induction 1 as [|evs r evss rs Ht _ IH]; [done|]. cbn [concat]. intros [H1' H2']%Forall_app.
  cbn [log_ids]. rewrite (tells_ids _ _ Ht H1'). cbn. rewrite (IH H2'). cbn. by rewrite trades_of_app, fmap_app.
Qed.

Lemma trade_of_ids evs : omap trade_of evs = tr_Id <$> trades_of evs.
Proof. unfold trades_of. induction evs as [|ev evs IH]; [done|]. csimpl. unfold trade_of at 1. destruct (data ev); csimpl; by rewrite IH. Qed.

(** The pending trades have ids of their own, which the table does not have. *)
Lemma pending_numbers ps rs evss y :
  system_ok ps rs evss y -> numbers_ok rs y ->
  let ids := omap trade_of (concat (drop (Z.to_nat (dp_cursor (sy_projector y))) evss)) in
  NoDup ids /\ forall i, i ∈ ids -> i <> 0 /\ trades (st_db (sy_store y)) !! i = None.
Proof.
  intros Hok [_ Hids (Hc & Hle & ids1 & Hids1 & Hd)] ids. destruct (so_applied _ _ _ _ Hok) as (_ & st & _ & (_ & _ & at_c & _ & Ht2 & _)).
  set (c := Z.to_nat _) in *.
  pose proof (tells_log_ids _ _ (trail_tells _ _ _ _ Ht2) (emitted_tagged _ (trail_emitted _ _ _ _ Ht2))) as Hids2.
  rewrite <- trade_of_ids in Hids2. fold ids in Hids2.
  rewrite <- (take_drop c rs) in Hids. apply log_ids_split in Hids as (a1 & a2 & Ha1 & Ha2 & Heq).
  rewrite Hids1 in Ha1. injection Ha1 as <-. rewrite Hids2 in Ha2. injection Ha2 as <-.
  pose proof (NoDup_seqZ 1 (lastTradeID (core (sy_engine y)))) as Hnd. rewrite Heq in Hnd. apply NoDup_app in Hnd as (_ & Hdis & Hnd).
  split; [done|]. intros i Hi. split.
  - assert (Hin : i ∈ seqZ 1 (lastTradeID (core (sy_engine y)))) by (rewrite Heq; set_solver). apply elem_of_seqZ in Hin. lia.
  - apply not_elem_of_dom. rewrite Hd, elem_of_list_to_set. intros Hi1. by apply (Hdis i).
Qed.
End numbering.
