(* ===== verification/Intake.v ===== *)
(** * From the queue to the ledger: no request is lost

    The whole system with the queue of requests in front of it. The goroutine of
    [Deliveries] receives messages and hands them over; the loop of [Run] handles
    one, answers it, and goes on, or ends when an answer fails, the context is
    done or the channel is closed; the process can end at any moment and start
    again, also between the two logs, and then every message that was not
    answered for good is delivered again. A handler that panics or fails after
    the request was logged also ends the process between the logs. [intake_ok]
    says where every message is: in the queue or under delivery, or answered, and
    then it was refused as unreadable or its request is in the input log. *)

From S2P Require Import Prelude Domain Slices OrderBook BookSpec Ledger Snapshot BookSim Events Matching Validation Orders Transfer Admin LedgerSim MatchLoop.
From S2P Require Import Footprint Dedup Wal Metrics Engine Columns Database Storage SnapshotStore Messaging Publisher Projector Frames Recovery Determinism Replays Consistency SnapshotReplay.
From S2P Require Import Windows Consuming Retention Restarts Reporting Feed Mirror Tracking Writing System.

(** Where the loop of [Run] is: at its [select], answering a delivery that was
    handled, or ended. *)
Inductive serving (bytes : Type) :=
  | Selecting
  | Answering (d : Delivery bytes) (r : reply)
  | Ended.
Arguments Selecting {bytes}.
Arguments Answering {bytes} d r.
Arguments Ended {bytes}.

Record intake (bytes log chan queue : Type) := mkIntake {
  it_system : system bytes log chan;
  it_queue : queue;
  it_forwarder : forwarder bytes;
  it_loop : serving bytes;
  it_cancelled : bool
}.
Arguments mkIntake {bytes log chan queue} _ _ _ _ _.
Arguments it_system {bytes log chan queue} _.
Arguments it_queue {bytes log chan queue} _.
Arguments it_forwarder {bytes log chan queue} _.
Arguments it_loop {bytes log chan queue} _.
Arguments it_cancelled {bytes log chan queue} _.

Section intake.
Context `{!Clock} {bytes log chan conf queue : Type} `{!Codec bytes, !CodecLaws bytes, !Proto bytes, !ProtoLaws bytes}.
Context `{!EventCodec bytes, !EventCodecLaws bytes, !Twal bytes log, !TwalLaws bytes log, !Server, !ServerLaws}.
Context `{!Amqp bytes chan conf, !AmqpSpec bytes chan conf, !AmqpConsumer bytes queue, !AmqpConsumerSpec bytes queue}.
Abbreviation engine := (Engine bytes log).
Abbreviation store := (Store bytes).
Abbreviation publisher := (EventPublisher bytes log chan).
Abbreviation projector := (DBProjector bytes log).
Abbreviation system := (system bytes log chan).
Abbreviation intake := (intake bytes log chan queue).
Implicit Types (e : engine) (p : publisher) (q : projector) (s : store) (b : bytes) (ps rs bs : list bytes).
Implicit Types (y : system) (m : queue) (f : forwarder bytes) (l : serving bytes) (w : intake) (d : Delivery bytes).

(** ** The steps, with the messages that other processes put into the queue *)

Inductive intake_step : intake -> list bytes -> intake -> Prop :=
  | in_arrive y m f l c b : intake_step (mkIntake y m f l c) [b] (mkIntake y (Enqueue m b) f l c)
  | in_receive y m m' f f' l c :
      forward_receive m f = (m', f') -> intake_step (mkIntake y m f l c) [] (mkIntake y m' f' l c)
  | in_handle e p q s m f f' d c e' r :
      forward_taken f = Some (d, f') -> room (input e) -> room (output e) ->
      (fresh (dl_payload d) e -> announced (dl_payload d) (state (core e)) (st_db s)) ->
      handle (dl_payload d) e = Done (e', r) -> (forall err, r <> Failed err) -> spacious (output e') ->
      intake_step (mkIntake (mkSystem e p q s) m f Selecting c) [] (mkIntake (mkSystem e' p q s) m f' (Answering d r) c)
  | in_answer y m m' f d r c ok :
      answer_delivery d r m = (m', ok) ->
      intake_step (mkIntake y m f (Answering d r) c) [] (mkIntake y m' f (if ok : bool then Selecting else Ended) c)
  | in_tick e p q s m f c e' :
      wf_state (state (core e)) -> run_step SnapshotTick e = Done (Running e') ->
      intake_step (mkIntake (mkSystem e p q s) m f Selecting c) [] (mkIntake (mkSystem e' p q s) m f Selecting c)
  | in_background y y' m f l c :
      background y y' -> intake_step (mkIntake y m f l c) [] (mkIntake y' m f l c)
  | in_cancel y m f l c : intake_step (mkIntake y m f l c) [] (mkIntake y m f l true)
  | in_forwarder_stops y m f l : intake_step (mkIntake y m f l true) [] (mkIntake y m Closed l true)
  | in_channel_ends y m l c : intake_step (mkIntake y m Receiving l c) [] (mkIntake y m Closed l c)
  | in_loop_ends y m f c :
      c = true \/ f = Closed -> intake_step (mkIntake y m f Selecting c) [] (mkIntake y m f Ended c)
  | in_restart e p q s m f l c s1 s2 cs e' :
      rebooted (input e) (output e) s cs e' s1 -> load_cursors s1 = (s2, cs) ->
      intake_step (mkIntake (mkSystem e p q s) m f l c) []
        (mkIntake (mkSystem e' p q s2) (Reopen m) Receiving Selecting false)
  | in_crash e p q s m f f' d c e1 s1 s2 cs e' :
      forward_taken f = Some (d, f') -> room (input e) -> room (output e) ->
      announced (dl_payload d) (state (core e)) (st_db s) -> crashed (dl_payload d) e e1 ->
      rebooted (input e1) (output e1) s cs e' s1 -> load_cursors s1 = (s2, cs) -> spacious (output e') ->
      intake_step (mkIntake (mkSystem e p q s) m f Selecting c) []
        (mkIntake (mkSystem e' p q s2) (Reopen m) Receiving Selecting false).

(** A run, with the messages that arrived. *)
Inductive intake_run : intake -> list bytes -> intake -> Prop :=
  | intake_run_nil w : intake_run w [] w
  | intake_run_cons w1 bs1 w2 bs2 w3 : intake_step w1 bs1 w2 -> intake_run w2 bs2 w3 -> intake_run w1 (bs1 ++ bs2) w3.

(** ** Where the messages are *)

(** Discarded by the engine whatever its state is. *)
Definition refused b : Prop := forall e, handle b e = Done (e, Nack false).

(** Refused, or a request of its kind and with its id was logged. *)
Definition settled ps b : Prop := refused b \/ exists r, request b = Some r /\ r ∈ omap request ps.

Record intake_ok bs ps rs (evss : list (list outEvent)) w : Prop := {
  ik_system : system_ok ps rs evss (it_system w);
  ik_windows : remembered ps (dups (sy_engine (it_system w)));
  ik_messages : bs ≡ₚ held (it_queue w) ++ gone (it_queue w);
  ik_gone : Forall (settled ps) (gone (it_queue w));
  ik_logged : Forall (fun b => b ∈ bs) ps;
  ik_handing d : it_forwarder w = Handing d -> unacked (it_queue w) !! dl_tag d = Some (dl_payload d);
  ik_answering d r : it_loop w = Answering d r ->
    unacked (it_queue w) !! dl_tag d = Some (dl_payload d) /\ (r = Ack \/ r = Nack false) /\ settled ps (dl_payload d);
  ik_tags d d' r : it_forwarder w = Handing d -> it_loop w = Answering d' r -> dl_tag d <> dl_tag d';
  ik_once : Forall numbered bs -> spaced ps /\ known_requests ps (dups (sy_engine (it_system w)))
}.

(** ** Handling a message *)

(** A handler discards its message before it looks at the state, or not at all. *)
Ltac discards Hh :=
  lazymatch type of Hh with
  | obind ?m _ = Done _ => destruct m; cbn [obind] in Hh; [discards Hh|discriminate Hh]
  | (match ?x with _ => _ end) = Done _ => destruct x; discards Hh
  | Done _ = Done _ => first [discriminate Hh|injection Hh as _ <-; by split]
  | _ => discriminate Hh
  end.

Lemma handle_nack b e e' rq : handle b e = Done (e', Nack rq) -> rq = false /\ refused b.
Proof.
  unfold refused, handle. intros Hh. destruct (Unmarshal_envelope b) as [[pat dat]|]; [|discards Hh].
  destruct (String.eqb pat _); [unfold handleOrder in *; destruct (Unmarshal_Order dat); discards Hh|].
  destruct (String.eqb pat _); [unfold handleAccountCreated in *; destruct (Unmarshal_Account dat) as [a|]; [destruct (Z.leb (acc_Id a) 0)|]; discards Hh|].
  destruct (String.eqb pat _); [unfold handleTransferCreated in *; destruct (Unmarshal_Transfer dat); discards Hh|].
  destruct (String.eqb pat _); [unfold handleStockListed in *; destruct (Unmarshal_Stock dat) as [a|]; [destruct (Z.leb (st_Id a) 0)|]; discards Hh|].
  destruct (String.eqb pat _); [unfold handleAdminBalanceAdjust in *; destruct (Unmarshal_BalanceAdjust dat); discards Hh|].
  destruct (String.eqb pat _); [unfold handleAdminStockBalanceAdjust in *; destruct (Unmarshal_StockBalanceAdjust dat); discards Hh|].
  discards Hh.
Qed.

(** A request that is accepted is logged and enters the window of its kind. *)
Lemma accepted_logs b e e' ps snaps :
  in_step e ps snaps -> room (input e) -> accepted b e e' ->
  exists kind id, request b = Some (kind, id) /\ dedup_has (dups e) kind id = false /\
    dedup_add (dups e) kind id = Done (dups e') /\ inputSeq (core e') = Z.of_nat (length ps) + 1.
Proof.
  intros Hs Hri [(pat & dat & id & e1 & Henv & Hk & Hid & Hdup & Hlog & Hrec)].
  destruct (logInput_logged _ _ _ _ _ _ _ _ Hs Hri Henv Hk Hid Hlog) as (_ & Hs1 & _ & _ & Ha1).
  assert (Hadd : dedup_add (dups e) pat id = Done (dups e1)).
  { destruct Hs as [(f & Hkp) _ _ _ _ _ _]. destruct (kept_next _ _ _ _ Hkp) as [_ Hst].
    by destruct (logInput_logs _ _ _ _ _ _ _ (kp_holds _ _ _ _ Hkp) Hst Hri Hlog) as (_ & _ & _ & _ & _ & _ & ?). }
  pose proof (is_applied _ _ _ Hs) as Happ. rewrite <- Ha1 in Happ. rewrite Hs1 in Hrec.
  destruct (record_effect _ b _ _ _ _ _ Happ Henv Hk Hid Hrec) as [_ [_ Hd _ Hseq _]].
  exists pat, id. split_and!; [unfold request; by rewrite Henv, Hid|done|by rewrite Hd|done].
Qed.

Lemma request_of b pat dat id :
  Unmarshal_envelope b = Some (pat, dat) -> request_id pat dat = Some (Some id) -> request b = Some (pat, id).
Proof. intros Henv Hid. unfold request. by rewrite Henv, Hid. Qed.

(** A message is refused, known, or logged with its record. *)
Lemma handle_message ps rs evss e p q s b e' r :
  system_ok ps rs evss (mkSystem e p q s) -> room (input e) -> room (output e) ->
  (fresh b e -> announced b (state (core e)) (st_db s)) -> handle b e = Done (e', r) -> (forall err, r <> Failed err) ->
  spacious (output e') ->
  (e' = e /\ ((r = Nack false /\ refused b) \/
     (r = Ack /\ exists kind id, request b = Some (kind, id) /\ dedup_has (dups e) kind id = true))) \/
  (r = Ack /\ exists kind id rec evs, request b = Some (kind, id) /\ dedup_has (dups e) kind id = false /\
     dedup_add (dups e) kind id = Done (dups e') /\ system_ok (ps ++ [b]) (rs ++ [rec]) (evss ++ [evs]) (mkSystem e' p q s)).
Proof.
  intros Hok Hri Hro Hann Hh Hnf Hsp.
  assert (Hrun : run_step (Deliver b) e = Done (Running e')).
  { cbn [run_step]. rewrite Hh. cbn [obind]. destruct r as [| |err]; [done..|]. by destruct (Hnf err). }
  destruct (handle_cases _ _ _ _ Hh Hnf) as [[-> Hr]|[-> Ha]]; [left|right]; (split; [done|]).
  - destruct r as [|rq|err]; [|left; by destruct (handle_nack _ _ _ _ Hh) as [-> ?]|by destruct (Hnf err)].
    right. destruct Hr as [?|(pat & dat & id & Henv & Hid & Hd)]; [done|]. split; [done|]. exists pat, id.
    split; [by eapply request_of|done].
  - pose proof (so_step _ _ _ _ Hok) as Hstep. cbn [sy_engine sy_store] in Hstep.
    destruct (accepted_logs _ _ _ _ _ Hstep Hri Ha) as (kind & id & Hr & Hd & Hadd & Hseq).
    destruct (deliver_ok ps rs evss e p q s b e' Hok Hri Hro Hann Hrun Hsp) as [->|(rec & evs & Hy)].
    + exfalso. pose proof (is_seq _ _ _ Hstep). lia.
    + by exists kind, id, rec, evs.
Qed.

(** ** Restarting *)

Lemma reboot_windows e ps snaps (s s' : store) cs e' :
  in_step e ps snaps -> rebooted (input e) (output e) s cs e' s' ->
  dedup_adds (newDedup dedupWindow) (omap request (recent ps)) = Done (dups e').
Proof.
  intros Hs Hb. destruct (rebooted_dups _ _ _ _ _ _ Hb) as (e0 & Hne & ->).
  destruct (restart_in_step _ _ _ Hs) as (e0' & Hne' & Hd & _). rewrite Hne in Hne'. by injection Hne' as <-.
Qed.

Lemma crash_windows e ps b e1 snaps (s s' : store) cs e' :
  in_step e ps snaps -> room (input e) -> crashed b e e1 -> rebooted (input e1) (output e1) s cs e' s' ->
  dedup_adds (newDedup dedupWindow) (omap request (recent (ps ++ [b]))) = Done (dups e') /\
  exists kind id, request b = Some (kind, id) /\ dedup_has (dups e) kind id = false /\ dedup_add (dups e) kind id = Done (dups e1).
Proof.
  intros Hs Hri [(pat & dat & id & Henv & Hk & Hid & Hdup & Hlog) _] Hb.
  destruct (rebooted_dups _ _ _ _ _ _ Hb) as (e0 & Hne & ->).
  destruct (logInput_logged _ _ _ _ _ _ _ _ Hs Hri Henv Hk Hid Hlog) as (Hl & _).
  destruct (restart_logged _ _ _ _ Hl) as (e0' & Hne' & Hd & _). rewrite Hne in Hne'. injection Hne' as <-. split; [done|].
  exists pat, id. split_and!; [by eapply request_of|done|].
  destruct Hs as [(f & Hkp) _ _ _ _ _ _]. destruct (kept_next _ _ _ _ Hkp) as [_ Hst].
  by destruct (logInput_logs _ _ _ _ _ _ _ (kp_holds _ _ _ _ Hkp) Hst Hri Hlog) as (_ & _ & _ & _ & _ & _ & ?).
Qed.

(** ** Every step keeps the messages accounted for *)

Lemma settled_more ps qs b : settled ps b -> settled (ps ++ qs) b.
Proof. intros [?|(r & Hr & Hin)]; [by left|right]. exists r. split; [done|]. rewrite omap_app. apply elem_of_app. by left. Qed.

Lemma settled_all_more ps qs bs : Forall (settled ps) bs -> Forall (settled (ps ++ qs)) bs.
Proof. intros Hs. eapply Forall_impl; [exact Hs|]. intros b. apply settled_more. Qed.

Lemma settled_last ps b r : request b = Some r -> settled (ps ++ [b]) b.
Proof. intros Hr. right. exists r. split; [done|]. apply list_elem_of_omap. exists b. split; [set_solver|done]. Qed.

Lemma same_queue_all m m' : same_queue m m' -> held m' = held m /\ gone m' = gone m /\ unacked m' = unacked m.
Proof. intros (Hr & Hu & Ha & Hm). unfold held, gone. by rewrite Hr, Hu, Ha, Hm. Qed.

Lemma forward_taken_Some f d f' : forward_taken f = Some (d, f') -> f = Handing d /\ f' = Receiving.
Proof. destruct f; cbn; [done| |done]. by intros [= <- <-]. Qed.

Ltac fields := cbn [it_system it_queue it_forwarder it_loop it_cancelled sy_engine sy_publisher sy_projector sy_store] in *.

(** Nothing but the place of the goroutines changes. *)
Lemma control_ok bs ps rs evss y m f f' l l' c c' :
  intake_ok bs ps rs evss (mkIntake y m f l c) -> (f' = f \/ f' = Closed) -> (l' = l \/ l' = Ended) ->
  intake_ok bs ps rs evss (mkIntake y m f' l' c').
Proof.
  intros [I1 I2 I3 I4 I5 I6 I7 I8 I9] Hf Hl. fields. split; fields; try done.
  - intros d Hd. destruct Hf as [->| ->]; [by apply I6|done].
  - intros d r Hd. destruct Hl as [->| ->]; [by apply I7|done].
  - intros d d' r Hd Hd'. destruct Hf as [->| ->], Hl as [->| ->]; try done. by eapply I8.
Qed.

(** The queue changes and nothing is answered. *)
Lemma queue_ok bs bs' ps rs evss y m m' f l c :
  intake_ok bs ps rs evss (mkIntake y m f l c) -> held m' ≡ₚ bs' ++ held m -> gone m' = gone m ->
  (forall t, is_Some (unacked m !! t) -> unacked m' !! t = unacked m !! t) ->
  intake_ok (bs ++ bs') ps rs evss (mkIntake y m' f l c).
Proof.
  intros [I1 I2 I3 I4 I5 I6 I7 I8 I9] Hh Hg Hu. fields. split; fields; rewrite ?Hg; try done.
  - rewrite Hh, I3, <- app_assoc. rewrite (Permutation_app_comm bs'), <- !app_assoc. f_equiv. apply Permutation_app_comm.
  - eapply Forall_impl; [exact I5|]. intros b. set_solver.
  - intros d Hd. rewrite Hu; rewrite (I6 d Hd); by try eexists.
  - intros d r Hd. destruct (I7 d r Hd) as (Ht & Hr & Hs). rewrite Hu; rewrite Ht; [done|by eexists].
  - intros [Hn _]%Forall_app. by apply I9.
Qed.

Lemma receive_ok bs ps rs evss y m m' f f' l c :
  intake_ok bs ps rs evss (mkIntake y m f l c) -> forward_receive m f = (m', f') ->
  intake_ok bs ps rs evss (mkIntake y m' f' l c).
Proof.
  intros Hok. destruct f as [|d|]; cbn [forward_receive]; [|by intros [= <- <-]..].
  destruct (Receive m) as [m1 [[t b]|]] eqn:Hr; intros [= <- <-].
  - destruct (receive_held _ _ _ _ Hr) as [Hh Hg]. destruct (receive_some _ _ _ _ Hr) as (Hn & Hu & _).
    assert (Hok' : intake_ok (bs ++ []) ps rs evss (mkIntake y m1 Receiving l c)).
    { apply (queue_ok _ _ _ _ _ _ m); [done|done|done|]. intros t' [b' Ht']. rewrite Hu. apply lookup_insert_ne. by intros <-; rewrite Hn in Ht'. }
    rewrite app_nil_r in Hok'. destruct Hok' as [I1 I2 I3 I4 I5 I6 I7 I8 I9]. fields. split; fields; try done.
    + intros d [= <-]. cbn. rewrite Hu. apply lookup_insert_eq.
    + intros d d' r [= <-] Hl. cbn. destruct (ik_answering _ _ _ _ _ Hok d' r Hl) as [Ht _]. fields.
      intros ->. by rewrite Hn in Ht.
  - destruct (same_queue_all _ _ (receive_none _ _ Hr)) as (Hh & Hg & Hu). rewrite <- (app_nil_r bs).
    apply (queue_ok _ _ _ _ _ _ m); [done|by rewrite Hh|done|]. by rewrite Hu.
Qed.

Lemma answer_ok bs ps rs evss y m m' f d r c ok :
  intake_ok bs ps rs evss (mkIntake y m f (Answering d r) c) -> answer_delivery d r m = (m', ok) ->
  intake_ok bs ps rs evss (mkIntake y m' f (if ok : bool then Selecting else Ended) c).
Proof.
  intros Hok Ha. pose proof Hok as [I1 I2 I3 I4 I5 I6 I7 I8 I9]. fields. destruct (I7 d r eq_refl) as (Ht & Hr & Hs).
  destruct (answer_delivery_cases _ _ _ _ _ Hr Ha) as [[-> Hq]|Hq].
  - destruct (same_queue_all _ _ Hq) as (Hh & Hg & Hu).
    apply (control_ok _ _ _ _ _ _ f f (Answering d r) Ended c c); [|by left|by right]. rewrite <- (app_nil_r bs).
    apply (queue_ok _ _ _ _ _ _ m); [done|by rewrite Hh|done|]. by rewrite Hu.
  - destruct (answers_held _ _ _ Hq) as (b & Hb & Hh & Hg). rewrite Ht in Hb. injection Hb as <-.
    destruct Hq as (b' & _ & Hu & _). split; fields; rewrite ?Hg; try done.
    + rewrite I3, Hh, app_assoc. apply Permutation_cons_append.
    + apply Forall_app. split; [done|]. by apply Forall_singleton.
    + intros d1 Hd1. rewrite Hu, lookup_delete_ne; [by apply I6|]. symmetry. by eapply I8.
    + by destruct ok.
    + by destruct ok.
Qed.

(** The request of [b] was logged, with its record. *)
Lemma logged_once bs ps b kind id (ws ws' : dedup) :
  (Forall numbered bs -> spaced ps /\ known_requests ps ws) -> b ∈ bs -> request b = Some (kind, id) ->
  dedup_has ws kind id = false -> dedup_add ws kind id = Done ws' ->
  Forall numbered bs -> spaced (ps ++ [b]) /\ known_requests (ps ++ [b]) ws'.
Proof.
  intros Ho Hb Hr Hd Ha Hn. destruct (Ho Hn) as [Hs Hk]. rewrite Forall_forall in Hn.
  destruct (known_add ps b ws kind id ws' Hk Hs (Hn b Hb) Hr Hd Ha). done.
Qed.

Lemma handing_arrived bs ps rs evss w d : intake_ok bs ps rs evss w -> it_forwarder w = Handing d -> dl_payload d ∈ bs.
Proof.
  intros Hok Hf. rewrite (ik_messages _ _ _ _ _ Hok). apply elem_of_app. left.
  eapply held_unacked. by apply (ik_handing _ _ _ _ _ Hok).
Qed.

Lemma logged_more bs ps b : Forall (fun b => b ∈ bs) ps -> b ∈ bs -> Forall (fun b => b ∈ bs) (ps ++ [b]).
Proof. intros Hp Hb. apply Forall_app. split; [done|]. by apply Forall_singleton. Qed.

Lemma handle_ok bs ps rs evss e p q s m f f' d c e' r :
  intake_ok bs ps rs evss (mkIntake (mkSystem e p q s) m f Selecting c) ->
  forward_taken f = Some (d, f') -> room (input e) -> room (output e) ->
  (fresh (dl_payload d) e -> announced (dl_payload d) (state (core e)) (st_db s)) ->
  handle (dl_payload d) e = Done (e', r) -> (forall err, r <> Failed err) -> spacious (output e') ->
  let w' := mkIntake (mkSystem e' p q s) m f' (Answering d r) c in
  (intake_ok bs ps rs evss w' /\ ((r = Nack false /\ refused (dl_payload d)) \/
     (r = Ack /\ exists kind id, request (dl_payload d) = Some (kind, id) /\ dedup_has (dups e) kind id = true))) \/
  (r = Ack /\ exists kind id rec evs, request (dl_payload d) = Some (kind, id) /\ dedup_has (dups e) kind id = false /\
     intake_ok bs (ps ++ [dl_payload d]) (rs ++ [rec]) (evss ++ [evs]) w').
Proof.
  intros Hok [-> ->]%forward_taken_Some Hri Hro Hann Hh Hnf Hsp w'. pose proof (handing_arrived _ _ _ _ _ _ Hok eq_refl) as Hb.
  pose proof Hok as [I1 I2 I3 I4 I5 I6 I7 I8 I9]. fields. pose proof (I6 d eq_refl) as Ht.
  destruct (handle_message _ _ _ _ _ _ _ _ _ _ I1 Hri Hro Hann Hh Hnf Hsp)
    as [[-> Hr]|(-> & kind & id & rec & evs & Hrq & Hd & Ha & Hsys)]; [left; split; [|done]|right; split; [done|]].
  - split; fields; try done. intros d1 r1 [= <- <-]. split; [done|].
    destruct Hr as [[-> Hr]|(-> & kind & id & Hr & Hd)]; [split; [by right|by left]|]. split; [by left|]. right.
    exists (kind, id). split; [done|]. by apply I2.
  - exists kind, id, rec, evs. split_and!; [done..|]. split; fields; try done.
    + by eapply remembered_add.
    + by apply settled_all_more.
    + by apply logged_more.
    + intros d1 r1 [= <- <-]. split_and!; [done|by left|by eapply settled_last].
    + by eapply logged_once.
Qed.

Lemma arrive_ok bs ps rs evss y m f l c b :
  intake_ok bs ps rs evss (mkIntake y m f l c) -> intake_ok (bs ++ [b]) ps rs evss (mkIntake y (Enqueue m b) f l c).
Proof.
  intros Hok. destruct (enqueue_queued m b) as (Hr & Hu & Ha & Hm).
  apply (queue_ok _ _ _ _ _ _ m); [done|unfold held; by rewrite Hr, Hu|unfold gone; by rewrite Ha, Hm|by rewrite Hu].
Qed.

Lemma ticked_ok bs ps rs evss e p q s m f l c e' :
  intake_ok bs ps rs evss (mkIntake (mkSystem e p q s) m f l c) -> wf_state (state (core e)) ->
  run_step SnapshotTick e = Done (Running e') -> intake_ok bs ps rs evss (mkIntake (mkSystem e' p q s) m f l c).
Proof.
  intros [I1 I2 I3 I4 I5 I6 I7 I8 I9] Hwf Hrun. fields.
  assert (Hd : dups e' = dups e).
  { destruct (run_SnapshotTick _ _ Hrun) as (err & Hsn). unfold snapshot in Hsn.
    destruct (Serialize _) as [[dat|er]|]; [| |done]; cbn [obind] in Hsn; by injection Hsn as <- _. }
  split; fields; rewrite ?Hd; try done. by eapply tick_ok.
Qed.

Lemma beside_ok bs ps rs evss y y' m f l c :
  no_lost_answer -> (forall v : log, stable v) ->
  intake_ok bs ps rs evss (mkIntake y m f l c) -> background y y' -> intake_ok bs ps rs evss (mkIntake y' m f l c).
Proof.
  intros Hnl Hsta [I1 I2 I3 I4 I5 I6 I7 I8 I9] Hbg. pose proof (background_dups _ _ Hbg) as Hd. fields.
  split; fields; rewrite ?Hd; try done. by eapply background_ok.
Qed.

(** After a start-up the connection is new. *)
Lemma reopen_ok bs ps ps' rs evss rs' evss' w y' :
  intake_ok bs ps rs evss w -> system_ok (ps ++ ps') rs' evss' y' -> Forall (fun b => b ∈ bs) (ps ++ ps') ->
  dedup_adds (newDedup dedupWindow) (omap request (recent (ps ++ ps'))) = Done (dups (sy_engine y')) ->
  (Forall numbered bs -> spaced (ps ++ ps')) ->
  intake_ok bs (ps ++ ps') rs' evss' (mkIntake y' (Reopen (it_queue w)) Receiving Selecting false).
Proof.
  intros [I1 I2 I3 I4 I5 I6 I7 I8 I9] Hsys Hin Hd Hsp. destruct (reopen_held (it_queue w)) as (lost & Hg & Hh & Hu).
  split; fields; try done.
  - by apply remembered_load.
  - rewrite I3, Hg, Hh. by rewrite app_assoc.
  - rewrite Hg in I4. apply Forall_app in I4 as [_ I4]. by apply settled_all_more.
  - intros Hn. split; [auto|]. apply known_load; [auto| |done]. rewrite Forall_forall in Hn, Hin |- *. auto.
Qed.

Lemma restarted_ok bs ps rs evss e p q s m f l c s1 s2 cs e' :
  (forall v : log, stable v) -> intake_ok bs ps rs evss (mkIntake (mkSystem e p q s) m f l c) ->
  rebooted (input e) (output e) s cs e' s1 -> load_cursors s1 = (s2, cs) ->
  intake_ok bs ps rs evss (mkIntake (mkSystem e' p q s2) (Reopen m) Receiving Selecting false).
Proof.
  intros Hsta Hok Hb Hload. rewrite <- (app_nil_r ps). pose proof (ik_system _ _ _ _ _ Hok) as Hsys. fields.
  apply (reopen_ok _ _ _ _ _ _ _ _ _ Hok); rewrite ?app_nil_r; [by eapply reboot_ok|apply Hok| |].
  - eapply reboot_windows; [exact (so_step _ _ _ _ Hsys)|exact Hb].
  - intros Hn. by apply (ik_once _ _ _ _ _ Hok).
Qed.

Lemma recovered_ok bs ps rs evss e p q s m f f' d c e1 s1 s2 cs e' :
  (forall v : log, stable v) -> intake_ok bs ps rs evss (mkIntake (mkSystem e p q s) m f Selecting c) ->
  forward_taken f = Some (d, f') -> room (input e) -> room (output e) ->
  announced (dl_payload d) (state (core e)) (st_db s) -> crashed (dl_payload d) e e1 ->
  rebooted (input e1) (output e1) s cs e' s1 -> load_cursors s1 = (s2, cs) -> spacious (output e') ->
  exists kind id r evs, request (dl_payload d) = Some (kind, id) /\ dedup_has (dups e) kind id = false /\
    intake_ok bs (ps ++ [dl_payload d]) (rs ++ [r]) (evss ++ [evs])
      (mkIntake (mkSystem e' p q s2) (Reopen m) Receiving Selecting false).
Proof.
  intros Hsta Hok [-> ->]%forward_taken_Some Hri Hro Hann Hcr Hb Hload Hsp.
  pose proof (handing_arrived _ _ _ _ _ _ Hok eq_refl) as Hin. pose proof (ik_system _ _ _ _ _ Hok) as Hsys. fields.
  destruct (crash_windows _ _ _ _ _ _ _ _ _ (so_step _ _ _ _ Hsys) Hri Hcr Hb) as (Hd & kind & id & Hrq & Hh & Ha).
  destruct (sys_crash_ok Hsta _ _ _ _ _ _ _ _ _ _ _ _ _ Hsys Hri Hro Hann Hcr Hb Hload Hsp) as (r & evs & Hsys').
  exists kind, id, r, evs. split_and!; [done..|]. apply (reopen_ok _ _ _ _ _ _ _ _ _ Hok); [done| |exact Hd|].
  - apply logged_more; [apply Hok|done].
  - intros Hn. by destruct (logged_once _ _ _ _ _ _ _ (ik_once _ _ _ _ _ Hok) Hin Hrq Hh Ha Hn).
Qed.

Lemma intake_step_ok bs ps rs evss w bs' w' :
  no_lost_answer -> (forall v : log, stable v) -> intake_step w bs' w' -> intake_ok bs ps rs evss w ->
  exists ps' rs' evss', intake_ok (bs ++ bs') (ps ++ ps') (rs ++ rs') (evss ++ evss') w'.
Proof.
  intros Hnl Hsta Hst Hok.
  assert (Hsame : intake_ok (bs ++ bs') ps rs evss w' ->
    exists ps' rs' evss', intake_ok (bs ++ bs') (ps ++ ps') (rs ++ rs') (evss ++ evss') w').
  { intros Hw. exists [], [], []. by rewrite !app_nil_r. }
  destruct Hst as [y m f l c b|y m m' f f' l c Hr|e p q s m f f' d c e' r Hf Hri Hro Hann Hh Hnf Hsp
    |y m m' f d r c ok Ha|e p q s m f c e' Hwf Hrun|y y' m f l c Hbg|y m f l c|y m f l|y m l c|y m f c _
    |e p q s m f l c s1 s2 cs e' Hb Hload|e p q s m f f' d c e1 s1 s2 cs e' Hf Hri Hro Hann Hcr Hb Hload Hsp];
    rewrite ?(app_nil_r bs) in *.
  - apply Hsame. by apply arrive_ok.
  - apply Hsame. by eapply receive_ok.
  - destruct (handle_ok _ _ _ _ _ _ _ _ _ _ _ _ _ _ _ Hok Hf Hri Hro Hann Hh Hnf Hsp)
      as [[Hok' _]|(_ & kind & id & rec & evs & _ & _ & Hok')]; [by apply Hsame|].
    by exists [dl_payload d], [rec], [evs].
  - apply Hsame. by eapply answer_ok.
  - apply Hsame. by eapply ticked_ok.
  - apply Hsame. by eapply beside_ok.
  - apply Hsame. eapply control_ok; [exact Hok|by left|by left].
  - apply Hsame. eapply control_ok; [exact Hok|by right|by left].
  - apply Hsame. eapply control_ok; [exact Hok|by right|by left].
  - apply Hsame. eapply control_ok; [exact Hok|by left|by right].
  - apply Hsame. by eapply restarted_ok.
  - destruct (recovered_ok _ _ _ _ _ _ _ _ _ _ _ _ _ _ _ _ _ _ Hsta Hok Hf Hri Hro Hann Hcr Hb Hload Hsp)
      as (kind & id & r & evs & _ & _ & Hok'). by exists [dl_payload d], [r], [evs].
Qed.

Lemma intake_run_ok bs ps rs evss w bs' w' :
  no_lost_answer -> (forall v : log, stable v) -> intake_run w bs' w' -> intake_ok bs ps rs evss w ->
  exists ps' rs' evss', intake_ok (bs ++ bs') (ps ++ ps') (rs ++ rs') (evss ++ evss') w'.
Proof.
  intros Hnl Hsta Hr. revert bs ps rs evss. induction Hr as [w|w1 bs1 w2 bs2 w3 Hst Hr IH]; intros bs ps rs evss Hok.
  - exists [], [], []. by rewrite !app_nil_r.
  - destruct (intake_step_ok _ _ _ _ _ _ _ Hnl Hsta Hst Hok) as (p1 & r1 & v1 & Hok1).
    destruct (IH _ _ _ _ Hok1) as (p2 & r2 & v2 & Hok2). exists (p1 ++ p2), (r1 ++ r2), (v1 ++ v2). by rewrite !app_assoc.
Qed.

(** ** What became of a logged request *)

(** A record is where each consumer looks for it, or behind it already. *)
Lemma record_kept ps rs evss y i r :
  system_ok ps rs evss y -> rs !! i = Some r ->
  (Z.of_nat i < ep_cursor (sy_publisher y) \/ Read (output (sy_engine y)) (Z.of_nat i + 1) = inl r) /\
  (Z.of_nat i < dp_cursor (sy_projector y) \/ Read (output (sy_engine y)) (Z.of_nat i + 1) = inl r).
Proof.
  intros Hok Hr. destruct (so_log _ _ _ _ Hok) as (k & Hret & Hk1 & Hk2).
  destruct (so_published _ _ _ _ Hok) as (_ & Hmq & _). destruct (system_mirrors _ _ _ _ Hok) as (_ & _ & _ & Hdb & _).
  pose proof (retains_read _ _ _ i Hret) as Hread. rewrite Hr in Hread. rewrite Hmq in Hk1. rewrite Hdb in Hk2.
  case_decide; [split; by right|]. split; left; lia.
Qed.

Lemma logged_record ps rs evss y r :
  system_ok ps rs evss y -> r ∈ omap request ps ->
  exists i (p rec : bytes), ps !! i = Some p /\ request p = Some r /\ rs !! i = Some rec /\ answers p rec /\
    (Z.of_nat i < ep_cursor (sy_publisher y) \/ Read (output (sy_engine y)) (Z.of_nat i + 1) = inl rec) /\
    (Z.of_nat i < dp_cursor (sy_projector y) \/ Read (output (sy_engine y)) (Z.of_nat i + 1) = inl rec).
Proof.
  intros Hok (p & [i Hi]%list_elem_of_lookup & Hp)%list_elem_of_omap.
  destruct (Forall2_lookup_l _ _ _ _ _ (so_answers _ _ _ _ Hok) Hi) as (rec & Hr & Ha).
  exists i, p, rec. split_and!; [done..|by eapply record_kept|by eapply record_kept].
Qed.

(** ** A new installation in front of an empty queue *)

Record new_intake w : Prop := {
  ni_system : new_system (it_system w);
  ni_windows : dups (sy_engine (it_system w)) = newDedup dedupWindow;
  ni_queue : held (it_queue w) = [] /\ gone (it_queue w) = [];
  ni_idle : it_forwarder w = Receiving /\ it_loop w = Selecting
}.

Lemma new_intake_ok w : new_intake w -> intake_ok [] [] [] [] w.
Proof.
  intros [Hs Hd [Hh Hg] [Hf Hl]]. split; rewrite ?Hd, ?Hh, ?Hg, ?Hf, ?Hl; try done.
  - by apply new_system_ok.
  - intros _. split; [by intros i j p q r|]. by apply known_load.
Qed.
End intake.
