(* ===== verification/ExactlyOnce.v ===== *)
(** * Exactly once, in order

    A broker that delivers in order, and again only the latest deliveries of a
    connection that ended, together with the duplicate windows, which are longer
    than the number of outstanding deliveries, makes the engine process every
    request exactly once: the history of the ledger is the list of the valid
    requests among the first messages, in the order in which they arrived.
    [exact n bs ps w] says so and where the goroutines are in that list. *)

From S2P Require Import Prelude Domain Slices OrderBook BookSpec Ledger Snapshot BookSim Events Matching Validation Orders Transfer Admin LedgerSim MatchLoop.
From S2P Require Import Footprint Dedup Wal Metrics Engine Columns Database Storage SnapshotStore Messaging Publisher Projector Frames Recovery Determinism Replays Consistency SnapshotReplay.
From S2P Require Import Windows Consuming Retention Restarts Reporting Feed Mirror Tracking Writing System Intake.

Section exactly_once.
Context `{!Clock} {bytes log chan conf queue : Type} `{!Codec bytes, !CodecLaws bytes, !Proto bytes, !ProtoLaws bytes}.
Context `{!EventCodec bytes, !EventCodecLaws bytes, !Twal bytes log, !TwalLaws bytes log, !Server, !ServerLaws}.
Context `{!Amqp bytes chan conf, !AmqpSpec bytes chan conf, !AmqpConsumer bytes queue, !AmqpConsumerSpec bytes queue}.
Context `{!AmqpOrderedSpec bytes queue}.
Abbreviation engine := (Engine bytes log).
Abbreviation store := (Store bytes).
Abbreviation publisher := (EventPublisher bytes log chan).
Abbreviation projector := (DBProjector bytes log).
Abbreviation system := (system bytes log chan).
Abbreviation intake := (intake bytes log chan queue).
Implicit Types (e : engine) (p : publisher) (q : projector) (s : store) (b : bytes) (ps rs bs : list bytes).
Implicit Types (y : system) (m : queue) (f : forwarder bytes) (l : serving bytes) (w : intake) (d : Delivery bytes).

Abbreviation validated l := (filter (fun b => valid b = true) l).

(** ** Where the goroutines are in the list of messages *)

(** The first [n] messages were handled at least once; [h] of the deliveries on
    this connection were handled, [a] of them answered. *)
Record exact bs ps (n h a : nat) w : Prop := {
  ex_list : bs = removed (it_queue w) ++ (delivered (it_queue w)).*2 ++ queued (it_queue w);
  ex_logged : ps = validated (take n bs);
  ex_bound : (n <= length bs)%nat;
  ex_handled : (a <= h <= length (delivered (it_queue w)))%nat;
  ex_latest : n = (length (removed (it_queue w)) + h)%nat \/
    ((length (removed (it_queue w)) + h < n)%nat /\ (n <= length (removed (it_queue w)) + prefetch)%nat);
  ex_tags : NoDup (delivered (it_queue w)).*1;
  ex_answered i t b : delivered (it_queue w) !! i = Some (t, b) -> (unacked (it_queue w) !! t = None <-> (i < a)%nat);
  ex_forwarder : match it_forwarder w with
    | Receiving => length (delivered (it_queue w)) = h
    | Handing d => length (delivered (it_queue w)) = S h /\ delivered (it_queue w) !! h = Some (dl_tag d, dl_payload d)
    | Closed => True
    end;
  ex_loop : match it_loop w with
    | Selecting => a = h
    | Answering d r => S a = h /\ delivered (it_queue w) !! a = Some (dl_tag d, dl_payload d) /\ (r = Ack \/ r = Nack false)
    | Ended => True
    end
}.

Ltac fields := cbn [it_system it_queue it_forwarder it_loop it_cancelled sy_engine sy_publisher sy_projector sy_store] in *.

(** Nothing but the place of the goroutines and the system changes. *)
Lemma exact_control bs ps n h a y y' m f f' l l' c c' :
  exact bs ps n h a (mkIntake y m f l c) -> (f' = f \/ f' = Closed) -> (l' = l \/ l' = Ended) ->
  exact bs ps n h a (mkIntake y' m f' l' c').
Proof.
  intros [E1 E2 E3 E4 E5 E6 E7 E8 E9] Hf Hl. fields. split; fields; try done.
  - by destruct Hf as [->| ->].
  - by destruct Hl as [->| ->].
Qed.

Lemma exact_enqueue bs ps n h a y m f l c b :
  exact bs ps n h a (mkIntake y m f l c) -> exact (bs ++ [b]) ps n h a (mkIntake y (Enqueue m b) f l c).
Proof.
  intros [E1 E2 E3 E4 E5 E6 E7 E8 E9]. fields. destruct (enqueue_order m b) as [Hq Hd].
  destruct (enqueue_queued m b) as (_ & Hu & _ & Hr). split; fields; rewrite ?Hd, ?Hq, ?Hu, ?Hr; try done.
  - by rewrite E1, <- !app_assoc.
  - by rewrite take_app_le.
  - rewrite length_app. lia.
Qed.

Lemma exact_receive bs ps n h a y m m' f f' l c :
  exact bs ps n h a (mkIntake y m f l c) -> forward_receive m f = (m', f') ->
  exact bs ps n h a (mkIntake y m' f' l c).
Proof.
  intros Hex. destruct f as [|d|]; cbn [forward_receive]; [|by intros [= <- <-]..].
  destruct Hex as [E1 E2 E3 E4 E5 E6 E7 E8 E9]. fields.
  destruct (Receive m) as [m1 [[t b]|]] eqn:Hr; intros [= <- <-].
  - destruct (receive_order _ _ _ _ Hr) as (Hq & Hd & Hn). destruct (receive_some _ _ _ _ Hr) as (Ht & Hu & _ & _ & Hm).
    split; fields; rewrite ?Hd, ?Hu, ?Hm; try done.
    + rewrite E1, Hq, fmap_app. cbn. by rewrite <- app_assoc.
    + rewrite length_app. lia.
    + rewrite fmap_app. apply NoDup_app. split_and!; [done| |apply NoDup_singleton].
      intros x Hx ->%list_elem_of_singleton. done.
    + intros i t' b' Hi. apply lookup_app_Some in Hi as [Hi|[Hge Hi]].
      * rewrite lookup_insert_ne; [by apply (E7 i t' b')|]. intros <-. apply Hn. apply list_elem_of_fmap. exists (t, b').
        split; [done|]. by eapply list_elem_of_lookup_2.
      * apply list_lookup_singleton_Some in Hi as [Hi [= <- <-]]. rewrite lookup_insert_eq. split; [done|]. lia.
    + rewrite length_app. cbn. split; [lia|]. rewrite lookup_app_r by lia. by rewrite E8, Nat.sub_diag.
    + destruct l as [|d r|]; [done| |done]. destruct E9 as (Ha & Hl & Hrp). split_and!; [done| |done].
      rewrite lookup_app_l; [done|]. by eapply lookup_lt_Some.
  - pose proof (receive_idle _ _ Hr) as Hd. destruct (receive_none _ _ Hr) as (Hq & Hu & _ & Hm).
    split; fields; by rewrite ?Hd, ?Hq, ?Hu, ?Hm.
Qed.

Lemma delivered_tag m i j t b b' :
  NoDup (delivered m).*1 -> delivered m !! i = Some (t, b) -> delivered m !! j = Some (t, b') -> i = j.
Proof.
  intros Hnd Hi Hj. apply (NoDup_lookup (delivered m).*1 i j t Hnd); by rewrite list_lookup_fmap, ?Hi, ?Hj.
Qed.

Lemma exact_answer bs ps n h a y m m' f d r c ok :
  exact bs ps n h a (mkIntake y m f (Answering d r) c) -> answer_delivery d r m = (m', ok) ->
  exists a', exact bs ps n h a' (mkIntake y m' f (if ok : bool then Selecting else Ended) c).
Proof.
  intros [E1 E2 E3 E4 E5 E6 E7 E8 E9] Ha. fields. destruct E9 as (Hah & Hl & Hr).
  assert (Hd : delivered m' = delivered m).
  { destruct Hr as [-> | ->]; [by apply ack_order in Ha|by apply nack_order in Ha]. }
  destruct (answer_delivery_cases _ _ _ _ _ Hr Ha) as [[-> (Hq & Hu & _ & Hm)]|(b & Ht & Hu & Hq & _ & Hm)].
  - exists a. split; fields; rewrite ?Hd, ?Hq, ?Hu, ?Hm; done.
  - exists h. split; fields; rewrite ?Hd, ?Hq, ?Hu, ?Hm; try done; [lia| |by destruct ok].
    intros i t b' Hi. destruct (decide (t = dl_tag d)) as [->|Hne].
    + rewrite (delivered_tag _ _ _ _ _ _ E6 Hi Hl), lookup_delete_eq. split; [lia|done].
    + rewrite lookup_delete_ne by done. rewrite (E7 _ _ _ Hi). split; [lia|].
      intros Hih. destruct (decide (i = a)) as [->|]; [|lia]. rewrite Hl in Hi. by injection Hi as <- _.
Qed.

(** ** Handling the next message *)

(** The message that is handed over, in the list. *)
Lemma exact_handing bs ps n h a y m d l c :
  exact bs ps n h a (mkIntake y m (Handing d) l c) -> bs !! (length (removed m) + h)%nat = Some (dl_payload d).
Proof.
  intros [E1 _ _ _ _ _ _ [Hlen Hd] _]. fields. rewrite E1, lookup_app_r by lia.
  replace (length (removed m) + h - length (removed m))%nat with h by lia.
  rewrite lookup_app_l by (rewrite length_fmap; lia). by rewrite list_lookup_fmap, Hd.
Qed.

Lemma validated_snoc bs n b : bs !! n = Some b -> validated (take (S n) bs) = validated (take n bs) ++ (if decide (valid b = true) then [b] else []).
Proof. intros Hb. by rewrite (take_S_r _ _ _ Hb), filter_app, filter_cons. Qed.

(** A valid message that was handled before is among the recent requests. *)
Lemma handled_recent bs n c b :
  bs !! c = Some b -> valid b = true -> (c < n)%nat -> (Z.of_nat (n - c) <= dedupWindow) ->
  b ∈ recent (validated (take n bs)).
Proof.
  intros Hb Hv Hc Hw. rewrite <- (take_drop c (take n bs)), filter_app, take_take, Nat.min_l by lia.
  rewrite (drop_S _ b c) by (by rewrite lookup_take_lt by lia). rewrite filter_cons_True by done.
  set (l1 := validated (take c bs)). set (l2 := validated (drop (S c) (take n bs))).
  assert (Hl2 : (length l2 <= n - S c)%nat).
  { unfold l2. etransitivity; [apply length_filter|]. rewrite length_drop, length_take. lia. }
  apply (recent_lookup _ (length l1)); [by apply list_lookup_middle|]. rewrite length_app. cbn [length]. lia.
Qed.

(** No two messages carry the same kind and id. *)
Definition unique bs : Prop := NoDup (omap request bs).

Lemma unique_before bs i j b b' r :
  unique bs -> bs !! i = Some b -> bs !! j = Some b' -> (i < j)%nat -> request b = Some r -> request b' = Some r -> False.
Proof.
  unfold unique. intros Hu Hi Hj Hij Hr Hr'. rewrite <- (take_drop j bs), (drop_S _ _ _ Hj), omap_app in Hu.
  cbn [omap list_omap] in Hu. rewrite Hr' in Hu. apply NoDup_app in Hu as (_ & Hu & _). apply (Hu r); [|by left].
  apply list_elem_of_omap. exists b. split; [|done]. apply list_elem_of_lookup. exists i. by rewrite lookup_take_lt.
Qed.

Section requests.
Hypothesis (Hpre : Z.of_nat prefetch <= dedupWindow).

(** A message that was handled before is refused or known, and one that comes for
    the first time is refused or new. *)
Lemma seen_before bs ps n h a y m d l c (ws : dedup) kind id :
  exact bs ps n h a (mkIntake y m (Handing d) l c) -> known_requests ps ws ->
  (length (removed m) + h < n)%nat -> valid (dl_payload d) = true -> request (dl_payload d) = Some (kind, id) ->
  dedup_has ws kind id = true.
Proof.
  intros Hex Hk Hlt Hv Hr. pose proof (exact_handing _ _ _ _ _ _ _ _ _ _ Hex) as Hb.
  destruct Hex as [_ -> _ _ [Hn|[_ Hn]] _ _ _ _]; fields; [lia|].
  eapply known_has; [exact Hk| |exact Hr]. eapply handled_recent; [exact Hb|done|done|lia].
Qed.

Lemma seen_first bs ps n h a y m d l c (ws : dedup) kind id :
  exact bs ps n h a (mkIntake y m (Handing d) l c) -> remembered ps ws -> unique bs ->
  n = (length (removed m) + h)%nat -> request (dl_payload d) = Some (kind, id) -> dedup_has ws kind id = false.
Proof.
  intros Hex Hrm Hu Hn Hr. pose proof (exact_handing _ _ _ _ _ _ _ _ _ _ Hex) as Hb.
  destruct (dedup_has ws kind id) eqn:Hd; [|done]. exfalso. apply Hrm in Hd.
  rewrite (ex_logged _ _ _ _ _ _ Hex) in Hd. apply list_elem_of_omap in Hd as (b & Hin & Hrb).
  apply list_elem_of_filter in Hin as [_ [i Hi]%list_elem_of_lookup]. apply lookup_take_Some in Hi as [Hi Hlt].
  eapply unique_before; [exact Hu|exact Hi|exact Hb|lia|exact Hrb|exact Hr].
Qed.

(** The place after the message was handled. *)
Lemma exact_handled bs ps n h a y y' m d c ps' n' r :
  exact bs ps n h a (mkIntake y m (Handing d) Selecting c) -> r = Ack \/ r = Nack false ->
  ps' = validated (take n' bs) ->
  (n' = S (length (removed m) + h) \/ (n' = n /\ (length (removed m) + h < n)%nat)) ->
  exact bs ps' n' (S h) a (mkIntake y' m Receiving (Answering d r) c).
Proof.
  intros Hex Hr Hps Hn'. pose proof (lookup_lt_Some _ _ _ (exact_handing _ _ _ _ _ _ _ _ _ _ Hex)) as Hlt.
  destruct Hex as [E1 E2 E3 E4 E5 E6 E7 [E8 E8'] E9]. fields. subst a.
  split; fields; try done; try lia.
Qed.

(** Handled again, or for the first time. *)
Lemma exact_again bs ps n h a y y' m d c r :
  exact bs ps n h a (mkIntake y m (Handing d) Selecting c) -> r = Ack \/ r = Nack false ->
  (n = (length (removed m) + h)%nat -> valid (dl_payload d) = false) ->
  exists n', exact bs ps n' (S h) a (mkIntake y' m Receiving (Answering d r) c).
Proof.
  intros Hex Hr Hv. pose proof (exact_handing _ _ _ _ _ _ _ _ _ _ Hex) as Hb. pose proof (ex_latest _ _ _ _ _ _ Hex) as Hl. fields.
  destruct Hl as [Hn|[Hlt Hn]].
  - exists (S n). eapply exact_handled; [exact Hex|exact Hr| |left; lia].
    rewrite (validated_snoc _ _ (dl_payload d)) by (by rewrite Hn). rewrite (Hv Hn), decide_False, app_nil_r by done. apply Hex.
  - exists n. eapply exact_handled; [exact Hex|exact Hr|apply Hex|by right].
Qed.

Lemma exact_new bs ps n h a y y' m d c :
  exact bs ps n h a (mkIntake y m (Handing d) Selecting c) -> valid (dl_payload d) = true ->
  n = (length (removed m) + h)%nat ->
  exact bs (ps ++ [dl_payload d]) (S n) (S h) a (mkIntake y' m Receiving (Answering d Ack) c).
Proof.
  intros Hex Hv Hn. pose proof (exact_handing _ _ _ _ _ _ _ _ _ _ Hex) as Hb. eapply exact_handled; [exact Hex|by left| |left; lia].
  rewrite (validated_snoc _ _ (dl_payload d)) by (by rewrite Hn). rewrite decide_True by done. by rewrite (ex_logged _ _ _ _ _ _ Hex).
Qed.

(** A new connection starts with the latest deliveries. *)
Lemma exact_reopen bs ps n h a y y' m f l c :
  exact bs ps n h a (mkIntake y m f l c) -> exact bs ps n 0 0 (mkIntake y' (Reopen m) Receiving Selecting false).
Proof.
  intros [E1 E2 E3 E4 E5 E6 E7 _ _]. fields.
  destruct (reopen_order m) as (kept & back & Hd & Hk & Hb & Hq & Hd' & Hm); [by exists a|].
  assert (Hka : (length kept <= a)%nat).
  { destruct (decide (kept = [])) as [->|Hne]; [simpl; lia|]. destruct (last kept) as [[t b]|] eqn:Hl; [|by apply last_None in Hl].
    rewrite last_lookup in Hl. rewrite Forall_forall in Hk. pose proof (Hk _ (list_elem_of_lookup_2 _ _ _ Hl)) as Ht. cbn in Ht.
    assert (Hdl : delivered m !! pred (length kept) = Some (t, b)) by (rewrite Hd; by apply lookup_app_l_Some).
    apply (E7 _ _ _ Hdl) in Ht. lia. }
  rewrite Hd, length_app in E4. split; fields; rewrite ?Hd', ?Hq, ?Hm; try done.
  - rewrite E1, Hd, fmap_app. cbn. by rewrite <- !app_assoc.
  - rewrite length_app, length_fmap. lia.
  - constructor.
Qed.

(** ** The steps *)

Lemma exact_step bs ps rs evss n h a w bs' w' :
  no_lost_answer -> (forall v : log, stable v) -> unique (bs ++ bs') -> Forall numbered (bs ++ bs') ->
  intake_step w bs' w' -> intake_ok bs ps rs evss w -> exact bs ps n h a w ->
  exists ps' rs' evss' n' h' a', intake_ok (bs ++ bs') ps' rs' evss' w' /\ exact (bs ++ bs') ps' n' h' a' w'.
Proof.
  intros Hnl Hsta Hu Hnum Hst Hok Hex.
  destruct Hst as [y m f l c b|y m m' f f' l c Hr|e p q s m f f' d c e' r Hf Hri Hro Hann Hh Hnf Hsp
    |y m m' f d r c ok Ha|e p q s m f c e' Hwf Hrun|y y' m f l c Hbg|y m f l c|y m f l|y m l c|y m f c _
    |e p q s m f l c s1 s2 cs e' Hb Hload|e p q s m f f' d c e1 s1 s2 cs e' Hf Hri Hro Hann Hcr Hb Hload Hsp];
    rewrite ?(app_nil_r bs) in *.
  - exists ps, rs, evss, n, h, a. split; [by apply arrive_ok|by apply exact_enqueue].
  - exists ps, rs, evss, n, h, a. split; [by eapply receive_ok|by eapply exact_receive].
  - destruct (handle_ok _ _ _ _ _ _ _ _ _ _ _ _ _ _ _ Hok Hf Hri Hro Hann Hh Hnf Hsp) as [[Hok' Hres]|(-> & kind & id & rec & evs & Hrq & Hd & Hok')];
      apply forward_taken_Some in Hf as [-> ->].
    + assert (Hx : exists n', exact bs ps n' (S h) a (mkIntake (mkSystem e' p q s) m Receiving (Answering d r) c)).
      { eapply exact_again; [exact Hex|naive_solver|]. intros Hn. destruct Hres as [[-> _]|(-> & kind & id & Hrq & Hd)].
        - apply not_true_is_false. intros Hv. by apply (valid_accepted _ _ _ _ Hv Hh).
        - pose proof (seen_first _ _ _ _ _ _ _ _ _ _ _ _ _ Hex (ik_windows _ _ _ _ _ Hok) Hu Hn Hrq). fields. congruence. }
      destruct Hx as [n' Hx]. by exists ps, rs, evss, n', (S h), a.
    + assert (Hv : valid (dl_payload d) = true).
      { apply not_false_is_true. intros Hv. rewrite (valid_refused _ Hv e) in Hh. by injection Hh. }
      assert (Hn : n = (length (removed m) + h)%nat).
      { destruct (ex_latest _ _ _ _ _ _ Hex) as [Hn|[Hlt _]]; [done|]. exfalso. fields.
        destruct (ik_once _ _ _ _ _ Hok Hnum) as [_ Hk].
        pose proof (seen_before _ _ _ _ _ _ _ _ _ _ _ _ _ Hex Hk Hlt Hv Hrq). fields. congruence. }
      exists (ps ++ [dl_payload d]), (rs ++ [rec]), (evss ++ [evs]), (S n), (S h), a. split; [done|]. by eapply exact_new.
  - destruct (exact_answer _ _ _ _ _ _ _ _ _ _ _ _ _ Hex Ha) as [a' Hx]. exists ps, rs, evss, n, h, a'. split; [by eapply answer_ok|done].
  - exists ps, rs, evss, n, h, a. split; [by eapply ticked_ok|]. eapply exact_control; [exact Hex|by left|by left].
  - exists ps, rs, evss, n, h, a. split; [by eapply beside_ok|]. eapply exact_control; [exact Hex|by left|by left].
  - exists ps, rs, evss, n, h, a. split; [eapply control_ok|eapply exact_control]; first [eassumption|by left].
  - exists ps, rs, evss, n, h, a. split; [eapply control_ok|eapply exact_control]; first [eassumption|by left|by right].
  - exists ps, rs, evss, n, h, a. split; [eapply control_ok|eapply exact_control]; first [eassumption|by left|by right].
  - exists ps, rs, evss, n, h, a. split; [eapply control_ok|eapply exact_control]; first [eassumption|by left|by right].
  - exists ps, rs, evss, n, 0%nat, 0%nat. split; [by eapply restarted_ok|by eapply exact_reopen].
  - destruct (recovered_ok _ _ _ _ _ _ _ _ _ _ _ _ _ _ _ _ _ _ Hsta Hok Hf Hri Hro Hann Hcr Hb Hload Hsp)
      as (kind & id & r & evs & Hrq & Hd & Hok'). apply forward_taken_Some in Hf as [-> ->].
    assert (Hn : n = (length (removed m) + h)%nat).
    { destruct (ex_latest _ _ _ _ _ _ Hex) as [Hn|[Hlt _]]; [done|]. exfalso. fields.
      destruct (ik_once _ _ _ _ _ Hok Hnum) as [_ Hk].
      pose proof (seen_before _ _ _ _ _ _ _ _ _ _ _ _ _ Hex Hk Hlt (cr_valid _ _ _ Hcr) Hrq). fields. congruence. }
    exists (ps ++ [dl_payload d]), (rs ++ [r]), (evss ++ [evs]), (S n), 0%nat, 0%nat. split; [done|].
    apply (exact_reopen _ _ _ (S h) a (mkSystem e p q s) _ m Receiving (Answering d Ack) c).
    eapply exact_new; [exact Hex|apply Hcr|done].
Qed.

Lemma exact_run bs ps rs evss n h a w bs' w' :
  no_lost_answer -> (forall v : log, stable v) -> unique (bs ++ bs') -> Forall numbered (bs ++ bs') ->
  intake_run w bs' w' -> intake_ok bs ps rs evss w -> exact bs ps n h a w ->
  exists ps' rs' evss' n' h' a', intake_ok (bs ++ bs') ps' rs' evss' w' /\ exact (bs ++ bs') ps' n' h' a' w'.
Proof.
  intros Hnl Hsta Hu Hnum Hr. revert bs ps rs evss n h a Hu Hnum.
  induction Hr as [w|w1 bs1 w2 bs2 w3 Hst Hr IH]; intros bs ps rs evss n h a Hu Hnum Hok Hex.
  - rewrite app_nil_r. by exists ps, rs, evss, n, h, a.
  - rewrite app_assoc in Hu, Hnum |- *.
    assert (Hu1 : unique (bs ++ bs1)) by (unfold unique in *; rewrite omap_app in Hu; by apply NoDup_app in Hu as [? _]).
    pose proof Hnum as [Hnum1 _]%Forall_app.
    destruct (exact_step _ _ _ _ _ _ _ _ _ _ Hnl Hsta Hu1 Hnum1 Hst Hok Hex) as (p1 & r1 & v1 & n1 & h1 & a1 & Hok1 & Hex1).
    by eapply IH.
Qed.
End requests.

(** What left the broker for good was handled. *)
Lemma exact_removed bs ps n h a w : exact bs ps n h a w -> removed (it_queue w) `prefix_of` take n bs.
Proof.
  intros [E1 _ _ _ E5 _ _ _ _]. rewrite E1, take_app_ge by lia. by eexists.
Qed.

(** Nothing is left, so everything was handled. *)
Lemma exact_drained bs ps n h a w :
  exact bs ps n h a w -> queued (it_queue w) = [] -> it_forwarder w = Receiving -> n = length bs.
Proof.
  intros [E1 _ E3 _ E5 _ _ E8 _] Hq Hf. rewrite Hf in E8. revert E3. rewrite E1, Hq, app_nil_r, length_app, length_fmap. lia.
Qed.

(** At the start nothing has arrived. *)
Lemma new_intake_exact w :
  new_intake w -> delivered (it_queue w) = [] -> exact [] [] 0 0 0 w.
Proof.
  intros [_ _ [Hh Hg] [Hf Hl]] Hd. unfold held in Hh. unfold gone in Hg. apply app_eq_nil in Hh as [Hq _], Hg as [Hr _].
  split; rewrite ?Hr, ?Hd, ?Hf, ?Hl, ?Hq; try done; [by left|constructor].
Qed.
End exactly_once.
