(* ===== verification/Example.v ===== *)
(** * A small exchange

    Two accounts, one listed stock, and two resting sell orders placed by the
    engine itself: concrete inputs on which the theorems are instantiated. *)

From S2P Require Import Prelude Domain Slices OrderBook BookSpec Ledger Snapshot Events Matching Validation Orders Invariant Settlement MatchStep MatchLoop MatchSpec.

(** A clock that advances by one at every reading. *)
#[export] Instance demo_clock : Clock := fun n => Z.of_nat n + 1.

Definition demo_state : State :=
  mkState (<[1 := mkAccount 1 1000 1000]> (<[2 := mkAccount 2 500 500]> ∅))
    (<[(2, 7) := mkStockBalance 2 7 10 10 50 500]> ∅)
    (<[7 := mkStock 7 90 LISTED]> ∅) ∅.

Definition demo_core : Core := mkCore demo_state 1 0 0 0.

Definition ask1 : Order := mkOrder 11 0 2 7 100 5 0 ORDER_LIMIT TRADING_SELL 1.
Definition ask2 : Order := mkOrder 12 0 2 7 101 3 0 ORDER_LIMIT TRADING_SELL 2.
(** A buy order that takes all of the first ask and a part of the second. *)
Definition bid1 : Order := mkOrder 21 0 1 7 101 6 0 ORDER_LIMIT TRADING_BUY 3.

Definition core_of (r : outcome (Core * (list outEvent + engine_error))) : Core :=
  match r with Done (c, _) => c | Panicked _ => demo_core end.

Definition demo_core1 : Core := core_of (matchEvents ask1 demo_core).
Definition demo_core2 : Core := core_of (matchEvents ask2 demo_core1).

Lemma demo_state_ok : ledger_ok demo_state.
Proof.
  assert (Hbook : forall i, s_OrderBooks demo_state !! i = None) by (intros; apply lookup_empty).
  assert (Hcash : forall i, reserved_cash (s_OrderBooks demo_state) i = 0) by (intros; apply msum_empty).
  assert (Hqty : forall i t, reserved_qty (s_OrderBooks demo_state) i t = 0)
    by (intros; unfold reserved_qty; by rewrite Hbook).
  split; [split|..]; simpl.
  - intros i a. rewrite !lookup_insert_Some, lookup_empty. naive_solver.
  - intros k h. rewrite lookup_insert_Some, lookup_empty. naive_solver.
  - intros i s. rewrite lookup_insert_Some, lookup_empty. naive_solver.
  - intros i s. rewrite lookup_insert_Some, lookup_empty. naive_solver.
  - intros i b. by rewrite lookup_empty.
  - intros i a Ha. rewrite Hcash. rewrite !lookup_insert_Some, lookup_empty in Ha.
    destruct Ha as [[<- <-]|[_ [[<- <-]|[_ ?]]]]; done.
  - intros i t h Hh. rewrite Hqty. rewrite lookup_insert_Some, lookup_empty in Hh.
    destruct Hh as [[[= <- <-] <-]|[_ ?]]; done.
  - intros i t h Hh. rewrite lookup_insert_Some, lookup_empty in Hh.
    destruct Hh as [[[= <- <-] <-]|[_ ?]]; [|done]. vm_compute. eauto.
  - intros i b o. by rewrite lookup_empty.
Qed.

(** The shares left to the seller after the first ask. *)
Lemma demo_book0 : book 7 (state demo_core) = NewOrderBook.
Proof. done. Qed.

Lemma ask1_matchable : matchable ask1 (state demo_core).
Proof.
  split; try done; [by right|by left|..].
  - exists (mkStockBalance 2 7 10 10 50 500). by vm_compute.
  - intros o Ho. change (o_StockId ask1) with 7 in Ho. rewrite demo_book0 in Ho. by apply elem_of_nil in Ho.
Qed.

Lemma demo_core1_ok : ledger_ok (state demo_core1).
Proof.
  destruct (matchEvents_ok ask1 demo_core []) as (c' & evs & He & Hm).
  - apply demo_state_ok.
  - apply ask1_matchable.
  - by vm_compute.
  - apply rep_new.
  - by vm_compute.
  - unfold demo_core1. rewrite He. apply Hm.
Qed.

(** The resting orders, computed. *)
Lemma demo_resting1 : resting (book 7 (state demo_core1)) = [ask1].
Proof. by vm_compute. Qed.

Lemma ask2_matchable : matchable ask2 (state demo_core1).
Proof.
  split; try done; [by right|by left|..].
  - exists (mkStockBalance 2 7 10 5 50 500). by vm_compute.
  - intros o Ho. change (o_StockId ask2) with 7 in Ho. rewrite demo_resting1 in Ho. apply list_elem_of_singleton in Ho as ->. done.
Qed.

(** The arrival order of a well-formed book. *)
Lemma demo_rep c sid : ledger_ok (state c) -> exists la, rep (book sid (state c)) la.
Proof. intros Hi. destruct (wf_book_at sid (state c) (inv_wf _ _ _ Hi)) as (la & Hr & _). eauto. Qed.

Lemma demo_core2_ok : ledger_ok (state demo_core2).
Proof.
  destruct (demo_rep demo_core1 7 demo_core1_ok) as (la & Hr).
  destruct (matchEvents_ok ask2 demo_core1 la) as (c' & evs & He & Hm).
  - apply demo_core1_ok.
  - apply ask2_matchable.
  - by vm_compute.
  - done.
  - pose proof (rep_index_size _ _ Hr) as Hs.
    assert (Hsz : size (index (book 7 (state demo_core1))) = 1%nat) by by vm_compute.
    intros _. rewrite Hsz in Hs. assert (lastTradeID demo_core1 = 0) as -> by by vm_compute. unfold MaxInt64. lia.
  - unfold demo_core2. rewrite He. apply Hm.
Qed.

Lemma demo_resting2 : resting (book 7 (state demo_core2)) = [ask1; ask2].
Proof. by vm_compute. Qed.

Lemma bid1_matchable : matchable bid1 (state demo_core2).
Proof.
  split; try done; [by left|by left|..].
  - exists (mkAccount 1 1000 1000). by vm_compute.
  - intros o Ho. change (o_StockId bid1) with 7 in Ho. rewrite demo_resting2 in Ho.
    by apply elem_of_cons in Ho as [->|[->|?%elem_of_nil]%elem_of_cons].
Qed.

Lemma demo_bounded : bounded 7 (state demo_core2).
Proof. by vm_compute. Qed.

(** Trade ids remain for every resting order. *)
Lemma demo_ids la : rep (book 7 (state demo_core2)) la -> ids_left demo_core2 (length la).
Proof.
  intros Hr _. pose proof (rep_index_size _ _ Hr) as Hs.
  assert (Hsz : size (index (book 7 (state demo_core2))) = 2%nat) by by vm_compute. rewrite Hsz in Hs.
  assert (lastTradeID demo_core2 = 0) as -> by by vm_compute. unfold MaxInt64. lia.
Qed.
