(* ===== verification/EngineExample.v ===== *)
(** * A small engine

    A wire format that keeps values as they are, logs in memory, and an engine
    that has handled the creation of an account and a transfer: concrete inputs
    on which the theorems about the engine are instantiated. *)

From S2P Require Import Prelude Domain Slices OrderBook Ledger Events Matching Validation Orders Transfer Admin Dedup Wal Engine Recovery Replays Consistency Example.

(** What is sent, logged and stored. *)
Inductive wire :=
  | WRequest (pat : string) (dat : wire)
  | WOrder (o : Order)
  | WAccount (a : Account)
  | WTransfer (t : Transfer)
  | WStock (s : Stock)
  | WBalanceAdjust (r : BalanceAdjust)
  | WStockBalanceAdjust (r : StockBalanceAdjust)
  | WEvent (d : event_data)
  | WOutput (inputSeq outputSeq : Z) (createdAt : Time) (pats : list string) (dats : list wire)
  | WSnapshot (s : LedgerSnapshot).

#[export] Instance wire_codec : Codec wire := {
  Unmarshal_envelope w := match w with WRequest pat dat => Some (pat, dat) | _ => None end;
  Unmarshal_Order w := match w with WOrder o => Some o | _ => None end;
  Unmarshal_Account w := match w with WAccount a | WEvent (EvAccount a) => Some a | _ => None end;
  Unmarshal_Transfer w := match w with WTransfer t => Some t | _ => None end;
  Unmarshal_Stock w := match w with WStock s => Some s | WEvent (EvStock s) => Some (json_stock s) | _ => None end;
  Unmarshal_BalanceAdjust w := match w with WBalanceAdjust r => Some r | _ => None end;
  Unmarshal_StockBalanceAdjust w := match w with WStockBalanceAdjust r => Some r | _ => None end;
  Unmarshal_Trade w := match w with WEvent (EvTrade t) => Some t | _ => None end;
  Unmarshal_OutputEnvelope w :=
    match w with
    | WOutput i o t pats dats => Some (mkOutputEnvelope i o t (zip_with mkOutputEvent pats dats))
    | _ => None
    end;
  Marshal_data d := Some (WEvent d);
  Marshal_OutputEnvelope env :=
    Some (WOutput (env_InputSeq env) (env_OutputSeq env) (env_CreatedAt env)
            (oev_Pattern <$> env_Events env) (oev_Data <$> env_Events env))
}.

#[export] Instance wire_codec_laws : CodecLaws wire.
Proof.
  split.
  - intros [i o t evs] data [= <-]. simpl. do 2 f_equal. induction evs as [|[p d] evs IH]; [done|].
    csimpl. by rewrite IH.
  - by intros t data [= <-].
Qed.

#[export] Instance wire_proto : Proto wire := {
  proto_Marshal s := Some (WSnapshot s);
  proto_Unmarshal w := match w with WSnapshot s => Some s | _ => None end
}.

Definition demo_engine : Type := Engine wire (MemLog wire).

(** A new installation. *)
Definition engine0 : demo_engine :=
  mkEngine (mkCore NewState 0 0 0 0) (mkMemLog 1 []) (mkMemLog 1 []) (newDedup dedupWindow) None false.

Definition pay1 : wire := WRequest PatternAccountCreated (WAccount (mkAccount 1 1000 1000)).
Definition pay2 : wire := WRequest PatternAccountCreated (WAccount (mkAccount 2 500 500)).
Definition pay3 : wire := WRequest PatternTransferCreated (WTransfer (mkTransfer 5 1 2 300)).

Definition engine_of (r : outcome (demo_engine * reply)) : demo_engine :=
  match r with Done (e, _) => e | Panicked _ => engine0 end.

Definition engine1 : demo_engine := engine_of (handle pay1 engine0).
Definition engine2 : demo_engine := engine_of (handle pay2 engine1).
Definition engine3 : demo_engine := engine_of (handle pay3 engine2).

Lemma room_mem (w : MemLog wire) : mem_last w + 2 < two64 -> room w.
Proof. intros Hw last [= <-]. exact Hw. Qed.

Lemma engine0_consistent : consistent engine0 [].
Proof.
  split; [by apply (mem_holds (mkMemLog 1 []))|constructor|done| |done].
  exists 1, []. split_and!; [by apply (mem_holds (mkMemLog 1 []))|done|done].
Qed.

(** A handled request of the example is in the input WAL. *)
Lemma demo_handled p e e' ps :
  consistent e ps -> room (input e) -> room (output e) -> handle p e = Done (e', Ack) ->
  m_data (input e') <> m_data (input e) -> consistent e' (ps ++ [p]).
Proof.
  intros Hc Hi Ho Hh Hne. destruct (handle_consistent _ _ _ _ _ Hc Hi Ho Hh ltac:(done)) as [Hc'|Hc']; [|done].
  destruct (mem_holds_inv _ _ _ (cn_input _ _ Hc)) as [Hd _]. destruct (mem_holds_inv _ _ _ (cn_input _ _ Hc')) as [Hd' _].
  congruence.
Qed.

Lemma handle1 : handle pay1 engine0 = Done (engine1, Ack).
Proof. vm_compute. reflexivity. Qed.
Lemma handle2 : handle pay2 engine1 = Done (engine2, Ack).
Proof. vm_compute. reflexivity. Qed.
Lemma handle3 : handle pay3 engine2 = Done (engine3, Ack).
Proof. vm_compute. reflexivity. Qed.

Lemma engine1_consistent : consistent engine1 [pay1].
Proof.
  apply (demo_handled pay1 engine0 engine1 []); [apply engine0_consistent|by apply room_mem..|apply handle1|].
  vm_compute. discriminate.
Qed.

Lemma engine2_consistent : consistent engine2 [pay1; pay2].
Proof.
  apply (demo_handled pay2 engine1 engine2 [pay1]); [apply engine1_consistent|by apply room_mem..|apply handle2|].
  vm_compute. discriminate.
Qed.

Lemma engine3_consistent : consistent engine3 [pay1; pay2; pay3].
Proof.
  apply (demo_handled pay3 engine2 engine3 [pay1; pay2]); [apply engine2_consistent|by apply room_mem..|apply handle3|].
  vm_compute. discriminate.
Qed.

(** ** A run with a trade *)

(** Deliver payloads one after the other. *)
Fixpoint deliver_all (ps : list wire) (e : demo_engine) : option demo_engine :=
  match ps with
  | [] => Some e
  | p :: ps =>
      if bool_decide (mem_last (input e) + 2 < two64) && bool_decide (mem_last (output e) + 2 < two64) then
        match run_step (Deliver p) e with
        | Done (Running e1) => deliver_all ps e1
        | _ => None
        end
      else None
  end.

Lemma deliver_all_runs ps e e' : deliver_all ps e = Some e' -> runs e ps e'.
Proof.
  revert e. induction ps as [|p ps IH]; intros e; cbn [deliver_all]; [intros [= ->]; constructor|].
  destruct (bool_decide _ && bool_decide _) eqn:Hb; [|done].
  apply andb_true_iff in Hb as [Hi%bool_decide_eq_true Ho%bool_decide_eq_true].
  destruct (run_step (Deliver p) e) as [[e1|e1 err]|] eqn:Hs; [|done|done]. intros He.
  eapply runs_deliver; [by apply room_mem..|done|by apply IH].
Qed.

Definition trade_payloads : list wire :=
  [pay1; pay2;
   WRequest PatternStockList (WStock (mkStock 7 90 PENDING));
   WRequest PatternAdminStockBalanceAdjust (WStockBalanceAdjust (mkStockBalanceAdjust 3 2 7 10 50));
   WRequest PatternOrderCreated (WOrder (mkOrder 11 0 2 7 100 5 0 ORDER_LIMIT TRADING_SELL 1));
   WRequest PatternOrderCreated (WOrder (mkOrder 12 0 2 7 101 3 0 ORDER_LIMIT TRADING_SELL 2));
   WRequest PatternOrderCreated (WOrder (mkOrder 21 0 1 7 101 6 0 ORDER_LIMIT TRADING_BUY 3))].

Definition engine_traded : demo_engine := default engine0 (deliver_all trade_payloads engine0).

Lemma traded_runs : runs engine0 trade_payloads engine_traded.
Proof. apply deliver_all_runs. vm_compute. reflexivity. Qed.
