(* ===== verification/ConsumerExample.v ===== *)
(** * Two small consumers

    A message broker and a database server in memory, with an engine's output log
    as input: concrete inputs on which the theorems about the consumers are
    instantiated. *)

From S2P Require Import Prelude Domain Slices OrderBook Ledger Events Matching Validation Orders Transfer Admin.
From S2P Require Import Footprint Dedup Wal Metrics Engine Columns Database Storage Messaging Publisher Projector Recovery Replays Consistency.
From S2P Require Import Reporting Feed Mirror Tracking Example EngineExample.

(** ** Parameters *)

#[export] Instance wire_event_codec : EventCodec wire := {
  Unmarshal_OrderEvent w := match w with WEvent (EvOrder x) => Some x | _ => None end;
  Unmarshal_OrderRejected w := match w with WEvent (EvOrderRejected x) => Some x | _ => None end;
  Unmarshal_StockBalance w := match w with WEvent (EvHolding x) => Some x | _ => None end;
  Unmarshal_TransferCompleted w := match w with WEvent (EvTransferCompleted x) => Some x | _ => None end;
  Unmarshal_TransferRejected w := match w with WEvent (EvTransferRejected x) => Some x | _ => None end;
  Unmarshal_AdminRequestCompleted w := match w with WEvent (EvAdminCompleted x) => Some x | _ => None end;
  Unmarshal_AdminRequestRejected w := match w with WEvent (EvAdminRejected x) => Some x | _ => None end
}.

#[export] Instance wire_event_codec_laws : EventCodecLaws wire.
Proof. split; by intros x b [= <-]. Qed.

(** A broker that takes every message. *)
Record MemBroker := mkMemBroker { br_sent : list (Message wire) }.

#[export] Instance mem_amqp : Amqp wire MemBroker nat := {
  PublishWithDeferredConfirm ch key body :=
    (mkMemBroker (br_sent ch ++ [mkMessage key body]), Some (length (br_sent ch)));
  WaitContext ch c := (ch, Some true)
}.

#[export] Instance mem_amqp_spec : AmqpSpec wire MemBroker nat.
Proof.
  refine {| sent := br_sent; taken _ _ := true; delivery_tag c := c |}.
  - by intros ch key body ch' conf [= <- <-].
  - intros ch key body ch' r [= <- <-]. cbn. split; [|done]. by apply prefix_app_r.
  - by intros ch conf ch' r [= <- <-].
  - done.
Defined.

Lemma mem_broker_healthy (ch : MemBroker) : healthy (bytes := wire) (conf := nat) ch.
Proof. exists (fun _ => True). split_and!; [done|intros c key body _; by eexists _, _|intros c x _; by eexists]. Qed.

(** A server that answers every call, and one that loses one answer. *)
Definition next_id (ids : list Z) : Z := foldr Z.max 0 ids + 1.

Definition server_with (fate : nat -> answer) : Server := {|
  answer_at := fate; server_now n := Z.of_nat n; datetime3 t := t; auto_id := next_id |}.

#[export] Instance demo_server : Server := server_with (fun _ => Answered).

Lemma next_id_fresh ids : Forall (fun i => i < next_id ids) ids /\ 0 < next_id ids.
Proof.
  unfold next_id. assert (Hp : 0 <= foldr Z.max 0 ids) by (induction ids; cbn; lia). split; [|lia]. clear Hp.
  induction ids as [|i ids IH]; constructor; cbn; [lia|]. eapply Forall_impl; [exact IH|]. cbn. lia.
Qed.

#[export] Instance demo_server_laws : ServerLaws.
Proof. split. apply next_id_fresh. Qed.

Lemma demo_no_lost_answer : no_lost_answer.
Proof. by intros n. Qed.

(** ** The database that the requests of the example rely on *)

Definition demo_account (id balance : Z) : AccountRow := mkAccountRow id id id balance balance "PENDING" None 0.
Definition demo_order (id account price quantity : Z) : OrderRow :=
  mkOrderRow id None account 7 price quantity 0 "LIMIT" "RECEIVED" None "BUY" None None None 0.

Definition demo_db : DB wire :=
  mkDB (list_to_map [(1, demo_account 1 1000); (2, demo_account 2 500)])
    (list_to_map [(5, mkTransferRow 5 1 2 None 300 "RECEIVED" None None None 0)]) ∅
    (list_to_map [(7, mkStockRow 7 "seven" 90 90 "PENDING" None 0 None)]) ∅
    (list_to_map [(11, demo_order 11 2 100 5); (12, demo_order 12 2 101 3); (21, demo_order 21 1 101 6)]) ∅ ∅ ∅.

Definition demo_store : Store wire := mkStore demo_db None 0.

(** ** The consumers *)

(** The output of the run with a trade. *)
Definition demo_records : list wire := Eval vm_compute in m_data (output engine_traded).

Lemma demo_records_engine : demo_records = m_data (output engine_traded).
Proof. vm_compute. reflexivity. Qed.

Lemma written_check (r : wire) : (Unmarshal_OutputEnvelope r ≫= Marshal_OutputEnvelope) = Some r -> written r.
Proof. intros (env & _ & He)%bind_Some. by exists env. Qed.

Lemma demo_written : Forall written demo_records.
Proof. repeat constructor; apply written_check; reflexivity. Qed.

Lemma mem_retains (rs : list wire) : Z.of_nat (length rs) + 1 < two64 -> retains (mkMemLog 1 rs) 0 rs.
Proof. intros Hl. split; [|by right]. apply (mem_holds (mkMemLog 1 rs)); cbn; [done|lia]. Qed.

Definition demo_publisher (rs : list wire) : EventPublisher wire (MemLog wire) MemBroker :=
  NewEventPublisher (mkMemLog 1 rs) demo_store (mkMemBroker []) "event_queue".
Definition demo_projector (rs : list wire) : DBProjector wire (MemLog wire) := NewDBProjector (mkMemLog 1 rs) demo_store.

(** The records are appended one after the other. *)
Lemma publisher_appends rs :
  Forall written rs -> Z.of_nat (length rs) + 1 < two64 -> rtc pub_step ([], demo_publisher []) (rs, demo_publisher rs).
Proof.
  induction rs as [|r rs IH] using rev_ind; [constructor|]. intros Hw Hl. rewrite length_app in Hl. cbn [length] in Hl.
  apply Forall_app in Hw as [Hw Hr]. apply Forall_cons in Hr as [Hr _].
  eapply rtc_r; [apply IH; [done|lia]|]. apply (pub_append rs (demo_publisher rs) 0 r (mkMemLog 1 (rs ++ [r]))); [done|].
  apply mem_retains. rewrite length_app. cbn [length]. lia.
Qed.

Lemma projector_appends rs :
  Z.of_nat (length rs) + dbProjectorBatchSize < two64 -> rtc proj_step ([], demo_projector []) (rs, demo_projector rs).
Proof.
  unfold dbProjectorBatchSize.
  induction rs as [|r rs IH] using rev_ind; [constructor|]. intros Hl. rewrite length_app in Hl. cbn [length] in Hl.
  eapply rtc_r; [apply IH; lia|]. apply (proj_append rs (demo_projector rs) 0 r (mkMemLog 1 (rs ++ [r]))).
  - apply mem_retains. rewrite length_app. cbn [length]. lia.
  - unfold dbProjectorBatchSize. rewrite length_app. cbn [length]. lia.
Qed.

(** After a drain. *)
Definition demo_published : EventPublisher wire (MemLog wire) MemBroker := fst (ep_drain (demo_publisher demo_records)).
Definition demo_projected : DBProjector wire (MemLog wire) := fst (dp_drain (demo_projector demo_records)).

Lemma publisher_run : rtc pub_step ([], demo_publisher []) (demo_records, demo_published).
Proof.
  eapply rtc_r; [apply publisher_appends; [apply demo_written|done]|]. eapply pub_drain. apply surjective_pairing.
Qed.

Lemma projector_run : rtc proj_step ([], demo_projector []) (demo_records, demo_projected).
Proof.
  eapply rtc_r; [apply (projector_appends demo_records); reflexivity|]. apply proj_moves. eapply proj_drain. apply surjective_pairing.
Qed.

(** Every record of the example is applied. *)
Lemma demo_projected_all : snd (dp_drain (demo_projector demo_records)) = None /\ dp_cursor demo_projected = 7.
Proof. vm_compute. done. Qed.

(** ** The engine and the projector together *)

Definition account_ready (d : DB wire) (a : Account) : bool :=
  match accounts d !! acc_Id a with
  | Some r => Z.eqb (ac_Balance r) (acc_Balance a) && Z.eqb (ac_AvailableBalance r) (acc_AvailableBalance a)
  | None => false
  end.
Definition stock_ready (d : DB wire) (s : Stock) : bool :=
  match stocks d !! st_Id s with Some r => Z.eqb (sk_Price r) (st_Price s) | None => false end.
Definition row_ready (d : DB wire) (ev : outEvent) : bool :=
  match data ev with
  | EvAccount a => negb (String.eqb (pattern ev) PatternAccountActivated) || account_ready d a
  | EvStock s => negb (String.eqb (pattern ev) PatternStockListed) || stock_ready d s
  | _ => true
  end.

Lemma prepared_check evs d : forallb (row_ready d) evs = true -> prepared evs d.
Proof.
  rewrite forallb_forall. intros Hall. split.
  - intros a Hin%list_elem_of_In%Hall. cbn in Hin. unfold account_ready in Hin. destruct (accounts d !! acc_Id a) as [r|]; [|done].
    apply andb_true_iff in Hin as [?%Z.eqb_eq ?%Z.eqb_eq]. by exists r.
  - intros s Hin%list_elem_of_In%Hall. cbn in Hin. unfold stock_ready in Hin. destruct (stocks d !! st_Id s) as [r|]; [|done].
    apply Z.eqb_eq in Hin. by exists r.
Qed.

Definition demo_world : Type := world (bytes := wire) (log := MemLog wire).

(** A request and its record. *)
Definition world_next (payload : wire) (x : Core * demo_world) : option (Core * demo_world) :=
  let '(c, w) := x in
  pd ← Unmarshal_envelope payload;
  match record_events pd.1 pd.2 c with
  | Some (Done (c', inl evs)) =>
      outs ← marshal_events evs;
      r ← Marshal_OutputEnvelope (mkOutputEnvelope 0 0 0 outs);
      if forallb (row_ready (st_db (dp_store (w_projector w)))) evs &&
         Z.ltb (Z.of_nat (length (w_records w ++ [r])) + dbProjectorBatchSize + 1) two64
      then Some (c', mkWorld (w_events w ++ [evs]) (w_records w ++ [r]) (state c')
                       (dp_set_output (w_projector w) (mkMemLog 1 (w_records w ++ [r]))))
      else None
  | _ => None
  end.

Lemma world_next_step payload c w c' w' :
  world_next payload (c, w) = Some (c', w') -> w_ledger w = state c -> keyed (state c) ->
  world_step w w' /\ w_ledger w' = state c' /\ keyed (state c').
Proof.
  intros Hn Hl Hk. cbn [world_next] in Hn. apply bind_Some in Hn as ([pat dat] & _ & Hn). cbn [fst snd] in Hn.
  destruct (record_events pat dat c) as [[[c1 [evs|]]|]|] eqn:Hrec; try done.
  apply bind_Some in Hn as (outs & Hm & Hn). apply bind_Some in Hn as (r & Hr & Hn).
  destruct (forallb _ evs) eqn:Hrow; [|done]. destruct (Z.ltb_spec (Z.of_nat (length (w_records w ++ [r])) + dbProjectorBatchSize + 1) two64); [|done].
  cbn [andb] in Hn. injection Hn as <- <-.
  pose proof (record_events_reports _ _ _ _ _ Hk Hrec) as Hrep. split_and!; [|done|apply Hrep].
  eapply (world_request w _ (mkOutputEnvelope 0 0 0 outs)); [by rewrite Hl|exact Hm|exact Hr|by apply prepared_check|apply mem_retains|]; unfold dbProjectorBatchSize in *; lia.
Qed.

Fixpoint world_run (payloads : list wire) (x : Core * demo_world) : option (Core * demo_world) :=
  match payloads with
  | [] => Some x
  | p :: ps => y ← world_next p x; world_run ps y
  end.

Lemma world_run_steps payloads c w c' w' :
  world_run payloads (c, w) = Some (c', w') -> w_ledger w = state c -> keyed (state c) -> rtc world_step w w'.
Proof.
  revert c w. induction payloads as [|p ps IH]; intros c w; cbn [world_run]; [by intros [= -> ->]|].
  intros ([c1 w1] & H1 & H2)%bind_Some Hl Hk. destruct (world_next_step _ _ _ _ _ H1 Hl Hk) as (Hs & Hl1 & Hk1).
  eapply rtc_l; [exact Hs|]. by eapply IH.
Qed.

(** The requests of the example, then a drain. *)
Definition demo_requests : demo_world :=
  from_option snd (world_start (demo_projector [])) (world_run trade_payloads (core engine0, world_start (demo_projector []))).
Definition demo_tracked : demo_world :=
  mkWorld (w_events demo_requests) (w_records demo_requests) (w_ledger demo_requests) (fst (dp_drain (w_projector demo_requests))).

Lemma tracked_run : rtc world_step (world_start (demo_projector [])) demo_tracked.
Proof.
  eapply rtc_r; [|apply world_projector; eapply proj_drain; apply surjective_pairing].
  unfold demo_requests. destruct (world_run trade_payloads (core engine0, world_start (demo_projector []))) as [[c w]|] eqn:Hr; [|constructor].
  eapply world_run_steps; [exact Hr|done|apply keyed_new].
Qed.

Lemma tracked_all : length (w_records demo_tracked) = 7%nat /\ dp_cursor (w_projector demo_tracked) = 7.
Proof. vm_compute. done. Qed.
