(* ===== verification/RestartExample.v ===== *)
(** * A small engine that is restarted

    A snapshot is taken and saved while two orders rest, the process dies between
    the two logs while it handles the order that trades with them, and starts
    again: the run on which the theorems about restarts are instantiated. *)

From S2P Require Import Prelude Domain Slices OrderBook BookSpec Ledger Snapshot BookSim Events Matching Validation Orders Transfer Admin LedgerSim MatchSim.
From S2P Require Import Invariant MatchLoop Dedup Wal Engine Recovery Determinism Replays Consistency SnapshotReplay Windows Columns Database Storage SnapshotStore Retention Restarts.
From S2P Require Import Example EngineExample ConsumerExample.

#[export] Instance wire_proto_laws : ProtoLaws wire.
Proof. split. by intros snap data [= <-]. Qed.

Lemma mem_stable (w : MemLog wire) : stable w.
Proof. intros t w' err. cbn. unfold mem_truncate. by case_bool_decide; intros [= <- _]. Qed.

(** The engine with two resting orders takes a snapshot, which is saved; then a
    process dies between the two logs while it handles a trade, and is restarted. *)
Definition engine_resting : demo_engine := default engine0 (deliver_all (take 6 trade_payloads) engine0).

Definition running (r : outcome (run_result (bytes := wire) (log := MemLog wire))) : demo_engine :=
  match r with Done (Running e) => e | _ => engine0 end.

Definition engine_ticked : demo_engine := running (run_step SnapshotTick engine_resting).
Definition ticked_snapshot : snapshotData wire := default (mkSnapshotData pay1 0) (snapshots engine_ticked).
Definition saved_store : Store wire :=
  fst (SaveSnapshotAndPrune (sd_state ticked_snapshot) (sd_inputSeq ticked_snapshot) snapshotRetention demo_store).
Definition engine_saved : demo_engine := running (run_step (Saver (Some 6) None) engine_ticked).
(** The order that trades is logged when the process dies. *)
Definition last_payload : wire := default pay1 (last trade_payloads).
Definition engine_died : demo_engine :=
  match Unmarshal_envelope last_payload with
  | Some (pat, dat) =>
      match request_id pat dat with
      | Some (Some id) => match logInput last_payload pat id engine_saved with Done e => e | _ => engine0 end
      | _ => engine0
      end
  | None => engine0
  end.

Lemma resting_state : state (core engine_resting) = state demo_core2.
Proof. vm_compute. reflexivity. Qed.

Lemma deliver_all_life ps qs e e' (s : Store wire) w :
  deliver_all ps e = Some e' -> life (e', s) qs w -> life (e, s) (ps ++ qs) w.
Proof.
  revert e. induction ps as [|p ps IH]; intros e; cbn [deliver_all]; [by intros [= ->]|].
  destruct (bool_decide _ && bool_decide _) eqn:Hb; [|done].
  apply andb_true_iff in Hb as [Hi%bool_decide_eq_true Ho%bool_decide_eq_true].
  destruct (run_step (Deliver p) e) as [[e1|e1 err]|] eqn:Hs; [|done|done]. intros He Hl.
  apply (life_cons _ [p] (e1, s)); [apply life_deliver; [by apply room_mem..|done]|by apply IH].
Qed.

(** The restart. *)
Definition engine_opened : demo_engine :=
  match NewEngine (input engine_died) (output engine_died) with Done (inl e) => e | _ => engine0 end.
Definition demo_latest : option (wire * Z) := q_LatestSnapshot (st_db saved_store).
Definition demo_legacy : Store wire * option (option Z) := legacy_answer (output engine_died) saved_store.
Definition demo_pruned : Store wire * (option Z + store_error) :=
  PruneSnapshots snapshotRetention (fst (LatestSnapshot (fst demo_legacy))).
Definition demo_answers : boot_answers :=
  Build_boot_answers (snd demo_legacy) (latest_of demo_latest) (prune_answer (snd demo_pruned)) (Some (Some (1, 1))).
Definition engine_restarted : demo_engine :=
  match boot demo_answers engine_opened with Done (e, _) => e | _ => engine0 end.

Lemma demo_crashed : crashed last_payload engine_saved engine_died.
Proof.
  split; [|reflexivity]. exists PatternOrderCreated, (WOrder (mkOrder 21 0 1 7 101 6 0 ORDER_LIMIT TRADING_BUY 3)), 21.
  split_and!; vm_compute; reflexivity.
Qed.

Lemma demo_rebooted :
  rebooted (input engine_died) (output engine_died) saved_store (Some (Some (1, 1))) engine_restarted (fst demo_pruned).
Proof.
  apply (rebooted_intro _ _ _ _ (fst demo_legacy) (fst (LatestSnapshot (fst demo_legacy))) _ demo_latest (snd demo_pruned)
    (snd demo_legacy) engine_opened); [vm_compute; reflexivity|apply surjective_pairing|vm_compute; reflexivity|apply surjective_pairing|].
  vm_compute. reflexivity.
Qed.

Lemma demo_saved_life :
  life (engine_saved, saved_store) (drop 6 trade_payloads) (engine_restarted, fst demo_pruned).
Proof.
  change (drop 6 trade_payloads) with ([last_payload] ++ []).
  apply (life_cons _ [last_payload] (engine_restarted, fst demo_pruned)); [|apply life_nil].
  eapply life_crash; [apply room_mem; vm_compute; reflexivity..|exact demo_crashed|exact demo_rebooted].
Qed.

Lemma demo_life : life (engine0, demo_store) trade_payloads (engine_restarted, fst demo_pruned).
Proof.
  rewrite <- (take_drop 6 trade_payloads).
  apply (deliver_all_life _ _ _ engine_resting); [vm_compute; reflexivity|].
  apply (life_cons _ [] (engine_ticked, demo_store)).
  { apply life_tick; [|vm_compute; reflexivity]. rewrite resting_state. apply (inv_wf _ _ _ demo_core2_ok). }
  apply (life_cons _ [] (engine_saved, saved_store)); [|exact demo_saved_life].
  apply (life_save _ _ _ ticked_snapshot (inl 6) None); vm_compute; reflexivity.
Qed.

Lemma demo_start : in_step engine0 [] (stored (st_db demo_store)).
Proof. apply consistent_in_step; [apply engine0_consistent|reflexivity]. Qed.

Lemma demo_in_step : exists ps, in_step engine_restarted ps (stored (st_db (fst demo_pruned))).
Proof.
  destruct (life_in_step _ _ _ [] mem_stable demo_life demo_start) as (logged & _ & Hs). exists logged. exact Hs.
Qed.

(** The ledger before and after a snapshot is restored. *)
Definition demo_restored : State :=
  match to_snapshot (state demo_core2) with Done snap => of_snapshot snap | _ => NewState end.

Lemma demo_restored_ok : same_ledger demo_restored (state demo_core2) /\ wf_state demo_restored.
Proof.
  destruct (of_to_snapshot (state demo_core2) (inv_wf _ _ _ demo_core2_ok)) as (snap & Hs & _ & Hsame & Hwf).
  unfold demo_restored. by rewrite Hs.
Qed.
