(* ===== verification/SystemExample.v ===== *)
(** * A small system

    The engine of the examples with both consumers over one database. Two resting
    orders are taken, a snapshot is saved after both consumers have caught up, so
    that the output log is trimmed, and the process dies between the two logs
    while it handles a trade; the restart writes its record. *)

From S2P Require Import Prelude Domain Slices OrderBook Ledger Snapshot Events Matching Validation Orders Transfer Admin Invariant.
From S2P Require Import Dedup Wal Metrics Engine Columns Database Storage SnapshotStore Messaging Publisher Projector Recovery Replays Consistency Retention Restarts.
From S2P Require Import Reporting Feed Mirror Tracking Writing System Example EngineExample ConsumerExample RestartExample.

Definition demo_system : Type := system wire (MemLog wire) MemBroker.

(** ** Deliveries, checked *)

Definition announced_check (b : wire) (st : State) (d : DB wire) : bool :=
  match Unmarshal_envelope b with
  | None => true
  | Some (pat, dat) =>
      (negb (String.eqb pat PatternAccountCreated) ||
         match Unmarshal_Account dat with
         | Some a => account_ready d a && bool_decide (s_Accounts st !! acc_Id a = None)
         | None => true
         end) &&
      (negb (String.eqb pat PatternStockList) ||
         match Unmarshal_Stock dat with
         | Some s => stock_ready d s && bool_decide (s_Stocks st !! st_Id s = None)
         | None => true
         end)
  end.

Lemma account_ready_row d a : account_ready d a = true -> exists r, accounts d !! acc_Id a = Some r /\ account_shown a r.
Proof.
  unfold account_ready. destruct (accounts d !! acc_Id a) as [r|]; [|done].
  intros [?%Z.eqb_eq ?%Z.eqb_eq]%andb_true_iff. by exists r.
Qed.

Lemma stock_ready_row d s : stock_ready d s = true -> exists r, stocks d !! st_Id s = Some r /\ sk_Price r = st_Price s.
Proof. unfold stock_ready. destruct (stocks d !! st_Id s) as [r|]; [|done]. intros ?%Z.eqb_eq. by exists r. Qed.

Lemma announced_check_ok b st d : announced_check b st d = true -> announced b st d.
Proof.
  unfold announced_check. intros Hc pat dat Henv. rewrite Henv in Hc. apply andb_true_iff in Hc as [Ha Hs].
  split; split; intros -> x Hx; rewrite Hx in Ha || rewrite Hx in Hs; cbn in Ha, Hs.
  - apply account_ready_row. by apply andb_true_iff in Ha as [? _].
  - apply stock_ready_row. by apply andb_true_iff in Hs as [? _].
  - apply andb_true_iff in Ha as [_ Hn]. by apply bool_decide_eq_true in Hn.
  - apply andb_true_iff in Hs as [_ Hn]. by apply bool_decide_eq_true in Hn.
Qed.

Lemma spacious_mem (w : MemLog wire) : mem_last w + dbProjectorBatchSize < two64 -> spacious w.
Proof. intros Hl last Hlast. unfold LastIndex in Hlast. cbn in Hlast. by injection Hlast as <-. Qed.

(** Deliver payloads one after the other. *)
Fixpoint system_deliver (bs : list wire) (y : demo_system) : option demo_system :=
  match bs with
  | [] => Some y
  | b :: bs =>
      let e := sy_engine y in
      if bool_decide (mem_last (input e) + 2 < two64) && bool_decide (mem_last (output e) + 2 < two64) &&
         announced_check b (state (core e)) (st_db (sy_store y))
      then match run_step (Deliver b) e with
           | Done (Running e1) =>
               if bool_decide (mem_last (output e1) + dbProjectorBatchSize < two64)
               then system_deliver bs (mkSystem e1 (sy_publisher y) (sy_projector y) (sy_store y)) else None
           | _ => None
           end
      else None
  end.

Lemma system_deliver_run bs y y' z cs :
  system_deliver bs y = Some y' -> system_run y' cs z -> system_run y (bs ++ cs) z.
Proof.
  revert y. induction bs as [|b bs IH]; intros [e p q s]; cbn [system_deliver]; [by intros [= ->]|].
  cbn [sy_engine sy_publisher sy_projector sy_store].
  destruct (bool_decide _ && bool_decide _ && _) eqn:Hb; [|done].
  apply andb_true_iff in Hb as [[Hi%bool_decide_eq_true Ho%bool_decide_eq_true]%andb_true_iff Ha%announced_check_ok].
  destruct (run_step (Deliver b) e) as [[e1|e1 err]|] eqn:Hs; [|done|done].
  case_bool_decide as Hsp; [|done]. intros Hd Hr.
  apply (system_run_cons _ [b] (mkSystem e1 p q s)); [|by apply IH].
  apply sys_deliver; [by apply room_mem..|done|done|by apply spacious_mem].
Qed.

(** ** The run *)

Definition system0 : demo_system := mkSystem engine0 (demo_publisher []) (demo_projector []) demo_store.
Definition system_ticked : demo_system := mkSystem engine_ticked (demo_publisher []) (demo_projector []) demo_store.

(** Both consumers drain. *)
Definition drained_publisher : EventPublisher wire (MemLog wire) MemBroker :=
  fst (ep_drain (ep_attach (output engine_ticked) demo_store (demo_publisher []))).
Definition drained_projector : DBProjector wire (MemLog wire) :=
  fst (dp_drain (dp_attach (output engine_ticked) (ep_store drained_publisher) (demo_projector []))).
Definition system_drained : demo_system :=
  mkSystem engine_ticked drained_publisher drained_projector (dp_store drained_projector).

(** The snapshot is saved and the logs are trimmed. *)
Definition save_result : Store wire * (Z + store_error) :=
  SaveSnapshotAndPrune (sd_state ticked_snapshot) (sd_inputSeq ticked_snapshot) snapshotRetention (dp_store drained_projector).
Definition save_cursors : Store wire * option (option (Z * Z)) := load_cursors (fst save_result).
Definition engine_trimmed : demo_engine := running (run_step (Saver (answered_floor (snd save_result)) (snd save_cursors)) engine_ticked).
Definition system_saved : demo_system := mkSystem engine_trimmed drained_publisher drained_projector (fst save_cursors).

(** The process dies between the logs, and starts again. *)
Definition engine_crashed : demo_engine :=
  match logInput last_payload PatternOrderCreated 21 engine_trimmed with Done e => e | _ => engine0 end.
Definition engine_reopened : demo_engine :=
  match NewEngine (input engine_crashed) (output engine_crashed) with Done (inl e) => e | _ => engine0 end.
Definition reboot_latest : option (wire * Z) := q_LatestSnapshot (st_db (fst save_cursors)).
Definition reboot_legacy : Store wire * option (option Z) := legacy_answer (output engine_crashed) (fst save_cursors).
Definition reboot_pruned : Store wire * (option Z + store_error) :=
  PruneSnapshots snapshotRetention (fst (LatestSnapshot (fst reboot_legacy))).
Definition reboot_cursors : Store wire * option (option (Z * Z)) := load_cursors (fst reboot_pruned).
Definition engine_rebooted : demo_engine :=
  match boot (Build_boot_answers (snd reboot_legacy) (latest_of reboot_latest) (prune_answer (snd reboot_pruned)) (snd reboot_cursors))
    engine_reopened with Done (e, _) => e | _ => engine0 end.
Definition system_rebooted : demo_system := mkSystem engine_rebooted drained_publisher drained_projector (fst reboot_cursors).

(** The log has been trimmed, and the last record waits for both consumers. *)
Lemma rebooted_log : m_first (output (sy_engine system_rebooted)) = 6 /\ LastIndex (output (sy_engine system_rebooted)) = inl 7.
Proof. vm_compute. done. Qed.

Lemma rebooted_published :
  ep_cursor (sy_publisher system_rebooted) = 6 /\ ep_eventQueue (sy_publisher system_rebooted) = "event_queue"%string.
Proof. vm_compute. done. Qed.

Lemma rebooted_projected : dp_cursor (sy_projector system_rebooted) = 6.
Proof. vm_compute. done. Qed.

Lemma crash_crashed : crashed last_payload engine_trimmed engine_crashed.
Proof.
  split; [|reflexivity]. exists PatternOrderCreated, (WOrder (mkOrder 21 0 1 7 101 6 0 ORDER_LIMIT TRADING_BUY 3)), 21.
  split_and!; vm_compute; reflexivity.
Qed.

Lemma crash_rebooted :
  rebooted (input engine_crashed) (output engine_crashed) (fst save_cursors) (snd reboot_cursors) engine_rebooted (fst reboot_pruned).
Proof.
  apply (rebooted_intro _ _ _ _ (fst reboot_legacy) (fst (LatestSnapshot (fst reboot_legacy))) _ reboot_latest (snd reboot_pruned)
    (snd reboot_legacy) engine_reopened); [vm_compute; reflexivity|apply surjective_pairing|vm_compute; reflexivity|apply surjective_pairing|].
  vm_compute. reflexivity.
Qed.

Lemma crash_rooms : room (input engine_trimmed) /\ room (output engine_trimmed) /\ spacious (output engine_rebooted).
Proof. split_and!; [apply room_mem; vm_compute; reflexivity..|apply spacious_mem; vm_compute; reflexivity]. Qed.

Lemma crash_announced : announced last_payload (state (core engine_trimmed)) (st_db (fst save_cursors)).
Proof. apply announced_check_ok. vm_compute. reflexivity. Qed.

Lemma crash_step : system_step system_saved [last_payload] system_rebooted.
Proof.
  apply (sys_crash _ _ _ _ _ engine_crashed (fst reboot_pruned) _ (snd reboot_cursors)).
  - apply crash_rooms.
  - apply crash_rooms.
  - apply crash_announced.
  - apply crash_crashed.
  - apply crash_rebooted.
  - apply surjective_pairing.
  - apply crash_rooms.
Qed.

Definition system_published : demo_system :=
  mkSystem engine_ticked drained_publisher (demo_projector []) (ep_store drained_publisher).

Lemma publish_step : background system_ticked system_published.
Proof. eapply bg_publish. apply surjective_pairing. Qed.

Lemma project_step : background system_published system_drained.
Proof. eapply bg_project. apply surjective_pairing. Qed.

Lemma save_step : background system_drained system_saved.
Proof.
  apply (bg_save _ _ _ _ ticked_snapshot (fst save_result) (snd save_result) _ (snd save_cursors)).
  - vm_compute. reflexivity.
  - apply surjective_pairing.
  - vm_compute. reflexivity.
  - vm_compute. reflexivity.
Qed.

Lemma background_run z bs : system_run system_saved bs z -> system_run system_ticked bs z.
Proof.
  intros Hr. apply (system_run_cons _ [] system_published); [apply sys_background, publish_step|].
  apply (system_run_cons _ [] system_drained); [apply sys_background, project_step|].
  apply (system_run_cons _ [] system_saved); [apply sys_background, save_step|exact Hr].
Qed.

Lemma demo_system_run : system_run system0 trade_payloads system_rebooted.
Proof.
  rewrite <- (take_drop 6 trade_payloads).
  apply (system_deliver_run _ _ (mkSystem engine_resting (demo_publisher []) (demo_projector []) demo_store)); [vm_compute; reflexivity|].
  apply (system_run_cons _ [] system_ticked).
  { apply sys_tick; [|vm_compute; reflexivity]. rewrite resting_state. apply (inv_wf _ _ _ demo_core2_ok). }
  apply background_run.
  change (drop 6 trade_payloads) with ([last_payload] ++ []).
  apply (system_run_cons _ [last_payload] system_rebooted _ _ crash_step). apply system_run_nil.
Qed.

Lemma demo_new_system : new_system system0.
Proof.
  split; [apply engine0_consistent|done|by apply mem_retains|done| |by split|done]. done.
Qed.
