(* ===== verification/IntakeExample.v ===== *)
(** * A small system with its queue

    An instance of the interface of the message queue: a queue that keeps the
    order and after a reconnection delivers again everything that it may, answered
    or not, the worst that a broker may do. It satisfies both sets of laws.

    The system of the examples behind that queue. Requests and a
    message that is none arrive; six are served, both consumers drain, a snapshot
    is saved, the process dies between the logs over the seventh and starts
    again, and what was served before comes again. *)

From S2P Require Import Prelude Domain Slices OrderBook Ledger Snapshot Events Matching Validation Orders Transfer Admin Invariant.
From S2P Require Import Dedup Wal Metrics Engine Columns Database Storage SnapshotStore Connections Messaging Publisher Projector Recovery Replays Consistency Windows Consuming Retention Restarts.
From S2P Require Import Reporting Feed Mirror Tracking Writing System Intake ExactlyOnce Example EngineExample ConsumerExample RestartExample SystemExample.

(** ** The queue *)

(** Deliveries in their order with whether each was answered; the tag of a
    delivery is its place, from 1. Those before the last [mem_prefetch] are gone for
    good: a message is received only when the one it pushes out was answered. *)
Record MemQueue := mkMemQueue {
  mq_ready : list wire;
  mq_sent : list (wire * bool);
  mq_removed : list wire
}.

Definition mem_prefetch : nat := Z.to_nat rabbitMQPrefetchCount.

Section mem_queue.
Implicit Types (q : MemQueue) (x : wire * bool) (l : list (wire * bool)).

Definition mem_start q : nat := length (mq_sent q) - mem_prefetch.
Definition mem_window q : list (wire * bool) := drop (mem_start q) (mq_sent q).
Definition mem_pending x : option wire := if snd x then None else Some (fst x).
Definition mem_done x : option wire := if snd x then Some (fst x) else None.
Definition mem_unacked q : gmap Z wire := omap mem_pending (map_seqZ (Z.of_nat (mem_start q) + 1) (mem_window q)).
Definition mem_delivered q : list (Z * wire) := imap (fun i x => (Z.of_nat i + 1, fst x)) (mq_sent q).

(** The delivery that leaves the window was answered. *)
Definition mem_free q : bool :=
  Nat.ltb (length (mq_sent q)) mem_prefetch || from_option snd true (mq_sent q !! mem_start q).

Definition mem_receive q : MemQueue * option (Z * wire) :=
  match mq_ready q with
  | b :: rest =>
      if mem_free q
      then (mkMemQueue rest (mq_sent q ++ [(b, false)]) (mq_removed q), Some (Z.of_nat (length (mq_sent q)) + 1, b))
      else (q, None)
  | [] => (q, None)
  end.

Definition mem_answer q (t : Z) (requeue : bool) : MemQueue * bool :=
  match mem_unacked q !! t with
  | Some b =>
      (mkMemQueue (if requeue then mq_ready q ++ [b] else mq_ready q) (<[Z.to_nat (t - 1) := (b, true)]> (mq_sent q)) (mq_removed q), true)
  | None => (q, false)
  end.

Definition mem_reopen q : MemQueue :=
  mkMemQueue ((mem_window q).*1 ++ mq_ready q) [] (mq_removed q ++ (take (mem_start q) (mq_sent q)).*1).

Lemma mem_unacked_lookup q t b :
  mem_unacked q !! t = Some b <-> exists i, t = Z.of_nat i + 1 /\ (mem_start q <= i)%nat /\ mq_sent q !! i = Some (b, false).
Proof.
  unfold mem_unacked, mem_window. rewrite lookup_omap, bind_Some. split.
  - intros ([b' []] & Ht & Hp); [done|]. cbn in Hp. injection Hp as ->. apply lookup_map_seqZ_Some in Ht as [Hle Ht].
    rewrite lookup_drop in Ht. eexists. split; [|split; [|exact Ht]]; lia.
  - intros (i & -> & Hi & Hl). exists (b, false). split; [|done]. apply lookup_map_seqZ_Some. split; [lia|].
    rewrite lookup_drop, <- Hl. f_equal. lia.
Qed.

Lemma mem_pending_values k l : (map_to_list (omap mem_pending (map_seqZ k l : gmap Z (wire * bool)))).*2 ≡ₚ omap mem_pending l.
Proof.
  revert k. induction l as [|[b []] l IH]; intros k; [cbn; by rewrite omap_empty, map_to_list_empty|rewrite map_seqZ_cons..].
  - rewrite omap_insert_None by done. rewrite delete_id; [by csimpl|]. rewrite lookup_omap, map_seqZ_cons_disjoint. done.
  - rewrite (omap_insert_Some _ _ _ _ b) by done. rewrite map_to_list_insert; [csimpl; by rewrite IH|].
    rewrite lookup_omap, map_seqZ_cons_disjoint. done.
Qed.

Lemma mem_unacked_values q : (map_to_list (mem_unacked q)).*2 ≡ₚ omap mem_pending (mem_window q).
Proof. apply mem_pending_values. Qed.

Lemma mem_split l : l.*1 ≡ₚ omap mem_pending l ++ omap mem_done l.
Proof. induction l as [|[b []] l IH]; csimpl; [done|rewrite IH; apply Permutation_middle|by rewrite IH]. Qed.

Lemma mem_delivered_lookup q i t b : mem_delivered q !! i = Some (t, b) -> t = Z.of_nat i + 1 /\ (mq_sent q).*1 !! i = Some b.
Proof.
  unfold mem_delivered. rewrite list_lookup_imap, list_lookup_fmap. destruct (mq_sent q !! i); [|done]. cbn. by intros [= <- <-].
Qed.
Definition mem_answered q : list wire := (take (mem_start q) (mq_sent q)).*1 ++ omap mem_done (mem_window q).
End mem_queue.

#[export] Instance mem_consumer : AmqpConsumer wire MemQueue := {
  Enqueue q b := mkMemQueue (mq_ready q ++ [b]) (mq_sent q) (mq_removed q);
  Receive := mem_receive;
  AckDelivery q t := mem_answer q t false;
  NackDelivery := mem_answer;
  Reopen := mem_reopen
}.

Section mem_laws.
Implicit Types (q : MemQueue).

Lemma mem_receive_some q q' t b :
  mem_receive q = (q', Some (t, b)) ->
  mem_free q = true /\ mq_ready q = b :: mq_ready q' /\ t = Z.of_nat (length (mq_sent q)) + 1 /\
  mq_sent q' = mq_sent q ++ [(b, false)] /\ mq_removed q' = mq_removed q.
Proof.
  unfold mem_receive. destruct (mq_ready q) as [|x rest] eqn:Hr; [done|]. destruct (mem_free q); [|done].
  by intros [= <- <- <-].
Qed.

Lemma mem_receive_none q q' : mem_receive q = (q', None) -> q' = q.
Proof. unfold mem_receive. destruct (mq_ready q); [by intros [= <-]|]. destruct (mem_free q); [done|by intros [= <-]]. Qed.

(** What the next delivery does to the window. *)
Lemma mem_start_next q q' b :
  mem_free q = true -> mq_sent q' = mq_sent q ++ [(b, false)] ->
  (mem_start q' = mem_start q /\ mem_window q' = mem_window q ++ [(b, false)]) \/
  (exists b', mem_start q' = S (mem_start q) /\ mq_sent q !! mem_start q = Some (b', true) /\
     mem_window q ++ [(b, false)] = (b', true) :: mem_window q').
Proof.
  unfold mem_free, mem_window, mem_start. intros Hf ->. rewrite length_app. cbn [length].
  destruct (Nat.ltb_spec (length (mq_sent q)) mem_prefetch) as [Hlt|Hge]; [left|right].
  - replace (length (mq_sent q) + 1 - mem_prefetch)%nat with 0%nat by lia.
    by replace (length (mq_sent q) - mem_prefetch)%nat with 0%nat by lia.
  - cbn [orb] in Hf. assert (0 < mem_prefetch)%nat by (vm_compute; lia).
    destruct (lookup_lt_is_Some_2 (mq_sent q) (length (mq_sent q) - mem_prefetch)) as [[b' fl] Hl]; [lia|].
    rewrite Hl in Hf. cbn in Hf. subst fl. exists b'. split_and!; [lia|done|]. rewrite (drop_S _ _ _ Hl). cbn. f_equal.
    rewrite drop_app_le by lia. f_equal. f_equal. lia.
Qed.

Lemma mem_unacked_next q q' b :
  mem_free q = true -> mq_sent q' = mq_sent q ++ [(b, false)] ->
  mem_unacked q !! (Z.of_nat (length (mq_sent q)) + 1) = None /\
  mem_unacked q' = <[Z.of_nat (length (mq_sent q)) + 1 := b]> (mem_unacked q).
Proof.
  intros Hf Hs. split.
  - apply eq_None_not_Some. intros [x (i & Hi & _ & Hl)%mem_unacked_lookup]. apply lookup_lt_Some in Hl. lia.
  - apply map_eq. intros t. apply option_eq. intros x. rewrite mem_unacked_lookup, Hs, lookup_insert_Some, mem_unacked_lookup.
    assert (Hst : (mem_start q <= length (mq_sent q))%nat) by (unfold mem_start; lia).
    assert (Hn : forall i y, mq_sent q !! i = Some (y, false) -> (mem_start q <= i)%nat <-> (mem_start q' <= i)%nat).
    { intros i y Hi. destruct (mem_start_next _ _ _ Hf Hs) as [[-> _]|(b' & -> & Hb & _)]; [done|].
      split; [|lia]. intros Hle. destruct (decide (i = mem_start q)) as [->|]; [congruence|lia]. }
    assert (Hs' : (mem_start q' <= length (mq_sent q))%nat).
    { unfold mem_start. rewrite Hs, length_app. cbn. assert (0 < mem_prefetch)%nat by (vm_compute; lia). lia. }
    split.
    + intros (i & -> & Hi & [Hl|[Hge Hl]]%lookup_app_Some).
      * right. pose proof (lookup_lt_Some _ _ _ Hl). split; [lia|]. exists i. split_and!; [done|by eapply Hn|done].
      * apply list_lookup_singleton_Some in Hl as [Hl [= <-]]. left. split; [lia|done].
    + intros [[<- <-]|(Hne & i & -> & Hi & Hl)].
      * exists (length (mq_sent q)). split_and!; [done..|]. by rewrite lookup_app_r, Nat.sub_diag by lia.
      * exists i. split_and!; [done|by eapply Hn|by apply lookup_app_l_Some].
Qed.

(** An answer marks the delivery, wherever it is in the window. *)
Lemma mem_answered_mark q i b :
  (mem_start q <= i)%nat -> mq_sent q !! i = Some (b, false) ->
  omap mem_done (drop (mem_start q) (<[i := (b, true)]> (mq_sent q))) ≡ₚ omap mem_done (mem_window q) ++ [b].
Proof.
  intros Hi Hl. unfold mem_window. rewrite drop_insert_ge by done.
  assert (Hw : drop (mem_start q) (mq_sent q) !! (i - mem_start q)%nat = Some (b, false)) by (rewrite lookup_drop, <- Hl; f_equal; lia).
  rewrite insert_take_drop by (by eapply lookup_lt_Some). rewrite <- (take_drop_middle _ _ _ Hw) at 3.
  rewrite !omap_app. csimpl. rewrite <- app_assoc. f_equiv. apply Permutation_cons_append.
Qed.

Lemma mem_answer_answers q t rq q' ok :
  mem_answer q t rq = (q', ok) -> (ok = false /\ q' = q) \/
  exists i b, t = Z.of_nat i + 1 /\ (mem_start q <= i)%nat /\ mq_sent q !! i = Some (b, false) /\ mem_unacked q !! t = Some b /\
    mq_sent q' = <[i := (b, true)]> (mq_sent q) /\ mq_removed q' = mq_removed q /\ (rq = false -> mq_ready q' = mq_ready q).
Proof.
  unfold mem_answer. destruct (mem_unacked q !! t) as [b|] eqn:Hb; intros [= <- <-]; [right|by left].
  pose proof Hb as (i & -> & Hi & Hl)%mem_unacked_lookup. exists i, b. cbn. replace (Z.to_nat (Z.of_nat i + 1 - 1)) with i by lia.
  split_and!; [done..|]. by intros ->.
Qed.

Lemma mem_unacked_mark q q' i b :
  mq_sent q !! i = Some (b, false) -> mq_sent q' = <[i := (b, true)]> (mq_sent q) ->
  mem_start q' = mem_start q /\ mem_unacked q' = delete (Z.of_nat i + 1) (mem_unacked q).
Proof.
  intros Hl Hs. assert (Hst : mem_start q' = mem_start q) by (unfold mem_start; by rewrite Hs, length_insert). split; [done|].
  apply map_eq. intros t. apply option_eq. intros x. rewrite lookup_delete_Some, !mem_unacked_lookup, Hst, Hs. split.
  - intros (j & -> & Hj & Hx). destruct (decide (i = j)) as [<-|Hne].
    + rewrite list_lookup_insert_eq in Hx by (by eapply lookup_lt_Some). done.
    + rewrite list_lookup_insert_ne in Hx by done. split; [lia|]. by exists j.
  - intros (Hne & j & -> & Hj & Hx). exists j. rewrite list_lookup_insert_ne by lia. done.
Qed.
Lemma mem_answered_next q q' b :
  mem_free q = true -> mq_sent q' = mq_sent q ++ [(b, false)] -> mem_answered q' = mem_answered q.
Proof.
  intros Hf Hs. unfold mem_answered. assert (Hle : (mem_start q <= length (mq_sent q))%nat) by (unfold mem_start; lia).
  destruct (mem_start_next _ _ _ Hf Hs) as [[-> ->]|(b' & Hst & Hb & Hw)].
  - rewrite Hs, take_app_le, omap_app by done. csimpl. by rewrite app_nil_r.
  - assert (Hd : omap mem_done (mem_window q) = b' :: omap mem_done (mem_window q')).
    { rewrite <- (app_nil_r (omap _ _)). change [] with (omap mem_done [(b, false)]). by rewrite <- omap_app, Hw. }
    rewrite Hst, Hd, Hs, take_app_le by (apply lookup_lt_Some in Hb; lia). rewrite (take_S_r _ _ _ Hb), fmap_app, <- app_assoc. done.
Qed.


Lemma mem_delivered_payloads q : (mem_delivered q).*2 = (mq_sent q).*1.
Proof. unfold mem_delivered. by rewrite fmap_imap, <- (imap_const fst). Qed.

Lemma mem_answer_delivered q t rq q' ok : mem_answer q t rq = (q', ok) -> mem_delivered q' = mem_delivered q.
Proof.
  intros [[_ ->]|(i & b & _ & _ & Hl & _ & Hs & _)]%mem_answer_answers; [done|]. apply list_eq. intros j.
  unfold mem_delivered. rewrite !list_lookup_imap, Hs. destruct (decide (i = j)) as [<-|Hne].
  - rewrite list_lookup_insert_eq by (by eapply lookup_lt_Some). by rewrite Hl.
  - by rewrite list_lookup_insert_ne.
Qed.

Lemma mem_answers q t q' ok :
  mem_answer q t false = (q', ok) -> (ok = false /\ (mq_ready q' = mq_ready q /\ mem_unacked q' = mem_unacked q /\ mem_answered q' = mem_answered q /\ mq_removed q' = mq_removed q)) \/
  exists b, mem_unacked q !! t = Some b /\ mem_unacked q' = delete t (mem_unacked q) /\ mq_ready q' = mq_ready q /\
    mem_answered q' ≡ₚ mem_answered q ++ [b] /\ mq_removed q' = mq_removed q.
Proof.
  intros [[-> ->]|(i & b & -> & Hi & Hl & Hu & Hs & Hm & Hr)]%mem_answer_answers; [by left|right]. exists b.
  destruct (mem_unacked_mark _ _ _ _ Hl Hs) as [Hst Hun]. split_and!; [done|done|by apply Hr| |done].
  unfold mem_answered at 1, mem_window. rewrite Hst, Hs, take_insert_ge, mem_answered_mark by done. unfold mem_answered. by rewrite app_assoc.
Qed.

End mem_laws.

#[export] Instance mem_consumer_spec : AmqpConsumerSpec wire MemQueue.
Proof.
  refine {| queued := mq_ready; unacked := mem_unacked; answered := mem_answered; removed := mq_removed |}.
  - intros q b. cbn. split_and!; [|done..]. symmetry. apply Permutation_cons_append.
  - intros q q' ->%mem_receive_none. done.
  - intros q q' t b (Hf & Hr & -> & Hs & Hm)%mem_receive_some. destruct (mem_unacked_next _ _ _ Hf Hs) as [Hn Hu].
    split_and!; [done|done|by rewrite Hr|by eapply mem_answered_next|done].
  - intros q t q' ok Ha. by apply mem_answers in Ha.
  - intros q t q' ok Ha. by apply mem_answers in Ha.
  - intros q. exists (omap mem_done (mem_window q)), (take (mem_start q) (mq_sent q)).*1.
    split_and!; [apply Permutation_app_comm| |done..]. cbn [Reopen mem_consumer mem_reopen mq_ready].
    rewrite mem_unacked_values, mem_split, (Permutation_app_comm _ (mq_ready q)). done.
Defined.

(** The queue keeps the order. *)
#[export] Instance mem_ordered_spec : AmqpOrderedSpec wire MemQueue.
Proof.
  refine {| prefetch := mem_prefetch; delivered := mem_delivered |}.
  - intros q b. by split.
  - intros q q' ->%mem_receive_none. done.
  - intros q q' t b (Hf & Hr & -> & Hs & Hm)%mem_receive_some. split_and!; [done| |].
    + unfold mem_delivered. rewrite Hs, imap_app. cbn. by rewrite Nat.add_0_r.
    + intros ([t b'] & Ht & [i Hi]%list_elem_of_lookup)%list_elem_of_fmap. apply mem_delivered_lookup in Hi as [-> Hi].
      apply lookup_lt_Some in Hi. rewrite length_fmap in Hi. cbn in Ht. lia.
  - intros q t q' ok Ha. exact (mem_answer_delivered _ _ _ _ _ Ha).
  - intros q t q' ok Ha. exact (mem_answer_delivered _ _ _ _ _ Ha).
  - intros q _. exists (take (mem_start q) (mem_delivered q)), (drop (mem_start q) (mem_delivered q)). split_and!.
    + by rewrite take_drop.
    + apply Forall_forall. intros [t b] [i Hi]%list_elem_of_lookup. apply lookup_take_Some in Hi as [Hi Hlt]. cbn.
      apply mem_delivered_lookup in Hi as [-> Hi]. apply eq_None_not_Some. intros [x (j & Hj & Hle & _)%mem_unacked_lookup]. lia.
    + rewrite length_drop. unfold mem_delivered. rewrite length_imap. unfold mem_start. lia.
    + by rewrite fmap_drop, mem_delivered_payloads, <- fmap_drop.
    + done.
    + by rewrite fmap_take, mem_delivered_payloads, <- fmap_take.
Defined.

Definition demo_intake : Type := intake wire (MemLog wire) MemBroker MemQueue.

(** ** Serving, checked *)

Fixpoint put_all (bs : list wire) (w : demo_intake) : demo_intake :=
  match bs with
  | [] => w
  | b :: bs => put_all bs (mkIntake (it_system w) (Enqueue (it_queue w) b) (it_forwarder w) (it_loop w) (it_cancelled w))
  end.

Lemma put_all_run bs w cs z : intake_run (put_all bs w) cs z -> intake_run w (bs ++ cs) z.
Proof.
  revert w. induction bs as [|b bs IH]; intros [y m f l c] Hr; [done|].
  apply (intake_run_cons _ [b] (mkIntake y (Enqueue m b) f l c)); [apply in_arrive|]. by apply IH.
Qed.

(** Receive a message, handle it, answer it. *)
Definition serve (w : demo_intake) : option demo_intake :=
  let y := it_system w in
  let e := sy_engine y in
  let '(m, f) := forward_receive (it_queue w) (it_forwarder w) in
  match forward_taken f, it_loop w with
  | Some (d, f), Selecting =>
      if bool_decide (mem_last (input e) + 2 < two64) && bool_decide (mem_last (output e) + 2 < two64) &&
         (announced_check (dl_payload d) (state (core e)) (st_db (sy_store y)) ||
          from_option (fun ki => dedup_has (dups e) (fst ki) (snd ki)) false (request (dl_payload d)))
      then
        match handle (dl_payload d) e with
        | Done (e', Failed _) | Done (e', Nack true) => None
        | Done (e', r) =>
            if bool_decide (mem_last (output e') + dbProjectorBatchSize < two64)
            then
              match answer_delivery d r m with
              | (m, true) => Some (mkIntake (mkSystem e' (sy_publisher y) (sy_projector y) (sy_store y)) m f Selecting (it_cancelled w))
              | _ => None
              end
            else None
        | _ => None
        end
      else None
  | _, _ => None
  end.

Lemma serve_run w w' cs z : serve w = Some w' -> intake_run w' cs z -> intake_run w cs z.
Proof.
  destruct w as [[e p q s] m f l c]. unfold serve. cbn [it_system it_queue it_forwarder it_loop it_cancelled sy_engine sy_publisher sy_projector sy_store].
  destruct (forward_receive m f) as [m1 f1] eqn:Hr. destruct (forward_taken f1) as [[d f2]|] eqn:Ht; [|done].
  destruct l; [|done..]. destruct (bool_decide _ && bool_decide _ && _) eqn:Hb; [|done].
  apply andb_true_iff in Hb as [[Hi%bool_decide_eq_true Ho%bool_decide_eq_true]%andb_true_iff Ha].
  destruct (handle (dl_payload d) e) as [[e' r]|] eqn:Hh; [|done].
  assert (Hann : fresh (dl_payload d) e -> announced (dl_payload d) (state (core e)) (st_db s)).
  { intros Hf. apply orb_true_iff in Ha as [Ha|Ha]; [by apply announced_check_ok|]. exfalso. unfold request in Ha.
    destruct (Unmarshal_envelope (dl_payload d)) as [[pat dat]|] eqn:Henv; [|done].
    destruct (request_id pat dat) as [[id|]|] eqn:Hid; [|done..]. cbn in Ha. by rewrite (Hf _ _ _ Henv Hid) in Ha. }
  intros Hs Hrun.
  assert (Hx : (forall err, r <> Failed err) /\ spacious (output e') /\
    exists m2, answer_delivery d r m1 = (m2, true) /\ w' = mkIntake (mkSystem e' p q s) m2 f2 Selecting c).
  { destruct r as [|[]|err]; [|done| |done]; (case_bool_decide as Hsp; [|done]);
      (split; [done|split; [by apply spacious_mem|]]);
      match type of Hs with match ?x with _ => _ end = _ => destruct x as [m2 []] eqn:Hans end; [|done| |done]; injection Hs as <-; by exists m2. }
  destruct Hx as (Hnf & Hsp & m2 & Hans & ->).
  apply (intake_run_cons _ [] (mkIntake (mkSystem e p q s) m1 f1 Selecting c)); [by apply in_receive|].
  apply (intake_run_cons _ [] (mkIntake (mkSystem e' p q s) m1 f2 (Answering d r) c)); [by eapply in_handle; [..|apply room_mem|apply room_mem| | | |]|].
  apply (intake_run_cons _ [] (mkIntake (mkSystem e' p q s) m2 f2 Selecting c)); [exact (in_answer _ m1 m2 f2 d r c true Hans)|exact Hrun].
Qed.

Fixpoint serve_all (n : nat) (w : demo_intake) : option demo_intake :=
  match n with
  | O => Some w
  | S n => w1 ← serve w; serve_all n w1
  end.

Lemma serve_all_run n w w' cs z : serve_all n w = Some w' -> intake_run w' cs z -> intake_run w cs z.
Proof.
  revert w. induction n as [|n IH]; intros w; cbn [serve_all]; [by intros [= ->]|].
  intros (w1 & H1 & H2)%bind_Some Hr. eapply serve_run; [exact H1|]. by eapply IH.
Qed.

(** ** The run *)

(** A message that is no request. *)
Definition junk : wire := WOrder (mkOrder 1 0 1 7 100 1 0 ORDER_LIMIT TRADING_BUY 1).
Definition demo_messages : list wire := junk :: trade_payloads.

Definition intake0 : demo_intake := mkIntake system0 (mkMemQueue [] [] []) Receiving Selecting false.
Definition served : demo_intake := default intake0 (serve_all 7 (put_all demo_messages intake0)).

Lemma served_ok : serve_all 7 (put_all demo_messages intake0) = Some served.
Proof. vm_compute. reflexivity. Qed.

Lemma served_system : it_system served = mkSystem engine_resting (demo_publisher []) (demo_projector []) demo_store.
Proof. vm_compute. reflexivity. Qed.

Definition last_delivery : Delivery wire := mkDelivery 8 last_payload.
Definition served_queue : MemQueue := it_queue served.
Definition held_queue : MemQueue := fst (forward_receive served_queue Receiving).

Lemma served_shape : served = mkIntake (mkSystem engine_resting (demo_publisher []) (demo_projector []) demo_store) served_queue Receiving Selecting false.
Proof. rewrite <- served_system. vm_compute. reflexivity. Qed.

Lemma last_received : forward_receive served_queue Receiving = (held_queue, Handing last_delivery).
Proof. vm_compute. reflexivity. Qed.

(** After the crash everything is delivered again. *)
Definition intake_rebooted : demo_intake := mkIntake system_rebooted (Reopen held_queue) Receiving Selecting false.
Definition intake_again : demo_intake := default intake0 (serve_all 8 intake_rebooted).

Lemma again_ok : serve_all 8 intake_rebooted = Some intake_again.
Proof. vm_compute. reflexivity. Qed.

Lemma rebooted_run : intake_run served [] intake_again.
Proof.
  rewrite served_shape.
  apply (intake_run_cons _ [] (mkIntake system_ticked served_queue Receiving Selecting false)).
  { apply in_tick; [|vm_compute; reflexivity]. rewrite resting_state. apply (inv_wf _ _ _ demo_core2_ok). }
  apply (intake_run_cons _ [] (mkIntake system_published served_queue Receiving Selecting false) [] _ (in_background _ _ _ _ _ _ publish_step)).
  apply (intake_run_cons _ [] (mkIntake system_drained served_queue Receiving Selecting false) [] _ (in_background _ _ _ _ _ _ project_step)).
  apply (intake_run_cons _ [] (mkIntake system_saved served_queue Receiving Selecting false) [] _ (in_background _ _ _ _ _ _ save_step)).
  apply (intake_run_cons _ [] (mkIntake system_saved held_queue (Handing last_delivery) Selecting false) [] _
    (in_receive _ _ _ _ _ _ _ last_received)).
  apply (intake_run_cons _ [] intake_rebooted).
  - apply (in_crash _ _ _ _ _ _ Receiving last_delivery _ engine_crashed (fst reboot_pruned) _ (snd reboot_cursors)).
    + reflexivity.
    + apply crash_rooms.
    + apply crash_rooms.
    + apply crash_announced.
    + apply crash_crashed.
    + apply crash_rebooted.
    + apply surjective_pairing.
    + apply crash_rooms.
  - apply (serve_all_run _ _ _ _ _ again_ok). apply intake_run_nil.
Qed.

Lemma demo_intake_run : intake_run intake0 demo_messages intake_again.
Proof.
  rewrite <- (app_nil_r demo_messages). apply put_all_run, (serve_all_run _ _ _ _ _ served_ok), rebooted_run.
Qed.

Lemma demo_new_intake : new_intake intake0.
Proof. split; [apply demo_new_system|reflexivity|by split|by split]. Qed.

Lemma demo_numbered : Forall (numbered (bytes := wire)) demo_messages.
Proof. repeat constructor; intros kind id; vm_compute; intros [= _ <-]; done. Qed.

(** Every message is answered, the last request was logged once although the
    message was delivered twice. *)
Lemma again_state :
  gone (it_queue intake_again) ≡ₚ demo_messages /\ held (it_queue intake_again) = [] /\
  LastIndex (input (sy_engine (it_system intake_again))) = inl 7.
Proof.
  replace (gone (it_queue intake_again)) with demo_messages by (vm_compute; reflexivity).
  split_and!; [done|vm_compute; reflexivity..].
Qed.

(** The goroutines wait for the next message. *)
Lemma again_idle :
  queued (it_queue intake_again) = [] /\ it_forwarder intake_again = Receiving /\ it_loop intake_again = Selecting.
Proof. split_and!; vm_compute; reflexivity. Qed.

Lemma demo_unique : unique demo_messages.
Proof. unfold unique. set (l := omap _ _). vm_compute in l. subst l. by apply (bool_decide_unpack _). Qed.

Lemma demo_nothing_delivered : delivered (it_queue intake0) = [].
Proof. reflexivity. Qed.

(** The broker keeps to the prefetch count. *)
Lemma mem_keeps_prefetch : Z.of_nat prefetch <= rabbitMQPrefetchCount.
Proof. vm_compute. discriminate. Qed.
