(* ===== verification/BookTheorems.v ===== *)
(** * Theorems about the order book and snapshots *)

From S2P Require Import Prelude Domain Slices OrderBook BookSpec Ledger Snapshot Events Matching Invariant Settlement MatchStep MatchLoop MatchSpec Reports Example.

(** The operations of the witnesses: two orders, a partial fill, a cancel. *)
Definition demo_ops : list book_op := [OpAdd ask1; OpAdd ask2; OpFill 11 2; OpCancel 12; OpFill 11 9].

(** C16: The order book, with its price-indexed queues, sorted price slices, id
    index and linked-list elements, implements the abstract book that is just
    the list of resting orders in order of arrival. Any sequence of additions of
    open orders with fresh ids, cancels and fills runs without a panic, returns
    the results of the abstract machine, and ends in a book that represents the
    abstract list. *)
Theorem book_refines_list (ops : list book_op) :
  ops_ok [] ops = true ->
  exists b, run_ops NewOrderBook ops = Done (b, snd (spec_ops [] ops)) /\ refines b (fst (spec_ops [] ops)).
Proof.
  intros Hok. apply run_ops_refines; [|done]. exists []. split_and!; [apply rep_new|done|constructor].
Qed.

Lemma book_refines_list_witness :
  ops_ok [] demo_ops = true /\
  exists b, run_ops NewOrderBook demo_ops = Done (b, [ResUnit; ResUnit; ResQty 2; ResBool true; ResQty 3]) /\ refines b [].
Proof. split; [by vm_compute|]. exact (book_refines_list demo_ops ltac:(by vm_compute)). Defined.

(** C17: After any such sequence, [BestAsk] and [BestBid] give the price of the
    best resting order of their side (lowest ask, highest bid, and among equal
    prices the earliest arrival), and [Front] at that price gives exactly that
    order: the book serves orders in price-time priority. *)
Theorem book_serves_best_order (ops : list book_op) (b : OrderBook) (rs : list book_res) (s : bool) :
  ops_ok [] ops = true -> run_ops NewOrderBook ops = Done (b, rs) ->
  best b s = o_Price <$> spec_best s (fst (spec_ops [] ops)) /\
  forall o, spec_best s (fst (spec_ops [] ops)) = Some o -> Front b (side_type s) (o_Price o) = Some o.
Proof.
  intros Hok Hrun. destruct (run_ops_refines NewOrderBook [] ops) as (b' & Hrun' & Href); [|done|].
  - exists []. split_and!; [apply rep_new|done|constructor].
  - rewrite Hrun in Hrun'. injection Hrun' as <- _. by apply refines_best.
Qed.

Lemma book_serves_best_order_witness :
  exists b rs, run_ops NewOrderBook [OpAdd ask2; OpAdd ask1] = Done (b, rs) /\ BestAsk b = Some 100 /\
    Front b TRADING_SELL 100 = Some ask1.
Proof.
  destruct (run_ops NewOrderBook [OpAdd ask2; OpAdd ask1]) as [[b rs]|] eqn:Hrun; [|by vm_compute in Hrun].
  exists b, rs. split; [done|].
  destruct (book_serves_best_order [OpAdd ask2; OpAdd ask1] b rs true ltac:(by vm_compute) Hrun) as [Hb Hf].
  split; [exact Hb|exact (Hf ask1 ltac:(by vm_compute))].
Defined.

(** The quantity reported for a price level is the sum of the open
    quantities of the orders resting at that level, as a [uint64]. *)
Theorem level_quantity_is_sum (ops : list book_op) (b : OrderBook) (rs : list book_res) (side : TradingType) (p : Z) :
  ops_ok [] ops = true -> run_ops NewOrderBook ops = Done (b, rs) ->
  LevelQuantity b side p = u64 (lsum remaining (filter (order_at (is_sell side) p) (fst (spec_ops [] ops)))).
Proof.
  intros Hok Hrun. destruct (run_ops_refines NewOrderBook [] ops) as (b' & Hrun' & la & Hr & Hla & _); [|done|].
  - exists []. split_and!; [apply rep_new|done|constructor].
  - rewrite Hrun in Hrun'. injection Hrun' as <- _. rewrite <- Hla. by apply level_quantity_orders.
Qed.

Lemma level_quantity_is_sum_witness :
  exists b rs, run_ops NewOrderBook [OpAdd ask1; OpFill 11 2] = Done (b, rs) /\ LevelQuantity b TRADING_SELL 100 = 3.
Proof.
  destruct (run_ops NewOrderBook [OpAdd ask1; OpFill 11 2]) as [[b rs]|] eqn:Hrun; [|by vm_compute in Hrun].
  exists b, rs. split; [done|].
  rewrite (level_quantity_is_sum [OpAdd ask1; OpFill 11 2] b rs TRADING_SELL 100 ltac:(by vm_compute) Hrun). by vm_compute.
Defined.

(** The price slices stay in step with the queues: after any such sequence each
    of them is strictly ascending and holds exactly the prices at which orders of
    its side rest, and a queue exists for exactly these prices. *)
Theorem price_slices_match_levels (ops : list book_op) (b : OrderBook) (rs : list book_res) (s : bool) :
  ops_ok [] ops = true -> run_ops NewOrderBook ops = Done (b, rs) ->
  ascending (prices b s) /\
  forall p, (p ∈ prices b s <-> exists o, o ∈ fst (spec_ops [] ops) /\ order_at s p o) /\
    (p ∈ prices b s <-> is_Some (queues b s !! p)).
Proof.
  intros Hok Hrun. destruct (run_ops_refines NewOrderBook [] ops) as (b' & Hrun' & la & Hr & Hla & _); [|done|].
  - exists []. split_and!; [apply rep_new|done|constructor].
  - rewrite Hrun in Hrun'. injection Hrun' as <- _. rewrite <- Hla. split; [apply (rep_sorted _ _ Hr)|].
    intros p. split.
    + rewrite (rep_price_active _ _ _ _ Hr). split.
      * intros (a & o & Hin & Hs & Hp). exists o. split; [|by split]. apply list_elem_of_fmap. by exists (a, o).
      * intros (o & ([a o'] & -> & Hin)%list_elem_of_fmap & Hs & Hp). eauto.
    + rewrite (rep_prices _ _ Hr), (rep_queue _ _ Hr). destruct (level la s p); cbn; split; try done; by intros [].
Qed.

Lemma price_slices_match_levels_witness :
  exists b rs, run_ops NewOrderBook [OpAdd ask2; OpAdd ask1; OpCancel 12] = Done (b, rs) /\
    ascending (sellPrices b) /\ 101 ∉ sellPrices b.
Proof.
  destruct (run_ops NewOrderBook [OpAdd ask2; OpAdd ask1; OpCancel 12]) as [[b rs]|] eqn:Hrun; [|by vm_compute in Hrun].
  exists b, rs. split; [done|].
  destruct (price_slices_match_levels [OpAdd ask2; OpAdd ask1; OpCancel 12] b rs true ltac:(by vm_compute) Hrun) as [Hs Hp].
  split; [exact Hs|]. destruct (Hp 101) as [Hp1 _]. rewrite Hp1. intros (o & Ho & _ & Hpr).
  apply list_elem_of_singleton in Ho as ->. discriminate.
Defined.

(** A protobuf encoder that keeps the message. *)
#[local] Instance demo_proto : Proto LedgerSnapshot := {| proto_Marshal := Some; proto_Unmarshal := Some |}.
#[local] Instance demo_proto_laws : ProtoLaws LedgerSnapshot.
Proof. split. by intros snap data [= ->]. Qed.

(** C18: Restoring a serialised ledger gives back the same accounts, holdings and
    stocks, and books with the same orders in the same order at every price
    level, except for the creation times, which the snapshot does not store;
    serialising a well-formed ledger does not panic, and the restored ledger is
    well-formed. *)
Theorem snapshot_restores_ledger {bytes : Type} `{!Proto bytes, !ProtoLaws bytes} (st st0 : State) :
  wf_state st ->
  exists snap, to_snapshot st = Done snap /\
    forall data, proto_Marshal snap = Some data ->
      Serialize st = Done (inl data) /\
      exists st', Restore st0 data = (st', None) /\ same_ledger st' st /\ wf_state st'.
Proof.
  intros Hwf. destruct (of_to_snapshot st Hwf) as (snap & Hs & Hv & Hsame & Hwf'). exists snap. split; [done|].
  intros data Hd. split.
  - unfold Serialize. rewrite Hs. cbn [obind]. by rewrite Hd.
  - exists (of_snapshot snap). split; [|done]. unfold Restore.
    by rewrite (proto_roundtrip _ _ Hd), Hv, Z.eqb_refl.
Qed.

Lemma snapshot_restores_ledger_witness :
  exists snap, to_snapshot (state demo_core2) = Done snap /\
    exists st', Restore NewState snap = (st', None) /\ same_ledger st' (state demo_core2).
Proof.
  destruct (snapshot_restores_ledger (state demo_core2) NewState (inv_wf _ _ _ demo_core2_ok)) as (snap & Hs & Hr).
  exists snap. split; [done|]. destruct (Hr snap eq_refl) as (_ & st' & He & Hsame & _). eauto.
Defined.
