(* ===== verification/TradingTheorems.v ===== *)
(** * Theorems about matching, orders, transfers and adjustments *)

From S2P Require Import Prelude Domain Slices OrderBook BookSpec Ledger Snapshot Events Matching Validation Orders Transfer Admin Invariant Settlement MatchStep MatchLoop MatchSpec Limits Crossing Reports TradeIds Requests Accounts Example.

(** ** Readings of the event list *)

(** What a trade says about the maker: its id, the price and the quantity. *)
Definition trade_key (t : Trade) : Z * Z * Z := (tr_MakerOrderId t, tr_Price t, tr_Quantity t).
Definition fill_key (f : fill) : Z * Z * Z := (o_Id (fst f), o_Price (fst f), snd f).

Section lemmas.
Context `{!Clock}.
Implicit Types (order : Order) (c : Core) (la : abook).

Lemma executed_trades order fs tids evss :
  Forall3 (executed order) fs tids evss ->
  trade_key <$> trades_of (concat evss) = fill_key <$> fs /\ tr_Id <$> trades_of (concat evss) = tids /\
  Forall (fun t => tr_TakerOrderId t = o_Id order /\ tr_StockId t = o_StockId order) (trades_of (concat evss)).
Proof.
  induction 1 as [|[o q] tid evs fs tids evss Hex _ (IH1 & IH2 & IH3)]; [done|].
  destruct Hex as (t1 & t2 & ->). cbn [concat]. rewrite trades_of_app, !fmap_app, IH1, IH2.
  assert (Htr : forall e, trades_of
    [mkOutEvent PatternTradeExecuted (EvTrade (mkTrade tid (o_StockId order) (o_Price o) q (o_Id o) (o_Id order)
       (o_TradingType order) t1)); if (o_FilledQuantity o + q =? o_Quantity o) then mkOutEvent PatternOrderFilled (EvOrder e)
       else mkOutEvent PatternOrderOpen (EvOrder (set_oe_FilledQuantity (o_FilledQuantity o + q) (orderEvent o)))] =
    [mkTrade tid (o_StockId order) (o_Price o) q (o_Id o) (o_Id order) (o_TradingType order) t1]).
  { intros e. unfold trades_of. csimpl. by destruct (_ =? _). }
  rewrite Htr. split_and!; [done|done|]. by constructor.
Qed.

(** The trades of a matched order are the reference's. *)
Lemma matched_trades order l c c' evs :
  matched order l c c' evs ->
  trade_key <$> trades_of evs = fill_key <$> fills order l /\
  tr_Id <$> trades_of evs = trade_ids c (length (fills order l)) /\
  Forall (fun t => tr_TakerOrderId t = o_Id order /\ tr_StockId t = o_StockId order) (trades_of evs).
Proof.
  intros Hm. destruct (mr_events _ _ _ _ _ Hm) as (evss & t & Hex & ->).
  rewrite trades_of_app, (trades_of_none (_ ++ _)).
  - rewrite app_nil_r. by apply executed_trades.
  - intros ev tr Hev. rewrite !elem_of_app in Hev.
    destruct Hev as [->%list_elem_of_singleton|[Hev|[Hev|Hev]]]; [done|..].
    + unfold book_events in Hev. case_match; [set_solver|]. by apply list_elem_of_singleton in Hev as ->.
    + by destruct (account_events_sound _ _ _ _ Hev) as [(? & ? & _ & ->)|(? & ? & _ & ->)].
    + unfold stock_events in Hev. case_match; [|set_solver]. by apply list_elem_of_singleton in Hev as ->.
Qed.

Lemma priority_open order la :
  (forall a o, (a, o) ∈ la -> open_order o) -> Forall open_order (priority (counter_side order) la.*2).
Proof.
  intros Hopen. rewrite <- by_priority_orders. apply Forall_forall. intros o ([a o'] & -> & Hin)%list_elem_of_fmap.
  destruct (by_priority_ok (counter_side order) la) as [Hp _].
  apply (prioritised_elem _ _ _ _ Hp) in Hin as [Hin _]. simpl. eauto.
Qed.

Lemma ok_open c sid la :
  ledger_ok (state c) -> rep (book sid (state c)) la -> forall a o, (a, o) ∈ la -> resting_ok sid o.
Proof.
  intros Hi Hr a o Hin. eapply resting_wf; [apply wf_book_at, Hi|]. apply (resting_elem _ _ _ Hr). eauto.
Qed.

Lemma ids_left_index c sid la :
  rep (book sid (state c)) la -> ids_left c (size (index (book sid (state c)))) -> ids_left c (length la).
Proof. intros Hr Hids. eapply ids_left_le; [exact Hids|by apply rep_index_size|done|done]. Qed.
End lemmas.

(** The witnesses match [bid1] against the two asks of the example. *)
Lemma demo_ids_index : ids_left demo_core2 (size (index (book 7 (state demo_core2)))).
Proof. intros _. by vm_compute. Qed.

(** ** Matching *)

(** C1: Matching an order keeps the ledger sound, for a funded order with a new id,
    a market buy being priced at or above every ask it can meet (the precondition
    that the source notes and validation does not check; [market_buy_can_overdraw]
    shows what happens without it), in a sound ledger whose totals leave room for
    the sums of two records and while trade ids are left. It never panics, never
    fails and never runs out of the model's fuel; afterwards every balance is the
    available balance plus what the resting orders reserve (so nothing is lost or
    reserved twice), no available amount is negative or has wrapped around, and
    the total cash and the total number of shares of every stock are unchanged. *)
Theorem match_keeps_ledger `{!Clock} (order : Order) (c : Core) :
  ledger_ok (state c) -> matchable order (state c) -> bounded (o_StockId order) (state c) ->
  ids_left c (size (index (book (o_StockId order) (state c)))) ->
  exists c' evs, matchEvents order c = Done (c', inl evs) /\ ledger_ok (state c') /\
    total_cash (state c') = total_cash (state c) /\ forall t, total_qty t (state c') = total_qty t (state c).
Proof.
  intros Hi Hm Hb Hids. destruct (rep_at (o_StockId order) (state c) Hi) as (la & Hr & _).
  destruct (matchEvents_ok order c la Hi Hm Hb Hr (ids_left_index _ _ _ Hr Hids)) as (c' & evs & He & Hmt).
  exists c', evs. split_and!; [done|apply Hmt..].
Qed.

Lemma match_keeps_ledger_witness :
  exists c' evs, matchEvents bid1 demo_core2 = Done (c', inl evs) /\ total_cash (state c') = 1500 /\
    total_qty 7 (state c') = 10.
Proof.
  destruct (match_keeps_ledger bid1 demo_core2 demo_core2_ok bid1_matchable demo_bounded demo_ids_index)
    as (c' & evs & He & _ & Hc & Hq).
  exists c', evs. rewrite Hc, Hq. split; [exact He|]. split; vm_compute; reflexivity.
Defined.

(** C2: The matching loop implements the reference matching: it makes exactly the
    trades that walking the opposite side in price-time priority gives, with the
    makers' ids, prices and quantities, consecutive trade ids (zero while an
    input that has its output is replayed), and the book afterwards is the book
    before with these fills applied and, for a limit order, the remainder added
    at the end. *)
Theorem match_refines_reference `{!Clock} (order : Order) (c : Core) (la : abook) :
  ledger_ok (state c) -> matchable order (state c) -> bounded (o_StockId order) (state c) ->
  rep (book (o_StockId order) (state c)) la -> ids_left c (length la) ->
  exists c' evs, matchEvents order c = Done (c', inl evs) /\
    trade_key <$> trades_of evs = fill_key <$> fills order la.*2 /\
    tr_Id <$> trades_of evs = trade_ids c (length (fills order la.*2)) /\
    exists la', rep (book (o_StockId order) (state c')) la' /\
      la'.*2 = apply_fills (fills order la.*2) la.*2 ++ remainder (taken order la.*2).
Proof.
  intros Hi Hm Hb Hr Hids. destruct (matchEvents_ok order c la Hi Hm Hb Hr Hids) as (c' & evs & He & Hmt).
  destruct (matched_trades _ _ _ _ _ Hmt) as (Ht1 & Ht2 & _).
  exists c', evs. split_and!; [done..|apply Hmt].
Qed.

Lemma match_refines_reference_witness :
  exists la c' evs, rep (book 7 (state demo_core2)) la /\ matchEvents bid1 demo_core2 = Done (c', inl evs) /\
    trade_key <$> trades_of evs = fill_key <$> fills bid1 la.*2.
Proof.
  destruct (demo_rep demo_core2 7 demo_core2_ok) as (la & Hr).
  destruct (match_refines_reference bid1 demo_core2 la demo_core2_ok bid1_matchable demo_bounded Hr (demo_ids la Hr))
    as (c' & evs & He & Ht & _).
  exists la, c', evs. split; [exact Hr|]. split; [exact He|exact Ht].
Defined.

(** C21: Price-time priority of the trades themselves: the makers are, in this
    order, the first orders of the opposite side by price and then by arrival;
    every maker but the last is filled completely; and the taker stops short of
    its quantity only when the next order in that sequence is missing or beyond
    its limit. *)
Theorem match_price_time_priority `{!Clock} (order : Order) (c : Core) (la : abook) :
  ledger_ok (state c) -> matchable order (state c) -> bounded (o_StockId order) (state c) ->
  rep (book (o_StockId order) (state c)) la -> ids_left c (length la) ->
  exists c' evs fs rest, matchEvents order c = Done (c', inl evs) /\
    trade_key <$> trades_of evs = fill_key <$> fs /\
    priority (counter_side order) la.*2 = fs.*1 ++ rest /\
    (forall fs1 o q fs2, fs = fs1 ++ (o, q) :: fs2 -> fs2 <> [] -> q = unfilled o) /\
    (fills_qty fs < unfilled order ->
       from_option (fun o => price_rejected order (o_Price o)) true (head rest) = true).
Proof.
  intros Hi Hm Hb Hr Hids. destruct (matchEvents_ok order c la Hi Hm Hb Hr Hids) as (c' & evs & He & Hmt).
  destruct (matched_trades _ _ _ _ _ Hmt) as (Ht1 & _).
  assert (Hopen : Forall open_order (priority (counter_side order) la.*2)).
  { apply priority_open. intros a o Hin. apply (ro_open _ _ (ok_open _ _ _ Hi Hr _ _ Hin)). }
  assert (Hu : 0 <= unfilled order) by (pose proof (mt_open _ _ Hm); unfold open_order, unfilled in *; lia).
  destruct (greedy_prefix order (unfilled order) (priority (counter_side order) la.*2)) as [rest Hrest].
  exists c', evs, (fills order la.*2), rest. split_and!; [done|done|done| |].
  - intros fs1 o q fs2. by apply greedy_complete.
  - intros Hlt. destruct (greedy_exhaustive _ _ _ Hu Hopen Hlt) as (rest' & Hrest' & Hh).
    rewrite Hrest in Hrest' at 1. apply app_inv_head in Hrest'. by subst.
Qed.

Lemma match_price_time_priority_witness :
  exists la c' evs fs rest, rep (book 7 (state demo_core2)) la /\ matchEvents bid1 demo_core2 = Done (c', inl evs) /\
    trade_key <$> trades_of evs = fill_key <$> fs /\ priority true la.*2 = fs.*1 ++ rest.
Proof.
  destruct (demo_rep demo_core2 7 demo_core2_ok) as (la & Hr).
  destruct (match_price_time_priority bid1 demo_core2 la demo_core2_ok bid1_matchable demo_bounded Hr (demo_ids la Hr))
    as (c' & evs & fs & rest & He & Ht & Hp & _).
  exists la, c', evs, fs, rest. split; [exact Hr|]. split; [exact He|]. split; [exact Ht|exact Hp].
Defined.




(** C20: The events of a matched order report all of its effects: every account,
    holding and stock whose record changed, and every price level whose quantity
    changed, is in the events with its final value. *)
Theorem match_reports_changes `{!Clock} (order : Order) (c : Core) :
  ledger_ok (state c) -> matchable order (state c) -> bounded (o_StockId order) (state c) ->
  ids_left c (size (index (book (o_StockId order) (state c)))) ->
  exists c' evs, matchEvents order c = Done (c', inl evs) /\ reported order c c' evs.
Proof.
  intros Hi Hm Hb Hids. destruct (rep_at (o_StockId order) (state c) Hi) as (la & Hr & Hok).
  destruct (matchEvents_ok order c la Hi Hm Hb Hr (ids_left_index _ _ _ Hr Hids)) as (c' & evs & He & Hmt).
  exists c', evs. split; [done|]. apply (matched_reported order la); [apply Hi|done|done|apply Hm|].
  intros f (a & Hin & _)%fills_elem. destruct (ro_side _ _ (Hok _ _ Hin)) as [Hs|Hs]; by rewrite Hs.
Qed.

Lemma match_reports_changes_witness :
  exists c' evs, matchEvents bid1 demo_core2 = Done (c', inl evs) /\ reported bid1 demo_core2 c' evs.
Proof. exact (match_reports_changes bid1 demo_core2 demo_core2_ok bid1_matchable demo_bounded demo_ids_index). Defined.

(** C23: The matching loop terminates: for every open order and every well-formed
    book, whatever the balances, trade ids and sequence numbers are, the number
    of resting orders bounds the iterations. Matching returns its events, or
    reports that the trade ids are exhausted, or panics on a holding whose
    quantity has wrapped around to zero; in a sound ledger it returns. *)
Theorem match_terminates `{!Clock} (order : Order) (c : Core) :
  open_order order -> wf_book (o_StockId order) (book (o_StockId order) (state c)) ->
  (exists c' evs, matchEvents order c = Done (c', inl evs)) \/
  (exists c', matchEvents order c = Done (c', inr TradeIDExhausted)) \/
  matchEvents order c = Panicked DivideByZero.
Proof. apply matchEvents_fuel. Qed.

Lemma match_terminates_witness : exists c' evs, matchEvents bid1 demo_core2 = Done (c', inl evs).
Proof.
  destruct (match_terminates bid1 demo_core2) as [He|[[c' He]|He]].
  - by vm_compute.
  - exact (wf_book_at 7 (state demo_core2) (inv_wf _ _ _ demo_core2_ok)).
  - exact He.
  - exfalso. by vm_compute in He.
  - exfalso. by vm_compute in He.
Defined.

(** The cost basis of a holding: its average price times its quantity never
    exceeds the total amount paid for it. *)
Definition cost_ok (h : StockBalance) : Prop :=
  0 <= sb_Quantity h /\ 0 <= sb_Average h /\ sb_Average h * sb_Quantity h <= sb_TotalBuyAmount h < two64.

(** A trade keeps the cost basis of both holdings: the buyer's average becomes
    the total divided by the quantity, the seller's average stays and its total
    falls by the average times the quantity sold; a holding that is sold out has
    zero average and total. Neither computation divides by zero. *)
Theorem trade_keeps_cost_basis (hb hs : StockBalance) (q cash : Z) :
  cost_ok hb -> cost_ok hs -> 0 < q -> 0 <= cash -> q <= sb_Quantity hs < two64 ->
  sb_Quantity hb + q < two64 -> sb_TotalBuyAmount hb + cash < two64 ->
  (exists hb', buyer_holding hb q cash = Done hb' /\ cost_ok hb' /\ sb_TotalBuyAmount hb' = sb_TotalBuyAmount hb + cash /\
     sb_Average hb' = (sb_TotalBuyAmount hb + cash) / (sb_Quantity hb + q)) /\
  (let hs' := seller_holding q hs in cost_ok hs' /\
     if decide (q = sb_Quantity hs) then sb_Average hs' = 0 /\ sb_TotalBuyAmount hs' = 0
     else sb_Average hs' = sb_Average hs /\ sb_TotalBuyAmount hs' = sb_TotalBuyAmount hs - q * sb_Average hs).
Proof.
  intros (B1 & B2 & B3) (S1 & S2 & S3) Hq Hc Hqs Hqb Htb. split.
  - unfold buyer_holding. cbv zeta. rewrite (add64_exact (sb_Quantity hb)), (add64_exact (sb_TotalBuyAmount hb)) by nia.
    destruct (Z.eqb_spec (sb_Quantity hb + q) 0); [lia|]. eexists. split; [done|]. unfold cost_ok. simpl.
    split_and!; [lia|apply Z.div_pos; nia| |lia|done|done].
    rewrite Z.mul_comm. apply Z.mul_div_le. lia.
  - unfold seller_holding. cbv zeta. rewrite sub64_exact by lia.
    destruct (Z.eqb_spec (sb_Quantity hs - q) 0) as [Hz|Hz].
    + rewrite decide_True by lia. unfold cost_ok. simpl. unfold two64. lia.
    + rewrite decide_False by lia. rewrite mul64_exact by nia. rewrite sub64_exact by nia.
      unfold cost_ok. simpl. split_and!; nia || done.
Qed.

Lemma trade_keeps_cost_basis_witness :
  exists hb', buyer_holding (mkStockBalance 1 7 2 2 50 101) 3 300 = Done hb' /\ sb_Average hb' = 80.
Proof.
  destruct (trade_keeps_cost_basis (mkStockBalance 1 7 2 2 50 101) (mkStockBalance 2 7 10 10 50 500) 3 300)
    as [(hb' & Hb & _ & _ & Ha) _]; try (unfold cost_ok; by vm_compute).
  exists hb'. split; [exact Hb|]. rewrite Ha. by vm_compute.
Defined.

(** ** Order requests *)

(** C3: An order request of any kind (buy, sell, edit, cancel) that passes
    validation, has a new id and, when it is a market buy, is priced at or above
    every ask it can meet (which validation does not check;
    [market_buy_can_overdraw] shows what happens otherwise), is processed, in a
    sound ledger whose totals leave room for the sums of two records and while
    trade ids are left, without a panic or an error, keeps the ledger invariant and the
    totals of cash and shares, and leaves every book uncrossed if it was: no bid
    meets an ask between two requests. *)
Theorem order_request_keeps_ledger `{!Clock} (order : Order) (c : Core) :
  ledger_ok (state c) -> bounded (o_StockId order) (state c) -> order_fields order ->
  fresh_id order (state c) -> capped order (state c) ->
  ids_left c (size (index (book (o_StockId order) (state c)))) ->
  snd (validateOrder order (state c)) = None ->
  exists c' evs, route_events order (set_state c (fst (validateOrder order (state c)))) = Done (c', inl evs) /\
    ledger_ok (state c') /\ total_cash (state c') = total_cash (state c) /\
    (forall t, total_qty t (state c') = total_qty t (state c)) /\
    ((forall t, uncrossed (book t (state c))) -> forall t, uncrossed (book t (state c'))).
Proof.
  intros Hi Hb Hf Hfr Hcap Hids Hv. destruct (route_ok order c Hi Hb Hf Hfr Hcap Hids Hv) as (c' & evs & He & [P1 P2 P3 P4]).
  exists c', evs. by split_and!.
Qed.

(** An edit of the first ask to a lower price. *)
Definition edit1 : Order := mkOrder 22 11 2 7 99 0 0 ORDER_LIMIT TRADING_EDIT 4.

Lemma demo_fresh order : o_StockId order = 7 -> o_Id order <> 11 -> o_Id order <> 12 -> fresh_id order (state demo_core2).
Proof.
  intros Hs H1 H2 o. rewrite Hs, demo_resting2. by intros [->|[->|?%elem_of_nil]%elem_of_cons]%elem_of_cons Heq; [apply H1|apply H2|].
Qed.

Lemma order_request_keeps_ledger_witness :
  exists c' evs,
    route_events edit1 (set_state demo_core2 (fst (validateOrder edit1 (state demo_core2)))) = Done (c', inl evs) /\
    ledger_ok (state c').
Proof.
  destruct (order_request_keeps_ledger edit1 demo_core2) as (c' & evs & He & Hi & _).
  - exact demo_core2_ok.
  - exact demo_bounded.
  - by vm_compute.
  - by apply demo_fresh.
  - intros o Hm. by vm_compute in Hm.
  - exact demo_ids_index.
  - by vm_compute.
  - exists c', evs. split; [exact He|exact Hi].
Defined.

(** C26: A buy order is accepted exactly when its id is positive, the stock is
    listed, its quantity is positive with nothing filled, its type is limit or
    market, its price is not zero, the account exists, and the cost is a
    [uint64] that the available balance covers. *)
Theorem buy_accepted_iff (order : Order) (st : State) :
  order_fields order -> o_TradingType order = TRADING_BUY ->
  snd (validateOrder order st) = None <->
  0 < o_Id order /\
  (exists s, s_Stocks st !! o_StockId order = Some s /\ st_Status s = LISTED) /\
  o_Quantity order <> 0 /\ o_FilledQuantity order = 0 /\ o_Price order <> 0 /\
  (o_OrderType order = ORDER_LIMIT \/ o_OrderType order = ORDER_MARKET) /\
  exists a, s_Accounts st !! o_AccountId order = Some a /\ o_Price order * o_Quantity order < two64 /\
    o_Price order * o_Quantity order <= acc_AvailableBalance a.
Proof.
  intros (Hp & Hq & _) Ht. unfold validateOrder. rewrite Ht. destruct (Z.leb_spec (o_Id order) 0); [split; [done|lia]|].
  pose proof (validateStock_None order st) as Hs. rewrite Ht in Hs.
  destruct (validateStock order st); simpl; [split; [done|]; intros (_ & (s & ? & ?) & _); naive_solver|].
  rewrite (validateBuy_None order st Hp Hq), validateTrade_iff.
  destruct (proj1 Hs eq_refl) as (s & Hst & [Hl|?]); [|done]. naive_solver.
Qed.

Lemma buy_accepted_iff_witness : snd (validateOrder bid1 (state demo_core2)) = None.
Proof.
  apply (buy_accepted_iff bid1 (state demo_core2)); [by vm_compute|done|].
  split_and!; try done; [|by left|].
  - exists (mkStock 7 90 LISTED). by vm_compute.
  - exists (mkAccount 1 1000 1000). by vm_compute.
Defined.

(** C27: A sell order is accepted exactly when its id is positive, the stock is
    listed, its quantity is positive with nothing filled, its type is limit or
    market, its price is not zero, and the account holds enough available shares. *)
Theorem sell_accepted_iff (order : Order) (st : State) :
  o_TradingType order = TRADING_SELL ->
  snd (validateOrder order st) = None <->
  0 < o_Id order /\
  (exists s, s_Stocks st !! o_StockId order = Some s /\ st_Status s = LISTED) /\
  o_Quantity order <> 0 /\ o_FilledQuantity order = 0 /\ o_Price order <> 0 /\
  (o_OrderType order = ORDER_LIMIT \/ o_OrderType order = ORDER_MARKET) /\
  exists h, s_StockBalances st !! (o_AccountId order, o_StockId order) = Some h /\
    o_Quantity order <= sb_AvailableQuantity h.
Proof.
  intros Ht. unfold validateOrder. rewrite Ht. destruct (Z.leb_spec (o_Id order) 0); [split; [done|lia]|].
  pose proof (validateStock_None order st) as Hs. rewrite Ht in Hs.
  destruct (validateStock order st); simpl; [split; [done|]; intros (_ & (s & ? & ?) & _); naive_solver|].
  rewrite (validateSell_None order st), validateTrade_iff.
  destruct (proj1 Hs eq_refl) as (s & Hst & [Hl|?]); [|done]. naive_solver.
Qed.

Lemma sell_accepted_iff_witness : snd (validateOrder ask1 (state demo_core)) = None.
Proof.
  apply (sell_accepted_iff ask1 (state demo_core)); [done|].
  split_and!; try done; [|by left|].
  - exists (mkStock 7 90 LISTED). by vm_compute.
  - exists (mkStockBalance 2 7 10 10 50 500). by vm_compute.
Defined.

(** Validation itself changes nothing: whatever the verdict, every account,
    holding, stock and order book reads as before (looking up a target may at most
    create an empty book), and the ledger stays sound. *)
Theorem validation_changes_nothing (order : Order) (st : State) :
  let st' := fst (validateOrder order st) in
  s_Accounts st' = s_Accounts st /\ s_StockBalances st' = s_StockBalances st /\ s_Stocks st' = s_Stocks st /\
  (forall sid, book sid st' = book sid st) /\ (ledger_ok st -> ledger_ok st').
Proof.
  cbv zeta. destruct (validated_open order st) as [->| ->]; [done|]. split_and!; [done..| |].
  - intros sid. apply book_open.
  - apply inv_open_book.
Qed.

(** C28: A validated cancel takes its target, and only its target, out of the book,
    gives back exactly what the target had reserved (price times open quantity
    to the buyer, the open quantity to the seller), and touches no other record. *)
Theorem cancel_releases_target `{!Clock} (order : Order) (c : Core) (la : abook) :
  ledger_ok (state c) -> rep (book (o_StockId order) (state c)) la ->
  o_TradingType order = TRADING_CANCEL -> snd (validateOrder order (state c)) = None ->
  exists target a c' evs, (a, target) ∈ la /\ o_Id target = o_TargetId order /\ o_AccountId target = o_AccountId order /\
    cancelEvents order c = Done (c', inl evs) /\ ledger_ok (state c') /\
    rep (book (o_StockId order) (state c')) (without a la) /\
    (forall acc, o_TradingType target = TRADING_BUY -> s_Accounts (state c) !! o_AccountId target = Some acc ->
       s_Accounts (state c') !! o_AccountId target =
         Some (set_AvailableBalance (acc_AvailableBalance acc + o_Price target * unfilled target) acc)) /\
    (forall h, o_TradingType target = TRADING_SELL ->
       s_StockBalances (state c) !! (o_AccountId target, o_StockId target) = Some h ->
       s_StockBalances (state c') !! (o_AccountId target, o_StockId target) =
         Some (set_AvailableQuantity (sb_AvailableQuantity h + unfilled target) h)) /\
    (forall i, i <> o_AccountId target -> s_Accounts (state c') !! i = s_Accounts (state c) !! i).
Proof.
  intros Hi Hr Ht Hv. destruct (validated_cancel _ _ Ht Hv) as (target & Hact).
  destruct (cancelEvents_ok order target c la Hi Hr Hact) as (c' & evs & a & He & _ & Hin & Hrm).
  pose proof (ro_stock _ _ (ok_open _ _ _ Hi Hr _ _ Hin)) as Hs. destruct Hact as [Hget Hacc].
  apply (rep_Get _ _ _ _ Hr) in Hget as (a' & Hin' & Hid).
  exists target, a, c', evs. split_and!; [done..|apply Hrm| | | |].
  - rewrite <- Hs. apply Hrm.
  - intros acc Hb Ha. by apply (rm_cash _ _ _ _ _ Hrm).
  - intros h Hb Hh. by apply (rm_qty _ _ _ _ _ Hrm).
  - intros i Hne. apply (lf_accounts _ _ _ _ (rm_frame _ _ _ _ _ Hrm)). set_solver.
Qed.

Definition cancel1 : Order := mkOrder 23 12 2 7 0 0 0 ORDER_LIMIT TRADING_CANCEL 5.

Lemma cancel_releases_target_witness :
  exists (la : abook) target a c' evs, (a, target) ∈ la /\ o_Id target = 12 /\
    cancelEvents cancel1 demo_core2 = Done (c', inl evs) /\ rep (book 7 (state c')) (without a la).
Proof.
  destruct (demo_rep demo_core2 7 demo_core2_ok) as (la & Hr).
  destruct (cancel_releases_target cancel1 demo_core2 la demo_core2_ok Hr eq_refl ltac:(by vm_compute))
    as (target & a & c' & evs & Hin & Hid & _ & He & _ & Hr' & _).
  exists la, target, a, c', evs. split; [exact Hin|]. split; [exact Hid|]. split; [exact He|exact Hr'].
Defined.



(** ** Transfers and adjustments *)

(** C30: A transfer is applied exactly when it has a positive id, a non-zero
    amount, two different existing accounts with positive ids, and a sender with
    enough available balance. Then both balances of the sender fall and both of
    the recipient rise by the amount and no other account changes; otherwise the
    ledger does not change. The invariant and the total cash are kept. *)
Theorem transfer_moves_amount `{!Clock} (t : Transfer) (c : Core) :
  ledger_ok (state c) -> total_cash (state c) < two64 -> 0 <= tf_Amount t ->
  let c' := fst (transferEvents t c) in
  ledger_ok (state c') /\ total_cash (state c') = total_cash (state c) /\
  (forall sender recipient, transfer_ok t (state c) sender recipient ->
     s_Accounts (state c') !! tf_SenderAccountId t =
       Some (mkAccount (tf_SenderAccountId t) (acc_Balance sender - tf_Amount t)
               (acc_AvailableBalance sender - tf_Amount t)) /\
     s_Accounts (state c') !! tf_RecipientAccountId t =
       Some (mkAccount (tf_RecipientAccountId t) (acc_Balance recipient + tf_Amount t)
               (acc_AvailableBalance recipient + tf_Amount t)) /\
     forall i, i <> tf_SenderAccountId t -> i <> tf_RecipientAccountId t ->
       s_Accounts (state c') !! i = s_Accounts (state c) !! i) /\
  ((forall sender recipient, ~ transfer_ok t (state c) sender recipient) -> state c' = state c).
Proof.
  intros Hi Htot Ha c'. destruct (transferEvents_ok t c Hi Htot Ha) as [[P1 P2 _ _] Hcases]. fold c' in P1, P2, Hcases.
  split_and!; [done|done| |].
  - intros sender recipient Hok. destruct Hcases as [(r & Hr & _)|(s & rc & Hok' & ? & ? & ?)].
    + by rewrite (proj2 (validateTransfer_inl _ _ _ _) Hok) in Hr.
    + apply validateTransfer_inl in Hok, Hok'. rewrite Hok in Hok'. by injection Hok' as <- <-.
  - intros Hn. destruct Hcases as [(r & _ & ?)|(s & rc & Hok & _)]; [done|]. by destruct (Hn s rc).
Qed.

Lemma transfer_moves_amount_witness :
  s_Accounts (state (fst (transferEvents (mkTransfer 5 1 2 300) demo_core2))) !! 2 = Some (mkAccount 2 800 800).
Proof.
  destruct (transfer_moves_amount (mkTransfer 5 1 2 300) demo_core2 demo_core2_ok ltac:(by vm_compute) ltac:(done))
    as (_ & _ & Hok & _).
  destruct (Hok (mkAccount 1 1000 1000) (mkAccount 2 500 500)) as (_ & Hr & _); [by vm_compute|]. exact Hr.
Defined.

(** An admin balance adjustment changes the balance and the available balance
    of its account by exactly the signed delta, never below zero, or is rejected
    and changes nothing; the total cash moves by the delta. Converting the most
    negative delta does not overflow. *)
Theorem balance_adjust_exact `{!Clock} (req : BalanceAdjust) (c : Core) :
  ledger_ok (state c) -> is_i64 (ba_Delta req) -> balance_room req (state c) ->
  let c' := fst (balanceAdjustEvents req c) in
  ledger_ok (state c') /\
  match validateBalanceAdjust req (state c) with
  | Some _ => state c' = state c
  | None => exists a, s_Accounts (state c) !! ba_AccountId req = Some a /\
      s_Accounts (state c') !! ba_AccountId req =
        Some (mkAccount (ba_AccountId req) (acc_Balance a + ba_Delta req) (acc_AvailableBalance a + ba_Delta req)) /\
      0 <= acc_AvailableBalance a + ba_Delta req /\
      total_cash (state c') = total_cash (state c) + ba_Delta req
  end.
Proof.
  intros Hi Hd Hroom c'. destruct (balanceAdjustEvents_ok req c Hi Hd Hroom) as [Hi' Hcases]. fold c' in Hi', Hcases.
  split; [done|]. destruct (validateBalanceAdjust req (state c)) as [r|] eqn:Hv.
  - revert Hcases. unfold c', balanceAdjustEvents. by rewrite Hv.
  - destruct Hcases as [(r & ? & _)|(a & Ha & Hst & Hge & Htot)]; [done|]. exists a. split_and!; [done| |done|done].
    rewrite Hst. simpl. unfold Accounts_Upsert. by rewrite lookup_insert_eq.
Qed.

Lemma balance_adjust_exact_witness :
  exists a, s_Accounts (state demo_core2) !! 1 = Some a /\
    s_Accounts (state (fst (balanceAdjustEvents (mkBalanceAdjust 9 1 (-400)) demo_core2))) !! 1 =
      Some (mkAccount 1 (acc_Balance a - 400) (acc_AvailableBalance a - 400)).
Proof.
  destruct (balance_adjust_exact (mkBalanceAdjust 9 1 (-400)) demo_core2 demo_core2_ok) as [_ H].
  - by vm_compute.
  - intros a _ Hpos. by vm_compute in Hpos.
  - replace (validateBalanceAdjust (mkBalanceAdjust 9 1 (-400)) (state demo_core2)) with (@None AdminRejectReason) in H
      by (vm_compute; reflexivity).
    destruct H as (a & Ha & Hs & _). exists a. split; [exact Ha|exact Hs].
Defined.

(** An admin adjustment of a holding changes the shares of that stock by
    exactly the delta, creates a holding only for an existing account and stock,
    never takes more than is available, keeps the ledger invariant, the cash and
    every other stock, or is rejected and changes nothing. *)
Theorem stock_adjust_exact `{!Clock} (req : StockBalanceAdjust) (c : Core) :
  ledger_ok (state c) -> is_i64 (sba_Delta req) -> holding_room req (state c) ->
  let c' := fst (stockBalanceAdjustEvents req c) in
  ledger_ok (state c') /\ total_cash (state c') = total_cash (state c) /\
  match validateStockBalanceAdjust req (state c) with
  | Some _ => state c' = state c
  | None => total_qty (sba_StockId req) (state c') = total_qty (sba_StockId req) (state c) + sba_Delta req /\
      forall t, t <> sba_StockId req -> total_qty t (state c') = total_qty t (state c)
  end.
Proof.
  intros Hi Hd Hroom c'. destruct (stockBalanceAdjustEvents_ok req c Hi Hd Hroom) as (Hi' & Hc' & Hcases).
  fold c' in Hi', Hc', Hcases. split_and!; [done|done|].
  destruct (validateStockBalanceAdjust req (state c)) as [r|] eqn:Hv.
  - revert Hcases. unfold c', stockBalanceAdjustEvents. by rewrite Hv.
  - by destruct Hcases as [(r & ? & _)|(_ & ? & ?)].
Qed.

Lemma stock_adjust_exact_witness :
  total_qty 7 (state (fst (stockBalanceAdjustEvents (mkStockBalanceAdjust 9 1 7 4 60) demo_core2))) = 14.
Proof.
  destruct (stock_adjust_exact (mkStockBalanceAdjust 9 1 7 4 60) demo_core2 demo_core2_ok) as (_ & _ & H).
  - by vm_compute.
  - intros h Hh. by vm_compute in Hh.
  - replace (validateStockBalanceAdjust (mkStockBalanceAdjust 9 1 7 4 60) (state demo_core2)) with (@None AdminRejectReason) in H
      by (vm_compute; reflexivity).
    destruct H as [H _]. cbn [sba_StockId sba_Delta] in H. rewrite H. vm_compute. reflexivity.
Defined.

(** Activating a new account whose balance is all available keeps the ledger
    invariant and adds exactly its balance to the total cash. *)
Theorem activate_account_adds_cash `{!Clock} (acc : Account) (c : Core) :
  ledger_ok (state c) -> s_Accounts (state c) !! acc_Id acc = None ->
  is_u64 (acc_Balance acc) -> acc_AvailableBalance acc = acc_Balance acc ->
  let c' := fst (activateAccountEvents acc c) in
  ledger_ok (state c') /\ total_cash (state c') = total_cash (state c) + acc_Balance acc /\
  s_Accounts (state c') !! acc_Id acc = Some acc.
Proof. apply activateAccount_ok. Qed.

Lemma activate_account_adds_cash_witness :
  ledger_ok (state (fst (activateAccountEvents (mkAccount 3 10 10) demo_core2))).
Proof.
  apply (activate_account_adds_cash (mkAccount 3 10 10) demo_core2 demo_core2_ok); by vm_compute.
Defined.

(** ** The precondition of market buys *)

(** Account 3 has 10; its market buy of 5 shares is priced at 1, below the asks. *)
Definition poor_core : Core := fst (activateAccountEvents (mkAccount 3 10 10) demo_core2).
Definition market1 : Order := mkOrder 31 0 3 7 1 5 0 ORDER_MARKET TRADING_BUY 6.

(** C40: The engine itself does not check that a market buy is priced at the day's
    upper limit: in a sound ledger, a market buy below the best ask passes
    validation, is filled, and leaves its account with a balance and an available
    balance that have wrapped around below zero, so that cash is created. *)
Theorem market_buy_can_overdraw :
  ledger_ok (state poor_core) /\ snd (validateOrder market1 (state poor_core)) = None /\
  exists c' evs, matchEvents market1 poor_core = Done (c', inl evs) /\
    s_Accounts (state c') !! 3 = Some (mkAccount 3 (two64 - 490) (two64 - 490)) /\
    total_cash (state poor_core) = 1510 /\ total_cash (state c') = 1510 + two64.
Proof.
  split_and!.
  - apply (activateAccount_ok (mkAccount 3 10 10) demo_core2 demo_core2_ok); by vm_compute.
  - by vm_compute.
  - destruct (matchEvents market1 poor_core) as [[c' [evs|e]]|p] eqn:He.
    + exists c', evs. split; [done|].
      assert (Hc : c' = core_of (matchEvents market1 poor_core)) by (by rewrite He).
      rewrite Hc. split_and!; vm_compute; reflexivity.
    + by vm_compute in He.
    + by vm_compute in He.
Qed.
