(* ===== verification/EngineTheorems.v ===== *)
(** * Theorems about the engine: logs, recovery, duplicates and cleanup *)

From S2P Require Import Prelude Domain Slices OrderBook Ledger Events Matching Validation Orders Transfer Admin MatchLoop Dedup Wal.
From S2P Require Import Engine Recovery Determinism Replays Consistency TradeIds TradeRecovery Cleanup Windows Example EngineExample.

Section engine_theorems.
Context `{!Clock} {bytes log : Type} `{!Codec bytes, !CodecLaws bytes, !Proto bytes}.
Context `{!Twal bytes log, !TwalLaws bytes log}.
Abbreviation engine := (Engine bytes log).

(** ** Recovery *)

(** C11: A restart from the two logs alone rebuilds the ledger. Whatever happened
    since the installation, as long as the logs were not trimmed (deliveries
    handled by the live engine, snapshot ticks, earlier restarts, crashes between
    the two logs): opening the logs and replaying the input WAL succeeds, whatever
    trade counter is set in between, gives the very ledger that the handlers had
    made, writes to neither log, and keeps the counter. The input WAL holds some of
    the payloads delivered, in their order, and the sequence number of the engine
    is again their number. *)
Theorem restart_rebuilds_ledger (e : engine) (qs : list bytes) (t : Z) :
  lived e qs ->
  exists e0 e', NewEngine (input e) (output e) = Done (inl e0) /\ Replay NotFound (with_tradeID t e0) = Done (e', None) /\
    state (core e') = state (core e) /\ input e' = input e /\ output e' = output e /\ lastTradeID (core e') = t /\
    exists ps, sublist ps qs /\ holds (input e') 1 ps /\ inputSeq (core e') = Z.of_nat (length ps).
Proof.
  intros (ps & Hsub & Hc)%lived_consistent. destruct (restart_with e ps Hc) as (e0 & Hne & _ & Hr).
  destruct (Hr t) as (e' & Hrep & Hst & Hin & Ho & Ht & Hc' & _). exists e0, e'. split_and!; [done..|].
  exists ps. split_and!; [done|apply Hc'..].
Qed.

(** Along every run of deliveries and snapshot ticks from an engine that is
    in step with its logs, the engine stays in step: the requests that were
    logged are some of the payloads delivered, in their order, their effects
    from the empty ledger give the ledger, and the last output record belongs
    to the last of them. *)
Theorem runs_keep_logs_in_step (e e' : engine) (ps qs : list bytes) :
  runs e qs e' -> consistent e ps -> exists logged, sublist logged qs /\ consistent e' (ps ++ logged).
Proof. apply runs_consistent. Qed.

(** A request that was processed live wrote exactly one output record, with
    its input index; processed again once that output exists, from the same
    ledger, it succeeds, gives the same ledger, and writes nothing. *)
Theorem output_written_once (i : Z) (pat : string) (dat : bytes) (e1 e1' e2 : engine) :
  known pat = true -> state (core e1) = state (core e2) ->
  0 <= outputAppliedSeq (core e1) < i -> covered e2 i ->
  replay_record i pat dat e1 = Done (e1', None) ->
  wrote i e1 e1' /\
  exists e2', replay_record i pat dat e2 = Done (e2', None) /\ state (core e2') = state (core e1') /\ quiet e2 e2'.
Proof.
  intros Hk Hs Ha Hcov Hr. destruct (record_replay _ _ _ _ _ _ Hk Hs Hr) as [H1 H2]. split.
  - apply H2; [|lia]. unfold live. cbn. rewrite Z.gtb_ltb. apply orb_true_iff. right. apply Z.ltb_lt. lia.
  - destruct (H1 Hcov) as (e2' & ? & ? & ? & _). eauto.
Qed.

(** After a crash between the two logs, when a request was logged and its
    output was not written, the restart reaches the ledger before the request
    and processes the request again, whatever the clock and the trade counter
    say; when that succeeds, the ledger is the one the interrupted engine would
    have reached and the engine is in step with its logs. *)
Theorem crash_reprocesses_request (p : bytes) (e e' : engine) (ps : list bytes) (t : Z) :
  consistent e ps -> room (input e) -> room (output e) -> accepted p e e' ->
  exists e0 e1 pat dat,
    NewEngine (input e') (output e) = Done (inl e0) /\
    Unmarshal_envelope p = Some (pat, dat) /\
    state (core e1) = state (core e) /\ output e1 = output e /\ lastTradeID (core e1) = t /\
    Replay NotFound (with_tradeID t e0) = replay_record (Z.of_nat (length ps) + 1) pat dat e1 /\
    forall e2, replay_record (Z.of_nat (length ps) + 1) pat dat e1 = Done (e2, None) ->
      state (core e2) = state (core e') /\ consistent e2 (ps ++ [p]).
Proof. apply crash_ok. Qed.

(** ** Duplicates *)

(** A payload that was handled and is delivered again is acknowledged and
    changes nothing. *)
Theorem redelivery_has_no_effect (p : bytes) (e e' : engine) (ps : list bytes) :
  consistent e ps -> room (input e) -> handle p e = Done (e', Ack) -> handle p e' = Done (e', Ack).
Proof. apply redelivered. Qed.

(** A restart remembers the requests of the last 8192 input records: when
    one of them is delivered again, it changes nothing. *)
Theorem restart_remembers_requests (e : engine) (ps : list bytes) :
  consistent e ps -> Forall (fun q => from_option snd 1 (request q) <> 0) ps ->
  exists e0 e', NewEngine (input e) (output e) = Done (inl e0) /\ Replay NotFound e0 = Done (e', None) /\
    forall p, p ∈ recent ps -> exists r, handle p e' = Done (e', r) /\ (r = Ack \/ r = Nack false).
Proof.
  intros Hc Hnz. destruct (restart_ok e ps Hc) as (e0 & e' & H1 & H2 & _ & _ & _ & Hd).
  exists e0, e'. split_and!; [done..|]. intros p Hp. apply (restart_redelivered ps); [|done..].
  apply (history_requests _ _ (cn_history _ _ Hc)).
Qed.

(** ** Trade ids *)

(** Along every run, the trades in the output WAL have consecutive ids without
    gaps or repetitions, up to the engine's counter. *)
Theorem trade_ids_consecutive (base : Z) (e e' : engine) (ps qs : list bytes) :
  runs e qs e' -> consistent e ps -> counted base e ->
  exists first ods, holds (output e') first ods /\
    log_ids ods = Some (seqZ (base + 1) (lastTradeID (core e') - base)).
Proof.
  intros Hr Hc Hn. destruct (runs_counted _ _ _ _ _ Hr Hc Hn) as [_ (first & ods & Hh & _ & Hids)]. eauto.
Qed.

(** C32: A restart finds the trade counter again: the search through the output
    WAL, with the last id of the database as a fallback, sets the counter to the
    value it had, so no trade id is issued twice. *)
Theorem restart_restores_trade_counter (base : Z) (e : engine) (ps : list bytes) :
  consistent e ps -> counted base e ->
  exists e0, NewEngine (input e) (output e) = Done (inl e0) /\
    initializeTradeID (Some (Some base)) e0 = (with_tradeID (lastTradeID (core e)) e0, None).
Proof.
  intros [Hi Hh _ (first & ods & Ho & Hs & Hw) _] Hn.
  destruct (NewEngine_ok _ _ _ _ _ _ Hi (history_requests _ _ Hh) Ho Hs Hw) as (d & Hne & _).
  eexists. split; [exact Hne|]. by apply (initializeTradeID_ok base e).
Qed.

(** ** Cleanup *)

(** Truncating the input WAL at the floor of the kept snapshots changes
    nothing but the input WAL and keeps every record that a restart reads: those
    after the floor, and those from which the duplicate windows are loaded; the
    last index stays the same. *)
Theorem input_cleanup_keeps_recovery (floor first : Z) (ps : list bytes) (e e' : engine) :
  holds (input e) first ps -> ps <> [] -> 0 <= floor < next_index first ps ->
  cleanupInputWAL floor e = (e', None) ->
  core e' = core e /\ output e' = output e /\ dups e' = dups e /\
  LastIndex (input e') = LastIndex (input e) /\
  forall j, floor < j \/ dedup_start dedupWindow (next_index first ps - 1) <= j ->
    Read (input e') j = Read (input e) j.
Proof.
  intros Hh Hne Hf Hc. destruct (cleanupInputWAL_ok _ _ _ _ _ Hh Hc) as (H1 & H2 & H3 & first' & ps' & [T1 T2 T3 T4 T5 T6 _]).
  assert (Hne' : ps' <> []).
  { intros ->. cbn in T5. symmetry in T5. by apply last_None in T5. }
  pose proof (h_range _ _ _ Hh) as Hr. unfold next_index in *.
  destruct (input_target_low floor (first + Z.of_nat (length ps) - 1)) as [L1 L2]; [lia|lia|].
  split_and!; [done..| |].
  - unfold LastIndex. rewrite (h_last _ _ _ Hh), (h_last _ _ _ T1), !decide_False by done. f_equal. lia.
  - intros j Hj. unfold Read. rewrite (h_read _ _ _ Hh), (h_read _ _ _ T1), T6 by lia. done.
Qed.

(** Truncating the output WAL at the smaller of the two consumers' positions
    changes nothing but the output WAL and keeps every record from that position
    on and the last record, so a restart finds the same watermark. *)
Theorem output_cleanup_keeps_watermark (mq db first n : Z) (ods : list bytes) (e e' : engine) :
  holds (output e) first ods -> started first ods -> watermark n ods -> 0 <= mq -> 0 <= db ->
  cleanupOutputWAL (Some (Some (mq, db))) e = (e', None) ->
  core e' = core e /\ input e' = input e /\ dups e' = dups e /\
  loadOutputWatermark e' = (set_applied e' n, None) /\
  forall j, Z.min mq db <= j -> Read (output e') j = Read (output e) j.
Proof.
  intros Hh Hs Hw Hmq Hdb Hc.
  destruct (cleanupOutputWAL_ok _ _ _ _ _ _ Hh Hmq Hdb Hc) as (H1 & H2 & H3 & first' & ods' & [T1 T2 T3 T4 T5 T6 _]).
  split_and!; [done..| |].
  - apply (loadOutputWatermark_ok e' first' ods' n T1 (T2 Hs)). unfold watermark. by rewrite T5.
  - intros j Hj. unfold Read. by rewrite (h_read _ _ _ Hh), (h_read _ _ _ T1), T6.
Qed.

(** C33: The logs stay bounded. After a cleanup that succeeds the input WAL holds at
    most the records since the oldest stored snapshot and one duplicate window
    more, and the output WAL at most what the slower of the two consumers has not
    handled and one record more. *)
Theorem cleanup_bounds_logs (floor mq db first ofirst : Z) (ps ods : list bytes) (e e1 e2 : engine) :
  holds (input e) first ps -> ps <> [] -> 0 <= floor < next_index first ps ->
  holds (output e) ofirst ods -> 0 <= mq -> 0 <= db -> Z.min mq db < next_index ofirst ods ->
  cleanupInputWAL floor e = (e1, None) -> cleanupOutputWAL (Some (Some (mq, db))) e1 = (e2, None) ->
  exists ifirst' ofirst' (ps' ods' : list bytes), holds (input e2) ifirst' ps' /\ holds (output e2) ofirst' ods' /\
    next_index ifirst' ps' = next_index first ps /\ next_index ofirst' ods' = next_index ofirst ods /\
    Z.of_nat (length ps') <= (next_index first ps - 1 - floor) + dedupWindow /\
    Z.of_nat (length ods') <= (next_index ofirst ods - 1 - Z.min mq db) + 1.
Proof.
  intros Hi Hne Hf Ho Hmq Hdb Hmin Hc1 Hc2.
  destruct (cleanupInputWAL_ok _ _ _ _ _ Hi Hc1) as (_ & Ho1 & _ & first' & ps' & Ht1). rewrite <- Ho1 in Ho.
  destruct (cleanupOutputWAL_ok _ _ _ _ _ _ Ho Hmq Hdb Hc2) as (_ & Hi2 & _ & ofirst' & ods' & Ht2). rewrite <- Hi2 in Ht1.
  pose proof (h_pos _ _ _ Hi) as Hp. pose proof (h_range _ _ _ Hi) as Hr. fold (next_index first ps) in Hr.
  assert (Hn1 : 1 < next_index first ps) by (destruct ps; [done|unfold next_index; cbn; lia]).
  destruct (input_target_high floor (next_index first ps - 1)) as [L1 L2]; [lia..|].
  pose proof (trimmed_length _ _ _ _ _ _ _ Ht1 ltac:(lia)). pose proof (trimmed_length _ _ _ _ _ _ _ Ht2 Hmin). unfold output_floor in *.
  exists first', ofirst', ps', ods'. split_and!; [apply Ht1|apply Ht2|apply Ht1|apply Ht2|lia|lia].
Qed.

(** Appending to a log gives the record the next consecutive index, which is
    the index the record's builder is told, and keeps all earlier records. *)
Theorem wal_append_consecutive (w w' : log) (first i : Z) (ds : list bytes) (builder : Z -> option bytes) :
  holds w first ds -> started first ds -> next_index first ds + 1 < two64 ->
  AppendWithIndex w builder = (w', inl i) ->
  i = next_index first ds /\ LastIndex w' = inl i /\
  exists d, builder i = Some d /\ Read w' i = inl d /\
    forall j, j <> i -> Read w' j = Read w j.
Proof.
  intros Hh Hs Hr Ha. destruct (append_holds _ _ _ _ _ _ Hh Hs Hr Ha) as (-> & d & Hd & Hh' & _).
  split_and!; [done| |].
  - unfold LastIndex. rewrite (h_last _ _ _ Hh'), decide_False by (by destruct ds).
    unfold next_index. rewrite length_app. cbn [length]. f_equal. lia.
  - exists d. split_and!; [done| |].
    + unfold Read. by rewrite (h_read _ _ _ Hh'), entry_at_app, decide_True.
    + intros j Hj. unfold Read. by rewrite (h_read _ _ _ Hh'), (h_read _ _ _ Hh), entry_at_app, decide_False.
Qed.
End engine_theorems.

(** C31: The duplicate filter remembers, for each request kind, a sliding window,
    whatever the ids: an id is known exactly when it is in the window of the ids of
    its kind, where of repeated zeros only the first goes through the window, and
    the id 0 is known for good once it was recorded, because the code takes a slot
    that holds it for an empty one. When the ids are distinct the window is the
    last [w] of them. Recording an id never panics. *)
Theorem dedup_is_sliding_window (w : Z) (kis : list (string * Z)) :
  exists d, dedup_adds (newDedup w) kis = Done d /\
    forall kind, let ids := of_kind kind kis in
      (forall id, dedup_has d kind id = bool_decide (id ∈ slide_all (ring_size w) (zero_once ids) \/ (id = 0 /\ 0 ∈ ids))) /\
      (0 ∉ ids -> zero_once ids = ids) /\
      (NoDup ids -> slide_all (ring_size w) (zero_once ids) = drop (length ids - ring_size w) ids).
Proof.
  destruct (dedup_adds0_ok kis _ _ (dedup_rep0_new w)) as (d & m & Hd & _ & Hrep & Hm).
  exists d. split; [done|]. intros kind ids. split_and!.
  - intros id. rewrite (dedup_rep0_has _ _ kind id Hrep), Hm, lookup_empty. cbn [default from_option]. rewrite slide0_all. cbn [fst snd].
    apply bool_decide_ext. by rewrite bool_decide_eq_true.
  - apply zero_once_nonzero.
  - intros Hnd. rewrite zero_once_nodup by done. apply slide_all_nodup; [apply ring_size_pos|done].
Qed.

(** ** Witnesses *)

(** Two accounts and a transfer, handled from the installation on. *)
Lemma engine3_lived : lived engine3 [pay1; pay2; pay3].
Proof.
  apply (lived_run engine0 []); [|by apply deliver_all_runs; vm_compute].
  by apply (lived_new (mkMemLog 1 []) (mkMemLog 1 [])); [apply (mem_holds (mkMemLog 1 []))..|vm_compute].
Qed.

Lemma restart_rebuilds_ledger_witness :
  exists e0 e' : demo_engine, NewEngine (input engine3) (output engine3) = Done (inl e0) /\
    Replay NotFound (with_tradeID 4 e0) = Done (e', None) /\ s_Accounts (state (core e')) !! 2 = Some (mkAccount 2 800 800).
Proof.
  destruct (restart_rebuilds_ledger engine3 _ 4 engine3_lived) as (e0 & e' & H1 & H2 & H3 & _).
  exists e0, e'. split; [exact H1|]. split; [exact H2|]. rewrite H3. vm_compute. reflexivity.
Defined.

Lemma demo_runs : runs engine0 [pay1; pay1; pay2; pay3] engine3.
Proof.
  eapply runs_deliver; [by apply room_mem..|cbn [run_step]; rewrite handle1; reflexivity|].
  eapply runs_deliver; [by apply room_mem..|vm_compute; reflexivity|].
  eapply (runs_deliver engine1); [by apply room_mem..|cbn [run_step]; rewrite handle2; reflexivity|].
  eapply runs_deliver; [by apply room_mem..|cbn [run_step]; rewrite handle3; reflexivity|].
  apply runs_nil.
Qed.

Lemma runs_keep_logs_in_step_witness :
  exists logged, sublist logged [pay1; pay1; pay2; pay3] /\ consistent engine3 logged.
Proof. exact (runs_keep_logs_in_step engine0 engine3 [] _ demo_runs engine0_consistent). Defined.

(** The engine before the third request, once its output exists. *)
Definition engine2_covered : demo_engine := set_applied engine2 3.

Lemma output_written_once_witness :
  exists e1' e2' : demo_engine,
    wrote 3 engine2 e1' /\
    replay_record 3 PatternTransferCreated (WTransfer (mkTransfer 5 1 2 300)) engine2_covered = Done (e2', None) /\
    quiet engine2_covered e2'.
Proof.
  destruct (replay_record 3 PatternTransferCreated (WTransfer (mkTransfer 5 1 2 300)) engine2) as [[e1' [err|]]|] eqn:Hr;
    [by vm_compute in Hr| |by vm_compute in Hr].
  destruct (output_written_once 3 PatternTransferCreated (WTransfer (mkTransfer 5 1 2 300)) engine2 e1' engine2_covered)
    as [Hw (e2' & H2 & _ & Hq)].
  - reflexivity.
  - reflexivity.
  - vm_compute. split; [discriminate|reflexivity].
  - unfold covered. vm_compute. split; [reflexivity|discriminate].
  - exact Hr.
  - exists e1', e2'. split; [exact Hw|]. split; [exact H2|exact Hq].
Defined.

Lemma pay3_accepted : accepted pay3 engine2 engine3.
Proof.
  destruct (handle_cases _ _ _ _ handle3 ltac:(done)) as [[He _]|[_ Ha]]; [|exact Ha].
  exfalso. apply (f_equal (fun e : demo_engine => length (m_data (input e)))) in He. vm_compute in He. discriminate.
Qed.

(** The crash is after the third request was logged: its output is missing. *)
Lemma crash_reprocesses_request_witness :
  exists e0 e1 e2 : demo_engine,
    NewEngine (input engine3) (output engine2) = Done (inl e0) /\
    Replay NotFound (with_tradeID 7 e0) = Done (e2, None) /\ state (core e1) = state (core engine2) /\
    state (core e2) = state (core engine3).
Proof.
  destruct (crash_reprocesses_request pay3 engine2 engine3 [pay1; pay2] 7 engine2_consistent) as
    (e0 & e1 & pat & dat & H1 & H2 & H3 & _ & _ & H6 & H7).
  - by apply room_mem.
  - by apply room_mem.
  - apply pay3_accepted.
  - exists e0, e1.
    assert (Hr : exists e2, Replay NotFound (with_tradeID 7 e0) = Done (e2, None)).
    { assert (Hn : NewEngine (input engine3) (output engine2) = Done (inl e0)) by exact H1.
      vm_compute in Hn. injection Hn as <-. eexists. vm_compute. reflexivity. }
    destruct Hr as (e2 & Hr). exists e2. split; [exact H1|]. split; [exact Hr|]. split; [exact H3|].
    rewrite H6 in Hr. destruct (H7 e2 Hr) as [H8 _]. exact H8.
Defined.

Lemma redelivery_has_no_effect_witness : handle pay3 engine3 = Done (engine3, Ack).
Proof.
  apply (redelivery_has_no_effect pay3 engine2 engine3 _ engine2_consistent); [by apply room_mem|exact handle3].
Defined.

Lemma restart_remembers_requests_witness :
  exists e' : demo_engine, exists r, handle pay3 e' = Done (e', r).
Proof.
  destruct (restart_remembers_requests engine3 _ engine3_consistent) as (e0 & e' & _ & _ & Hp).
  - repeat constructor; discriminate.
  - exists e'. destruct (Hp pay3) as (r & Hr & _); [|exists r; exact Hr].
    apply list_elem_of_lookup. exists 2%nat. reflexivity.
Defined.

(** Cleanup with small logs: nothing before the target, or two output records. *)
Lemma input_cleanup_keeps_recovery_witness :
  Read (input (fst (cleanupInputWAL 2 engine3))) 3 = inl pay3.
Proof.
  destruct (input_cleanup_keeps_recovery 2 1 _ engine3 (fst (cleanupInputWAL 2 engine3)) (cn_input _ _ engine3_consistent))
    as (_ & _ & _ & _ & Hr).
  - discriminate.
  - unfold next_index. simpl. lia.
  - vm_compute. reflexivity.
  - rewrite Hr by (left; lia). vm_compute. reflexivity.
Defined.

Lemma engine3_output : holds (output engine3) 1 (m_data (output engine3)).
Proof.
  assert (Hf : m_first (output engine3) = 1) by (vm_compute; reflexivity).
  assert (Hl : length (m_data (output engine3)) = 3%nat) by (vm_compute; reflexivity).
  rewrite <- Hf. apply mem_holds; rewrite ?Hl, Hf; [lia|reflexivity].
Qed.

Lemma engine3_watermark : watermark 3 (m_data (output engine3)).
Proof.
  unfold watermark. destruct (last (m_data (output engine3))) as [d|] eqn:Hd.
  - exists (mkOutputEnvelope 3 3 4 (from_option env_Events [] (Unmarshal_OutputEnvelope d))).
    split; [|reflexivity]. revert Hd. vm_compute. intros [= <-]. reflexivity.
  - apply last_None in Hd. assert (Hl : length (m_data (output engine3)) = 3%nat) by (vm_compute; reflexivity).
    by rewrite Hd in Hl.
Qed.

Lemma output_cleanup_keeps_watermark_witness :
  loadOutputWatermark (fst (cleanupOutputWAL (Some (Some (3, 2))) engine3)) =
    (set_applied (fst (cleanupOutputWAL (Some (Some (3, 2))) engine3)) 3, None).
Proof.
  apply (output_cleanup_keeps_watermark 3 2 1 3 (m_data (output engine3)) engine3).
  - exact engine3_output.
  - intros _. reflexivity.
  - exact engine3_watermark.
  - lia.
  - lia.
  - vm_compute. reflexivity.
Defined.

Lemma cleanup_bounds_logs_witness :
  let e1 := fst (cleanupInputWAL 2 engine3) in let e2 := fst (cleanupOutputWAL (Some (Some (3, 2))) e1) in
  exists ofirst' (ods' : list wire), holds (output e2) ofirst' ods' /\ Z.of_nat (length ods') <= 2.
Proof.
  destruct (cleanup_bounds_logs 2 3 2 1 1 _ (m_data (output engine3)) engine3 (fst (cleanupInputWAL 2 engine3))
    (fst (cleanupOutputWAL (Some (Some (3, 2))) (fst (cleanupInputWAL 2 engine3)))) (cn_input _ _ engine3_consistent))
    as (_ & ofirst' & _ & ods' & _ & Ho & _ & _ & _ & Hl).
  - discriminate.
  - unfold next_index. simpl. lia.
  - exact engine3_output.
  - lia.
  - lia.
  - vm_compute. reflexivity.
  - vm_compute. reflexivity.
  - vm_compute. reflexivity.
  - exists ofirst', ods'. split; [exact Ho|]. revert Hl. generalize (Z.of_nat (length ods')). intros z Hz. vm_compute in Hz. exact Hz.
Defined.

Lemma wal_append_consecutive_witness :
  LastIndex (fst (Append (input engine3) pay1)) = inl 4.
Proof.
  destruct (wal_append_consecutive (input engine3) (fst (Append (input engine3) pay1)) 1 4 _ (fun _ => Some pay1)
    (cn_input _ _ engine3_consistent)) as (_ & Hl & _).
  - discriminate.
  - vm_compute. reflexivity.
  - vm_compute. reflexivity.
  - exact Hl.
Defined.

Lemma engine0_counted : counted 0 engine0.
Proof.
  split; [cbn; lia|]. exists 1, []. split_and!; [by apply (mem_holds (mkMemLog 1 []))|done|reflexivity].
Qed.

(** Two trades were made. *)
Lemma traded_counter : lastTradeID (core engine_traded) = 2.
Proof. vm_compute. reflexivity. Qed.

Lemma trade_ids_consecutive_witness :
  exists first ods, holds (output engine_traded) first ods /\ log_ids ods = Some [1; 2].
Proof.
  destruct (trade_ids_consecutive 0 engine0 engine_traded [] trade_payloads traded_runs engine0_consistent engine0_counted)
    as (first & ods & Hh & Hids).
  exists first, ods. split; [exact Hh|]. rewrite Hids, traded_counter. reflexivity.
Defined.

Lemma traded_consistent : exists ps, consistent engine_traded ps.
Proof.
  destruct (runs_consistent _ _ _ _ traded_runs engine0_consistent) as (logged & _ & Hc). exists logged. exact Hc.
Qed.

Lemma traded_counted : counted 0 engine_traded.
Proof. exact (runs_counted 0 _ _ _ _ traded_runs engine0_consistent engine0_counted). Qed.

Lemma restart_restores_trade_counter_witness :
  exists e0, NewEngine (input engine_traded) (output engine_traded) = Done (inl e0) /\
    snd (initializeTradeID (Some (Some 0)) e0) = None /\
    lastTradeID (core (fst (initializeTradeID (Some (Some 0)) e0))) = 2.
Proof.
  destruct traded_consistent as (ps & Hc).
  destruct (restart_restores_trade_counter 0 engine_traded ps Hc traded_counted) as (e0 & H1 & H2).
  rewrite traded_counter in H2. exists e0. split; [exact H1|]. rewrite H2. split; reflexivity.
Defined.

(** Ids 1 to 4 with a window of three: id 1 is forgotten; of another kind, 0 and
    then 1 to 4: 0 is not. *)
Lemma dedup_is_sliding_window_witness :
  exists d, dedup_adds (newDedup 3) [("k", 1); ("k", 2); ("k", 2); ("k", 3); ("k", 4); ("z", 0); ("z", 1); ("z", 2); ("z", 3); ("z", 4)] = Done d /\
    dedup_has d "k" 1 = false /\ dedup_has d "k" 2 = true /\ dedup_has d "z" 1 = false /\ dedup_has d "z" 0 = true.
Proof.
  destruct (dedup_is_sliding_window 3 [("k", 1); ("k", 2); ("k", 2); ("k", 3); ("k", 4); ("z", 0); ("z", 1); ("z", 2); ("z", 3); ("z", 4)]%string)
    as (d & Hd & Hk).
  exists d. split; [exact Hd|]. destruct (Hk "k"%string) as [Hh _]. destruct (Hk "z"%string) as [Hz _].
  rewrite !Hh, !Hz. split; [|split; [|split]]; vm_compute; reflexivity.
Defined.
