(* ===== verification/ConsumerTheorems.v ===== *)
(** * Theorems about the consumers: publisher, projector, stores and signals *)

From S2P Require Import Prelude Domain Slices OrderBook Ledger Events Matching Validation Orders Transfer Admin Footprint Dedup Wal Metrics.
From S2P Require Import Engine Columns Database Storage SnapshotStore Signals Messaging Publisher Projector Recovery Replays Consistency Reporting Feed.
From S2P Require Import Mirror Tracking Acceptance Example EngineExample ConsumerExample.

(** ** The event publisher *)

Section publisher_theorems.
Context {bytes log chan conf : Type} `{!Clock, !Codec bytes, !CodecLaws bytes, !Twal bytes log, !TwalLaws bytes log}.
Context `{!Server, !Amqp bytes chan conf, !AmqpSpec bytes chan conf}.
Abbreviation publisher := (EventPublisher bytes log chan).
Implicit Types (p : publisher) (rs : list bytes).

(** A publisher of a new installation. *)
Definition new_publisher p : Prop := ep_cursor p = 0 /\ saved p = 0 /\ retains (ep_output p) 0 [].

Lemma new_publisher_ok p : new_publisher p -> pub_ok [] p.
Proof.
  intros (Hc & Hs & Hr). split; [eauto|constructor|rewrite Hc|rewrite Hs]; (split; [done|]); apply sublist_nil_l.
Qed.

(** C15: Whatever fails, however often the publisher restarts, and whenever the
    engine appends or truncates: the output records up to the stored position
    are in the event queue, in the order of the log. *)
Theorem publisher_publishes_in_order p0 rs p :
  new_publisher p0 -> rtc pub_step ([], p0) (rs, p) ->
  0 <= saved p <= Z.of_nat (length rs) /\
  sublist (mkMessage (ep_eventQueue p0) <$> take (Z.to_nat (saved p)) rs) (queue (ep_mq p)).
Proof.
  intros Hn Hr. destruct (pub_steps_ok _ _ Hr (new_publisher_ok _ Hn)) as [Hok Hq]. cbn in *. rewrite <- Hq. apply Hok.
Qed.

(** When the database answers, the broker confirms and the log still has the
    records after the cursor, a drain ends without an error, has published
    exactly the records after the cursor, once each and in order, and has stored
    the new position. *)
Theorem drain_publishes_everything p0 rs p k :
  new_publisher p0 -> rtc pub_step ([], p0) (rs, p) ->
  undisturbed p -> retains (ep_output p) k rs -> (k <= Z.to_nat (ep_cursor p))%nat ->
  Z.of_nat (length rs) + eventPublisherBatchSize < two64 ->
  exists p', ep_drain p = (p', None) /\ ep_cursor p' = Z.of_nat (length rs) /\
    (ep_cursor p < Z.of_nat (length rs) -> saved p' = ep_cursor p') /\
    sent (ep_mq p') = sent (ep_mq p) ++ (mkMessage (ep_eventQueue p) <$> drop (Z.to_nat (ep_cursor p)) rs).
Proof.
  intros Hn Hr. destruct (pub_steps_ok _ _ Hr (new_publisher_ok _ Hn)) as [Hok _]. intros Hu Hl Hk Hb.
  by apply (ep_drain_live rs p k).
Qed.
End publisher_theorems.

Lemma demo_new_publisher : new_publisher (demo_publisher []).
Proof. split_and!; [done|done|by apply mem_retains]. Qed.

Lemma publisher_publishes_in_order_witness :
  sublist (mkMessage "event_queue"%string <$> take (Z.to_nat (saved demo_published)) demo_records) (queue (ep_mq demo_published)).
Proof. exact (proj2 (publisher_publishes_in_order _ _ _ demo_new_publisher publisher_run)). Defined.

Lemma drain_publishes_everything_witness :
  exists p', ep_drain (demo_publisher demo_records) = (p', None) /\ ep_cursor p' = Z.of_nat (length demo_records) /\
    (ep_cursor (demo_publisher demo_records) < Z.of_nat (length demo_records) -> saved p' = ep_cursor p') /\
    sent (ep_mq p') = sent (mkMemBroker []) ++ (mkMessage "event_queue"%string <$> drop 0 demo_records).
Proof.
  apply (drain_publishes_everything (demo_publisher []) demo_records (demo_publisher demo_records) 0).
  - apply demo_new_publisher.
  - apply publisher_appends; [apply demo_written|reflexivity].
  - split; [done|apply mem_broker_healthy].
  - apply mem_retains. reflexivity.
  - cbn. lia.
  - reflexivity.
Defined.

(** ** The database projector *)

Section projector_theorems.
Context {bytes log : Type} `{!Clock, !Codec bytes, !CodecLaws bytes, !EventCodec bytes, !EventCodecLaws bytes}.
Context `{!Twal bytes log, !TwalLaws bytes log, !Server}.
Abbreviation projector := (DBProjector bytes log).
Implicit Types (p : projector) (rs : list bytes).

(** A projector of a new installation. *)
Definition new_projector p : Prop :=
  dp_cursor p = 0 /\ cursor_at DB_APPLIED_OUTPUT_SEQ (st_db (dp_store p)) = 0 /\ retains (dp_output p) 0 [].

Lemma new_projector_ok p : new_projector p -> proj_inv ideal [] p.
Proof. intros (Hc & Hs & Hr). split; [eauto|done|lia|]. rewrite Hc. by constructor. Qed.

(** C14: When no answer is lost, the committed database is at every moment the
    result of applying the output records up to the stored position, each once
    and in order, whatever fails, however often the projector restarts, and
    whatever other parts do to their own rows and columns in between; and the
    cursor in memory is the stored position. *)
Theorem projector_applies_once p0 rs p :
  no_lost_answer -> new_projector p0 -> rtc proj_step ([], p0) (rs, p) ->
  ideal rs (Z.to_nat (dp_cursor p)) (st_db (dp_store p)) /\
  cursor_at DB_APPLIED_OUTPUT_SEQ (st_db (dp_store p)) = dp_cursor p.
Proof.
  intros Hnl Hn Hr. destruct (proj_steps_ok _ _ Hnl Hr (new_projector_ok _ Hn)) as [_ Hroom Hc Hi]. cbn in *.
  split; [done|]. unfold dbProjectorBatchSize in *. rewrite (ideal_cursor rs _ _ ltac:(lia) Hi). lia.
Qed.

(** C34: A drain of either consumer ends: whatever the calls to the log, the broker
    and the database answer, its loop advances the cursor or returns, so that it
    never runs longer than the backlog. *)
Theorem drains_end {chan conf : Type} `{!Amqp bytes chan conf} (q : EventPublisher bytes log chan) p last :
  LastIndex (ep_output q) = inl last -> LastIndex (dp_output p) = inl last ->
  0 <= ep_cursor q -> 0 <= dp_cursor p -> last + 100 < two64 ->
  snd (ep_drain q) <> Some DrainOutOfFuel /\ snd (dp_drain p) <> Some DrainOutOfFuel.
Proof.
  intros Hq Hp H1 H2 Hl. split.
  - destruct (ep_drain q) as [q' err] eqn:Hd. eapply ep_drain_fuel; [done| |done]. rewrite Hq. intros l [= <-]. exact Hl.
  - destruct (dp_drain p) as [p' err] eqn:Hd. eapply dp_drain_fuel; [done| |done]. rewrite Hp. intros l [= <-]. exact Hl.
Qed.

(** C25: The database refuses an event of the engine only for want of rows: every
    status and reason that the engine writes is a value of its column, so the
    event is applied exactly when the rows it refers to exist (for a trade: its
    stock and its two orders, and no trade with its id; for a holding that is
    not empty: the holding, or its account and its stock). *)
Theorem events_accepted st ev raw (s : Store bytes) d :
  faithful st ev -> Marshal_data (data ev) = Some raw -> st_tx s = Some d -> answer_at (st_calls s) = Answered ->
  snd (applyEvent (mkOutputEvent (pattern ev) raw) s) = None <-> rows_for ev d.
Proof. apply event_accepted. Qed.

(** C38: When the answer to a commit is lost, the batch is in the database and the
    stored position is at its end, but the projector keeps its cursor. If the
    batch has a trade, every later attempt then fails, since it inserts the
    trade again, and leaves the database alone, until a restart reads the stored
    position. *)
Theorem lost_commit_blocks_projector t last p p1 err envs :
  0 <= dp_cursor p < last -> last + dbProjectorBatchSize < two64 ->
  read_envelopes (Z.to_nat (batch_end last p - dp_cursor p)) (dp_cursor p + 1) (dp_output p) = inl envs ->
  tr_Id t <> 0 -> carries t (concat (env_Events <$> envs)) ->
  project_step last p = (p1, Some err) -> st_db (dp_store p1) <> st_db (dp_store p) ->
  cursor_at DB_APPLIED_OUTPUT_SEQ (st_db (dp_store p1)) = batch_end last p /\ dp_cursor p1 = dp_cursor p /\
  forall last' p2, last <= last' -> last' + dbProjectorBatchSize < two64 -> dp_cursor p2 = dp_cursor p ->
    (forall i, i <= last -> Read (dp_output p2) i = Read (dp_output p) i) ->
    trades (st_db (dp_store p2)) = trades (st_db (dp_store p1)) ->
    exists p3 err', project_step last' p2 = (p3, Some err') /\ dp_cursor p3 = dp_cursor p /\
      st_db (dp_store p3) = st_db (dp_store p2).
Proof.
  intros Hc Hl Hrd Hid Hcar Hs Hdb. destruct (project_step_lost _ _ _ _ _ Hc Hl Hrd Hs Hdb) as (H1 & H2 & H3).
  split_and!; [done|done|]. intros last' p2 Hle Hl' Hcur Hread Htr.
  eapply project_step_blocked; [exact Hc|exact Hl|exact Hrd|exact Hid|exact Hcar|done..|]. rewrite Htr. by apply H3.
Qed.

(** C13: The database mirrors the ledger. When no answer of the database is lost
    (after a lost one the database is ahead of the projector's position:
    [lost_commit_blocks_projector]), whatever the interleaving of requests,
    drains, other failures, restarts, truncations and changes by other parts, the
    balances and the status of every account, the holdings that are not empty,
    and the price and status of every stock in the database are those of the
    ledger after the last record applied; once the projector has caught up, they
    are those of the ledger. (The row of an account or a stock exists when its
    activation is requested, and none is activated twice.) *)
Theorem database_mirrors_ledger p0 (w : world (bytes := bytes) (log := log)) :
  no_lost_answer -> new_projector p0 -> user_stocks (st_db (dp_store p0)) = ∅ ->
  rtc world_step (world_start p0) w -> distinct (w_events w) ->
  let c := Z.to_nat (dp_cursor (w_projector w)) in
  let d := st_db (dp_store (w_projector w)) in
  (exists at_c, trail NewState (take c (w_events w)) (take c (w_records w)) at_c /\ mirrors at_c d) /\
  (c = length (w_records w) -> mirrors (w_ledger w) d).
Proof.
  intros Hnl (Hc & Hcur & Hlog) Hh Hr Hd. cbv zeta.
  destruct (world_steps_ok _ _ Hnl Hr Hd (world_start_ok _ Hc Hlog Hcur Hh)) as [_ _ _ (_ & _ & _ & at_c & H1 & H2 & H3)].
  split; [exists at_c; split; [done|apply H3]|]. intros Hall. rewrite Hall, (drop_all (w_records w)) in H2.
  inversion H2; subst. apply H3.
Qed.
End projector_theorems.

Lemma demo_new_projector : new_projector (demo_projector []).
Proof. split_and!; [done|reflexivity|by apply mem_retains]. Qed.

Lemma projector_applies_once_witness :
  ideal demo_records 7 (st_db (dp_store demo_projected)) /\
  cursor_at DB_APPLIED_OUTPUT_SEQ (st_db (dp_store demo_projected)) = dp_cursor demo_projected.
Proof.
  pose proof (projector_applies_once _ _ _ demo_no_lost_answer demo_new_projector projector_run) as Hw.
  rewrite (proj2 demo_projected_all) in Hw at 1. exact Hw.
Defined.

Lemma drains_end_witness :
  snd (ep_drain (demo_publisher demo_records)) <> Some DrainOutOfFuel /\
  snd (dp_drain (demo_projector demo_records)) <> Some DrainOutOfFuel.
Proof. apply (drains_end _ _ 7); first [reflexivity|cbn; lia]. Defined.

Definition demo_trade : Trade := mkTrade 1 7 100 5 11 21 TRADING_BUY 8.

Lemma events_accepted_witness :
  snd (applyEvent (mkOutputEvent PatternTradeExecuted (WEvent (EvTrade demo_trade))) (mkStore demo_db (Some demo_db) 0)) = None.
Proof.
  apply (events_accepted NewState (mkOutEvent PatternTradeExecuted (EvTrade demo_trade)) (WEvent (EvTrade demo_trade)) _ demo_db);
    [apply fa_neutral, nt_trade|reflexivity..|]. split_and!; [reflexivity|..]; vm_compute; eauto.
Defined.

(** A server that loses the answer to the commit of the example's batch. *)
Definition lossy_server : Server := server_with (fun n => if Nat.eqb n 23 then AnswerLost else Answered).

Definition lossy_projector : DBProjector wire (MemLog wire) :=
  fst (project_step (H0 := lossy_server) 7 (demo_projector demo_records)).

Definition demo_envelopes : list (OutputEnvelope wire) := omap Unmarshal_OutputEnvelope demo_records.

Lemma demo_carries : carries demo_trade (concat (env_Events <$> demo_envelopes)).
Proof.
  exists (mkOutputEvent PatternTradeExecuted (WEvent (EvTrade demo_trade))). split; [|done].
  vm_compute. repeat first [apply list_elem_of_here|apply list_elem_of_further].
Qed.

Lemma lost_commit_blocks_projector_witness :
  cursor_at DB_APPLIED_OUTPUT_SEQ (st_db (dp_store lossy_projector)) = 7 /\ dp_cursor lossy_projector = 0 /\
  exists p3 err', project_step (H0 := lossy_server) 7 lossy_projector = (p3, Some err') /\ dp_cursor p3 = 0.
Proof.
  destruct (lost_commit_blocks_projector (H0 := lossy_server) demo_trade 7 (demo_projector demo_records) lossy_projector ErrApplyBatch
    demo_envelopes) as (H1 & H2 & H3).
  - cbn. lia.
  - reflexivity.
  - vm_compute. reflexivity.
  - done.
  - apply demo_carries.
  - vm_compute. reflexivity.
  - intros He. apply (f_equal (fun d => map_to_list (trades d))) in He. vm_compute in He. done.
  - split_and!; [exact H1|exact H2|]. destruct (H3 7 lossy_projector) as (p3 & e & ? & ? & _); [lia|reflexivity|done|done|done|eauto].
Defined.

Lemma database_mirrors_ledger_witness : mirrors (w_ledger demo_tracked) (st_db (dp_store (w_projector demo_tracked))).
Proof.
  apply (database_mirrors_ledger (demo_projector []) demo_tracked demo_no_lost_answer demo_new_projector eq_refl tracked_run).
  - by apply (bool_decide_unpack _); vm_compute.
  - by rewrite (proj1 tracked_all), (proj2 tracked_all).
Defined.

(** ** The output log *)

Section feed_theorems.
Context `{!Clock} {bytes log : Type} `{!Codec bytes, !CodecLaws bytes, !Proto bytes, !Twal bytes log, !TwalLaws bytes log}.
Abbreviation engine := (Engine bytes log).

(** The output log tells the whole story of the ledger: along every run, the
    records ever written carry, one after the other, events that account for
    every change of an account, a holding or a stock and are true of the ledger
    they lead to; and a restart keeps both the log and the ledger. *)
Theorem log_tells_ledger (e e' : engine) (ps qs rs : list bytes) :
  runs e qs e' -> consistent e ps -> fed e rs ->
  exists new e0 e1, fed e' (rs ++ new) /\
    NewEngine (input e') (output e') = Done (inl e0) /\ Replay NotFound e0 = Done (e1, None) /\ fed e1 (rs ++ new).
Proof.
  intros Hr Hc Hf. destruct (runs_fed _ _ _ _ _ Hr Hc Hf) as [new [Hl Hfd]].
  destruct (runs_consistent _ _ _ _ Hr Hc) as (logged & _ & Hc').
  destruct (restart_ok _ _ Hc') as (e0 & e1 & H1 & H2 & H3 & H4 & _).
  exists new, e0, e1. split_and!; [by split|done|done|]. split; [by rewrite H4|by rewrite H3].
Qed.
End feed_theorems.

Lemma engine0_fed : fed engine0 [].
Proof. split; [exists 0%nat; by apply mem_retains|]. exists []. constructor. Qed.

Lemma log_tells_ledger_witness :
  exists new e0 e1, fed engine_traded ([] ++ new) /\
    NewEngine (input engine_traded) (output engine_traded) = Done (inl e0) /\ Replay NotFound e0 = Done (e1, None) /\ fed e1 ([] ++ new).
Proof. exact (log_tells_ledger _ _ _ _ _ traded_runs engine0_consistent engine0_fed). Defined.

(** ** The snapshot store *)

Section snapshot_theorems.
Context {bytes : Type} `{!Server, !ServerLaws}.

(** The snapshot store is a queue of bounded length: when the calls are
    answered, saving adds the snapshot at the end and keeps the newest [keep],
    the snapshot it then hands out as the latest is the one just saved, and the
    floor it returns is the input index of the oldest one kept. *)
Theorem snapshot_store_is_queue (state : bytes) (idx keep : Z) (s : Store bytes) :
  answered_from (st_calls s) -> 0 < keep <= MaxInt32 ->
  exists s' floor, SaveSnapshotAndPrune state idx keep s = (s', inl floor) /\
    let all := stored (st_db s) ++ [(state, idx)] in
    stored (st_db s') = drop (length all - Z.to_nat keep) all /\
    snd (LatestSnapshot s') = inl (Some (state, idx)) /\
    snd (PruneSnapshots keep s') = inl (Some floor).
Proof.
  intros Ha Hk. destruct (SaveSnapshotAndPrune_stored state idx keep s Ha Hk) as (s' & floor & Hs & Hle & Hst & Hfl).
  assert (Ha' : answered_from (st_calls s')) by (intros m Hm; apply Ha; lia).
  exists s', floor. split; [done|]. cbv zeta in *. split_and!; [done| |].
  - unfold LatestSnapshot, query. cbn [snd]. rewrite Ha', q_LatestSnapshot_stored, Hst by done.
    rewrite drop_app_le by (rewrite length_app; cbn [length]; lia). by rewrite last_snoc.
  - destruct (PruneSnapshots_stored keep s' Ha' ltac:(lia)) as (s2 & -> & H2). cbn [snd]. rewrite H2, <- Hfl.
    replace (length (stored (st_db s')) - Z.to_nat keep)%nat with 0%nat; [done|]. rewrite Hst, length_drop. lia.
Qed.
End snapshot_theorems.

Lemma snapshot_store_is_queue_witness :
  exists s' floor, SaveSnapshotAndPrune (WSnapshot (mkLedgerSnapshot 1 [] [] [] [])) 12 3 demo_store = (s', inl floor) /\
    stored (st_db s') = [(WSnapshot (mkLedgerSnapshot 1 [] [] [] []), 12)] /\
    snd (LatestSnapshot s') = inl (Some (WSnapshot (mkLedgerSnapshot 1 [] [] [] []), 12)) /\ snd (PruneSnapshots 3 s') = inl (Some floor).
Proof. apply (snapshot_store_is_queue (WSnapshot (mkLedgerSnapshot 1 [] [] [] [])) 12 3 demo_store); [done|vm_compute; done]. Defined.

(** ** Signals *)

(** C24: No record is overlooked. Whatever the interleaving of the engine, the
    fan-out and the two consumers, and although signals are dropped when a
    channel is full: while a consumer whose last drain did not fail waits and
    there are records past its cursor, a signal for it is on its way; so when
    nothing is, it has handled every record. *)
Theorem no_lost_wakeup n c1 c2 s w last :
  (c1 <= n)%nat -> (c2 <= n)%nat -> rtc signals_step (signals_start n c1 c2) s ->
  rl_pc (loop_of w s) = AtSelect last -> rl_failed (loop_of w s) = false ->
  ((rl_cursor (loop_of w s) < sg_records s)%nat -> in_flight w s) /\
  (~ in_flight w s -> rl_cursor (loop_of w s) = sg_records s).
Proof.
  intros H1 H2 Hr Hpc Hok. destruct (signals_awake n c1 c2 s w H1 H2 Hr) as (Hc & Hs & Hd).
  destruct (Hs last) as [Hle Hf]; [by rewrite Hpc|]. specialize (Hd last Hpc Hok).
  assert (Hfl : (rl_cursor (loop_of w s) < sg_records s)%nat -> in_flight w s) by (intros ?; apply Hf; lia).
  split; [done|]. intros Hno. destruct (decide (rl_cursor (loop_of w s) < sg_records s)%nat); [by destruct (Hno (Hfl l))|lia].
Qed.

(** The projector waits; the engine appends a record and signals it. *)
Definition demo_signals : signals :=
  mkSignals 4 false true FanWait false false (mkRunLoop (AtSelect 3) 3 false) (mkRunLoop AtDrain 0 false).

Lemma demo_signals_run : rtc signals_step (signals_start 3 1 0) demo_signals.
Proof.
  eapply rtc_l; [apply (ss_run DBConsumer); by eapply run_reads|].
  eapply rtc_l; [apply (ss_run DBConsumer); by eapply run_drained|].
  eapply rtc_l; [by apply ss_append|]. eapply rtc_l; [by apply ss_notify|]. apply rtc_refl.
Qed.

Lemma no_lost_wakeup_witness :
  ((3 < 4)%nat -> in_flight DBConsumer demo_signals) /\ (~ in_flight DBConsumer demo_signals -> 3%nat = 4%nat).
Proof. apply (no_lost_wakeup 3 1 0 demo_signals DBConsumer 3); [lia|lia|apply demo_signals_run|reflexivity|reflexivity]. Defined.

(** ** Measurements *)

(** A log window of either consumer never divides by zero, and what it reports
    is consistent: the number of batches recorded since the last window, and for
    each duration an average between zero and the maximum; a window without a
    line had no batches, and the counters start from zero again. *)
Theorem window_averages_bounded (ps : list PublisherRecord) (ds : list DBProjectorRecord) (currentLast handled last : Z) :
  publisher_durations ps -> projector_durations ds ->
  Z.of_nat (length ps) <= MaxInt64 -> Z.of_nat (length ds) <= MaxInt64 ->
  (exists line, publisher_logWindow (inl currentLast) handled last (recorded_batches ps) =
     Done (NewPublisherReporter, currentLast, line) /\ sound_line (length ps) line) /\
  (exists line, projector_logWindow (inl currentLast) handled last (applied_batches ds) =
     Done (NewDBProjectorReporter, currentLast, line) /\ sound_line (length ds) line).
Proof. intros Hp Hd Lp Ld. split; [by apply publisher_window|by apply projector_window]. Qed.

(** Every batch is reported once. However records and ticks interleave, and
    whether the last index could be read or not, the reporter never panics; the
    batches of all logged windows and those counted since the last one are together
    the batches that were recorded, and no average is above its maximum. *)
Theorem every_batch_reported_once (first : Z + wal_error) (evs : list (reporter_event PublisherRecord)) (evs' : list (reporter_event DBProjectorRecord)) :
  publisher_measurable (recorded evs) -> projector_measurable (recorded evs') ->
  (exists r last lines, PublisherReporter_Run first evs NewPublisherReporter = Done (r, last, lines) /\
     lsum wl_completed lines + pr_completed r = Z.of_nat (length (recorded evs)) /\ Forall averages_ok lines) /\
  (exists r last lines, DBProjectorReporter_Run first evs' NewDBProjectorReporter = Done (r, last, lines) /\
     lsum wl_completed lines + dr_completed r = Z.of_nat (length (recorded evs')) /\ Forall averages_ok lines).
Proof. intros Hp Hd. split; [by apply PublisherReporter_Run_ok|by apply DBProjectorReporter_Run_ok]. Qed.

Lemma summable_check ds : forallb (Z.leb 0) ds && Z.leb (lsum id ds) MaxInt64 = true -> summable ds.
Proof.
  intros [Hf Hs]%andb_true_iff. split; [|by apply Z.leb_le]. rewrite forallb_forall in Hf.
  apply Forall_forall. intros d Hd%list_elem_of_In%Hf. by apply Z.leb_le.
Qed.

Definition demo_measured : list PublisherRecord := [mkPublisherRecord 2 10 20 40; mkPublisherRecord 1 30 10 41].
Definition demo_applied : list DBProjectorRecord := [mkDBProjectorRecord 5 7 11].

Lemma window_averages_bounded_witness :
  (exists line, publisher_logWindow (inl 9) 7 5 (recorded_batches demo_measured) =
     Done (NewPublisherReporter, 9, line) /\ sound_line 2 line) /\
  (exists line, projector_logWindow (inl 9) 7 5 (applied_batches demo_applied) =
     Done (NewDBProjectorReporter, 9, line) /\ sound_line 1 line).
Proof.
  apply (window_averages_bounded demo_measured demo_applied 9 7 5); [| |vm_compute; done|vm_compute; done].
  - split; [|split]; by apply summable_check.
  - split; by apply summable_check.
Defined.
