(* ===== verification/RestartTheorems.v ===== *)
(** * Theorems about snapshots, retention and restarts *)

From S2P Require Import Prelude Domain Slices OrderBook BookSpec Ledger Snapshot BookSim Events Matching Validation Orders Transfer Admin LedgerSim MatchSim.
From S2P Require Import Invariant MatchLoop Dedup Wal Engine Recovery Determinism Replays Consistency SnapshotReplay Windows Columns Database Storage SnapshotStore Retention Restarts.
From S2P Require Import Example EngineExample ConsumerExample RestartExample.

(** ** Restored ledgers *)

(** C19: A ledger that was restored from a snapshot behaves like the original. On
    two well-formed ledgers with the same accounts, holdings and stocks and the
    same queues up to creation times, every order request is accepted or
    rejected for the same reason; processing it ends the same way, in an error,
    a panic or with the same events up to creation times; and the ledgers
    afterwards are again indistinguishable in this sense. *)
Theorem restored_ledger_behaves_alike `{!Clock} (order : Order) (c c' : Core) :
  wf_state (state c) -> wf_state (state c') -> same_ledger (state c) (state c') ->
  same_position c c' -> ticks c = ticks c' ->
  prod_relation (≡) (=) (validateOrder order (state c)) (validateOrder order (state c')) /\
  outcome_rel (fun r r' => result_related r r' /\ same_ledger (state (fst r)) (state (fst r')))
    (route_events order c) (route_events order c').
Proof.
  intros Hw Hw' Hsame (H1 & H2 & H3) Ht. assert (Hs : state c ≡ state c') by by apply wf_state_equiv.
  assert (Hc : c ≡ c') by by split. split; [by apply validateOrder_equiv|].
  assert (Ho : order ≡ order) by done.
  destruct (route_events_equiv _ _ _ _ Ho Hc) as [r r' Hr|p]; constructor. split; [done|].
  apply related_same_ledger, Hr.
Qed.

Section restart_theorems.
Context `{!Clock} {bytes log : Type} `{!Codec bytes, !CodecLaws bytes, !Proto bytes, !ProtoLaws bytes}.
Context `{!Twal bytes log, !TwalLaws bytes log, !Server, !ServerLaws}.
Abbreviation engine := (Engine bytes log).
Abbreviation store := (Store bytes).

(** C12: A restart over the latest snapshot succeeds whatever was trimmed: opening
    the logs, restoring the snapshot and replaying the records after it gives
    the ledger the engine had, up to creation times, writes no output, leaves an
    engine in step with its logs and snapshots, and the requests of the last
    8192 input records are recognised when they are delivered again. *)
Theorem restart_over_snapshot (e : engine) (ps : list bytes) (s : store) :
  in_step e ps (stored (st_db s)) ->
  exists e0, NewEngine (input e) (output e) = Done (inl e0) /\
    forall t, exists e', Replay (latest_of (q_LatestSnapshot (st_db s))) (with_tradeID t e0) = Done (e', None) /\
      same_ledger (state (core e)) (state (core e')) /\ input e' = input e /\ output e' = output e /\
      lastTradeID (core e') = t /\ in_step e' ps (stored (st_db s)) /\
      (Forall (fun q => from_option snd 1 (request q) <> 0) ps ->
       forall p, p ∈ recent ps -> exists r, handle p e' = Done (e', r) /\ (r = Ack \/ r = Nack false)).
Proof.
  intros Hs. destruct (restart_in_step e ps _ Hs) as (e0 & Hne & Hd & I0 & O0 & Hrep). exists e0. split; [done|].
  intros t. destruct (Hrep t) as (e' & Hr & Heq & [Q1 Q2 Q3 Q4 Q5] & Hs'). exists e'.
  cbn in Q1, Q2, Q3, Q5. rewrite q_LatestSnapshot_stored. split_and!; [done|by apply related_same_ledger|congruence..|done|].
  intros Hnz p Hp. apply (restart_redelivered ps); [|by rewrite Q3|done|done].
  apply (effects_requests _ _ _ _ (is_effects _ _ _ Hs)).
Qed.

(** Through its whole life an engine stays in step with its logs and
    snapshots: along every sequence of deliveries, snapshot ticks over
    well-formed ledgers, rounds of the saver with any fate of its calls to the
    database, changes of other tables, restarts with the trimming they do, and
    crashes between the two logs followed by a restart, the payloads that were
    logged are some of those delivered, in their order, their effects give the
    ledger, every one has its output, and everything a later restart reads is
    still there. *)
Theorem life_keeps_in_step (e e' : engine) (s s' : store) (ps qs : list bytes) :
  (forall w : log, stable w) -> life (e, s) qs (e', s') -> in_step e ps (stored (st_db s)) ->
  exists logged, sublist logged qs /\ in_step e' (ps ++ logged) (stored (st_db s')).
Proof. intros Hst Hl Hs. by apply (life_in_step _ _ _ _ Hst Hl). Qed.
End restart_theorems.

(** ** Witnesses *)

Lemma life_keeps_in_step_witness :
  exists logged, sublist logged trade_payloads /\ in_step engine_restarted logged (stored (st_db (fst demo_pruned))).
Proof. exact (life_keeps_in_step engine0 engine_restarted demo_store (fst demo_pruned) [] trade_payloads mem_stable demo_life demo_start). Defined.

(** The restarted engine is restarted once more: the snapshot has the two
    resting orders, and the trade is replayed. *)
Lemma restart_over_snapshot_witness :
  exists e0 e' : demo_engine, NewEngine (input engine_restarted) (output engine_restarted) = Done (inl e0) /\
    Replay (latest_of (q_LatestSnapshot (st_db (fst demo_pruned)))) (with_tradeID 2 e0) = Done (e', None) /\
    s_StockBalances (state (core e')) !! (1, 7) = Some (mkStockBalance 1 7 6 6 100 601) /\
    output e' = output engine_restarted.
Proof.
  destruct demo_in_step as (ps & Hs).
  destruct (restart_over_snapshot engine_restarted ps (fst demo_pruned) Hs) as (e0 & H1 & Hrep).
  destruct (Hrep 2) as (e' & H2 & [_ H3 _ _] & _ & H4 & _).
  exists e0, e'. split; [exact H1|]. split; [exact H2|]. split; [|exact H4].
  rewrite <- H3. vm_compute. reflexivity.
Defined.

Lemma restored_ledger_behaves_alike_witness :
  outcome_rel (fun r r' => result_related r r' /\ same_ledger (state (fst r)) (state (fst r')))
    (route_events bid1 (set_state demo_core2 demo_restored)) (route_events bid1 demo_core2) /\
  exists c evs, route_events bid1 (set_state demo_core2 demo_restored) = Done (c, inl evs) /\ length evs = 11%nat.
Proof.
  destruct demo_restored_ok as [Hsame Hwf]. split.
  - apply (restored_ledger_behaves_alike bid1 (set_state demo_core2 demo_restored) demo_core2).
    + exact Hwf.
    + exact (inv_wf _ _ _ demo_core2_ok).
    + exact Hsame.
    + by split.
    + reflexivity.
  - eexists _, _. split; vm_compute; reflexivity.
Defined.
