(* ===== verification/SystemTheorems.v ===== *)
(** * Theorems about the whole system *)

From S2P Require Import Prelude Domain Slices OrderBook BookSpec Ledger Snapshot BookSim Events Matching Validation Orders Transfer Admin LedgerSim MatchLoop.
From S2P Require Import Footprint Dedup Wal Metrics Engine Columns Database Storage SnapshotStore Messaging Publisher Projector Frames Recovery Determinism Replays Consistency SnapshotReplay.
From S2P Require Import Retention Restarts Reporting Feed Mirror Tracking Writing System Acceptance TradeIds Numbering.
From S2P Require Import Example EngineExample ConsumerExample RestartExample SystemExample.

Section system_theorems.
Context `{!Clock} {bytes log chan conf : Type} `{!Codec bytes, !CodecLaws bytes, !Proto bytes, !ProtoLaws bytes}.
Context `{!EventCodec bytes, !EventCodecLaws bytes, !Twal bytes log, !TwalLaws bytes log, !Server, !ServerLaws}.
Context `{!Amqp bytes chan conf, !AmqpSpec bytes chan conf}.
Abbreviation system := (system bytes log chan).
Implicit Types (y : system) (ps rs bs : list bytes).

(** C6: The whole system keeps its parts together. From a new installation, through
    deliveries, snapshots, trimming of both logs, restarts of the engine and of the
    consumers, crashes between the two logs, drains with any failure, and changes
    of the database by other parts, when no answer of the database is lost: the
    requests logged are some of those delivered, in order, and each has exactly
    one output record; the engine is in step with its logs and snapshots; the
    records up to the publisher's position are in the event queue in order; the
    database mirrors the ledger that the records up to the projector's position
    tell, and the engine's own ledger when nothing is pending; and the output log
    still has every record that either consumer has to read. *)
Theorem system_stays_together y0 bs y :
  no_lost_answer -> (forall w : log, stable w) -> new_system y0 -> system_run y0 bs y ->
  exists ps rs, sublist ps bs /\ Forall2 answers ps rs /\
    in_step (sy_engine y) ps (stored (st_db (sy_store y))) /\
    published (ep_eventQueue (sy_publisher y)) rs (ep_mq (sy_publisher y)) (ep_cursor (sy_publisher y)) /\
    (exists at_c, feed (take (Z.to_nat (dp_cursor (sy_projector y))) rs) at_c /\ mirrors at_c (st_db (sy_store y))) /\
    (dp_cursor (sy_projector y) = Z.of_nat (length rs) -> mirrors (state (core (sy_engine y))) (st_db (sy_store y))) /\
    exists k, retains (output (sy_engine y)) k rs /\
      Z.of_nat k <= ep_cursor (sy_publisher y) /\ Z.of_nat k <= dp_cursor (sy_projector y).
Proof.
  intros Hnl Hst Hn Hr. destruct (system_run_ok Hst _ _ _ _ _ _ Hnl Hr (new_system_ok _ Hn)) as (ps & rs & evss & Hsub & Hok).
  cbn [app] in Hok. exists ps, rs. destruct (system_mirrors _ _ _ _ Hok) as (at_c & Hf & Hm & Hcur & _).
  split_and!; [done|apply Hok|apply Hok|apply Hok|eauto|by eapply system_mirrors_ledger|].
  destruct (so_log _ _ _ _ Hok) as (k & Hret & Hk1 & Hk2). destruct (so_published _ _ _ _ Hok) as (_ & <- & _).
  exists k. by rewrite <- Hcur.
Qed.

(** C7: The publisher catches up. In every state that the system can reach from a
    new installation by steps in which no answer of the database is lost (and a
    failed truncation leaves a log as it was), when from then on the database
    answers and the broker confirms, a drain ends
    without an error: exactly the records after its position have been
    published, once each and in order, and the new position is stored. *)
Theorem system_publishes_backlog y0 bs y :
  no_lost_answer -> (forall w : log, stable w) -> new_system y0 -> system_run y0 bs y ->
  let p := ep_attach (output (sy_engine y)) (sy_store y) (sy_publisher y) in
  undisturbed p ->
  exists ps rs p', Forall2 answers ps rs /\ in_step (sy_engine y) ps (stored (st_db (sy_store y))) /\
    ep_drain p = (p', None) /\ ep_cursor p' = Z.of_nat (length rs) /\
    (ep_cursor p < Z.of_nat (length rs) -> Publisher.saved p' = ep_cursor p') /\
    sent (ep_mq p') = sent (ep_mq p) ++ (mkMessage (ep_eventQueue p) <$> drop (Z.to_nat (ep_cursor p)) rs).
Proof.
  intros Hnl Hst Hn Hr p Hu. destruct (system_run_ok Hst _ _ _ _ _ _ Hnl Hr (new_system_ok _ Hn)) as (ps & rs & evss & _ & Hok).
  cbn [app] in Hok. destruct (so_log _ _ _ _ Hok) as (k & Hret & Hk1 & _). destruct (so_published _ _ _ _ Hok) as (_ & Hsv & _).
  destruct (ep_drain_live rs p k Hu (publisher_ok _ _ _ _ Hok) Hret) as (p' & Hd & Hc & Hs & Hm).
  { cbn. lia. }
  { exact (so_room _ _ _ _ Hok). }
  exists ps, rs, p'. split_and!; [apply Hok|apply Hok|done..].
Qed.

(** C8: The projector catches up. In every state that the system can reach from a
    new installation by steps in which no answer of the database is lost (after a
    lost one it may not: [lost_commit_blocks_projector]), when
    from then on the database answers and has the accounts, the stocks and the
    orders that the pending events refer to, a drain ends without an error with
    every record applied, and the database then mirrors the ledger of the engine.
    That no trade is refused as a duplicate is no hypothesis: the pending trades
    have ids that are not in the table. *)
Theorem system_projects_backlog y0 bs y :
  no_lost_answer -> (forall w : log, stable w) -> new_system y0 -> system_run y0 bs y ->
  let q := dp_attach (output (sy_engine y)) (sy_store y) (sy_projector y) in
  exists ps rs evss k, Forall2 answers ps rs /\ in_step (sy_engine y) ps (stored (st_db (sy_store y))) /\ Forall2 tells_of evss rs /\
    retains (output (sy_engine y)) k rs /\ Z.of_nat k <= dp_cursor (sy_projector y) /\
    (answered_from (st_calls (sy_store y)) -> rows_present (concat (drop (Z.to_nat (dp_cursor (sy_projector y))) evss)) (st_db (sy_store y)) ->
     exists q', dp_drain q = (q', None) /\ dp_cursor q' = Z.of_nat (length rs) /\
       mirrors (state (core (sy_engine y))) (st_db (dp_store q'))).
Proof.
  intros Hnl Hst Hn Hr q. destruct (system_numbers Hst _ _ _ Hnl Hn Hr) as (ps & rs & evss & Hok & Hno).
  destruct (pending_numbers _ _ _ _ Hok Hno) as [Hnd Hnew].
  pose proof Hok as [H1' _ H3' (k & Hret & _ & Hk2) H5' (Hc & st & Hsm & (Hcur & Hle & at_c & Ht1 & Ht2 & _)) (Hw & _)].
  exists ps, rs, evss, k. split_and!; [done|done| |done|lia|].
  { pose proof (trail_app _ _ _ _ _ _ _ Ht1 Ht2) as Ht. rewrite !take_drop in Ht. by eapply trail_tells. }
  intros Ha Hrows. destruct (dp_drain_live st evss rs q) as (q' & Hd & Hc').
  { split; cbn; [done|exists k; split; [done|lia]|done|done|split; [lia|by exists at_c]|by apply rows_present_ready]. }
  exists q'. split_and!; [done|done|].
  destruct y as [e p q0 s]. exact (system_mirrors_ledger _ _ _ _ (project_ok _ _ _ _ _ _ _ _ _ Hnl Hok Hd) Hc').
Qed.

(** C9: Trades are numbered without gaps. In every state that the system can reach
    from a new installation by steps in which no answer of the database is lost,
    also when the output log has been trimmed, the trades in the records written so
    far have the ids 1, 2, 3 and so on up to the counter of the engine, and the
    table of trades has exactly those of the records up to the projector's
    position. *)
Theorem trades_numbered_without_gaps y0 bs y :
  no_lost_answer -> (forall w : log, stable w) -> new_system y0 -> system_run y0 bs y ->
  exists ps rs evss k, Forall2 answers ps rs /\ in_step (sy_engine y) ps (stored (st_db (sy_store y))) /\ Forall2 tells_of evss rs /\
    retains (output (sy_engine y)) k rs /\
    tr_Id <$> trades_of (concat evss) = seqZ 1 (lastTradeID (core (sy_engine y))) /\
    dom (trades (st_db (sy_store y))) =
      list_to_set (tr_Id <$> trades_of (concat (take (Z.to_nat (dp_cursor (sy_projector y))) evss))).
Proof.
  intros Hnl Hst Hn Hr. destruct (system_numbers Hst _ _ _ Hnl Hn Hr) as (ps & rs & evss & Hok & [_ Hids (_ & _ & ids & Hidc & Hd)]).
  pose proof Hok as [H1' _ H3' (k & Hret & _) _ (_ & st & _ & (_ & _ & at_c & Ht1 & Ht2 & _)) _].
  pose proof (trail_app _ _ _ _ _ _ _ Ht1 Ht2) as Ht. rewrite !take_drop in Ht.
  exists ps, rs, evss, k. split_and!; [done|done|by eapply trail_tells|done|..].
  - apply (inj Some). rewrite <- Hids. symmetry. eapply tells_log_ids; [by eapply trail_tells|by eapply emitted_tagged, trail_emitted].
  - rewrite Hd. f_equal. apply (inj Some). rewrite <- Hidc. eapply tells_log_ids; [by eapply trail_tells|by eapply emitted_tagged, trail_emitted].
Qed.
End system_theorems.

(** ** Witnesses *)

Lemma system_stays_together_witness :
  exists ps rs, sublist ps trade_payloads /\ Forall2 answers ps rs /\
    in_step (sy_engine system_rebooted) ps (stored (st_db (sy_store system_rebooted))) /\
    published "event_queue"%string rs (ep_mq (sy_publisher system_rebooted)) 6 /\
    exists at_c, feed (take 6 rs) at_c /\ mirrors at_c (st_db (sy_store system_rebooted)).
Proof.
  destruct (system_stays_together system0 trade_payloads system_rebooted demo_no_lost_answer mem_stable demo_new_system demo_system_run)
    as (ps & rs & Hsub & Hans & Hstep & Hpub & Hmir & _ & _).
  rewrite (proj1 rebooted_published), (proj2 rebooted_published) in Hpub. rewrite rebooted_projected in Hmir.
  change (Z.to_nat 6) with 6%nat in Hmir. exists ps, rs. split; [exact Hsub|]. split; [exact Hans|]. split; [exact Hstep|].
  split; [exact Hpub|exact Hmir].
Defined.

Definition rebooted_publisher : EventPublisher wire (MemLog wire) MemBroker :=
  ep_attach (output (sy_engine system_rebooted)) (sy_store system_rebooted) (sy_publisher system_rebooted).
Definition rebooted_projector : DBProjector wire (MemLog wire) :=
  dp_attach (output (sy_engine system_rebooted)) (sy_store system_rebooted) (sy_projector system_rebooted).

Lemma rebooted_undisturbed : undisturbed rebooted_publisher.
Proof. split; [intros m _; reflexivity|apply mem_broker_healthy]. Qed.

Lemma system_publishes_backlog_witness :
  exists ps rs p', Forall2 answers ps rs /\ ep_drain rebooted_publisher = (p', None) /\ ep_cursor p' = Z.of_nat (length rs) /\
    sent (ep_mq p') = sent (ep_mq rebooted_publisher) ++
      (mkMessage (ep_eventQueue rebooted_publisher) <$> drop (Z.to_nat (ep_cursor rebooted_publisher)) rs).
Proof.
  destruct (system_publishes_backlog system0 trade_payloads system_rebooted demo_no_lost_answer mem_stable demo_new_system
    demo_system_run rebooted_undisturbed) as (ps & rs & p' & Hans & _ & Hd & Hc & _ & Hm).
  exists ps, rs, p'. split; [exact Hans|]. split; [exact Hd|]. split; [exact Hc|exact Hm].
Defined.

(** The events of a wire record. *)
Definition wire_events (r : wire) : list outEvent :=
  match Unmarshal_OutputEnvelope r with
  | Some env => (fun o => mkOutEvent (oev_Pattern o) (match oev_Data o with WEvent d => d | _ => EvOrderBook (mkOrderBookUpdated 0 []) end)) <$> env_Events env
  | None => []
  end.

Lemma tells_wire evs (r : wire) : tells_of evs r -> evs = wire_events r.
Proof.
  intros (env & Hm & Hr). unfold wire_events. rewrite (codec_envelope _ _ Hr). clear Hr.
  revert Hm. generalize (env_Events env) as outs. induction evs as [|[pat d] evs IH]; intros outs; cbn [marshal_events].
  - by intros [= <-].
  - cbn [Marshal_data wire_codec data pattern]. intros (o & Ho & Hx)%bind_Some. injection Ho as <-.
    apply bind_Some in Hx as (outs' & Hrest & Hx). injection Hx as <-. csimpl. f_equal. by apply IH.
Qed.

(** Checking the rows for a list of events. *)
Definition rows_check (evs : list outEvent) (d : DB wire) : bool :=
  forallb (fun ev =>
    match data ev with
    | EvTrade t => bool_decide (is_Some (stocks d !! tr_StockId t)) &&
        bool_decide (is_Some (orders_tbl d !! tr_MakerOrderId t)) && bool_decide (is_Some (orders_tbl d !! tr_TakerOrderId t))
    | EvHolding h => bool_decide (is_Some (accounts d !! sb_AccountId h)) && bool_decide (is_Some (stocks d !! sb_StockId h))
    | _ => true
    end) evs.

Lemma rows_check_ok evs d : rows_check evs d = true -> rows_present evs d.
Proof.
  unfold rows_check. rewrite forallb_forall. intros Hall. split.
  - intros ev t Hin%list_elem_of_In%Hall Hd. rewrite Hd in Hin. rewrite !andb_true_iff, !bool_decide_eq_true in Hin.
    by destruct Hin as [[? ?] ?].
  - intros ev h Hin%list_elem_of_In%Hall Hd. rewrite Hd in Hin. by rewrite andb_true_iff, !bool_decide_eq_true in Hin.
Qed.

(** The record that the restart wrote. *)
Definition rebooted_record : wire := default pay1 (last (m_data (output (sy_engine system_rebooted)))).

Lemma rebooted_read : Read (output (sy_engine system_rebooted)) 7 = inl rebooted_record.
Proof. vm_compute. reflexivity. Qed.

Lemma rebooted_rows : rows_check (wire_events rebooted_record) (st_db (sy_store system_rebooted)) = true.
Proof. vm_compute. reflexivity. Qed.

(** It is the only one that waits for the projector. *)
Lemma rebooted_pending (rs : list wire) evss k :
  Forall2 tells_of evss rs -> retains (output (sy_engine system_rebooted)) k rs -> Z.of_nat k <= 6 ->
  concat (drop 6 evss) = wire_events rebooted_record.
Proof.
  intros Ht Hr Hk. pose proof (retains_last _ _ _ Hr) as Hl. rewrite (proj2 rebooted_log) in Hl. injection Hl as Hl.
  destruct (lookup_lt_is_Some_2 rs 6) as [r Hr6]; [lia|].
  pose proof (retains_read _ _ _ 6 Hr) as Hread. rewrite decide_True, Hr6 in Hread by lia.
  change (Z.of_nat 6 + 1) with 7 in Hread. rewrite rebooted_read in Hread. apply (inj inl) in Hread. subst r.
  apply (Forall2_drop _ _ _ 6) in Ht. rewrite (drop_S _ _ _ Hr6), (drop_ge rs 7) in Ht by lia.
  apply Forall2_cons_inv_r in Ht as (evs & rest & Hevs & Hn & ->). apply Forall2_nil_inv_r in Hn as ->.
  cbn [concat]. rewrite app_nil_r. by apply tells_wire.
Qed.

Lemma system_projects_backlog_witness :
  exists (rs : list wire) q', dp_drain rebooted_projector = (q', None) /\ dp_cursor q' = Z.of_nat (length rs) /\
    mirrors (state (core (sy_engine system_rebooted))) (st_db (dp_store q')).
Proof.
  destruct (system_projects_backlog system0 trade_payloads system_rebooted demo_no_lost_answer mem_stable demo_new_system demo_system_run)
    as (ps & rs & evss & k & _ & _ & Ht & Hr & Hk & Hdrain).
  rewrite rebooted_projected in Hk, Hdrain.
  change (Z.to_nat 6) with 6%nat in Hdrain.
  rewrite (rebooted_pending rs evss k Ht Hr Hk) in Hdrain.
  destruct Hdrain as (q' & Hd & Hc & Hm).
  - intros m _. reflexivity.
  - apply rows_check_ok, rebooted_rows.
  - exists rs, q'. split; [exact Hd|]. split; [exact Hc|exact Hm].
Defined.

Lemma trades_numbered_without_gaps_witness :
  exists (rs : list wire) evss, Forall2 tells_of evss rs /\
    tr_Id <$> trades_of (concat evss) = seqZ 1 (lastTradeID (core (sy_engine system_rebooted))) /\
    dom (trades (st_db (sy_store system_rebooted))) = list_to_set (tr_Id <$> trades_of (concat (take 6 evss))).
Proof.
  destruct (trades_numbered_without_gaps system0 trade_payloads system_rebooted demo_no_lost_answer mem_stable demo_new_system demo_system_run)
    as (ps & rs & evss & k & _ & _ & Ht & _ & Hids & Hd).
  rewrite rebooted_projected in Hd. change (Z.to_nat 6) with 6%nat in Hd.
  exists rs, evss. split; [exact Ht|]. split; [exact Hids|exact Hd].
Defined.
