(* ===== verification/IntakeTheorems.v ===== *)
(** * Theorems about the requests on their way through the system *)

From S2P Require Import Prelude Domain Slices OrderBook BookSpec Ledger Snapshot BookSim Events Matching Validation Orders Transfer Admin LedgerSim MatchLoop.
From S2P Require Import Footprint Dedup Wal Metrics Engine Columns Database Storage SnapshotStore Connections Messaging Publisher Projector Frames Recovery Determinism Replays Consistency SnapshotReplay.
From S2P Require Import Windows Consuming Retention Restarts Reporting Feed Mirror Tracking Writing System Intake ExactlyOnce.
From S2P Require Import Example EngineExample ConsumerExample RestartExample SystemExample IntakeExample.

Section intake_theorems.
Context `{!Clock} {bytes log chan conf queue : Type} `{!Codec bytes, !CodecLaws bytes, !Proto bytes, !ProtoLaws bytes}.
Context `{!EventCodec bytes, !EventCodecLaws bytes, !Twal bytes log, !TwalLaws bytes log, !Server, !ServerLaws}.
Context `{!Amqp bytes chan conf, !AmqpSpec bytes chan conf, !AmqpConsumer bytes queue, !AmqpConsumerSpec bytes queue}.
Abbreviation intake := (intake bytes log chan queue).
Implicit Types (w : intake) (ps rs bs : list bytes) (b p r : bytes).

(** C4: No request is lost, when no answer of the database is lost and a failed
    truncation leaves a log as it was. From a new installation, whatever else
    happens to the deliveries, their answers, the process, the consumers and the
    database: every message that was put into the queue is there
    still, is being delivered, or was answered; and a message that was answered
    is one that the engine refuses as unreadable, or a request of its kind with
    its id is in the history of the ledger at some position, with its output
    record. The records before the publisher's position are in the event queue, in
    order, those before the projector's position are what the database mirrors,
    and a record that is not before a position is still in the output log. *)
Theorem no_request_lost w0 bs w :
  no_lost_answer -> (forall v : log, stable v) -> new_intake w0 -> intake_run w0 bs w ->
  let y := it_system w in
  exists ps rs, bs ≡ₚ held (it_queue w) ++ gone (it_queue w) /\ Forall (fun b => b ∈ bs) ps /\
    in_step (sy_engine y) ps (stored (st_db (sy_store y))) /\
    published (ep_eventQueue (sy_publisher y)) rs (ep_mq (sy_publisher y)) (ep_cursor (sy_publisher y)) /\
    (exists at_c, feed (take (Z.to_nat (dp_cursor (sy_projector y))) rs) at_c /\ mirrors at_c (st_db (sy_store y))) /\
    forall b, b ∈ gone (it_queue w) -> refused (log := log) b \/
      exists i p r, ps !! i = Some p /\ request p = request b /\ rs !! i = Some r /\ answers p r /\
        (Z.of_nat i < ep_cursor (sy_publisher y) \/ Read (output (sy_engine y)) (Z.of_nat i + 1) = inl r) /\
        (Z.of_nat i < dp_cursor (sy_projector y) \/ Read (output (sy_engine y)) (Z.of_nat i + 1) = inl r).
Proof.
  intros Hnl Hst Hn Hr y.
  destruct (intake_run_ok _ _ _ _ _ _ _ Hnl Hst Hr (new_intake_ok _ Hn)) as (ps & rs & evss & Hok). cbn [app] in Hok.
  exists ps, rs. pose proof (ik_system _ _ _ _ _ Hok) as Hsys. destruct (system_mirrors _ _ _ _ Hsys) as (at_c & Hf & Hm & _).
  split_and!; [apply Hok|apply Hok|apply Hsys|apply Hsys|by exists at_c|].
  intros b Hb. pose proof (proj1 (Forall_forall _ _) (ik_gone _ _ _ _ _ Hok) b Hb) as [?|(r & Hrq & Hin)]; [by left|right].
  destruct (logged_record _ _ _ _ _ Hsys Hin) as (i & p & rec & Hp & Hpr & Hrec & Ha & Hpub & Hprj).
  exists i, p, rec. split_and!; [done|congruence|done..].
Qed.

(** C5: Every request is processed exactly once, in the order of arrival. A broker
    that is the queue's only source, delivers in order, delivers again only what
    was outstanding, and keeps to the prefetch count that the connection asks for,
    and requesters that give every request of a kind its own id other than zero:
    then, whatever happens to deliveries, answers and the process, the history of
    the ledger is the list of the valid messages among the first [n], each once,
    in their order; what the broker removed for good are messages among those;
    and when the queue is empty and nothing is being handed over, [n] is all. *)
Theorem requests_processed_exactly_once `{!AmqpOrderedSpec bytes queue} w0 bs w :
  no_lost_answer -> (forall v : log, stable v) -> new_intake w0 -> delivered (it_queue w0) = [] ->
  Z.of_nat prefetch <= rabbitMQPrefetchCount -> unique bs -> Forall numbered bs -> intake_run w0 bs w ->
  let y := it_system w in
  exists n, (n <= length bs)%nat /\
    in_step (sy_engine y) (filter (fun b => valid b = true) (take n bs)) (stored (st_db (sy_store y))) /\
    removed (it_queue w) `prefix_of` take n bs /\
    (queued (it_queue w) = [] -> it_forwarder w = Receiving -> n = length bs).
Proof.
  intros Hnl Hst Hn Hd Hpre Hu Hnum Hr y.
  assert (Hw : Z.of_nat prefetch <= dedupWindow) by (etransitivity; [exact Hpre|done]).
  destruct (exact_run Hw [] [] [] [] 0%nat 0%nat 0%nat w0 bs w Hnl Hst Hu Hnum Hr (new_intake_ok _ Hn) (new_intake_exact _ Hn Hd))
    as (ps & rs & evss & n & h & a & Hok & Hex). cbn [app] in Hok, Hex. exists n.
  split_and!; [apply Hex|rewrite <- (ex_logged _ _ _ _ _ _ Hex); apply Hok|by eapply exact_removed|by eapply exact_drained].
Qed.

(** C10: A request is processed at most once within the window. When requests
    carry ids other than zero and no answer of the database is lost, two requests of the same kind with the same id
    are logged, and so have an effect, only with more than [dedupWindow] others
    between them, however often they are delivered and across restarts. *)
Theorem request_processed_once w0 bs w :
  no_lost_answer -> (forall v : log, stable v) -> new_intake w0 -> intake_run w0 bs w -> Forall numbered bs ->
  exists ps, in_step (sy_engine (it_system w)) ps (stored (st_db (sy_store (it_system w)))) /\
    forall i j p q (kind_id : string * Z), ps !! i = Some p -> ps !! j = Some q -> (i < j)%nat -> request p = Some kind_id -> request q = Some kind_id ->
      dedupWindow < Z.of_nat j - Z.of_nat i.
Proof.
  intros Hnl Hst Hn Hr Hnum.
  destruct (intake_run_ok _ _ _ _ _ _ _ Hnl Hst Hr (new_intake_ok _ Hn)) as (ps & rs & evss & Hok). cbn [app] in Hok.
  exists ps. split; [apply Hok|]. exact (proj1 (ik_once _ _ _ _ _ Hok Hnum)).
Qed.
End intake_theorems.

(** ** Witnesses *)

Lemma no_request_lost_witness :
  exists (ps rs : list wire), in_step (sy_engine (it_system intake_again)) ps (stored (st_db (sy_store (it_system intake_again)))) /\
    exists i p r, ps !! i = Some p /\ request p = request last_payload /\ rs !! i = Some r /\ answers p r.
Proof.
  destruct (no_request_lost intake0 demo_messages intake_again demo_no_lost_answer mem_stable demo_new_intake demo_intake_run)
    as (ps & rs & _ & _ & Hs & _ & _ & Hall).
  exists ps, rs. split; [exact Hs|]. destruct (Hall last_payload) as [Hr|(i & p & r & Hp & Hq & Hr & Ha & _)].
  - rewrite (proj1 again_state). apply list_elem_of_lookup. exists 7%nat. reflexivity.
  - exfalso. specialize (Hr engine_resting). vm_compute in Hr. discriminate Hr.
  - exists i, p, r. split; [exact Hp|]. split; [exact Hq|]. split; [exact Hr|exact Ha].
Defined.

Lemma request_processed_once_witness :
  exists ps : list wire, in_step (sy_engine (it_system intake_again)) ps (stored (st_db (sy_store (it_system intake_again)))) /\
    forall i j p q (kind_id : string * Z), ps !! i = Some p -> ps !! j = Some q -> (i < j)%nat -> request p = Some kind_id -> request q = Some kind_id ->
      dedupWindow < Z.of_nat j - Z.of_nat i.
Proof.
  exact (request_processed_once intake0 demo_messages intake_again demo_no_lost_answer mem_stable demo_new_intake demo_intake_run demo_numbered).
Defined.

Lemma requests_processed_exactly_once_witness :
  in_step (sy_engine (it_system intake_again)) (filter (fun b => valid b = true) demo_messages)
    (stored (st_db (sy_store (it_system intake_again)))).
Proof.
  destruct (requests_processed_exactly_once intake0 demo_messages intake_again demo_no_lost_answer mem_stable demo_new_intake
    demo_nothing_delivered mem_keeps_prefetch demo_unique demo_numbered demo_intake_run) as (n & _ & Hs & _ & Hall).
  rewrite (Hall (proj1 again_idle) (proj1 (proj2 again_idle))) in Hs. rewrite firstn_all in Hs. exact Hs.
Defined.
