(* ===== verification/ProcessTheorems.v ===== *)
(** * Theorems about the process: its start, its goroutines and its shutdown *)

From S2P Require Import Prelude Connections Process.

(** C36: The shutdown closes nothing that is in use. Whatever the goroutines do,
    until the engine panics the logs, the broker's connection and the database
    are open whenever a consumer loads its position or drains. *)
Theorem shutdown_order (s : process) (k : worker) :
  rtc process_step process_start s -> pr_panicked s = false -> busy k s ->
  pr_logs s = true /\ pr_mq s = true /\ pr_db s = true.
Proof. intros Hr. apply closed_unused. by apply process_reachable_ok. Qed.

(** C35: The process can always end, and without new signals it does: from every
    state that it can reach, every sequence of steps other than interrupts,
    wake-ups of consumers and rounds of the saver is finite, and when such a
    sequence can go no further the process has exited with everything closed. *)
Theorem shutdown_ends (s : process) :
  rtc process_step process_start s ->
  sn winding_step s /\
  forall s', rtc winding_step s s' -> (exists s'', winding_step s' s'') \/
    (pr_main s' = MExited /\ pr_logs s' = false /\ pr_mq s' = false /\ pr_db s' = false).
Proof.
  intros Hr%process_reachable_ok. split; [by apply winding_ends|]. intros s' Hw.
  pose proof (winding_run_ok _ _ Hw Hr) as Hok.
  destruct (decide (pr_main s' = MExited)) as [Hm|Hm]; [right|left; by apply winding_next].
  destruct Hok as [_ _ P3]. rewrite Hm in P3. cbn in P3. by destruct (pr_logs s'), (pr_mq s'), (pr_db s').
Qed.

(** C37: A consumer that fails to load its position is gone for good. In whatever
    state of the process the first read of a consumer fails, this changes nothing
    but that consumer: [main] goes on where it was, nothing is cancelled and nothing
    is closed. From then on, whatever happens, this consumer never runs again, while
    a consumer that is at work stays at work until the context is cancelled and can
    always come to its next drain. *)
Theorem failed_consumer_stays_down (k k' : worker) (s s1 : process) :
  rtc process_step process_start s ->
  worker_of k s = WStarting -> worker_step k s s1 -> worker_of k s1 = WReturned ->
  s1 = set_worker k WReturned s /\
  forall s2, rtc process_step s1 s2 ->
    worker_of k s2 = WReturned /\
    (k' <> k -> working k' s -> pr_cancelled s2 = false ->
       working k' s2 /\
       (pr_main s2 <> MExited -> exists s3, rtc process_step s2 s3 /\ worker_of k' s3 = WDraining /\
          pr_main s3 = pr_main s2 /\ pr_cancelled s3 = false)).
Proof.
  intros Hr%process_reachable_ok Hs Hst Hret. pose proof (load_failed _ _ _ Hs Hst Hret) as Heq. split; [done|].
  assert (Hok : process_ok s1) by (eapply worker_step_ok; [by left|done]).
  intros s2 Hs2. split; [by eapply returned_forever|]. intros Hne Hw Hc.
  assert (Hw1 : working k' s1) by (rewrite Heq; by destruct k, k').
  pose proof (working_on _ _ _ Hs2 Hok Hc Hw1) as Hw2. split; [done|]. intros Hm.
  destruct (working_drains _ _ Hm Hw2) as (s3 & Hs3 & Hd & Hm3 & Hc3). exists s3. split_and!; [done..|]. by rewrite Hc3.
Qed.

(** After a panic nothing waits for the consumers: the deferred calls close the
    logs, the connection and the database while both of them are in a drain. *)
Theorem panic_closes_under_consumers :
  exists s, rtc process_step process_start s /\ pr_panicked s = true /\ (forall k, worker_of k s = WDraining) /\
    pr_logs s = false /\ pr_mq s = false /\ pr_db s = false.
Proof.
  destruct serving_state as (s & Hr & Hs). destruct s as [m h f a b v c p l q d]. injection Hs as -> -> -> -> -> -> -> -> -> -> ->.
  eexists. split.
  - eapply rtc_trans; [exact Hr|].
    eapply rtc_l; [apply ps_winding, wd_main, m_panics; by right|].
    eapply rtc_l; [apply ps_winding, wd_main, m_closes_logs; done|].
    eapply rtc_l; [apply ps_winding, wd_main, m_closes_mq; done|].
    eapply rtc_l; [apply ps_winding, wd_main, m_closes_db; done|]. apply rtc_refl.
  - split_and!; try done. by intros [].
Qed.

(** A process that starts and stops leaves no connection open, and one whose
    start fails leaves open what it opened before the call that failed. *)
Theorem start_opens_stop_closes `{!Remote} (LookupEnv : string -> option string) (created : bool) (w w' : net) r :
  start LookupEnv created w = (w', r) ->
  match r with
  | inl mq => net_open (stop mq w') = net_open w
  | inr (ErrConfig _) | inr (ErrMySQL _) => net_open w' = net_open w
  | inr (ErrRabbitMQ _) => net_open w' = RPool :: net_open w
  | inr ErrCreateEngine => net_open w' = [RPublishCh; RConsumeCh; RConn; RPool] ++ net_open w
  end.
Proof.
  intros Hs. pose proof (start_cases _ _ _ _ _ Hs) as Hc. destruct r as [mq|[| | |]]; [by eapply start_stop|done..].
Qed.

(** ** Witnesses *)

Lemma shutdown_order_witness :
  exists s, rtc process_step process_start s /\ busy EventPub s /\ pr_logs s = true /\ pr_mq s = true /\ pr_db s = true.
Proof.
  destruct serving_state as (s & Hr & Hs). exists s. split; [exact Hr|].
  assert (Hb : busy EventPub s) by (right; rewrite Hs; reflexivity). split; [exact Hb|].
  apply (shutdown_order s EventPub Hr); [rewrite Hs; reflexivity|exact Hb].
Defined.

Lemma shutdown_ends_witness :
  exists s, rtc process_step process_start s /\ pr_main s = MServing /\ sn winding_step s.
Proof.
  destruct serving_state as (s & Hr & Hs). exists s. split; [exact Hr|]. split; [rewrite Hs; reflexivity|].
  exact (proj1 (shutdown_ends s Hr)).
Defined.

(** The projector's first read fails while the publisher is in a drain; then the
    publisher's drain ends, and it comes to the next one. *)
Definition projector_failed : process := set_worker Projector WReturned (starting_state Projector).

Lemma failed_consumer_stays_down_witness :
  worker_of Projector (set_worker EventPub WSelecting projector_failed) = WReturned /\
  exists s3, rtc process_step (set_worker EventPub WSelecting projector_failed) s3 /\
    worker_of EventPub s3 = WDraining /\ pr_main s3 = MServing.
Proof.
  destruct (failed_consumer_stays_down Projector EventPub (starting_state Projector) projector_failed (starting_reachable Projector))
    as [_ H].
  - reflexivity.
  - apply w_load_fails. reflexivity.
  - reflexivity.
  - destruct (H (set_worker EventPub WSelecting projector_failed)) as [H1 H2].
    + apply rtc_once, ps_winding, (wd_worker EventPub); [discriminate|]. apply w_drained. reflexivity.
    + split; [exact H1|]. destruct H2 as [_ H3]; [discriminate|left; reflexivity|reflexivity|].
      destruct H3 as (s3 & Hr & Hd & Hm & _); [discriminate|]. exists s3. split; [exact Hr|]. split; [exact Hd|exact Hm].
Defined.

(** A server that accepts everything but the connection to the broker. *)
Lemma start_opens_stop_closes_witness :
  let remote := {| call_ok n := Nat.ltb n 2 |} in
  net_open (fst (@start remote (fun _ => None) true (mkNet [] 0))) = [RPool].
Proof.
  intros remote. destruct (@start remote (fun _ => None) true (mkNet [] 0)) as [w' r] eqn:Hs.
  pose proof (@start_opens_stop_closes remote (fun _ => None) true (mkNet [] 0) w' r Hs) as Ho.
  vm_compute in Hs. injection Hs as <- <-. exact Ho.
Defined.
