(* ===== verification/StorageTheorems.v ===== *)
(** * Theorems about the generated database code *)

From S2P Require Import Prelude Domain Columns Database Queries.

Section storage_theorems.
Context {arg : Type} (accepts : DBTX -> string -> bool) (closes : Stmt -> bool).
Implicit Types (q : Queries) (k : Query) (args : list arg).

(** C39: A batch stays in its transaction. However the generated code's value was
    obtained (with or without prepared statements, from another transaction), each
    query of [WithTx] is sent to that transaction, with the text of the query and
    the arguments given; and outside a transaction it is sent to the database that
    the value was made for. *)
Theorem queries_stay_in_transaction q tx k args :
  made accepts q ->
  (exists m, Querier_call (WithTx q tx) k args = mkCall (OnTx tx) m (sql_text k) args /\
     call_method (Querier_call q k args) = m /\ call_query (Querier_call q k args) = sql_text k) /\
  (qs_tx q = None -> call_on (Querier_call q k args) = qs_db q).
Proof.
  intros Hm. pose proof (made_ok _ _ Hm) as Hq. pose proof (made_ok _ _ (made_in_tx _ _ tx Hm)) as Ht.
  assert (Hc : exists m, forall q', Querier_call q' k args = run_query m q' (qs_stmt q' k) (sql_text k) args) by (destruct k; by eexists).
  destruct Hc as [m Hc]. rewrite !Hc, !run_query_scope by done. split.
  - exists m. split_and!; [|done..]. cbn. by destruct (qs_stmt q k).
  - intros Hn. cbn. by rewrite Hn.
Qed.

(** Preparing ends with a statement for every query, or at the first query that the
    server refuses; closing then reaches every statement, and reports an error
    exactly when one of them failed to close. *)
Theorem prepared_statements db :
  match Prepare accepts db with
  | inl q => (forall k, exists st, qs_stmt q k = Some st /\ st ∈ fst (Close_queries closes q)) /\
      (snd (Close_queries closes q) = None <-> Forall (fun st => closes st = true) (fst (Close_queries closes q)))
  | inr k => accepts db (sql_text k) = false /\
      exists ks1 ks2, all_queries = ks1 ++ k :: ks2 /\ Forall (fun k' => accepts db (sql_text k') = true) ks1
  end.
Proof.
  unfold Prepare. destruct (prepare_all accepts all_queries (New db)) as [q|k] eqn:Hp.
  - destruct (prepare_all_ok _ _ _ _ Hp) as (_ & _ & _ & Hall); [by intros k st|].
    unfold Close_queries. destruct (close_all_ok closes all_queries q [] None) as [-> ->]. cbn [app]. split; [|tauto].
    intros k. destruct (proj2 (Hall k) (or_introl (all_queries_complete k))) as [st Hst]. exists st. split; [done|].
    apply list_elem_of_omap. exists k. split; [apply all_queries_complete|done].
  - destruct (prepare_all_error _ _ _ _ Hp) as (ks1 & ks2 & Hks & Hk & H1). split; [done|]. by exists ks1, ks2.
Qed.
End storage_theorems.

(** ** Witnesses *)

Definition demo_queries : Queries :=
  match Prepare (fun _ _ => true) OnDB with inl q => q | inr _ => New OnDB end.

(** A trade saved by a batch with prepared statements. *)
Lemma queries_stay_in_transaction_witness :
  exists m, Querier_call (WithTx demo_queries 7) SaveTrade [1; 2] = mkCall (OnTx 7) m saveTrade [1; 2].
Proof.
  destruct (queries_stay_in_transaction (fun _ _ => true) demo_queries 7 SaveTrade [1; 2]) as [(m & Hm & _) _].
  - apply (made_prepared _ OnDB). reflexivity.
  - exists m. exact Hm.
Defined.
